(* ===== verification/_CoqProject ===== *)
-Q . S2P
Prelude.v
GoLib.v
Json.v
Errors.v
Types.v
DeepCopy.v
Effects.v
Labels.v
Client.v
LabelSync.v
NodeLabels.v
VolumeLabels.v
ControlPlane.v
VolumeStore.v
NodeStore.v
Toolkit.v
Provisioner.v
DeleteControllers.v
LabelControllers.v
StatelessAction.v
Fencer.v
Cache.v
Endpoint.v
SharedVolume.v
SharedVolumeController.v
Aes.v
Sha256.v
Crypto.v
Keys.v
Mutators.v
Auth.v
Threads.v
Workqueue.v
Workers.v
Heap.v
RateLimit.v
DelayingQueue.v
DelayingLoop.v
FencerLoop.v
Predicates.v
SyncLoop.v
Url.v
Metrics.v
Setup.v
Main.v
MockClient.v
