(* ===== verification/Prelude.v ===== *)
(** * Verification of the StorageOS API Manager: root of the development

    The api-manager keeps a Kubernetes cluster and the StorageOS control plane
    in step.  It runs controllers that delete StorageOS nodes and namespaces
    whose Kubernetes objects are gone, copy labels of nodes and claims to
    StorageOS, publish shared volumes as services, fence the pods of failed
    nodes, and webhooks that give pods a scheduler and claims their encryption
    keys and storage class.  All of them share one client of the control plane
    and the Kubernetes client.

    ** How the program is modelled

    A handler is a value of type [Effects.prog A]: a tree of calls to the
    environment that ends in a result or in a Go panic.  The calls are those of
    the [ControlPlane] interface of [client.go], of the Kubernetes client, of
    the metrics registry, of files, the random source, the clock and the
    channel that asks for a new login.  The environment is not defined: a
    theorem holds of every answer it may give ([every_run], [changes]), or of
    every cluster given by its data ([runs], and [has] where a run may panic),
    or of every environment with state that satisfies the laws of a class
    ([runs_to] with [SecretStore], [ServiceStore], [VolumeStore], [NodeStore]
    and [NodeRegistry]).  Code that reads again before each change is described
    part by part, each by what that part has just read ([LabelSync.part]), so
    that what a run changes may show in its later reads.
    [mutations] are the calls of a run that change the control plane or the
    cluster.  Errors are values ([Errors.error]): a sentinel is a constructor,
    what [errors.Wrap] builds is another value, so comparisons by identity are
    modelled.  A Go map is nil or a finite map; the order in which a loop
    visits it is a parameter ([GoRange]), so theorems hold of every order.
    Integers are [Z] with the bounds of their width written out.  Log lines and
    tracing spans are left out.

    ** The files, and what they model

    - [Prelude]: Go maps and their iteration, automation, shared lemmas.
    - [GoLib]: [strings], [strconv], [net.SplitHostPort].
    - [Json]: [json.Unmarshal] into a string map.
    - [Errors]: error values, go-multierror, [MapAPIError], [ListErrors].
    - [Types]: objects of both APIs and the Node resource of [api/v1].
    - [DeepCopy]: [api/v1/zz_generated.deepcopy.go] and the copies of metadata it
      calls, on a heap.
    - [Effects]: programs, environments, the three kinds of specification,
      the runs of a program as sequences of calls ([ran]), the tactics
      [run_steps] and [changes_steps], and [uuid.New].
    - [Labels]: [labels.go] and [internal/pkg/labels].
    - [Client]: [namespace.go], [node.go], [volume.go] of
      [internal/pkg/storageos].
    - [LabelSync], [NodeLabels], [VolumeLabels]: [node_labels.go],
      [volume_labels.go] and what they share.
    - [ControlPlane], [VolumeStore], [NodeStore]: the control plane as a store
      whose objects have versions, the laws its API documents for volumes and
      for nodes, and the label synchronisation proved against them.
    - [Toolkit]: the vendored reconcilers: [Reconcile], [collectGarbage],
      [resync].  A controller is a record of operations, and garbage collection
      is proved from the specification of its operations.
    - [Provisioner]: [internal/pkg/provisioner].
    - [DeleteControllers]: [controllers/node-delete],
      [controllers/namespace-delete], and the control plane as a registry from
      which nodes are deleted.
    - [LabelControllers]: [controllers/node-label], [controllers/pvc-label].
    - [StatelessAction]: the vendored reconciler of actions; its two interfaces
      are type classes.
    - [Fencer]: [controllers/fencer], with the instances of those classes.
    - [Cache]: [internal/pkg/cache] and the vendored go-cache.
    - [Endpoint]: [internal/pkg/endpoint].
    - [SharedVolume]: [shared_volume.go], [shared_volume_types.go].
    - [SharedVolumeController]: [internal/controllers/sharedvolume].
    - [Aes], [Sha256], [Crypto]: [internal/pkg/crypto], with executable AES,
      SHA-256, HMAC and HKDF, checked on published test vectors.  The mode of
      operation is proved against the class [BlockCipher].
    - [Keys]: [controllers/pvc-mutator/encryption/keys].
    - [Mutators]: [controllers/pod-mutator], [controllers/pvc-mutator].
    - [Auth]: the login and the refresh loop of [client.go],
      [internal/pkg/secret].
    - [Threads]: the goroutines of [main.go] around the channel that asks for a
      login, as a step relation over interleaved programs.
    - [Workqueue]: the queue of client-go that hands keys to workers.
    - [Workers]: the workers of a controller, each making one call at a time, for
      any reconciler: who holds a key, and how a key that has to be reconciled
      is tracked.
    - [RateLimit]: the default rate limiter of client-go.
    - [Heap], [DelayingQueue], [DelayingLoop]: the queue of client-go that holds
      failed keys back: Go's binary heap, the entries that wait, and the waiting
      loop with its clients and the clock as a step relation.
    - [FencerLoop]: the fencer at work: event handler, cache, queue and workers
      together, as a step relation.
    - [Predicates]: [internal/pkg/predicate], the predicates of the controllers
      that embed it, and the way of an event into the queue.
    - [SyncLoop]: the other four controllers at work: informer, predicate, queue
      and workers together, as a step relation.
    - [Url]: [net/url] as far as it is used, and the constructors of
      [client.go].
    - [Metrics]: [internal/pkg/storageos/metrics] and the metrics of
      [internal/controllers/sharedvolume], and what each method of the client
      reports to them.
    - [Setup]: [NewReconciler] and [SetupWithManager] of the six reconcilers, in a
      module each, on [Init] of the toolkit; when its background functions run.
    - [Main]: [main.go] with its flags, and [internal/pkg/cluster].
    - [MockClient]: [mock_client.go], the test double of the client.

    ** What the theorems show

    - Labels (C1 to C4, C34, C36): the exact calls of each part of a
      synchronisation, from what that part has read, and when it reports
      success, for any answers; in a control plane that keeps versions, what a
      run leaves of the other objects and labels, and when it brings a volume
      or a node to the wanted labels; and two defects: a node with
      a reserved label never gets its labels, and a replicas label that is too
      large is still requested.
    - Deletion (C5 to C7, C37): under every interleaving no deletion of a node is
      lost; garbage collection deletes exactly the stale nodes of a control
      plane from which they disappear one by one, and only those whatever is
      answered; when a deletion panics.
    - Fencing (C8 to C11, C17, C38): only fenced pods and StorageOS attachments
      are deleted, exactly those whose volumes are healthy; under every
      interleaving of the loop no change of a node is lost and no two workers
      handle one node; one claim that cannot be read blocks a node, and one
      attachment that names no volume makes fencing panic.
    - The queue that holds keys back (C12, C13, C35): no key is added early and
      none is lost; the queue refines the set of held-back keys that the workers
      are modelled with; how long the default rate limiter makes a key wait.
    - Encryption and webhooks (C14, C15, C26, C27): decryption inverts
      encryption; the claim webhook only creates secrets from which the volume
      key is recovered with the namespace key, in the namespace of the request,
      and panics only when no identifier can be made; what the key manager does
      in a store of secrets, which is to establish them unless the volume secret
      is there already or the namespace secret holds no key; which pods get the
      scheduler.
    - Authentication and goroutines (C16, C18): a goroutine that asks for a
      login is not blocked for ever; the token in use is the last one obtained.
    - Start of the process (C19, C28, C33): the order of what is set up, the
      exits, when collections and resyncs run; and that request metrics are lost
      when the first login fails.
    - Shared volumes (C20, C21, C39): one pass over a volume whose objects can
      be repaired converges and a second changes nothing; over any number of
      rounds, only volumes that were verified within the expiry interval are
      skipped; which services are never repaired.
    - Label controllers (C22 to C25, C32, C40): the synchronisation of a claim,
      the resync of nodes, that under every interleaving no label change is
      lost, the storage class check, which nodes are taken for StorageOS nodes;
      and that the resync of claims finds nothing.
    - Node resource and test double (C29 to C31): deep copies share nothing with
      the original; the data of the test double, and the labels it accepts
      compared with the client.

    Further theorems without a number show, among others, what each method of
    the client reports to the metrics, the server an endpoint stands for, that
    an action is retried while a node is offline, and that the class annotation
    is the one the label controller checks.

    ** Bounds and fuel

    The JSON decoder takes the length of its input as fuel and is proved never
    to exhaust it ([Unmarshal_terminates]).  Decimal formatting takes one more
    than the binary logarithm ([log2_fuel]); filling a buffer from HKDF takes
    its length ([length_hkdf_fill]); trimming takes the length of the string
    ([trim_left_done]).  Loops that end by a timer are given the number of
    their rounds: [action_loop] the retry periods before the deadline, [WaitFor]
    the ticks that its poller delivers, chosen by the environment
    ([PollTicks]; a wait without a timeout that has used them up is still
    waiting), [Start] the rounds, [Refresh] the wake-ups
    before the context is cancelled, [connect] the attempts so far; the theorems
    hold for all of them.  The loops of the heap take the position they start
    from, or the number of elements, which [up_ordered] and [down_ordered] show
    to be enough; the loop over the ready entries takes the size of the heap
    ([ready_entries_ok]).  The step relations of [Threads], [FencerLoop],
    [SyncLoop] and [DelayingLoop] have no bound.

    ** What is not modelled

    The parsing of the command line, the logger, tracing and what the libraries
    do when [main] sets them up; the generated HTTP client below the
    [ControlPlane] interface; histogram buckets; the token bucket of the rate
    limiter, whose delays are a parameter; the registration of types with a
    scheme; generated mocks, which only tests use.  The JSON encoding of admission
    requests and responses is a parameter of [Mutators.Handle].  The
    controllers are verified each in its own loop: two of them that change the
    same object of the control plane at the same time are not put together, and
    neither are the shared volume loop and the goroutine that answers its
    requests for a login. *)

From stdpp Require Export base gmap strings list fin_maps fin_map_dom sets numbers option.

(** ** Automation of the development *)

Create Rewrite HintDb golib.

(** [unpair] takes apart pairs, conjunctions and existentials of the context. *)
Ltac unpair :=
  repeat match goal with
  | p : (_ * _)%type |- _ => destruct p
  | H : _ /\ _ |- _ => destruct H
  | H : exists x, _ |- _ => let x' := fresh x in destruct H as [x' H]
  end.

(** [cases] splits on the innermost scrutinee of the goal, remembering the
    equation, and simplifies. *)
Ltac cases :=
  match goal with
  | |- context [match ?x with _ => _ end] =>
      lazymatch x with
      | context [match _ with _ => _ end] => fail
      | _ => destruct x eqn:?; simplify_eq/=
      end
  end.

(** ** Go maps

    A Go [map[string]string] is nil or a finite map; reading from nil is
    reading from an empty map, writing to nil panics.  [None] is nil. *)

Abbreviation labels := (gmap string string).
Abbreviation gomap := (option (gmap string string)).

Definition gm_lookup (m : gomap) (k : string) : option string :=
  match m with Some m' => m' !! k | None => None end.

(** The one-valued form [m[k]]: the zero value when the key is absent. *)
Definition gm_get (m : gomap) (k : string) : string := default "" (gm_lookup m k).

Definition gm_len (m : gomap) : nat :=
  match m with Some m' => size m' | None => 0 end.

(** The contents of a Go map, nil read as empty. *)
Definition gm_map (m : gomap) : labels := default ∅ m.

Lemma gm_lookup_map (m : gomap) k : gm_lookup m k = gm_map m !! k.
Proof. destruct m; simpl; by rewrite ?lookup_empty. Qed.

(** [reflect.DeepEqual] on two maps: nil and empty are different. *)
Definition deep_equal (m1 m2 : gomap) : bool := bool_decide (m1 = m2).

(** The order in which [for k, v := range m] visits a map is not specified
    by Go.  A [GoRange] is one choice of order per map; every theorem of the
    development holds for every choice. *)
Class GoRange := {
  range : labels -> list (string * string);
  range_perm : forall m, range m ≡ₚ map_to_list m;
}.

(** A choice of order, for evaluation on concrete inputs. *)
Definition range_default : GoRange :=
  {| range := map_to_list; range_perm := fun m => reflexivity _ |}.

Definition gm_range `{GoRange} (m : gomap) : list (string * string) := range (gm_map m).

(** The loop [for k, v := range src { if P(k) { dst[k] = v } }]. *)
Definition copy_if (P : string -> bool) (src : list (string * string)) (dst : labels) : labels :=
  foldl (fun acc kv => if P kv.1 then <[kv.1 := kv.2]> acc else acc) dst src.

Section range_facts.
Context `{GoRange}.

Lemma range_NoDup m : NoDup (range m).*1.
Proof. rewrite range_perm. apply NoDup_fst_map_to_list. Qed.

Lemma elem_of_range m k v : (k, v) ∈ range m <-> m !! k = Some v.
Proof. rewrite range_perm. apply elem_of_map_to_list. Qed.

Lemma list_to_map_range m : list_to_map (range m) = m.
Proof.
  rewrite <- (list_to_map_to_list m) at 2.
  apply list_to_map_proper; [apply range_NoDup | apply range_perm].
Qed.
End range_facts.

Lemma lookup_copy_if P src dst k :
  NoDup src.*1 ->
  copy_if P src dst !! k =
    (if P k then match list_to_map (M:=labels) src !! k with
                 | Some v => Some v | None => dst !! k end
     else dst !! k).
Proof.
  revert dst. induction src as [|[k' v'] src IH]; intros dst Hnd; simpl.
  { rewrite lookup_empty. by destruct (P k). }
  inversion_clear Hnd as [|? ? Hnotin Hnd']. unfold copy_if in *. simpl.
  rewrite IH by done.
  destruct (decide (k = k')) as [->|Hne].
  - rewrite lookup_insert_eq. destruct (P k') eqn:E; [|done].
    rewrite not_elem_of_list_to_map_1 by done. by rewrite lookup_insert_eq.
  - rewrite lookup_insert_ne by done.
    destruct (P k) eqn:E; destruct (P k'); rewrite ?lookup_insert_ne by done; done.
Qed.

(** Lookup in a map filtered on its keys. *)
Lemma lookup_filter_key (P : string -> bool) (m : labels) k :
  filter (fun kv => P kv.1 = true) m !! k = if P k then m !! k else None.
Proof.
  destruct (P k) eqn:E; destruct (m !! k) as [v|] eqn:Em.
  - by apply map_lookup_filter_Some.
  - apply map_lookup_filter_None. by left.
  - apply map_lookup_filter_None. right. intros ? _. simpl. congruence.
  - apply map_lookup_filter_None. by left.
Qed.

(** The copy loop computes a filter and a union, whatever the order. *)
Lemma copy_if_range `{GoRange} P m dst :
  copy_if P (range m) dst = filter (fun kv => P kv.1 = true) m ∪ dst.
Proof.
  apply map_eq. intros k.
  rewrite lookup_copy_if by apply range_NoDup.
  rewrite list_to_map_range, lookup_union, lookup_filter_key.
  destruct (P k), (m !! k), (dst !! k); done.
Qed.

Lemma omap_nil_iff {A B} (f : A -> option B) (l : list A) :
  omap f l = [] <-> forall x, x ∈ l -> f x = None.
Proof.
  induction l as [|a l IH]; simpl; [split; [intros _ ? []%elem_of_nil | done]|].
  destruct (f a) eqn:E.
  - split; [done|]. intros Hx. rewrite Hx in E by left. done.
  - rewrite IH. split; [intros Hl x [->|?]%elem_of_cons; auto | intros Hl x ?; apply Hl; by right].
Qed.

(** A filter on a boolean test. *)
Lemma filter_bool_cons {A} (P : A -> bool) x (l : list A) :
  filter (fun x => P x = true) (x :: l) =
  if P x then x :: filter (fun x => P x = true) l else filter (fun x => P x = true) l.
Proof.
  rewrite filter_cons. destruct (P x) eqn:E; [by rewrite decide_True|]. rewrite decide_False; congruence.
Qed.
