(* ===== verification/GoLib.v ===== *)
(** * The parts of the Go standard library the program calls

    [strings], [strconv], [net.SplitHostPort] and [encoding/hex] as functions
    on strings (sequences of bytes), with the behaviour of Go 1.16, errors
    included.  Machine integers are [Z] with their bounds written out. *)

From Stdlib Require Export Ascii.
From Stdlib Require Import ZArith Lia.
From S2P Require Import Prelude.
Local Open Scope Z_scope.

(** ** strings *)

(** A string as the list of its bytes, and back. *)
Definition bytes_of (s : string) : list ascii := String.list_ascii_of_string s.
Definition of_bytes (l : list ascii) : string := String.string_of_list_ascii l.

Definition HasPrefix (s p : string) : bool := String.prefix p s.

Fixpoint Contains (s sub : string) : bool :=
  String.prefix sub s ||
  match s with
  | EmptyString => false
  | String _ s' => Contains s' sub
  end.

(** [strings.Split(s, sep)] for a one-byte separator: never the empty slice. *)
Fixpoint split_go (sep : ascii) (cur : list ascii) (l : list ascii) : list string :=
  match l with
  | [] => [of_bytes (rev cur)]
  | c :: l' =>
      if Ascii.eqb c sep then of_bytes (rev cur) :: split_go sep [] l'
      else split_go sep (c :: cur) l'
  end.

Definition Split (s : string) (sep : ascii) : list string := split_go sep [] (bytes_of s).

(** [strings.Join]. *)
Fixpoint Join (l : list string) (sep : string) : string :=
  match l with
  | [] => ""
  | [s] => s
  | s :: l' => s +:+ sep +:+ Join l' sep
  end.

(** ** strconv *)

(** The [Err] of a [*strconv.NumError]. *)
Inductive num_kind := ErrSyntax | ErrRange.

(** A [*strconv.NumError]: the failing function, the input, the kind. *)
Record num_error := NumError { ne_func : string; ne_num : string; ne_kind : num_kind }.

Definition ParseBool (s : string) : bool + num_error :=
  if bool_decide (s ∈ ["1"; "t"; "T"; "TRUE"; "true"; "True"]) then inl true
  else if bool_decide (s ∈ ["0"; "f"; "F"; "FALSE"; "false"; "False"]) then inl false
  else inr (NumError "ParseBool" s ErrSyntax).

Definition maxUint64 : Z := 2 ^ 64 - 1.
Definition maxInt64 : Z := 2 ^ 63 - 1.

(** The value of a decimal digit. *)
Definition digit_val (c : ascii) : option Z :=
  let n := Z.of_N (N_of_ascii c) in
  if (48 <=? n) && (n <=? 57) then Some (n - 48) else None.

(** The accumulation loop of [ParseUint(s, 10, 64)]: the value so far is [n];
    the result carries the value Go returns next to the error. *)
Fixpoint parse_uint_go (l : list ascii) (n : Z) : Z * option num_kind :=
  match l with
  | [] => (n, None)
  | c :: l' =>
      match digit_val c with
      | None => (0, Some ErrSyntax)
      | Some d =>
          if maxUint64 / 10 + 1 <=? n then (maxUint64, Some ErrRange)
          else if maxUint64 <? n * 10 + d then (maxUint64, Some ErrRange)
          else parse_uint_go l' (n * 10 + d)
      end
  end.

(** [strconv.ParseUint(s, 10, 64)]: the value is meaningful on range errors
    too, where it is the largest uint64. *)
Definition ParseUint (s : string) : Z * option num_error :=
  match bytes_of s with
  | [] => (0, Some (NumError "ParseUint" s ErrSyntax))
  | l => match parse_uint_go l 0 with
         | (n, None) => (n, None)
         | (n, Some k) => (n, Some (NumError "ParseUint" s k))
         end
  end.

(** The optional sign read by [ParseInt]: whether negative, and the rest. *)
Definition read_sign (l : list ascii) : bool * list ascii :=
  match l with
  | "+"%char :: l' => (false, l')
  | "-"%char :: l' => (true, l')
  | _ => (false, l)
  end.

(** [strconv.Atoi] on a 64-bit platform.  The fast path of the library for
    short inputs computes the same result. *)
Definition Atoi (s : string) : Z * option num_error :=
  match bytes_of s with
  | [] => (0, Some (NumError "Atoi" s ErrSyntax))
  | l =>
      let '(neg, l') := read_sign l in
      match l' with
      | [] => (0, Some (NumError "Atoi" s ErrSyntax))
      | _ =>
          match parse_uint_go l' 0 with
          | (_, Some ErrSyntax) => (0, Some (NumError "Atoi" s ErrSyntax))
          | (un, _) =>
              if negb neg && (maxInt64 <? un) then
                (maxInt64, Some (NumError "Atoi" s ErrRange))
              else if neg && (maxInt64 + 1 <? un) then
                (- (maxInt64 + 1), Some (NumError "Atoi" s ErrRange))
              else (if neg then - un else un, None)
          end
      end
  end.

(** Conversion of an int to an int32, with its wrap-around. *)
Definition int32 (n : Z) : Z := (n + 2 ^ 31) mod 2 ^ 32 - 2 ^ 31.

(** Decimal formatting, as [%d] does. *)
Definition digit_char (d : Z) : ascii := ascii_of_N (Z.to_N (48 + d)).

Fixpoint format_go (fuel : nat) (n : Z) (acc : list ascii) : list ascii :=
  match fuel with
  | O => acc
  | S fuel' =>
      let acc' := digit_char (n mod 10) :: acc in
      if n <? 10 then acc' else format_go fuel' (n / 10) acc'
  end.

(** The number of bits of [n] bounds its number of decimal digits. *)
Definition format_uint (n : Z) : list ascii := format_go (S (Z.to_nat (Z.log2 n))) n [].

Definition Itoa (n : Z) : string :=
  of_bytes (if n <? 0 then "-"%char :: format_uint (- n) else format_uint n).

(** ** net *)

(** A [*net.AddrError]. *)
Record addr_error := AddrError { ae_err : string; ae_addr : string }.

Fixpoint index_byte (l : list ascii) (b : ascii) : option nat :=
  match l with
  | [] => None
  | c :: l' => if Ascii.eqb c b then Some O else S <$> index_byte l' b
  end.

(** The position of the last occurrence of a byte. *)
Fixpoint last_byte (l : list ascii) (b : ascii) : option nat :=
  match l with
  | [] => None
  | c :: l' => match last_byte l' b with
               | Some i => Some (S i)
               | None => if Ascii.eqb c b then Some O else None
               end
  end.

Definition has_byte (l : list ascii) (b : ascii) : bool :=
  match index_byte l b with Some _ => true | None => false end.

(** The host of the address [l] whose last colon is at [i], with the two
    positions from which brackets are not allowed any more. *)
Definition split_host (l : list ascii) (i : nat) : (list ascii * nat * nat) + string :=
  match l with
  | "["%char :: _ =>
      match index_byte l "]"%char with
      | None => inr "missing ']' in address"
      | Some e =>
          if Nat.eqb (S e) (length l) then inr "missing port in address"
          else if Nat.eqb (S e) i then inl (take (e - 1) (drop 1 l), 1%nat, S e)
          else match l !! S e with
               | Some ":"%char => inr "too many colons in address"
               | _ => inr "missing port in address"
               end
      end
  | _ =>
      if has_byte (take i l) ":"%char then inr "too many colons in address"
      else inl (take i l, O, O)
  end.

Definition SplitHostPort (hostport : string) : (string * string) + addr_error :=
  let l := bytes_of hostport in
  let addrErr why := inr (AddrError why hostport) in
  match last_byte l ":"%char with
  | None => addrErr "missing port in address"
  | Some i =>
      match split_host l i with
      | inr why => addrErr why
      | inl (host, j, k) =>
          if has_byte (drop j l) "["%char then addrErr "unexpected '[' in address"
          else if has_byte (drop k l) "]"%char then addrErr "unexpected ']' in address"
          else inl (of_bytes host, of_bytes (drop (S i) l))
      end
  end.

(** ** Facts about formatting and parsing *)

Lemma bytes_of_of_bytes l : bytes_of (of_bytes l) = l.
Proof. apply String.list_ascii_of_string_of_list_ascii. Qed.

Lemma of_bytes_bytes_of s : of_bytes (bytes_of s) = s.
Proof. apply String.string_of_list_ascii_of_string. Qed.

Lemma bytes_of_app s1 s2 : bytes_of (s1 +:+ s2) = bytes_of s1 ++ bytes_of s2.
Proof. induction s1 as [|c s1 IH]; [done|]. unfold bytes_of in *; simpl. by rewrite <- IH. Qed.

#[export] Hint Rewrite bytes_of_of_bytes of_bytes_bytes_of bytes_of_app : golib.

Lemma digit_val_char d : 0 <= d < 10 -> digit_val (digit_char d) = Some d.
Proof.
  intros Hd. assert (Hc : d = 0 \/ d = 1 \/ d = 2 \/ d = 3 \/ d = 4 \/ d = 5 \/ d = 6 \/ d = 7 \/ d = 8 \/ d = 9) by lia.
  repeat (destruct Hc as [->|Hc]; [reflexivity|]). by subst.
Qed.

(** Parsing the digits of [n] in front of [acc] reaches [acc] with value [n]. *)
Lemma parse_format_go fuel n acc :
  0 <= n <= maxUint64 -> n < 10 ^ Z.of_nat fuel ->
  parse_uint_go (format_go fuel n acc) 0 = parse_uint_go acc n.
Proof.
  revert n acc. induction fuel as [|fuel IH]; intros n acc Hn Hlt.
  { simpl in Hlt. replace n with 0 by lia. done. }
  simpl format_go. pose proof (Z.mod_pos_bound n 10 ltac:(lia)) as Hm.
  pose proof (Z.div_mod n 10 ltac:(lia)) as Hdm.
  assert (Hstep : forall q, 0 <= q -> q * 10 + n mod 10 = n ->
            parse_uint_go (digit_char (n mod 10) :: acc) q = parse_uint_go acc n).
  { intros q Hq Heq. cbn [parse_uint_go]. rewrite digit_val_char by lia.
    rewrite Heq. replace (maxUint64 / 10 + 1 <=? q) with false.
    2:{ symmetry. apply Z.leb_gt. unfold maxUint64 in *. change ((2 ^ 64 - 1) / 10) with 1844674407370955161. lia. }
    replace (maxUint64 <? n) with false; [done|]. symmetry. apply Z.ltb_ge. lia. }
  destruct (Z.ltb_spec n 10) as [Hs|Hs].
  - apply Hstep; [lia|]. rewrite Z.mod_small by lia. lia.
  - rewrite IH.
    + apply Hstep; lia.
    + split; [apply Z.div_pos; lia|]. lia.
    + apply Z.div_lt_upper_bound; [lia|]. rewrite <- Z.pow_succ_r by lia.
      by rewrite <- Nat2Z.inj_succ.
Qed.

Lemma log2_fuel n : 0 <= n -> n < 10 ^ Z.of_nat (S (Z.to_nat (Z.log2 n))).
Proof.
  intros Hn. rewrite Nat2Z.inj_succ, Z2Nat.id by apply Z.log2_nonneg.
  destruct (Z.eq_dec n 0) as [->|Hnz]; [reflexivity|].
  destruct (Z.log2_spec n ltac:(lia)) as [_ Hup].
  eapply Z.lt_le_trans; [exact Hup|]. apply Z.pow_le_mono_l.
  pose proof (Z.log2_nonneg n). lia.
Qed.

Lemma parse_format_uint n :
  0 <= n <= maxUint64 -> parse_uint_go (format_uint n) 0 = (n, None).
Proof.
  intros Hn. unfold format_uint. rewrite parse_format_go; [done|done|].
  apply log2_fuel. lia.
Qed.

Lemma format_go_digits fuel n acc :
  0 <= n -> Forall (fun c => is_Some (digit_val c)) acc ->
  Forall (fun c => is_Some (digit_val c)) (format_go fuel n acc).
Proof.
  revert n acc. induction fuel as [|fuel IH]; intros n acc Hn Hacc; [done|].
  simpl. pose proof (Z.mod_pos_bound n 10 ltac:(lia)).
  assert (Forall (fun c => is_Some (digit_val c)) (digit_char (n mod 10) :: acc)).
  { constructor; [|done]. rewrite digit_val_char by lia. eauto. }
  destruct (n <? 10); [done|]. apply IH; [apply Z.div_pos; lia|done].
Qed.

Lemma format_uint_digits n :
  0 <= n -> Forall (fun c => is_Some (digit_val c)) (format_uint n).
Proof. intros. apply format_go_digits; [done|constructor]. Qed.

Lemma format_go_cons fuel n acc : exists c l, format_go (S fuel) n acc = c :: l.
Proof.
  revert n acc. induction fuel as [|fuel IH]; intros n acc; simpl.
  - destruct (n <? 10); eauto.
  - destruct (n <? 10); [eauto|]. apply IH.
Qed.

Lemma format_uint_cons n : exists c l, format_uint n = c :: l.
Proof. apply format_go_cons. Qed.

(** A port printed in decimal is read back, up to the int range. *)
Lemma Atoi_Itoa n : 0 <= n <= maxInt64 -> Atoi (Itoa n) = (n, None).
Proof.
  intros Hn. unfold Atoi, Itoa. replace (n <? 0) with false by (symmetry; apply Z.ltb_ge; lia).
  rewrite bytes_of_of_bytes.
  destruct (format_uint_cons n) as (c & l & Hcl).
  pose proof (format_uint_digits n ltac:(lia)) as Hd. rewrite Hcl in *.
  inversion Hd as [|? ? [d Hc] _]; subst.
  assert (Hs : read_sign (c :: l) = (false, c :: l)).
  { clear Hcl Hd. unfold read_sign. destruct c as [[] [] [] [] [] [] [] []]; try done; by vm_compute in Hc. }
  rewrite Hs. rewrite <- Hcl, parse_format_uint.
  2:{ unfold maxUint64, maxInt64 in *. lia. }
  rewrite Hcl. simpl. replace (maxInt64 <? n) with false; [done|].
  symmetry. apply Z.ltb_ge. lia.
Qed.

Lemma ParseUint_Itoa n : 0 <= n <= maxUint64 -> ParseUint (Itoa n) = (n, None).
Proof.
  intros Hn. unfold ParseUint, Itoa. replace (n <? 0) with false by (symmetry; apply Z.ltb_ge; lia).
  rewrite bytes_of_of_bytes. destruct (format_uint_cons n) as (c & l & Hcl).
  rewrite Hcl, <- Hcl, parse_format_uint by done. done.
Qed.

Lemma parse_uint_go_bounds l n :
  0 <= n <= maxUint64 -> 0 <= (parse_uint_go l n).1 <= maxUint64.
Proof.
  revert n. induction l as [|c l IH]; intros n Hn; simpl; [done|].
  destruct (digit_val c) as [d|] eqn:Hd; simpl; [|unfold maxUint64; lia].
  destruct (_ <=? n) eqn:?; simpl; [unfold maxUint64; lia|].
  destruct (_ <? _) eqn:Hlt; simpl; [unfold maxUint64; lia|]. apply IH.
  apply Z.ltb_ge in Hlt. unfold digit_val in Hd. destruct (_ && _) eqn:Hr; [|done].
  simplify_eq. apply andb_true_iff in Hr as [H1%Z.leb_le H2]. lia.
Qed.

Lemma ParseUint_bounds s : 0 <= (ParseUint s).1 <= maxUint64.
Proof.
  unfold ParseUint. destruct (bytes_of s) as [|c l]; [simpl; unfold maxUint64; lia|].
  pose proof (parse_uint_go_bounds (c :: l) 0 ltac:(unfold maxUint64; lia)) as Hb.
  by destruct (parse_uint_go _ _) as [n [k|]].
Qed.

Lemma int32_small n : - 2 ^ 31 <= n < 2 ^ 31 -> int32 n = n.
Proof. intros. unfold int32. rewrite Z.mod_small by lia. lia. Qed.

(** On a range error the value is the largest uint64. *)
Lemma parse_uint_go_range l n v : parse_uint_go l n = (v, Some ErrRange) -> v = maxUint64.
Proof.
  revert n. induction l as [|a l IH]; intros n; simpl; [done|].
  destruct (digit_val a); [|done]. destruct (_ <=? _); [congruence|].
  destruct (_ <? _); [congruence|]. apply IH.
Qed.

Lemma ParseUint_range s e :
  (ParseUint s).2 = Some e -> ne_kind e = ErrRange -> (ParseUint s).1 = maxUint64.
Proof.
  unfold ParseUint. destruct (bytes_of s) as [|a l]; [by intros [= <-]|].
  destruct (parse_uint_go (a :: l) 0) as [v [k|]] eqn:E; [|done].
  simpl. intros [= <-]. simpl. intros ->. by eapply parse_uint_go_range.
Qed.
