(* ===== verification/Json.v ===== *)
(** * [json.Unmarshal] into a [map[string]string]

    The decoder of [encoding/json] (Go 1.16) as far as the program uses it:
    the whole input must be valid JSON, the top value an object (or null), and
    each member a string (or null, which stores the empty string).  Strings are
    unquoted the way the library does: escapes, surrogate pairs, and U+FFFD in
    place of bytes that are not UTF-8. *)

From Stdlib Require Import ZArith Lia.
From S2P Require Import Prelude GoLib.
Local Open Scope N_scope.

Inductive json_error := SyntaxError | UnmarshalTypeError | OutOfFuel.

(** A JSON value; numbers are not interpreted. *)
Inductive json :=
  | JNull | JBool (b : bool) | JNumber | JString (s : list ascii)
  | JArray (l : list json) | JObject (members : list (list ascii * json)).

Definition code (c : ascii) : N := N_of_ascii c.

Definition is_space (c : ascii) : bool :=
  (code c =? 32) || (code c =? 9) || (code c =? 13) || (code c =? 10).

Fixpoint skip_space (l : list ascii) : list ascii :=
  match l with
  | c :: l' => if is_space c then skip_space l' else l
  | [] => []
  end.

(** ** UTF-8 *)

(** [utf8.EncodeRune]. *)
Definition encode_rune (r : N) : list ascii :=
  let byte n := ascii_of_N n in
  if r <? 128 then [byte r]
  else if r <? 2048 then [byte (192 + r / 64); byte (128 + r mod 64)]
  else if r <? 65536 then [byte (224 + r / 4096); byte (128 + (r / 64) mod 64); byte (128 + r mod 64)]
  else [byte (240 + r / 262144); byte (128 + (r / 4096) mod 64); byte (128 + (r / 64) mod 64); byte (128 + r mod 64)].

Definition RuneError : N := 65533.

Definition in_range (lo hi : N) (c : ascii) : bool := (lo <=? code c) && (code c <=? hi).

(** The number of bytes of the well-formed sequence at the head of [l], if
    there is one ([utf8.DecodeRune]). *)
Definition rune_length (l : list ascii) : option nat :=
  match l with
  | [] => None
  | c0 :: t =>
      let tail2 lo hi := match t with c1 :: _ => in_range lo hi c1 | _ => false end in
      let tail3 lo hi := match t with c1 :: c2 :: _ => in_range lo hi c1 && in_range 128 191 c2 | _ => false end in
      let tail4 lo hi :=
        match t with c1 :: c2 :: c3 :: _ => in_range lo hi c1 && in_range 128 191 c2 && in_range 128 191 c3 | _ => false end in
      let n := code c0 in
      if n <? 128 then Some 1%nat
      else if (194 <=? n) && (n <=? 223) then (if tail2 128 191 then Some 2%nat else None)
      else if n =? 224 then (if tail3 160 191 then Some 3%nat else None)
      else if n =? 237 then (if tail3 128 159 then Some 3%nat else None)
      else if (225 <=? n) && (n <=? 239) then (if tail3 128 191 then Some 3%nat else None)
      else if n =? 240 then (if tail4 144 191 then Some 4%nat else None)
      else if n =? 244 then (if tail4 128 143 then Some 4%nat else None)
      else if (241 <=? n) && (n <=? 243) then (if tail4 128 191 then Some 4%nat else None)
      else None
  end.

(** ** Strings *)

Definition hex_val (c : ascii) : option N :=
  let n := code c in
  if (48 <=? n) && (n <=? 57) then Some (n - 48)
  else if (97 <=? n) && (n <=? 102) then Some (n - 87)
  else if (65 <=? n) && (n <=? 70) then Some (n - 55)
  else None.

(** Four hexadecimal digits. *)
Definition hex4 (l : list ascii) : option (N * list ascii) :=
  match l with
  | a :: b :: c :: d :: l' =>
      match hex_val a, hex_val b, hex_val c, hex_val d with
      | Some a', Some b', Some c', Some d' => Some (a' * 4096 + b' * 256 + c' * 16 + d', l')
      | _, _, _, _ => None
      end
  | _ => None
  end.

Definition is_surrogate (r : N) : bool := (55296 <=? r) && (r <? 57344).

(** The character of a one-letter escape. *)
Definition simple_escape (c : ascii) : option N :=
  let n := code c in
  if (n =? 34) || (n =? 92) || (n =? 47) then Some n
  else if n =? 98 then Some 8
  else if n =? 102 then Some 12
  else if n =? 110 then Some 10
  else if n =? 114 then Some 13
  else if n =? 116 then Some 9
  else None.

(** The rune of the escape [\uXXXX] whose value is [r]: a surrogate pair
    consumes the second escape too. *)
Definition unescape (r : N) (l : list ascii) : N * list ascii :=
  if is_surrogate r then
    match l with
    | bs :: u :: l1 =>
        if (code bs =? 92) && (code u =? 117) then
          match hex4 l1 with
          | Some (r2, l2) =>
              if (r <? 56320) && (56320 <=? r2) && (r2 <? 57344)
              then (65536 + (r - 55296) * 1024 + (r2 - 56320), l2)
              else (RuneError, l)
          | None => (RuneError, l)
          end
        else (RuneError, l)
    | _ => (RuneError, l)
    end
  else (r, l).

(** The rest of a string after its opening quote: its value and what follows
    the closing quote. *)
Fixpoint parse_string (fuel : nat) (acc l : list ascii) : (list ascii * list ascii) + json_error :=
  match fuel with
  | O => inr OutOfFuel
  | S fuel' =>
      match l with
      | [] => inr SyntaxError
      | c :: l1 =>
          if code c =? 34 then inl (acc, l1)
          else if code c =? 92 then
            match l1 with
            | [] => inr SyntaxError
            | e :: l2 =>
                if code e =? 117 then
                  match hex4 l2 with
                  | None => inr SyntaxError
                  | Some (r, l3) => let '(r', l4) := unescape r l3 in parse_string fuel' (acc ++ encode_rune r') l4
                  end
                else match simple_escape e with
                     | Some r => parse_string fuel' (acc ++ encode_rune r) l2
                     | None => inr SyntaxError
                     end
            end
          else if code c <? 32 then inr SyntaxError
          else match rune_length l with
               | Some n => parse_string fuel' (acc ++ take n l) (drop n l)
               | None => parse_string fuel' (acc ++ encode_rune RuneError) l1
               end
      end
  end.

(** ** Numbers and literals *)

Definition is_digit (c : ascii) : bool := in_range 48 57 c.

Fixpoint skip_digits (l : list ascii) : list ascii :=
  match l with
  | c :: l' => if is_digit c then skip_digits l' else l
  | [] => []
  end.

(** One digit at least. *)
Definition digits1 (l : list ascii) : option (list ascii) :=
  match l with
  | c :: l' => if is_digit c then Some (skip_digits l') else None
  | [] => None
  end.

Definition parse_fraction (l : list ascii) : option (list ascii) :=
  match l with
  | "."%char :: l' => digits1 l'
  | _ => Some l
  end.

Definition parse_exponent (l : list ascii) : option (list ascii) :=
  match l with
  | c :: l' =>
      if (code c =? 101) || (code c =? 69) then
        match l' with
        | s :: l'' => if (code s =? 43) || (code s =? 45) then digits1 l'' else digits1 l'
        | [] => None
        end
      else Some l
  | [] => Some l
  end.

(** The rest of the input after a number. *)
Definition parse_number (l : list ascii) : option (list ascii) :=
  let l1 := match l with "-"%char :: l' => l' | _ => l end in
  match l1 with
  | c :: l2 =>
      let int_part := if code c =? 48 then Some l2 else if is_digit c then Some (skip_digits l2) else None in
      (int_part ≫= parse_fraction) ≫= parse_exponent
  | [] => None
  end.

Definition strip (lit l : list ascii) : option (list ascii) :=
  if bool_decide (take (length lit) l = lit) then Some (drop (length lit) l) else None.

(** ** Values *)

(** The nesting the library accepts. *)
Definition maxNestingDepth : nat := 10000.

(** A value, the members of an object after the opening brace or a comma, the
    elements of an array likewise.  [depth] is the nesting left. *)
Fixpoint parse_value (fuel depth : nat) (l0 : list ascii) : (json * list ascii) + json_error :=
  match fuel with
  | O => inr OutOfFuel
  | S fuel' =>
      let l := skip_space l0 in
      match l with
      | [] => inr SyntaxError
      | c :: l1 =>
          let literal lit v := match strip (bytes_of lit) l with Some l' => inl (v, l') | None => inr SyntaxError end in
          if code c =? 34 then
            match parse_string (S (length l1)) [] l1 with
            | inl (s, l2) => inl (JString s, l2)
            | inr e => inr e
            end
          else if code c =? 123 then
            match depth with
            | O => inr SyntaxError
            | S depth' =>
                match skip_space l1 with
                | "}"%char :: l2 => inl (JObject [], l2)
                | _ => match parse_members fuel' depth' l1 with
                       | inl (ms, l2) => inl (JObject ms, l2)
                       | inr e => inr e
                       end
                end
            end
          else if code c =? 91 then
            match depth with
            | O => inr SyntaxError
            | S depth' =>
                match skip_space l1 with
                | "]"%char :: l2 => inl (JArray [], l2)
                | _ => match parse_elements fuel' depth' l1 with
                       | inl (vs, l2) => inl (JArray vs, l2)
                       | inr e => inr e
                       end
                end
            end
          else if code c =? 116 then literal "true" (JBool true)
          else if code c =? 102 then literal "false" (JBool false)
          else if code c =? 110 then literal "null" JNull
          else match parse_number l with
               | Some l2 => inl (JNumber, l2)
               | None => inr SyntaxError
               end
      end
  end
with parse_members (fuel depth : nat) (l0 : list ascii) : (list (list ascii * json) * list ascii) + json_error :=
  match fuel with
  | O => inr OutOfFuel
  | S fuel' =>
      match skip_space l0 with
      | c :: l1 =>
          if negb (code c =? 34) then inr SyntaxError
          else match parse_string (S (length l1)) [] l1 with
               | inr e => inr e
               | inl (k, l2) =>
                   match skip_space l2 with
                   | ":"%char :: l3 =>
                       match parse_value fuel' depth l3 with
                       | inr e => inr e
                       | inl (v, l4) =>
                           match skip_space l4 with
                           | "}"%char :: l5 => inl ([(k, v)], l5)
                           | ","%char :: l5 =>
                               match parse_members fuel' depth l5 with
                               | inr e => inr e
                               | inl (ms, l6) => inl ((k, v) :: ms, l6)
                               end
                           | _ => inr SyntaxError
                           end
                       end
                   | _ => inr SyntaxError
                   end
               end
      | [] => inr SyntaxError
      end
  end
with parse_elements (fuel depth : nat) (l0 : list ascii) : (list json * list ascii) + json_error :=
  match fuel with
  | O => inr OutOfFuel
  | S fuel' =>
      match parse_value fuel' depth l0 with
      | inr e => inr e
      | inl (v, l1) =>
          match skip_space l1 with
          | "]"%char :: l2 => inl ([v], l2)
          | ","%char :: l2 =>
              match parse_elements fuel' depth l2 with
              | inr e => inr e
              | inl (vs, l3) => inl (v :: vs, l3)
              end
          | _ => inr SyntaxError
          end
      end
  end.

(** The whole input is one value. *)
Definition parse_json (s : string) : json + json_error :=
  let l := bytes_of s in
  match parse_value (2 * length l + 1) maxNestingDepth l with
  | inr e => inr e
  | inl (v, rest) => match skip_space rest with [] => inl v | _ => inr SyntaxError end
  end.

(** ** Decoding *)

(** The string a member stores; a value of another type is an error. *)
Definition member_string (v : json) : option string :=
  match v with
  | JString s => Some (of_bytes s)
  | JNull => Some ""
  | _ => None
  end.

Definition store_members (ms : list (list ascii * json)) : gmap string string :=
  foldl (fun m kv => <[of_bytes kv.1 := default "" (member_string kv.2)]> m) ∅ ms.

(** [json.Unmarshal] into an empty [map[string]string]; [None] is the nil map. *)
Definition Unmarshal (s : string) : gomap + json_error :=
  match parse_json s with
  | inr e => inr e
  | inl JNull => inl None
  | inl (JObject ms) =>
      if forallb (fun kv => match member_string kv.2 with Some _ => true | None => false end) ms
      then inl (Some (store_members ms))
      else inr UnmarshalTypeError
  | inl _ => inr UnmarshalTypeError
  end.

(** ** The fuel is enough *)

Lemma skip_space_length l : (length (skip_space l) <= length l)%nat.
Proof. induction l as [|c l IH]; simpl; [lia|]. destruct (is_space c); simpl; lia. Qed.

Lemma skip_digits_length l : (length (skip_digits l) <= length l)%nat.
Proof. induction l as [|c l IH]; simpl; [lia|]. destruct (is_digit c); simpl; lia. Qed.

Lemma digits1_length l l' : digits1 l = Some l' -> (length l' < length l)%nat.
Proof.
  destruct l as [|c l]; simpl; [done|]. destruct (is_digit c); [|done].
  intros [= <-]. pose proof (skip_digits_length l). lia.
Qed.

Lemma hex4_length l r l' : hex4 l = Some (r, l') -> (length l' < length l)%nat.
Proof.
  destruct l as [|a [|b [|c [|d l]]]]; try done. simpl.
  destruct (hex_val a), (hex_val b), (hex_val c), (hex_val d); try done. intros [= _ <-]. lia.
Qed.

Lemma unescape_length r l : (length (unescape r l).2 <= length l)%nat.
Proof.
  unfold unescape. destruct (is_surrogate r); [|done]. destruct l as [|a [|b l]]; [done..|].
  destruct (_ && _); [|done]. destruct (hex4 l) as [[r2 l2]|] eqn:E; [|done].
  apply hex4_length in E. destruct (_ && _); simpl in *; lia.
Qed.

Lemma rune_length_pos l n : rune_length l = Some n -> (1 <= n)%nat /\ l <> [].
Proof.
  destruct l as [|c l]; [done|]. unfold rune_length. intros H. split; [|done]. revert H.
  repeat (match goal with |- context [if ?b then _ else _] => destruct b end); intros [= <-]; lia.
Qed.

(** A string is read with fuel above the length of the input, and its closing
    quote is consumed. *)
Lemma parse_string_total fuel acc l :
  (length l < fuel)%nat ->
  match parse_string fuel acc l with
  | inl (_, l') => (length l' < length l)%nat
  | inr e => e <> OutOfFuel
  end.
Proof.
  revert acc l. induction fuel as [|fuel IH]; intros acc l Hf; [lia|]. simpl.
  destruct l as [|c l1]; [done|]. simpl in Hf.
  assert (Hrec : forall acc' l', (length l' <= length l1)%nat ->
    match parse_string fuel acc' l' with
    | inl (_, l'') => (length l'' < length (c :: l1))%nat
    | inr e => e <> OutOfFuel
    end).
  { intros acc' l' Hl'. specialize (IH acc' l' ltac:(lia)).
    destruct (parse_string fuel acc' l') as [[s l'']|e]; [simpl; lia|done]. }
  destruct (code c =? 34); [simpl; lia|]. destruct (code c =? 92).
  - destruct l1 as [|e l2]; [done|]. destruct (code e =? 117).
    + destruct (hex4 l2) as [[r l3]|] eqn:Hh; [|done]. apply hex4_length in Hh.
      pose proof (unescape_length r l3) as Hu. destruct (unescape r l3) as [r' l4].
      apply Hrec. simpl in *. lia.
    + destruct (simple_escape e); [|done]. apply Hrec. simpl. lia.
  - destruct (code c <? 32); [done|]. destruct (rune_length (c :: l1)) as [n|] eqn:Hr.
    + apply rune_length_pos in Hr as [Hn _]. apply Hrec. destruct n as [|n]; [lia|]. simpl.
      rewrite length_drop. lia.
    + by apply Hrec.
Qed.

Lemma parse_number_length l l' : parse_number l = Some l' -> (length l' < length l)%nat.
Proof.
  unfold parse_number. set (l1 := match l with "-"%char :: _ => _ | _ => _ end).
  assert (Hl1 : (length l1 <= length l)%nat).
  { subst l1. destruct l as [|[[] [] [] [] [] [] [] []] l]; simpl; lia. }
  destruct l1 as [|c l2]; [done|]. simpl in Hl1.
  intros (l3 & (l4 & H4 & H3)%bind_Some & H5)%bind_Some.
  assert (length l4 <= length l2)%nat.
  { destruct (code c =? 48); [by simplify_eq|]. destruct (is_digit c); [|done]. simplify_eq. apply skip_digits_length. }
  assert (length l3 <= length l4)%nat.
  { unfold parse_fraction in H3. destruct l4 as [|[[] [] [] [] [] [] [] []] l4]; simplify_eq/=; try lia.
    apply digits1_length in H3. lia. }
  unfold parse_exponent in H5. destruct l3 as [|c3 l3]; simplify_eq/=; [lia|].
  destruct (_ || _); [|simplify_eq/=; lia]. destruct l3 as [|s l3]; [done|].
  destruct (_ || _); apply digits1_length in H5; simpl in *; lia.
Qed.

Lemma strip_length lit l l' : lit <> [] -> strip lit l = Some l' -> (length l' < length l)%nat.
Proof.
  unfold strip. intros Hlit. case_bool_decide as Ht; [|done]. intros [= <-]. rewrite length_drop.
  assert (length lit <= length l)%nat.
  { rewrite <- Ht at 1. rewrite length_take. lia. }
  destruct lit; [done|]. simpl in *. lia.
Qed.

(** Enough fuel for a result that consumes input. *)
Definition consumed {A} (l : list ascii) (r : (A * list ascii) + json_error) : Prop :=
  match r with
  | inl (_, l') => (length l' < length l)%nat
  | inr e => e <> OutOfFuel
  end.

Lemma consumed_string l :
  consumed l (parse_string (S (length l)) [] l).
Proof. apply (parse_string_total (S (length l)) [] l). lia. Qed.

Lemma skip_space_cons l c l' : skip_space l = c :: l' -> (length l' < length l)%nat.
Proof. intros H. pose proof (skip_space_length l) as Hs. rewrite H in Hs. simpl in Hs. lia. Qed.

(** Matching the next character of the input, whatever the cases are. *)
Ltac next_char l :=
  let E := fresh "E" in
  destruct (skip_space l) as [|? ?] eqn:E; [try done|apply skip_space_cons in E].

Ltac close_char l :=
  let a := fresh "a" in let E := fresh "E" in
  destruct (skip_space l) as [|a ?] eqn:E;
  [|apply skip_space_cons in E; destruct a as [[] [] [] [] [] [] [] []]];
  simpl; first [done | lia].

Section fuel.
Context (fuel : nat).
Context (IHv : forall depth l, (2 * length l + 1 <= fuel)%nat -> consumed l (parse_value fuel depth l)).
Context (IHm : forall depth l, (2 * length l + 2 <= fuel)%nat -> consumed l (parse_members fuel depth l)).
Context (IHe : forall depth l, (2 * length l + 2 <= fuel)%nat -> consumed l (parse_elements fuel depth l)).

Lemma parse_value_total_step depth l :
  (2 * length l + 1 <= S fuel)%nat -> consumed l (parse_value (S fuel) depth l).
Proof.
  intros Hf. cbn [parse_value]. next_char l. rename a into c, l0 into l1.
  assert (Hlit : forall lit (v : json), bytes_of lit <> [] ->
    consumed l (match strip (bytes_of lit) (c :: l1) with Some l' => inl (v, l') | None => inr SyntaxError end)).
  { intros lit v Hl. destruct (strip _ _) as [l'|] eqn:Hs; [|done]. apply strip_length in Hs; [|done]. simpl in *. lia. }
  destruct (code c =? 34).
  { pose proof (consumed_string l1) as Hc. destruct (parse_string _ _ _) as [[s l2]|e]; simpl in *; [lia|done]. }
  destruct (code c =? 123).
  { destruct depth as [|depth]; [done|].
    specialize (IHm depth l1 ltac:(lia)).
    destruct (parse_members fuel depth l1) as [[ms l2]|e]; simpl in IHm;
      close_char l1. }
  destruct (code c =? 91).
  { destruct depth as [|depth]; [done|].
    specialize (IHe depth l1 ltac:(lia)).
    destruct (parse_elements fuel depth l1) as [[vs l2]|e]; simpl in IHe;
      close_char l1. }
  destruct (code c =? 116); [by apply Hlit|]. destruct (code c =? 102); [by apply Hlit|].
  destruct (code c =? 110); [by apply Hlit|].
  destruct (parse_number (c :: l1)) as [l2|] eqn:Hn; [|done].
  apply parse_number_length in Hn. simpl in *. lia.
Qed.

Lemma parse_members_total_step depth l :
  (2 * length l + 2 <= S fuel)%nat -> consumed l (parse_members (S fuel) depth l).
Proof.
  intros Hf. cbn [parse_members]. next_char l. rename a into c, l0 into l1.
  destruct (negb _); [done|].
  pose proof (consumed_string l1) as Hc. destruct (parse_string _ _ _) as [[k l2]|e]; [|done]. simpl in Hc.
  next_char l2. destruct a as [[] [] [] [] [] [] [] []]; try done.
  specialize (IHv depth l0 ltac:(lia)). destruct (parse_value fuel depth l0) as [[v l4]|e]; [|done]. simpl in IHv.
  next_char l4. specialize (IHm depth l3 ltac:(lia)).
  destruct (parse_members fuel depth l3) as [[ms l6]|e]; simpl in IHm;
    destruct a as [[] [] [] [] [] [] [] []]; simpl; first [done | lia].
Qed.

Lemma parse_elements_total_step depth l :
  (2 * length l + 2 <= S fuel)%nat -> consumed l (parse_elements (S fuel) depth l).
Proof.
  intros Hf. cbn [parse_elements].
  specialize (IHv depth l ltac:(lia)). destruct (parse_value fuel depth l) as [[v l1]|e]; [|done]. simpl in IHv.
  next_char l1. specialize (IHe depth l0 ltac:(lia)).
  destruct (parse_elements fuel depth l0) as [[vs l3]|e]; simpl in IHe;
    destruct a as [[] [] [] [] [] [] [] []]; simpl; first [done | lia].
Qed.
End fuel.

Lemma parse_total fuel :
  (forall depth l, (2 * length l + 1 <= fuel)%nat -> consumed l (parse_value fuel depth l)) /\
  (forall depth l, (2 * length l + 2 <= fuel)%nat -> consumed l (parse_members fuel depth l)) /\
  (forall depth l, (2 * length l + 2 <= fuel)%nat -> consumed l (parse_elements fuel depth l)).
Proof.
  induction fuel as [|fuel (IHv & IHm & IHe)]; [repeat split; intros; lia|].
  split; [|split]; intros depth l Hl;
    [by apply parse_value_total_step | by apply parse_members_total_step | by apply parse_elements_total_step].
Qed.

(** The decoder terminates on every input: the fuel it is started with,
    twice the length of the input and one, is never exhausted. *)
Lemma Unmarshal_terminates s : Unmarshal s <> inr OutOfFuel.
Proof.
  unfold Unmarshal, parse_json.
  destruct (parse_total (2 * length (bytes_of s) + 1)) as [Hv _].
  specialize (Hv maxNestingDepth (bytes_of s) ltac:(lia)).
  destruct (parse_value _ _ _) as [[v rest]|e]; [|simpl in Hv; congruence].
  destruct (skip_space rest); [|done]. destruct v; try done. by destruct (forallb _ _).
Qed.

(** ** Round trip *)

(** Characters the library writes and reads unescaped. *)
Definition plain (c : ascii) : bool :=
  in_range 32 126 c && negb (code c =? 34) && negb (code c =? 92)
  && negb (code c =? 38) && negb (code c =? 60) && negb (code c =? 62).

Definition plain_string (s : string) : Prop := Forall (fun c => plain c = true) (bytes_of s).

Definition dquote : ascii := "034"%char.

Definition quoted (s : string) : list ascii := dquote :: bytes_of s ++ [dquote].

(** What [json.Marshal] writes for a map of plain strings with the given
    members: no space, comma between members. *)
Fixpoint marshal_members (ms : list (string * string)) : list ascii :=
  match ms with
  | [] => []
  | [(k, v)] => quoted k ++ ":"%char :: quoted v
  | (k, v) :: ms' => quoted k ++ ":"%char :: quoted v ++ ","%char :: marshal_members ms'
  end.

Definition marshal (ms : list (string * string)) : string :=
  of_bytes ("{"%char :: marshal_members ms ++ ["}"%char]).

Definition plain_members (ms : list (string * string)) : Prop :=
  Forall (fun kv => plain_string kv.1 /\ plain_string kv.2) ms.

Lemma plain_code c :
  plain c = true -> (code c =? 34) = false /\ (code c =? 92) = false /\ (code c <? 32) = false /\
                    (code c <? 128) = true.
Proof.
  unfold plain, in_range. rewrite !andb_true_iff, !negb_true_iff, !N.leb_le, N.ltb_ge, N.ltb_lt. intros H.
  destruct_and!. repeat split; auto. lia.
Qed.

Lemma parse_plain_string fuel acc s rest :
  (length s < fuel)%nat -> Forall (fun c => plain c = true) s ->
  parse_string fuel acc (s ++ dquote :: rest) = inl (acc ++ s, rest).
Proof.
  revert acc s. induction fuel as [|fuel IH]; intros acc s Hf Hp; [lia|].
  destruct s as [|c s]; simpl; [by rewrite app_nil_r|].
  apply Forall_cons_iff in Hp as [Hc Hp]. destruct (plain_code c Hc) as (H1 & H2 & H3 & H4).
  unfold rune_length. rewrite H1, H2, H3, H4. simpl in *. rewrite drop_0, take_0, IH by (done || lia).
  by rewrite <- (assoc_L (++)).
Qed.

Lemma parse_quoted_key s rest :
  plain_string s ->
  let l := bytes_of s ++ dquote :: rest in parse_string (S (length l)) [] l = inl (bytes_of s, rest).
Proof. intros Hp l. apply parse_plain_string; [|done]. subst l. rewrite length_app. simpl. lia. Qed.

Lemma parse_quoted_value fuel depth s rest :
  plain_string s -> parse_value (S fuel) depth (quoted s ++ rest) = inl (JString (bytes_of s), rest).
Proof.
  intros Hp. unfold quoted. cbn [parse_value app skip_space]. change (is_space dquote) with false.
  cbn iota. change (code dquote =? 34) with true. cbn iota.
  rewrite <- (assoc_L (++)). cbn [app]. by rewrite parse_quoted_key.
Qed.

Definition member_json (kv : string * string) : list ascii * json := (bytes_of kv.1, JString (bytes_of kv.2)).

Lemma parse_marshal_members fuel depth ms rest :
  (length ms < fuel)%nat -> ms <> [] -> plain_members ms ->
  parse_members fuel depth (marshal_members ms ++ "}"%char :: rest) = inl (map member_json ms, rest).
Proof.
  revert fuel. induction ms as [|[k v] ms IH]; intros fuel Hf Hne Hp; [done|].
  apply Forall_cons_iff in Hp as [[Hk Hv] Hp]. simpl in Hk, Hv.
  destruct fuel as [|[|fuel]]; simpl in Hf; [lia..|].
  assert (Hmem : forall tail,
    parse_members (S (S fuel)) depth (quoted k ++ ":"%char :: quoted v ++ tail) =
    match skip_space tail with
    | "}"%char :: l5 => inl ([member_json (k, v)], l5)
    | ","%char :: l5 =>
        match parse_members (S fuel) depth l5 with
        | inr e => inr e
        | inl (ms, l6) => inl (member_json (k, v) :: ms, l6)
        end
    | _ => inr SyntaxError
    end).
  { intros tail. cbn [parse_members]. unfold quoted at 1. cbn [app skip_space is_space].
    change (is_space dquote) with false. cbn iota. change (code dquote =? 34) with true. cbn [negb].
    rewrite <- (assoc_L (++)). cbn [app]. rewrite parse_quoted_key by done. cbn [skip_space].
    change (is_space ":"%char) with false. cbn iota. by rewrite parse_quoted_value. }
  destruct ms as [|kv ms].
  - cbn [marshal_members]. rewrite <- (assoc_L (++)). cbn [app]. rewrite Hmem. done.
  - cbn [marshal_members]. rewrite <- !(assoc_L (++)). cbn [app]. rewrite <- !(assoc_L (++)). cbn [app].
    rewrite Hmem. cbn [skip_space]. change (is_space ","%char) with false. cbn iota.
    rewrite IH by (done || (simpl in *; lia)). done.
Qed.

Lemma member_string_map ms :
  forallb (fun kv => match member_string kv.2 with Some _ => true | None => false end) (map member_json ms) = true.
Proof. by induction ms as [|kv ms IH]. Qed.

Lemma store_members_map ms :
  store_members (map member_json ms) = foldl (fun m kv => <[kv.1 := kv.2]> m) ∅ ms.
Proof.
  unfold store_members. generalize (∅ : gmap string string).
  induction ms as [|[k v] ms IH]; intros m; simpl; [done|].
  by rewrite !of_bytes_bytes_of, IH.
Qed.

Lemma marshal_members_length ms : (length ms <= length (marshal_members ms))%nat.
Proof.
  induction ms as [|[k v] [|kv ms] IH]; [simpl; lia| |].
  - simpl. rewrite !length_app. simpl. lia.
  - change (marshal_members ((k, v) :: kv :: ms)) with
      (quoted k ++ ":"%char :: quoted v ++ ","%char :: marshal_members (kv :: ms)).
    repeat (rewrite length_app || rewrite length_cons). rewrite length_cons in IH. lia.
Qed.

Lemma parse_marshal_object fuel depth ms :
  (length ms < fuel)%nat -> plain_members ms ->
  parse_value (S fuel) (S depth) ("{"%char :: marshal_members ms ++ ["}"%char]) =
  inl (JObject (map member_json ms), []).
Proof.
  intros Hf Hp. destruct ms as [|kv ms]; [done|].
  pose proof (parse_marshal_members fuel depth (kv :: ms) [] Hf ltac:(done) Hp) as Hparse.
  set (body := marshal_members (kv :: ms)) in *.
  assert (Hq : exists t, body = dquote :: t).
  { subst body. destruct kv as [k v]; destruct ms; simpl; eauto. }
  destruct Hq as [t Ht]. cbn [parse_value skip_space].
  change (is_space "{"%char) with false. cbn iota.
  change (code "{"%char =? 34) with false. change (code "{"%char =? 123) with true. cbn iota.
  rewrite Hparse, Ht. done.
Qed.

Lemma Unmarshal_marshal ms :
  plain_members ms ->
  Unmarshal (marshal ms) = inl (Some (foldl (fun m kv => <[kv.1 := kv.2]> m) ∅ ms)).
Proof.
  intros Hp. unfold Unmarshal, parse_json, marshal. rewrite bytes_of_of_bytes.
  change maxNestingDepth with (S 9999). rewrite Nat.add_1_r. rewrite parse_marshal_object.
  - cbn [skip_space]. by rewrite member_string_map, store_members_map.
  - pose proof (marshal_members_length ms). rewrite length_cons, length_app. simpl. lia.
  - done.
Qed.
