(* ===== verification/Errors.v ===== *)
(** * Error values

    Go compares errors by identity: a sentinel is a constructor, everything
    built by [errors.Wrap] or [fmt.Errorf] is a different value.  The file
    also models [go-multierror], the mapping of HTTP failures to application
    errors ([MapAPIError]) and [ListErrors]. *)

From Stdlib Require Import ZArith.
From S2P Require Import Prelude GoLib Json.

(** ** Sentinels of the program *)

Inductive sentinel :=
  | ErrNotInitialized | ErrNoAuthToken
  | ErrNamespaceNotFound | ErrNamespaceInUse
  | ErrNodeNotFound | ErrNodeInUse | ErrNodeHasLock
  | ErrVolumeNotFound
  | ErrNotFound | ErrNotShared | ErrNotKubernetes | ErrVolumeShared | ErrListingVolumes
  | ErrReservedLabelUnknown | ErrReservedLabelInvalid | ErrReservedLabelFixed
  | ErrBadFailureMode
  | ErrNodeNotCached | ErrNodeTypeAssertion | ErrVolumeAttachmentNotFound | ErrUnexpectedVolumeAttacher
  | ErrUnsupportedKind
  | ErrCrossNamespace | ErrNoKeyInSecret
  | ErrCastCache | ErrNotInCluster
  | ErrWaitTimeout.

#[export] Instance sentinel_eq_dec : EqDecision sentinel.
Proof. solve_decision. Defined.

(** The application errors [MapAPIError] builds from a status code. *)
Inductive api_kind :=
  | badRequestError | AuthenticationError | UnauthorisedError | notFoundError
  | conflictError | StaleWriteError | InvalidStateTransitionError | LockedError
  | LicenceCapabilityError | ServerError | StoreError.

#[export] Instance api_kind_eq_dec : EqDecision api_kind.
Proof. solve_decision. Defined.

(** The reason of a Kubernetes [StatusError]; the program only tells
    not-found apart. *)
Inductive k8s_reason := StatusReasonNotFound | StatusReasonOther.

(** [Wrap] keeps its cause ([errors.Wrap], [%w]); [Errorf] only prints it
    ([%v]); [Text] is an error built from a message alone; [Opaque] stands
    for an error of the environment (network, HTTP client, file system). *)
Inductive error :=
  | Sentinel (s : sentinel)
  | Wrap (cause : error) (msg : string)
  | Errorf (msg : string) (arg : error)
  | Decorated (cause : error) (details : string)
  | Multi (es : list error)
  | NumErr (e : num_error)
  | AddrErr (e : addr_error)
  | JsonErr (e : json_error)
  | GenericOpenAPIError (body err : string) (model : option string)
  | openAPIError (msg : string)
  | APIError (k : api_kind) (msg : string)
  | K8sError (r : k8s_reason) (msg : string)
  | Text (msg : string)
  | Opaque (msg : string).

(** [err == ErrX]. *)
Definition err_is (e : error) (s : sentinel) : bool :=
  match e with Sentinel s' => bool_decide (s' = s) | _ => false end.

Lemma err_is_spec e s : err_is e s = true <-> e = Sentinel s.
Proof.
  destruct e; simpl; try (split; discriminate).
  rewrite bool_decide_eq_true. split; congruence.
Qed.

(** [errors.As(err, &APIStatus)]: the first status in the chain of causes. *)
Fixpoint find_status (e : error) : option k8s_reason :=
  match e with
  | K8sError r _ => Some r
  | Wrap c _ | Decorated c _ => find_status c
  | Multi es =>
      (fix go es := match es with
                    | [] => None
                    | e :: es' => match find_status e with Some r => Some r | None => go es' end
                    end) es
  | _ => None
  end.

Definition IsNotFound (e : error) : bool :=
  match find_status e with Some StatusReasonNotFound => true | _ => false end.

(** ** go-multierror *)

(** [multierror.Append(errs, e)]: a multierror argument is flattened. *)
Definition Append (errs : list error) (e : error) : list error :=
  match e with Multi es => errs ++ es | _ => errs ++ [e] end.

Definition ErrorOrNil (errs : list error) : option error :=
  match errs with [] => None | _ => Some (Multi errs) end.

(** ** HTTP responses and [MapAPIError] *)

(** An [http.Response], with the header the program reads. *)
Record response := Response { StatusCode : Z; Authorization : string }.

Local Open Scope Z_scope.

Definition status_kind (code : Z) : option api_kind :=
  if code =? 400 then Some badRequestError
  else if code =? 401 then Some AuthenticationError
  else if code =? 403 then Some UnauthorisedError
  else if code =? 404 then Some notFoundError
  else if code =? 409 then Some conflictError
  else if code =? 412 then Some StaleWriteError
  else if code =? 422 then Some InvalidStateTransitionError
  else if code =? 423 then Some LockedError
  else if code =? 451 then Some LicenceCapabilityError
  else if code =? 500 then Some ServerError
  else if code =? 503 then Some StoreError
  else None.

(** The details of an error of the generated client, if it is one. *)
Definition error_details (e : error) : option string :=
  match e with
  | GenericOpenAPIError body _ model => Some (default body model)
  | openAPIError msg => Some msg
  | _ => None
  end.

Definition MapAPIError (err : option error) (resp : option response) : option error :=
  match resp, err with
  | None, _ => err
  | _, None => None
  | Some r, Some e =>
      match error_details e with
      | None => err
      | Some details =>
          match status_kind (StatusCode r) with
          | Some k => Some (APIError k details)
          | None => if bool_decide (details = "") then err else Some (Decorated e details)
          end
      end
  end.

(** An error is never lost by the mapping, and none is invented. *)
Lemma MapAPIError_None err resp : MapAPIError err resp = None <-> err = None.
Proof.
  unfold MapAPIError. destruct resp as [r|], err as [e|]; try done.
  destruct (error_details e); [|done]. destruct (status_kind _); [done|].
  by case_bool_decide.
Qed.

Lemma MapAPIError_Some e resp : exists e', MapAPIError (Some e) resp = Some e'.
Proof.
  destruct (MapAPIError (Some e) resp) eqn:E; [eauto|].
  by apply MapAPIError_None in E.
Qed.

(** Mapping never produces one of the program's own sentinels, unless the
    control-plane client already returned it. *)
Lemma MapAPIError_sentinel e resp s :
  MapAPIError (Some e) resp = Some (Sentinel s) -> e = Sentinel s.
Proof.
  unfold MapAPIError. destruct resp as [r|]; [|congruence].
  destruct (error_details e); [|congruence].
  destruct (status_kind _); [congruence|]. case_bool_decide; congruence.
Qed.

(** ** [ListErrors]

    [Error] is the method of the listed values: an interface method in Go. *)
Definition ListErrors (Error : error -> string) (es : list error) : string :=
  match es with
  | [e] => Error e
  | _ => Itoa (Z.of_nat (length es)) +:+ " errors occurred: " +:+ Join (map Error es) ", "
  end.
