(* ===== verification/Types.v ===== *)
(** * Data of the two APIs

    The StorageOS control-plane objects (vendored [go-api]), the Kubernetes
    objects the controllers read and write (the fields they use), the
    StorageOS [Node] custom resource of [api/v1], and object keys. *)

From Stdlib Require Export Strings.Byte.
From Stdlib Require Import ZArith.
From S2P Require Import Prelude GoLib.

(** ** Object keys *)

(** [types.NamespacedName]. *)
Record ObjectKey := Key { k_namespace : string; k_name : string }.

#[export] Instance ObjectKey_eq_dec : EqDecision ObjectKey.
Proof. solve_decision. Defined.

#[export] Instance ObjectKey_countable : Countable ObjectKey.
Proof.
  refine (inj_countable' (fun k => (k_namespace k, k_name k)) (fun p => Key p.1 p.2) _).
  by intros [].
Defined.

(** [NamespacedName.String()]. *)
Definition key_string (k : ObjectKey) : string := k_namespace k +:+ "/" +:+ k_name k.

(** ** Control-plane objects *)

Record Namespace := {
  ns_Id : string; ns_Name : string; ns_Labels : gomap; ns_Version : string;
}.

(** [NodeHealth] and [MasterHealth] are string types in the API. *)
Definition HEALTH_ONLINE : string := "online".
Definition HEALTH_OFFLINE : string := "offline".
Definition HEALTH_UNKNOWN : string := "unknown".

Record CapacityStats := { cap_Total : Z; cap_Free : Z; cap_Available : Z }.

Record Node := {
  n_Id : string; n_Name : string; n_Health : string; n_Capacity : CapacityStats;
  n_IoEndpoint : string; n_SupervisorEndpoint : string;
  n_GossipEndpoint : string; n_ClusteringEndpoint : string;
  n_Labels : gomap; n_CreatedAt : Z; n_Version : string;
}.

Record Volume := {
  v_Id : string; v_Name : string; v_NamespaceID : string; v_Labels : gomap;
  v_NfsServiceEndpoint : option string; v_MasterHealth : string; v_Version : string;
}.

(** The [Object] interface of the client package, with its implementations. *)
Inductive object := ObjNamespace (n : Namespace) | ObjNode (n : Node) | ObjVolume (v : Volume).

Definition GetID (o : object) : string :=
  match o with ObjNamespace n => ns_Id n | ObjNode n => n_Id n | ObjVolume v => v_Id v end.

Definition GetName (o : object) : string :=
  match o with ObjNamespace n => ns_Name n | ObjNode n => n_Name n | ObjVolume v => v_Name v end.

(** Of a volume, the namespace is the identifier of its StorageOS namespace. *)
Definition GetNamespace (o : object) : string :=
  match o with ObjNamespace _ => "" | ObjNode _ => "" | ObjVolume v => v_NamespaceID v end.

Definition GetLabels (o : object) : gomap :=
  match o with ObjNamespace n => ns_Labels n | ObjNode n => n_Labels n | ObjVolume v => v_Labels v end.

Definition IsHealthy (o : object) : bool :=
  match o with
  | ObjNamespace _ => true
  | ObjNode n => bool_decide (n_Health n = HEALTH_ONLINE)
  | ObjVolume v => bool_decide (v_MasterHealth v = HEALTH_ONLINE)
  end.

(** [ObjectKeyFromObject] and [ObjectKeys] of the client package. *)
Definition ObjectKeyFromObject (o : object) : ObjectKey := Key (GetNamespace o) (GetName o).

Definition ObjectKeys (os : list object) : list ObjectKey := map ObjectKeyFromObject os.

(** ** Kubernetes objects *)

Record OwnerReference := {
  or_APIVersion : string; or_Kind : string; or_Name : string; or_UID : string;
}.

Record ObjectMeta := {
  om_Name : string; om_Namespace : string; om_UID : string;
  om_ResourceVersion : string; om_CreationTimestamp : Z;
  om_Labels : gomap; om_Annotations : gomap;
  om_OwnerReferences : list OwnerReference;
}.

(** The metadata of an object literal that only sets a name and a namespace. *)
Definition meta (name namespace : string) (ls : gomap) (owners : list OwnerReference) : ObjectMeta :=
  {| om_Name := name; om_Namespace := namespace; om_UID := ""; om_ResourceVersion := "";
     om_CreationTimestamp := 0%Z; om_Labels := ls; om_Annotations := None;
     om_OwnerReferences := owners |}.

Definition zero_meta : ObjectMeta := meta "" "" None [].

(** [client.ObjectKeyFromObject]. *)
Definition meta_key (m : ObjectMeta) : ObjectKey := Key (om_Namespace m) (om_Name m).

Definition set_annotations (m : ObjectMeta) (a : gomap) : ObjectMeta :=
  {| om_Name := om_Name m; om_Namespace := om_Namespace m; om_UID := om_UID m;
     om_ResourceVersion := om_ResourceVersion m;
     om_CreationTimestamp := om_CreationTimestamp m; om_Labels := om_Labels m;
     om_Annotations := a; om_OwnerReferences := om_OwnerReferences m |}.

(** [SetName] and [SetNamespace]. *)
Definition set_key (m : ObjectMeta) (k : ObjectKey) : ObjectMeta :=
  {| om_Name := k_name k; om_Namespace := k_namespace k; om_UID := om_UID m;
     om_ResourceVersion := om_ResourceVersion m;
     om_CreationTimestamp := om_CreationTimestamp m; om_Labels := om_Labels m;
     om_Annotations := om_Annotations m; om_OwnerReferences := om_OwnerReferences m |}.

Record PersistentVolumeClaim := {
  pvc_meta : ObjectMeta; pvc_StorageClassName : option string; pvc_VolumeName : string;
}.

Definition pvc_with_annotations (p : PersistentVolumeClaim) (a : gomap) : PersistentVolumeClaim :=
  {| pvc_meta := set_annotations (pvc_meta p) a;
     pvc_StorageClassName := pvc_StorageClassName p; pvc_VolumeName := pvc_VolumeName p |}.

(** The driver of the CSI volume source, if there is one. *)
Record PersistentVolume := { pv_meta : ObjectMeta; pv_CSI_Driver : option string }.

Record StorageClass := { sc_meta : ObjectMeta; sc_Provisioner : string; sc_Parameters : gomap }.

(** A pod volume, with the claim name of its PVC source if it has one. *)
Record PodVolume := { vol_Name : string; vol_ClaimName : option string }.

Record Pod := {
  pod_meta : ObjectMeta; pod_NodeName : string; pod_SchedulerName : string;
  pod_Volumes : list PodVolume;
}.

Record VolumeAttachment := {
  va_meta : ObjectMeta; va_Attacher : string; va_NodeName : string;
  va_PersistentVolumeName : option string;
}.

Record K8sNode := { kn_meta : ObjectMeta }.

Record K8sNamespace := { kns_meta : ObjectMeta }.

(** The [client.Object]s the synchronisation reconcilers handle. *)
Inductive client_object :=
  | ONode (n : K8sNode) | ONamespace (n : K8sNamespace) | OPVC (p : PersistentVolumeClaim).

Definition obj_meta (o : client_object) : ObjectMeta :=
  match o with ONode n => kn_meta n | ONamespace n => kns_meta n | OPVC p => pvc_meta p end.

Definition obj_key (o : client_object) : ObjectKey := meta_key (obj_meta o).

(** [intstr.IntOrString]. *)
Record IntOrString := { ios_is_string : bool; ios_IntVal : Z; ios_StrVal : string }.

Definition FromInt (n : Z) : IntOrString :=
  {| ios_is_string := false; ios_IntVal := int32 n; ios_StrVal := "" |}.

Record ServicePort := {
  sp_Name : string; sp_Port : Z; sp_Protocol : string; sp_TargetPort : IntOrString;
}.

Record Service := {
  svc_meta : ObjectMeta; svc_Type : string; svc_ClusterIP : string;
  svc_Ports : list ServicePort;
}.

(** The zero value a [&corev1.Service{}] starts from. *)
Definition zero_service : Service :=
  {| svc_meta := zero_meta; svc_Type := ""; svc_ClusterIP := ""; svc_Ports := [] |}.

Record EndpointAddress := { ea_IP : string; ea_Hostname : string }.
Record EndpointPort := { ep_Name : string; ep_Port : Z; ep_Protocol : string }.
Record EndpointSubset := { es_Addresses : list EndpointAddress; es_Ports : list EndpointPort }.
Record Endpoints := { eps_meta : ObjectMeta; eps_Subsets : list EndpointSubset }.

Definition zero_endpoints : Endpoints := {| eps_meta := zero_meta; eps_Subsets := [] |}.

(** A secret: nil data or a map to byte strings. *)
Record Secret := { sec_meta : ObjectMeta; sec_Data : option (gmap string (list byte)) }.

(** ** The StorageOS Node custom resource ([api/v1]) *)

Inductive NodeHealth := NodeHealthOnline | NodeHealthOffline | NodeHealthUnknown.

#[export] Instance NodeHealth_eq_dec : EqDecision NodeHealth.
Proof. solve_decision. Defined.

Record NodeSpec := {
  IoEndpoint : string; SupervisorEndpoint : string; GossipEndpoint : string;
  ClusteringEndpoint : string;
}.

Record NodeStatus := { st_Health : NodeHealth; st_Capacity : CapacityStats }.

Record NodeCR := { cr_meta : ObjectMeta; cr_Spec : NodeSpec; cr_Status : NodeStatus }.

#[export] Instance OwnerReference_eq_dec : EqDecision OwnerReference.
Proof. solve_decision. Defined.
#[export] Instance ObjectMeta_eq_dec : EqDecision ObjectMeta.
Proof. solve_decision. Defined.
#[export] Instance CapacityStats_eq_dec : EqDecision CapacityStats.
Proof. solve_decision. Defined.
#[export] Instance NodeSpec_eq_dec : EqDecision NodeSpec.
Proof. solve_decision. Defined.
#[export] Instance NodeStatus_eq_dec : EqDecision NodeStatus.
Proof. solve_decision. Defined.
#[export] Instance NodeCR_eq_dec : EqDecision NodeCR.
Proof. solve_decision. Defined.
