(* ===== verification/DeepCopy.v ===== *)
(** * The copies of the Node resource ([api/v1/zz_generated.deepcopy.go])

    A heap of the maps, slices and structures that the resource refers to, and
    the generated functions that copy them, with those of the metadata of
    [k8s.io/apimachinery] that they call.  A copy has the value of the original
    and shares nothing with it. *)

From Stdlib Require Import ZArith.
From S2P Require Import Prelude Types.

(** ** The heap *)

Definition loc : Type := positive.

(** A pointer, a map or a slice: nil, or the place of what it refers to. *)
Inductive ptr (T : Type) := Nil | At (l : loc).
Arguments Nil {T}.
Arguments At {T} l.

Record TypeMeta := { tm_Kind : string; tm_APIVersion : string }.

(** [metav1.OwnerReference], [FieldsV1], [ManagedFieldsEntry], [ObjectMeta] and
    [ListMeta]. *)
Record owner_reference := { ow_reference : OwnerReference; ow_Controller : ptr bool; ow_BlockOwnerDeletion : ptr bool }.

Record fields_v1 := { f_Raw : ptr (list byte) }.

Record managed_fields_entry := {
  mf_Manager : string; mf_Operation : string; mf_APIVersion : string; mf_FieldsType : string;
  mf_Time : ptr Z; mf_FieldsV1 : ptr fields_v1;
}.

Record meta_scalars := {
  ms_Name : string; ms_GenerateName : string; ms_Namespace : string; ms_SelfLink : string; ms_UID : string;
  ms_ResourceVersion : string; ms_Generation : Z; ms_CreationTimestamp : Z; ms_ClusterName : string;
}.

Record object_meta := {
  om_scalars : meta_scalars;
  om_DeletionTimestamp : ptr Z;
  om_DeletionGracePeriodSeconds : ptr Z;
  om_labels : ptr labels;
  om_annotations : ptr labels;
  om_ownerReferences : ptr (list owner_reference);
  om_Finalizers : ptr (list string);
  om_ManagedFields : ptr (list managed_fields_entry);
}.

Record list_meta := { lm_SelfLink : string; lm_ResourceVersion : string; lm_Continue : string; lm_RemainingItemCount : ptr Z }.

(** [Node] and [NodeList] of [node_types.go]. *)
Record node := { node_TypeMeta : TypeMeta; node_ObjectMeta : object_meta; node_Spec : NodeSpec; node_Status : NodeStatus }.

Record node_list := { nl_TypeMeta : TypeMeta; nl_ListMeta : list_meta; nl_Items : ptr (list node) }.

Inductive cell :=
  | CInt (z : Z) | CBool (b : bool) | CBytes (l : list byte) | CStrings (l : list string) | CMap (m : labels)
  | COwners (l : list owner_reference) | CFields (f : fields_v1) | CManaged (l : list managed_fields_entry)
  | CStats (s : CapacityStats) | CSpec (s : NodeSpec) | CStatus (s : NodeStatus)
  | CNode (n : node) | CNodes (l : list node) | CNodeList (l : node_list).

Class Cell (T : Type) := { put : T -> cell; get : cell -> option T; get_put : forall x, get (put x) = Some x }.

#[export] Instance cell_int : Cell Z := {| put := CInt; get c := match c with CInt x => Some x | _ => None end; get_put _ := eq_refl |}.
#[export] Instance cell_bool : Cell bool := {| put := CBool; get c := match c with CBool x => Some x | _ => None end; get_put _ := eq_refl |}.
#[export] Instance cell_bytes : Cell (list byte) := {| put := CBytes; get c := match c with CBytes x => Some x | _ => None end; get_put _ := eq_refl |}.
#[export] Instance cell_strings : Cell (list string) := {| put := CStrings; get c := match c with CStrings x => Some x | _ => None end; get_put _ := eq_refl |}.
#[export] Instance cell_map : Cell labels := {| put := CMap; get c := match c with CMap x => Some x | _ => None end; get_put _ := eq_refl |}.
#[export] Instance cell_owners : Cell (list owner_reference) := {| put := COwners; get c := match c with COwners x => Some x | _ => None end; get_put _ := eq_refl |}.
#[export] Instance cell_fields : Cell fields_v1 := {| put := CFields; get c := match c with CFields x => Some x | _ => None end; get_put _ := eq_refl |}.
#[export] Instance cell_managed : Cell (list managed_fields_entry) := {| put := CManaged; get c := match c with CManaged x => Some x | _ => None end; get_put _ := eq_refl |}.
#[export] Instance cell_stats : Cell CapacityStats := {| put := CStats; get c := match c with CStats x => Some x | _ => None end; get_put _ := eq_refl |}.
#[export] Instance cell_spec : Cell NodeSpec := {| put := CSpec; get c := match c with CSpec x => Some x | _ => None end; get_put _ := eq_refl |}.
#[export] Instance cell_status : Cell NodeStatus := {| put := CStatus; get c := match c with CStatus x => Some x | _ => None end; get_put _ := eq_refl |}.
#[export] Instance cell_node : Cell node := {| put := CNode; get c := match c with CNode x => Some x | _ => None end; get_put _ := eq_refl |}.
#[export] Instance cell_nodes : Cell (list node) := {| put := CNodes; get c := match c with CNodes x => Some x | _ => None end; get_put _ := eq_refl |}.
#[export] Instance cell_node_list : Cell node_list := {| put := CNodeList; get c := match c with CNodeList x => Some x | _ => None end; get_put _ := eq_refl |}.

Notation heap := (gmap loc cell).

(** Computations on the heap; [None] is a dangling pointer. *)
Definition M (A : Type) : Type := heap -> option (A * heap).

#[export] Instance M_ret : MRet M := fun A a h => Some (a, h).
#[export] Instance M_bind : MBind M := fun A B k m h => match m h with Some (a, h') => k a h' | None => None end.

Definition load {T} `{Cell T} (l : loc) : M T := fun h => match h !! l ≫= get with Some x => Some (x, h) | None => None end.

Definition alloc {T} `{Cell T} (x : T) : M (ptr T) := fun h => let l := fresh (dom h) in Some (At l, <[l := put x]> h).

(** ** The generated functions

    [DeepCopyInto] is given as what it writes to [*out]; [DeepCopy] allocates. *)

Definition copy_ptr {T} `{Cell T} (f : T -> M T) (p : ptr T) : M (ptr T) :=
  match p with
  | Nil => mret Nil
  | At l => x ← load l; y ← f x; alloc y
  end.

Fixpoint copy_slice {T} (f : T -> M T) (l : list T) : M (list T) :=
  match l with
  | [] => mret []
  | x :: l' => y ← f x; ys ← copy_slice f l'; mret (y :: ys)
  end.

(** [*out = *in]. *)
Definition assign {T} (x : T) : M T := mret x.

Section copies.
Context `{GoRange}.

(** The loop over a map. *)
Definition copy_map (m : labels) : M labels :=
  mret (copy_if (fun _ => true) (range m) ∅).

Definition OwnerReference_DeepCopyInto (o : owner_reference) : M owner_reference :=
  c ← copy_ptr assign (ow_Controller o);
  b ← copy_ptr assign (ow_BlockOwnerDeletion o);
  mret {| ow_reference := ow_reference o; ow_Controller := c; ow_BlockOwnerDeletion := b |}.

Definition FieldsV1_DeepCopyInto (f : fields_v1) : M fields_v1 :=
  r ← copy_ptr (copy_slice assign) (f_Raw f);
  mret {| f_Raw := r |}.

Definition ManagedFieldsEntry_DeepCopyInto (m : managed_fields_entry) : M managed_fields_entry :=
  t ← copy_ptr assign (mf_Time m);
  f ← copy_ptr FieldsV1_DeepCopyInto (mf_FieldsV1 m);
  mret {| mf_Manager := mf_Manager m; mf_Operation := mf_Operation m; mf_APIVersion := mf_APIVersion m;
          mf_FieldsType := mf_FieldsType m; mf_Time := t; mf_FieldsV1 := f |}.

Definition ObjectMeta_DeepCopyInto (m : object_meta) : M object_meta :=
  dt ← copy_ptr assign (om_DeletionTimestamp m);
  gp ← copy_ptr assign (om_DeletionGracePeriodSeconds m);
  ls ← copy_ptr copy_map (om_labels m);
  an ← copy_ptr copy_map (om_annotations m);
  ow ← copy_ptr (copy_slice OwnerReference_DeepCopyInto) (om_ownerReferences m);
  fi ← copy_ptr (copy_slice assign) (om_Finalizers m);
  mf ← copy_ptr (copy_slice ManagedFieldsEntry_DeepCopyInto) (om_ManagedFields m);
  mret {| om_scalars := om_scalars m; om_DeletionTimestamp := dt; om_DeletionGracePeriodSeconds := gp;
          om_labels := ls; om_annotations := an; om_ownerReferences := ow; om_Finalizers := fi; om_ManagedFields := mf |}.

Definition ListMeta_DeepCopyInto (m : list_meta) : M list_meta :=
  r ← copy_ptr assign (lm_RemainingItemCount m);
  mret {| lm_SelfLink := lm_SelfLink m; lm_ResourceVersion := lm_ResourceVersion m; lm_Continue := lm_Continue m;
          lm_RemainingItemCount := r |}.

Definition CapacityStats_DeepCopyInto (s : CapacityStats) : M CapacityStats := mret s.
Definition CapacityStats_DeepCopy : ptr CapacityStats -> M (ptr CapacityStats) := copy_ptr CapacityStats_DeepCopyInto.

Definition Node_DeepCopyInto (n : node) : M node :=
  m ← ObjectMeta_DeepCopyInto (node_ObjectMeta n);
  mret {| node_TypeMeta := node_TypeMeta n; node_ObjectMeta := m; node_Spec := node_Spec n; node_Status := node_Status n |}.
Definition Node_DeepCopy : ptr node -> M (ptr node) := copy_ptr Node_DeepCopyInto.

(** An object of the runtime: [nil], or a pointer. *)
Definition Node_DeepCopyObject (n : ptr node) : M (option (ptr node)) :=
  c ← Node_DeepCopy n;
  match c with Nil => mret None | At _ => mret (Some c) end.

Definition NodeList_DeepCopyInto (l : node_list) : M node_list :=
  m ← ListMeta_DeepCopyInto (nl_ListMeta l);
  items ← copy_ptr (copy_slice Node_DeepCopyInto) (nl_Items l);
  mret {| nl_TypeMeta := nl_TypeMeta l; nl_ListMeta := m; nl_Items := items |}.
Definition NodeList_DeepCopy : ptr node_list -> M (ptr node_list) := copy_ptr NodeList_DeepCopyInto.

Definition NodeList_DeepCopyObject (l : ptr node_list) : M (option (ptr node_list)) :=
  c ← NodeList_DeepCopy l;
  match c with Nil => mret None | At _ => mret (Some c) end.

Definition NodeSpec_DeepCopyInto (s : NodeSpec) : M NodeSpec := mret s.
Definition NodeSpec_DeepCopy : ptr NodeSpec -> M (ptr NodeSpec) := copy_ptr NodeSpec_DeepCopyInto.

Definition NodeStatus_DeepCopyInto (s : NodeStatus) : M NodeStatus :=
  mret {| st_Health := st_Health s; st_Capacity := st_Capacity s |}.
Definition NodeStatus_DeepCopy : ptr NodeStatus -> M (ptr NodeStatus) := copy_ptr NodeStatus_DeepCopyInto.
End copies.

(** ** What an object means

    Its value, with everything it refers to, and the places it is spread over. *)

Class Deep (T V : Type) := {
  value : heap -> T -> option V;
  places : heap -> T -> gset loc;
  deep_local : forall h h' x v, value h x = Some v -> (forall l, l ∈ places h x -> h' !! l = h !! l) ->
    value h' x = Some v /\ places h' x = places h x;
  places_dom : forall h x v, value h x = Some v -> places h x ⊆ dom h;
}.
#[global] Hint Mode Deep ! - : typeclass_instances.

Lemma deep_mono {T V} `{Deep T V} (h h' : heap) (x : T) (v : V) :
  h ⊆ h' -> value h x = Some v -> value h' x = Some v /\ places h' x = places h x.
Proof.
  intros Hh Hv. apply deep_local; [done|]. intros l Hl. apply (places_dom _ _ _ Hv) in Hl.
  apply elem_of_dom in Hl as [c Hc]. rewrite Hc. by eapply lookup_weaken.
Qed.

(** Data without references. *)
Definition flat T : Deep T T.
Proof. refine {| value h x := Some x; places h x := ∅ |}; [done|set_solver]. Defined.

#[export] Instance deep_int : Deep Z Z := flat Z.
#[export] Instance deep_bool : Deep bool bool := flat bool.
#[export] Instance deep_byte : Deep byte byte := flat byte.
#[export] Instance deep_string : Deep string string := flat string.
#[export] Instance deep_map : Deep labels labels := flat labels.
#[export] Instance deep_stats : Deep CapacityStats CapacityStats := flat _.
#[export] Instance deep_spec : Deep NodeSpec NodeSpec := flat _.
#[export] Instance deep_status : Deep NodeStatus NodeStatus := flat _.

(** Pointers. *)
#[export] Instance deep_ptr {T V} `{Cell T, Deep T V} : Deep (ptr T) (option V).
Proof.
  refine {| value h p := match p with Nil => Some None | At l => (h !! l ≫= @get T _) ≫= fun x => Some <$> value h x end;
            places h p := match p with Nil => ∅ | At l => {[l]} ∪ default ∅ (places h <$> (h !! l ≫= @get T _)) end |}.
  - intros h h' [|l] v; [done|]. intros Hv Hl. rewrite (Hl l) by set_solver. revert Hv Hl.
    destruct (h !! l ≫= get) as [x|]; simpl; [|done]. destruct (value h x) as [w|] eqn:Ev; simpl; [|done]. intros Hv Hl.
    destruct (deep_local h h' x w Ev) as [-> ->]; [|done]. intros l' Hl'. apply Hl. set_solver.
  - intros h [|l] v; [set_solver|]. destruct (h !! l) as [c|] eqn:E; simpl; [|done]. destruct (get c) as [x|]; simpl; [|done].
    destruct (value h x) as [w|] eqn:Ev; simpl; [|done]. intros _. apply places_dom in Ev. apply elem_of_dom_2 in E. set_solver.
Defined.

(** Slices. *)
#[export] Instance deep_list {T V} `{Deep T V} : Deep (list T) (list V).
Proof.
  refine {| value h l := mapM (value h) l; places h l := foldr (fun x s => places h x ∪ s) ∅ l |}.
  - intros h h' l vs. rewrite !mapM_Some. induction 1 as [|x v l vs Hx _ IH]; cbn [foldr]; [by split; [constructor|]|].
    intros Hl. destruct (deep_local h h' x v Hx) as [Hx' Hp]; [intros; apply Hl; set_solver|].
    destruct IH as [IH1 IH2]; [intros; apply Hl; set_solver|]. rewrite Hp, IH2. split; [by constructor|done].
  - intros h l vs. rewrite mapM_Some. induction 1 as [|x v l vs Hx _ IH]; cbn [foldr]; [set_solver|]. apply places_dom in Hx. set_solver.
Defined.

(** Structures: the value of each field, and the places of all. *)
Definition struct {T T' V} `{Deep T' V} (fields : T -> T') : Deep T V.
Proof.
  refine {| value h x := value h (fields x); places h x := places h (fields x) |}.
  - intros h h' x v. apply deep_local.
  - intros h x v. apply places_dom.
Defined.

#[export] Instance deep_pair {A B V W} `{Deep A V, Deep B W} : Deep (A * B) (V * W).
Proof.
  refine {| value h x := v ← value h x.1; w ← value h x.2; Some (v, w); places h x := places h x.1 ∪ places h x.2 |}.
  - intros h h' [a b] v. simpl. destruct (value h a) as [va|] eqn:Ea, (value h b) as [vb|] eqn:Eb; simpl; try done.
    intros Hv Hl. destruct (deep_local h h' a va Ea) as [-> ->]; [intros; apply Hl; set_solver|].
    destruct (deep_local h h' b vb Eb) as [-> ->]; [intros; apply Hl; set_solver|]. done.
  - intros h [a b] v. simpl. destruct (value h a) as [va|] eqn:Ea, (value h b) as [vb|] eqn:Eb; simpl; try done.
    apply places_dom in Ea, Eb. set_solver.
Defined.

#[export] Instance deep_reference : Deep OwnerReference OwnerReference := flat _.
#[export] Instance deep_scalars : Deep meta_scalars meta_scalars := flat _.
#[export] Instance deep_type_meta : Deep TypeMeta TypeMeta := flat _.

#[export] Instance deep_owner : Deep owner_reference _ :=
  struct (fun o => (ow_reference o, ow_Controller o, ow_BlockOwnerDeletion o)).
#[export] Instance deep_fields : Deep fields_v1 _ := struct f_Raw.
#[export] Instance deep_managed : Deep managed_fields_entry _ :=
  struct (fun m => (mf_Manager m, mf_Operation m, mf_APIVersion m, mf_FieldsType m, mf_Time m, mf_FieldsV1 m)).
#[export] Instance deep_object_meta : Deep object_meta _ :=
  struct (fun m => (om_scalars m, om_DeletionTimestamp m, om_DeletionGracePeriodSeconds m, om_labels m, om_annotations m,
                    om_ownerReferences m, om_Finalizers m, om_ManagedFields m)).
#[export] Instance deep_list_meta : Deep list_meta _ :=
  struct (fun m => (lm_SelfLink m, lm_ResourceVersion m, lm_Continue m, lm_RemainingItemCount m)).
#[export] Instance deep_node : Deep node _ :=
  struct (fun n => (node_TypeMeta n, node_ObjectMeta n, node_Spec n, node_Status n)).
#[export] Instance deep_node_list : Deep node_list _ :=
  struct (fun l => (nl_TypeMeta l, nl_ListMeta l, nl_Items l)).

(** ** What a copy is *)

(** [y] has the value [v], and lies in places that [h0] does not have. *)
Definition is_copy {T V} `{Deep T V} (h0 h : heap) (v : V) (y : T) : Prop :=
  value h y = Some v /\ places h y ## dom h0.

(** A computation that succeeds and only adds to the heap. *)
Definition grows {A} (h : heap) (m : M A) (Q : A -> heap -> Prop) : Prop :=
  exists a h', m h = Some (a, h') /\ h ⊆ h' /\ Q a h'.

(** A function copies: its result is a copy of its argument. *)
Definition copies {T V} `{Deep T V} (f : T -> M T) : Prop :=
  forall h x v, value h x = Some v -> grows h (f x) (fun y h' => is_copy h h' v y).

Lemma grows_ret {A} h (a : A) (Q : A -> heap -> Prop) : Q a h -> grows h (mret a) Q.
Proof. intros. by exists a, h. Qed.

Lemma grows_bind {A B} h (m : M A) (k : A -> M B) Q Q' :
  grows h m Q -> (forall a h', h ⊆ h' -> Q a h' -> grows h' (k a) Q') -> grows h (m ≫= k) Q'.
Proof.
  intros (a & h' & Hm & Hh & HQ) Hk. destruct (Hk a h' Hh HQ) as (b & h'' & Hb & Hh' & HQ').
  exists b, h''. split_and!; [|by trans h'|done]. unfold mbind, M_bind. by rewrite Hm.
Qed.

Section rules.
Context {T V : Type} `{Deep T V}.

Lemma is_copy_mono h0 h1 h h' v (y : T) : h0 ⊆ h1 -> h ⊆ h' -> is_copy h1 h v y -> is_copy h0 h' v y.
Proof.
  intros H01 Hh [Hv Hp]. destruct (deep_mono _ _ _ _ Hh Hv) as [Hv' Hp']. split; [done|].
  rewrite Hp'. apply subseteq_dom in H01. set_solver.
Qed.

Lemma copies_slice (f : T -> M T) : copies f -> copies (copy_slice f).
Proof.
  intros Hf h l. revert h. induction l as [|x l IH]; intros h vs Hv; cbn [copy_slice].
  - apply grows_ret. split; [done|set_solver].
  - simpl in Hv. destruct (value h x) as [v|] eqn:Ev; [|done]. destruct (mapM (value h) l) as [vs'|] eqn:El; [|done].
    injection Hv as <-. eapply grows_bind; [apply Hf, Ev|]. intros y h1 Hh1 Hy.
    eapply grows_bind; [apply IH; exact (proj1 (deep_mono (T := list T) h h1 l vs' Hh1 El))|]. intros ys h2 Hh2 [Hys Hps].
    apply grows_ret. apply (is_copy_mono h h h1 h2 v) in Hy as [Hy Hp]; [|done..]. apply subseteq_dom in Hh1.
    split; simpl in *; [by rewrite Hy, Hys|]. set_solver.
Qed.

Lemma copies_ptr `{Cell T} (f : T -> M T) : copies f -> copies (copy_ptr f).
Proof.
  intros Hf h [|l] vs Hv; simpl in Hv.
  - apply grows_ret. simplify_eq. split; [done|set_solver].
  - destruct (h !! l ≫= get) as [x|] eqn:Ex; simpl in Hv; [|done]. destruct (value h x) as [v|] eqn:Ev; [|done].
    simplify_eq/=. eapply (grows_bind h (load l) _ (fun a h' => a = x /\ h' = h)).
    { exists x, h. unfold load. by rewrite Ex. }
    intros ? ? _ [-> ->]. eapply grows_bind; [apply Hf, Ev|]. intros y h1 Hh1 [Hy Hp].
    set (k := fresh (dom h1)). assert (Hk : h1 !! k = None) by (apply not_elem_of_dom, is_fresh).
    assert (Hh2 : h1 ⊆ <[k := put y]> h1) by (by apply insert_subseteq).
    destruct (deep_mono _ _ _ _ Hh2 Hy) as [Hy2 Hp2].
    exists (At k), (<[k := put y]> h1). split_and!; [done|done|]. split; simpl; rewrite lookup_insert_eq; simpl; rewrite get_put; simpl.
    + by rewrite Hy2.
    + rewrite Hp2. apply subseteq_dom in Hh1. apply not_elem_of_dom in Hk. set_solver.
Qed.
End rules.

Lemma copies_assign T : @copies T T (flat T) assign.
Proof. intros h x v [= <-]. apply grows_ret. split; [done|simpl; set_solver]. Qed.

(** The next field of a structure. *)
Lemma grows_copy {T V B} `{Deep T V} (f : T -> M T) (k : T -> M B) h0 h x v Q :
  copies f -> h0 ⊆ h -> value h0 x = Some v ->
  (forall y h', h ⊆ h' -> h0 ⊆ h' -> is_copy h0 h' v y -> grows h' (k y) Q) -> grows h (f x ≫= k) Q.
Proof.
  intros Hf Hh Hv Hk. eapply grows_bind; [apply Hf; exact (proj1 (deep_mono _ _ _ _ Hh Hv))|].
  intros y h' Hh' Hy. apply Hk; [done|by trans h|]. by apply (is_copy_mono h0 h h' h').
Qed.

(** The fields of a structure. *)
Lemma value_pair {A B V W} `{Deep A V, Deep B W} h (a : A) (b : B) v :
  value h (a, b) = Some v -> exists va vb, v = (va, vb) /\ value h a = Some va /\ value h b = Some vb.
Proof. simpl. destruct (value h a), (value h b); simpl; try done. intros [= <-]. eauto. Qed.

Lemma is_copy_pair {A B V W} `{Deep A V, Deep B W} h0 h (a : A) (b : B) va vb :
  is_copy h0 h va a -> is_copy h0 h vb b -> is_copy h0 h (va, vb) (a, b).
Proof. intros [Ha Hpa] [Hb Hpb]. split; simpl; [by rewrite Ha, Hb|set_solver]. Qed.

Lemma is_copy_flat {T} h0 h (x v : T) : v = x -> @is_copy T T (flat T) h0 h v x.
Proof. intros ->. split; [done|simpl; set_solver]. Qed.

Ltac expose H := cbv delta [deep_owner deep_fields deep_managed deep_object_meta deep_list_meta deep_node deep_node_list] in H.

(** Split the value of a structure into those of its fields. *)
Ltac split_value H :=
  expose H;
  match type of H with @value _ _ (struct ?f) ?h ?x = Some ?v => change (value h (f x) = Some v) in H; cbn beta in H end;
  repeat match goal with
  | H : value _ (_, _) = Some _ |- _ => apply value_pair in H as (? & ? & -> & ? & ?)
  end.

Ltac lift_copies :=
  repeat match goal with
  | Hc : is_copy ?h0 ?h ?v ?y, Hs : ?h ⊆ ?h' |- _ => apply (is_copy_mono h0 h0 h h') in Hc; [|done|exact Hs]
  end.

(** All fields are copied: so is the structure. *)
Ltac copied :=
  lift_copies; apply grows_ret;
  match goal with |- @is_copy _ _ ?D ?h0 ?h ?v ?y =>
    let D' := eval cbv delta [deep_owner deep_fields deep_managed deep_object_meta deep_list_meta deep_node deep_node_list] in D in
    match D' with struct ?f => change (is_copy h0 h v (f y)); cbn beta end end;
  repeat apply is_copy_pair; try assumption; apply is_copy_flat; by simplify_eq/=.

(** The next field. *)
Ltac copy_field h H :=
  eapply (grows_copy _ _ h); [eauto with deepcopy|done|eassumption|]; intros ? ? ? ? ?.

Create HintDb deepcopy.
#[export] Hint Resolve copies_ptr copies_slice : deepcopy.
#[export] Hint Extern 1 (copies assign) => apply copies_assign : deepcopy.

Section generated.
Context `{GoRange}.

Lemma copies_map : copies copy_map.
Proof.
  intros h m v [= <-]. apply grows_ret. split; [|simpl; set_solver]. simpl. f_equal. rewrite copy_if_range.
  rewrite (right_id_L ∅ (∪)). apply map_filter_id. done.
Qed.
#[local] Hint Resolve copies_map : deepcopy.

(** A structure: follow the binds. *)
Tactic Notation "copy_struct" reference(f) :=
  let h := fresh "h" in let x := fresh "x" in let v := fresh "v" in let Hv := fresh "Hv" in
  intros h x v Hv; unfold f; split_value Hv; repeat copy_field h h; copied.

Lemma copies_owner : copies OwnerReference_DeepCopyInto.
Proof. copy_struct OwnerReference_DeepCopyInto. Qed.
#[local] Hint Resolve copies_owner : deepcopy.

Lemma copies_fields : copies FieldsV1_DeepCopyInto.
Proof. copy_struct FieldsV1_DeepCopyInto. Qed.
#[local] Hint Resolve copies_fields : deepcopy.

Lemma copies_managed : copies ManagedFieldsEntry_DeepCopyInto.
Proof. copy_struct ManagedFieldsEntry_DeepCopyInto. Qed.
#[local] Hint Resolve copies_managed : deepcopy.

Lemma copies_object_meta : copies ObjectMeta_DeepCopyInto.
Proof. copy_struct ObjectMeta_DeepCopyInto. Qed.
#[local] Hint Resolve copies_object_meta : deepcopy.

Lemma copies_list_meta : copies ListMeta_DeepCopyInto.
Proof. copy_struct ListMeta_DeepCopyInto. Qed.
#[local] Hint Resolve copies_list_meta : deepcopy.

Lemma copies_node : copies Node_DeepCopyInto.
Proof. copy_struct Node_DeepCopyInto. Qed.
#[local] Hint Resolve copies_node : deepcopy.

Lemma copies_node_list : copies NodeList_DeepCopyInto.
Proof. copy_struct NodeList_DeepCopyInto. Qed.
#[local] Hint Resolve copies_node_list : deepcopy.
End generated.

(** [c], in the heap [h'], is a copy of [x] that shares nothing with it: the
    copy has the value [v] of the original, the heap was only added to, and
    whatever is written in the places of one leaves the other as it is. *)
Definition independent {T V} `{Deep T V} (h : heap) (x : T) (v : V) (c : T) (h' : heap) : Prop :=
  h ⊆ h' /\ value h' c = Some v /\ places h' c ## places h' x /\
  (forall h'', (forall l, l ∉ places h' c -> h'' !! l = h' !! l) -> value h'' x = Some v) /\
  (forall h'', (forall l, l ∉ places h' x -> h'' !! l = h' !! l) -> value h'' c = Some v).

Lemma copies_independent {T V} `{Deep T V} (f : T -> M T) h x v :
  copies f -> value h x = Some v -> exists c h', f x h = Some (c, h') /\ independent h x v c h'.
Proof.
  intros Hf Hv. destruct (Hf h x v Hv) as (c & h' & Hc & Hh & Hvc & Hp). exists c, h'. split; [done|].
  destruct (deep_mono _ _ _ _ Hh Hv) as [Hv' Hpx]. pose proof (places_dom _ _ _ Hv) as Hdom.
  assert (Hdisj : places h' c ## places h' x) by (rewrite Hpx; set_solver).
  split_and!; [done..| |]; intros h'' Heq; eapply deep_local; [exact Hv'| |exact Hvc|]; intros l Hl; apply Heq; set_solver.
Qed.

(** Only nil is copied to nil. *)
Lemma copy_ptr_nil {T} `{Cell T} (f : T -> M T) p h c h' :
  copy_ptr f p h = Some (c, h') ->
  (match c with Nil => mret None | At _ => mret (Some c) end : M (option (ptr T))) h' = Some (if p then None else Some c, h').
Proof.
  destruct p as [|l]; simpl; [by intros [= <- <-]|]. unfold mbind, M_bind. destruct (load l h) as [[x h1]|]; [|done].
  destruct (f x h1) as [[y h2]|]; [|done]. by intros [= <- <-].
Qed.

(** C29. [DeepCopy] of a Node and of a list of Nodes: from any heap in which the
    original has a value, with every map, slice and pointer of its metadata,
    the copy succeeds, has the same value, and shares nothing with the
    original: the heap is only added to, and no write to the places of the copy
    changes the original, nor the other way round.  [DeepCopyObject] gives the
    same copy, and nil only for nil. *)
Theorem DeepCopy_independent `{GoRange} h (n : ptr node) v (l : ptr node_list) w :
  value h n = Some v -> value h l = Some w ->
  (exists c h', Node_DeepCopy n h = Some (c, h') /\ independent h n v c h' /\
     Node_DeepCopyObject n h = Some (if n then None else Some c, h')) /\
  (exists c h', NodeList_DeepCopy l h = Some (c, h') /\ independent h l w c h' /\
     NodeList_DeepCopyObject l h = Some (if l then None else Some c, h')).
Proof.
  intros Hv Hw. split.
  - destruct (copies_independent _ _ _ _ (copies_ptr _ copies_node) Hv) as (c & h' & Hc & Hi). exists c, h'. split_and!; [done|done|].
    unfold Node_DeepCopyObject, Node_DeepCopy, mbind, M_bind. rewrite Hc. exact (copy_ptr_nil _ _ _ _ _ Hc).
  - destruct (copies_independent _ _ _ _ (copies_ptr _ copies_node_list) Hw) as (c & h' & Hc & Hi). exists c, h'. split_and!; [done|done|].
    unfold NodeList_DeepCopyObject, NodeList_DeepCopy, mbind, M_bind. rewrite Hc. exact (copy_ptr_nil _ _ _ _ _ Hc).
Qed.

(** A node with labels and an owner, alone and in a list. *)
Definition example_meta : object_meta := {|
  om_scalars := {| ms_Name := "n1"; ms_GenerateName := ""; ms_Namespace := ""; ms_SelfLink := ""; ms_UID := "u";
                   ms_ResourceVersion := "7"; ms_Generation := 1%Z; ms_CreationTimestamp := 0%Z; ms_ClusterName := "" |};
  om_DeletionTimestamp := Nil; om_DeletionGracePeriodSeconds := Nil;
  om_labels := At 1%positive; om_annotations := Nil; om_ownerReferences := At 2%positive; om_Finalizers := Nil; om_ManagedFields := Nil;
|}.

Definition example_node : node := {|
  node_TypeMeta := {| tm_Kind := "Node"; tm_APIVersion := "storageos.com/v1" |}; node_ObjectMeta := example_meta;
  node_Spec := {| IoEndpoint := ""; SupervisorEndpoint := ""; GossipEndpoint := ""; ClusteringEndpoint := "" |};
  node_Status := {| st_Health := NodeHealthOnline; st_Capacity := {| cap_Total := 3%Z; cap_Free := 2%Z; cap_Available := 1%Z |} |};
|}.

Definition example_heap : heap := {[
  1 := CMap {["zone" := "a"]};
  2 := COwners [{| ow_reference := {| or_APIVersion := "v1"; or_Kind := "Node"; or_Name := "n1"; or_UID := "x" |};
                   ow_Controller := At 3%positive; ow_BlockOwnerDeletion := Nil |}];
  3 := CBool true;
  4 := CNode example_node;
  5 := CNodes [example_node; example_node];
  6 := CNodeList {| nl_TypeMeta := {| tm_Kind := "NodeList"; tm_APIVersion := "storageos.com/v1" |};
                    nl_ListMeta := {| lm_SelfLink := ""; lm_ResourceVersion := ""; lm_Continue := ""; lm_RemainingItemCount := Nil |};
                    nl_Items := At 5%positive |} ]}%positive.

(** A label of the copy is changed: the original keeps its own. *)
Lemma DeepCopy_independent_witness :
  exists v c h', value example_heap (At 4%positive : ptr node) = Some v /\
    Node_DeepCopy (H := range_default) (At 4%positive) example_heap = Some (c, h') /\
    forall l m, l ∈ places h' c -> value (<[l := CMap m]> h') (At 4%positive : ptr node) = Some v.
Proof.
  destruct (value example_heap (At 4%positive : ptr node)) as [v|] eqn:Hv; [|vm_compute in Hv; discriminate Hv].
  destruct (value example_heap (At 6%positive : ptr node_list)) as [w|] eqn:Hw; [|vm_compute in Hw; discriminate Hw].
  destruct (DeepCopy_independent (H := range_default) example_heap (At 4%positive) v (At 6%positive) w Hv Hw) as [(c & h' & Hc & Hi & _) _].
  exists v, c, h'. split_and!; [reflexivity|exact Hc|]. intros l m Hl. apply Hi. intros l' Hl'. rewrite lookup_insert_ne; [done|set_solver].
Defined.
