(* ===== verification/Effects.v ===== *)
(** * Programs and their environment

    A handler of the program is a value of type [prog A]: a tree of calls to
    the environment (the StorageOS control plane, the Kubernetes API server,
    the metrics registry, the random source, files and the clock) ending in a
    result or in a Go run-time panic.  None of that environment is defined
    here: a theorem quantifies over every answer it may give ([wp]), or over
    every environment satisfying named laws ([exec]). *)

From Stdlib Require Import ZArith.
From S2P Require Import Prelude GoLib Errors Types.

(** ** Requests to the control plane *)

(** The part of a [context.Context] the client sets: the access token. *)
Record Ctx := { access_token : option string }.

(** [context.Background()]. *)
Definition background : Ctx := {| access_token := None |}.

Record UpdateNodeData := { und_Labels : gomap; und_Version : string }.
Record SetComputeOnlyNodeData := { sco_ComputeOnly : bool; sco_Version : string }.
Record UpdateVolumeData := { uvd_Labels : gomap; uvd_Version : string }.
Record SetReplicasRequest := { srr_Replicas : Z; srr_Version : string }.
Record SetFailureModeRequest := {
  sfm_Mode : string; sfm_FailureThreshold : Z; sfm_Version : string;
}.
Record NfsVolumeMountEndpoint := { nve_MountEndpoint : string; nve_Version : string }.

(** What a call of the generated client returns: value, HTTP response, error. *)
Definition api_res (A : Type) : Type := A * option response * option error.

(** What a call of the Kubernetes client returns. *)
Definition k8s_res (A : Type) : Type := A + error.

(** ** Calls *)

(** What [main] asks of the libraries and the operating system. *)
Inductive setup_call :=
  | InstallJaegerExporter (service : string)
  | TelemetryShutdown
  | Sleep (duration : Z)
  | StatFile (path : string)
  | NewManager (metricsAddr : string) (port : Z) (leaderElection : bool) (leaderElectionID : string)
  | NewUncachedClient
  | NewCertManager (certValidity certRefreshInterval : Z) (service secret : ObjectKey) (webhookConfigs : list ObjectKey)
  | CancelContext
  | GoRefresh (secretPath : string) (interval : Z)
  | AddRunnable (name : string)
  | GoSyncFunc (reconciler : string) (period startupSyncDelay : Z)
  | GoPollNodes (interval : Z)
  | IndexField (object field : string)
  | CompleteController (name : string) (workers : Z)
  | NewDecoder
  | RegisterWebhook (path : string) (mutators : list string)
  | StartManager.

(** What [os.Stat] says of a path. *)
Inductive stat_result := StatFound | StatNotExist (e : error) | StatFailed (e : error).

Definition setup_ret (c : setup_call) : Type :=
  match c with
  | InstallJaegerExporter _ | NewManager _ _ _ _ | NewUncachedClient | NewCertManager _ _ _ _ _
  | AddRunnable _ | IndexField _ _ | CompleteController _ _ | NewDecoder | StartManager => option error
  | StatFile _ => stat_result
  | TelemetryShutdown | Sleep _ | CancelContext | GoRefresh _ _ | GoSyncFunc _ _ _ | GoPollNodes _
  | RegisterWebhook _ _ => unit
  end.

Inductive call :=
  (* StorageOS control plane: the ControlPlane interface *)
  | CP_RefreshJwt (ctx : Ctx)
  | CP_AuthenticateUser (ctx : Ctx) (username password : string)
  | CP_ListNamespaces (ctx : Ctx)
  | CP_DeleteNamespace (ctx : Ctx) (id version : string)
  | CP_ListNodes (ctx : Ctx)
  | CP_UpdateNode (ctx : Ctx) (id : string) (data : UpdateNodeData)
  | CP_DeleteNode (ctx : Ctx) (id version : string)
  | CP_SetComputeOnly (ctx : Ctx) (id : string) (data : SetComputeOnlyNodeData)
  | CP_ListVolumes (ctx : Ctx) (namespaceID : string)
  | CP_GetVolume (ctx : Ctx) (namespaceID id : string)
  | CP_UpdateVolume (ctx : Ctx) (namespaceID id : string) (data : UpdateVolumeData)
  | CP_SetReplicas (ctx : Ctx) (namespaceID id : string) (data : SetReplicasRequest)
  | CP_SetFailureMode (ctx : Ctx) (namespaceID id : string) (data : SetFailureModeRequest)
  | CP_UpdateNFSVolumeMountEndpoint (ctx : Ctx) (namespaceID id : string) (data : NfsVolumeMountEndpoint)
  (* Kubernetes API server *)
  | K_GetNode (key : ObjectKey)
  | K_GetNamespace (key : ObjectKey)
  | K_GetPVC (key : ObjectKey)
  | K_GetPV (key : ObjectKey)
  | K_GetStorageClass (key : ObjectKey)
  | K_GetService (key : ObjectKey)
  | K_GetEndpoints (key : ObjectKey)
  | K_GetSecret (key : ObjectKey)
  | K_ListNodes
  | K_ListNamespaces
  | K_ListPVCs
  | K_ListStorageClasses
  | K_ListPodsOnNode (nodeName : string)
  | K_ListVolumeAttachmentsOnNode (nodeName : string)
  | K_CreateService (svc : Service)
  | K_CreateEndpoints (eps : Endpoints)
  | K_CreateSecret (s : Secret)
  | K_UpdateService (svc : Service)
  | K_UpdateEndpoints (eps : Endpoints)
  | K_UpdatePVC (pvc : PersistentVolumeClaim)
  | K_DeletePod (pod : Pod) (gracePeriodSeconds : Z)
  | K_DeleteVolumeAttachment (va : VolumeAttachment) (gracePeriodSeconds : Z)
  | K_Event (svc : Service) (eventtype reason message : string)
  (* conversions of the runtime scheme *)
  | SchemeConvert
  (* metrics registry *)
  | M_Increment (function : string) (err : option error)
  | M_Observe (function : string)
  | M_ObserveReconcile
  (* the node cache shared by the fencer's poller and its actions *)
  | CacheGetNode (key : string)
  (* files, random source, unique names, clock, ticks of a poller, api-reset channel *)
  | ReadFile (path : string)
  | RandRead (n : nat)
  | RandIntn (n : Z)
  | NewUUID
  | Now
  | PollTicks (interval timeout : Z)
  | SendAPIReset
  (* start of the process *)
  | Setup (c : setup_call).

Definition ret (c : call) : Type :=
  match c with
  | CP_RefreshJwt _ | CP_AuthenticateUser _ _ _ => api_res unit
  | CP_ListNamespaces _ => api_res (list Namespace)
  | CP_DeleteNamespace _ _ _ | CP_DeleteNode _ _ _ => api_res unit
  | CP_ListNodes _ => api_res (list Node)
  | CP_UpdateNode _ _ _ | CP_SetComputeOnly _ _ _ => api_res unit
  | CP_ListVolumes _ _ => api_res (list Volume)
  | CP_GetVolume _ _ _ => api_res Volume
  | CP_UpdateVolume _ _ _ _ | CP_SetReplicas _ _ _ _ | CP_SetFailureMode _ _ _ _ => api_res unit
  | CP_UpdateNFSVolumeMountEndpoint _ _ _ _ => api_res unit
  | K_GetNode _ => k8s_res K8sNode
  | K_GetNamespace _ => k8s_res K8sNamespace
  | K_ListNodes => k8s_res (list K8sNode)
  | K_ListNamespaces => k8s_res (list K8sNamespace)
  | K_ListPVCs => k8s_res (list PersistentVolumeClaim)
  | K_GetPVC _ => k8s_res PersistentVolumeClaim
  | K_GetPV _ => k8s_res PersistentVolume
  | K_GetStorageClass _ => k8s_res StorageClass
  | K_GetService _ => k8s_res Service
  | K_GetEndpoints _ => k8s_res Endpoints
  | K_GetSecret _ => k8s_res Secret
  | K_ListStorageClasses => k8s_res (list StorageClass)
  | K_ListPodsOnNode _ => k8s_res (list Pod)
  | K_ListVolumeAttachmentsOnNode _ => k8s_res (list VolumeAttachment)
  | K_CreateService _ | K_UpdateService _ => k8s_res Service
  | K_CreateEndpoints _ | K_UpdateEndpoints _ => k8s_res Endpoints
  | K_CreateSecret _ => k8s_res Secret
  | K_UpdatePVC _ => k8s_res PersistentVolumeClaim
  | K_DeletePod _ _ | K_DeleteVolumeAttachment _ _ => option error
  | K_Event _ _ _ _ => unit
  | SchemeConvert => option error
  | M_Increment _ _ | M_Observe _ | M_ObserveReconcile => unit
  | CacheGetNode _ => option NodeCR
  | ReadFile _ => k8s_res string
  | RandRead _ => k8s_res (list byte)
  | RandIntn _ => Z
  | NewUUID => k8s_res string
  | Now => Z
  | PollTicks _ _ => nat
  | SendAPIReset => unit
  | Setup c => setup_ret c
  end.

(** ** Programs *)

Inductive prog (A : Type) : Type :=
  | Ret (a : A)
  | Panic (msg : string)
  | Do (c : call) (k : ret c -> prog A).
Arguments Ret {A} a.
Arguments Panic {A} msg.
Arguments Do {A} c k.

Fixpoint pbind {A B} (f : A -> prog B) (p : prog A) : prog B :=
  match p with
  | Ret a => f a
  | Panic m => Panic m
  | Do c k => Do c (fun r => pbind f (k r))
  end.

#[export] Instance prog_ret : MRet prog := @Ret.
#[export] Instance prog_bind : MBind prog := @pbind.

(** One call. *)
Definition Call (c : call) : prog (ret c) := Do c Ret.

(** [defer]: a call that is made on return and on panic alike. *)
Fixpoint defer {A} (d : call) (p : prog A) : prog A :=
  match p with
  | Ret a => Do d (fun _ => Ret a)
  | Panic m => Do d (fun _ => Panic m)
  | Do c k => Do c (fun r => defer d (k r))
  end.

(** Return early on an error. *)
Definition try {A B} (p : prog (A + error)) (k : A -> prog (B + error)) : prog (B + error) :=
  r ← p; match r with inl a => k a | inr e => mret (inr e) end.

(** A loop over a list that threads an accumulator. *)
Fixpoint foldM {A B} (f : B -> A -> prog B) (l : list A) (b : B) : prog B :=
  match l with
  | [] => Ret b
  | a :: l' => b' ← f b a; foldM f l' b'
  end.

(** ** Every behaviour of the environment: weakest preconditions on traces *)

Inductive outcome (A : Type) := Done (a : A) | Panicked (msg : string).
Arguments Done {A} a.
Arguments Panicked {A} msg.

(** One call together with the answer it got. *)
Definition event : Type := { c : call & ret c }.
Definition trace : Type := list event.

(** [wp p tr Q]: started after the trace [tr], whatever the environment
    answers, [p] ends in an outcome that satisfies [Q] with the whole trace. *)
Fixpoint wp {A} (p : prog A) (tr : trace) (Q : trace -> outcome A -> Prop) : Prop :=
  match p with
  | Ret a => Q tr (Done a)
  | Panic m => Q tr (Panicked m)
  | Do c k => forall r : ret c, wp (k r) (tr ++ [existT c r]) Q
  end.

(** The form the theorems use: [Q] holds at the end of every run. *)
Definition every_run {A} (p : prog A) (Q : trace -> outcome A -> Prop) : Prop := wp p [] Q.

(** ** A given environment *)

Definition handler (W : Type) : Type := forall c : call, W -> ret c * W.

(** Run a program in an environment with state [W]. *)
Fixpoint exec {W A} (h : handler W) (p : prog A) (w : W) : outcome A * W * trace :=
  match p with
  | Ret a => (Done a, w, [])
  | Panic m => (Panicked m, w, [])
  | Do c k =>
      let '(r, w') := h c w in
      let '(o, w'', tr) := exec h (k r) w' in
      (o, w'', existT c r :: tr)
  end.

Definition exec_result {W A} (h : handler W) (p : prog A) (w : W) : outcome A := (exec h p w).1.1.
Definition exec_state {W A} (h : handler W) (p : prog A) (w : W) : W := (exec h p w).1.2.
Definition exec_trace {W A} (h : handler W) (p : prog A) (w : W) : trace := (exec h p w).2.

Section laws.
Context {A B : Type}.

Lemma wp_bind (p : prog A) (f : A -> prog B) tr Q :
  wp (p ≫= f) tr Q <->
  wp p tr (fun tr' o => match o with
                        | Done a => wp (f a) tr' Q
                        | Panicked m => Q tr' (Panicked m)
                        end).
Proof.
  revert tr. induction p as [a|m|c k IH]; intros tr; simpl; [done..|].
  split; intros H r; by apply IH.
Qed.

Lemma wp_mono (p : prog A) tr (Q Q' : trace -> outcome A -> Prop) :
  (forall tr' o, Q tr' o -> Q' tr' o) -> wp p tr Q -> wp p tr Q'.
Proof.
  intros HQ. revert tr. induction p as [a|m|c k IH]; intros tr; simpl; [by apply HQ..|].
  intros H r. by apply IH.
Qed.

Lemma wp_and (p : prog A) tr (Q Q' : trace -> outcome A -> Prop) :
  wp p tr Q -> wp p tr Q' -> wp p tr (fun tr' o => Q tr' o /\ Q' tr' o).
Proof.
  revert tr. induction p as [a|m|c k IH]; intros tr; simpl; [done..|].
  intros H1 H2 r. by apply IH.
Qed.

(** The trace only grows. *)
Lemma wp_shift (p : prog A) tr Q :
  wp p tr Q <-> wp p [] (fun tr' o => Q (tr ++ tr') o).
Proof.
  assert (forall tr0, wp p (tr ++ tr0) Q <-> wp p tr0 (fun tr' o => Q (tr ++ tr') o)) as Hgen.
  { induction p as [a|m|c k IH]; intros tr0; simpl; [done..|].
    split; intros H r.
    - apply IH. rewrite (assoc_L (++)). apply H.
    - rewrite <- (assoc_L (++)). apply IH. apply H. }
  rewrite <- (Hgen []). by rewrite app_nil_r.
Qed.

(** Soundness: what holds of every run holds of the run in any environment. *)
Lemma every_run_exec {W} (h : handler W) (p : prog A) (w : W) Q :
  every_run p Q -> Q (exec_trace h p w) (exec_result h p w).
Proof.
  unfold every_run, exec_trace, exec_result.
  assert (forall w tr, wp p tr Q -> Q (tr ++ (exec h p w).2) (exec h p w).1.1) as Hgen.
  { clear w. induction p as [a|m|c k IH]; intros w tr; simpl; [by rewrite app_nil_r..|].
    intros H. destruct (h c w) as [r w'].
    specialize (IH r w' _ (H r)). destruct (exec h (k r) w') as [[o w''] tr']. simpl in *.
    by rewrite <- (assoc_L (++)) in IH. }
  intros H. apply (Hgen w [] H).
Qed.

Lemma exec_bind {W} (h : handler W) (p : prog A) (f : A -> prog B) w :
  exec h (p ≫= f) w =
  match exec h p w with
  | (Done a, w', tr) => let '(o, w'', tr') := exec h (f a) w' in (o, w'', tr ++ tr')
  | (Panicked m, w', tr) => (Panicked m, w', tr)
  end.
Proof.
  revert w. induction p as [a|m|c k IH]; intros w; simpl.
  - by destruct (exec h (f a) w) as [[? ?] ?].
  - done.
  - destruct (h c w) as [r w']. change (mbind f) with (@pbind A B f) in IH. rewrite IH.
    destruct (exec h (k r) w') as [[[a|m] w''] tr']; [|done].
    by destruct (exec h (f a) w'') as [[? ?] ?].
Qed.
End laws.

(** ** Rules for [every_run] *)

Lemma every_run_mono {A} (p : prog A) (Q Q' : trace -> outcome A -> Prop) :
  every_run p Q -> (forall tr o, Q tr o -> Q' tr o) -> every_run p Q'.
Proof. intros Hp HQ. by eapply wp_mono. Qed.

Lemma every_run_and {A} (p : prog A) (Q Q' : trace -> outcome A -> Prop) :
  every_run p Q -> every_run p Q' -> every_run p (fun tr o => Q tr o /\ Q' tr o).
Proof. apply wp_and. Qed.

Lemma every_run_ret {A} (a : A) (Q : trace -> outcome A -> Prop) : Q [] (Done a) -> every_run (Ret a) Q.
Proof. done. Qed.

Lemma every_run_panic {A} m (Q : trace -> outcome A -> Prop) : Q [] (Panicked m) -> every_run (Panic m) Q.
Proof. done. Qed.

Lemma every_run_bind {A B} (p : prog A) (f : A -> prog B) Q :
  every_run (p ≫= f) Q <->
  every_run p (fun tr o => match o with
                           | Done a => every_run (f a) (fun tr' o' => Q (tr ++ tr') o')
                           | Panicked m => Q tr (Panicked m)
                           end).
Proof.
  unfold every_run. rewrite wp_bind. split; apply wp_mono; intros tr [a|m]; try done.
  - by rewrite wp_shift.
  - intros H. by rewrite wp_shift.
Qed.

Lemma every_run_call (c : call) (Q : trace -> outcome (ret c) -> Prop) :
  (forall r, Q [existT c r] (Done r)) -> every_run (Call c) Q.
Proof. intros H r. apply H. Qed.

Lemma every_run_defer {A} (d : call) (p : prog A) Q :
  every_run (defer d p) Q <-> every_run p (fun tr o => forall r, Q (tr ++ [existT d r]) o).
Proof.
  unfold every_run. generalize (@nil event).
  induction p as [a|m|c k IH]; intros tr; simpl; [done..|].
  split; intros H r; by apply IH.
Qed.

Lemma every_run_do {A} (c : call) (k : ret c -> prog A) Q :
  every_run (Do c k) Q <-> forall r, every_run (k r) (fun tr o => Q (existT c r :: tr) o).
Proof.
  unfold every_run. simpl. split; intros H r; specialize (H r);
    [rewrite wp_shift in H | rewrite wp_shift]; exact H.
Qed.

(** Sequencing with a specification of the first program. *)
Lemma every_run_seq {A B} (p : prog A) (f : A -> prog B) (P : trace -> outcome A -> Prop) Q :
  every_run p P ->
  (forall tr a, P tr (Done a) -> every_run (f a) (fun tr' o => Q (tr ++ tr') o)) ->
  (forall tr m, P tr (Panicked m) -> Q tr (Panicked m)) ->
  every_run (p ≫= f) Q.
Proof.
  intros Hp Hf Hm. apply every_run_bind. eapply every_run_mono; [exact Hp|].
  intros tr [a|m] HP; [by apply Hf | by apply Hm].
Qed.

Lemma every_run_all {A} (p : prog A) (Q : trace -> outcome A -> Prop) :
  (forall tr o, Q tr o) -> every_run p Q.
Proof.
  intros HQ. unfold every_run. generalize (@nil event).
  induction p as [a|m|c k IH]; intros tr; simpl; auto.
Qed.

(** A hypothesis of the postcondition that does not depend on the run may be
    assumed before it. *)
Lemma every_run_assume {A} (p : prog A) (P : Prop) Q :
  (P -> every_run p Q) -> every_run p (fun tr o => P -> Q tr o).
Proof.
  unfold every_run. generalize (@nil event). induction p as [a|m|c k IH]; intros tr; simpl; [done..|].
  intros H r. apply IH. intros HP. by apply H.
Qed.

(** A loop invariant: [I] relates what is left to do, the trace and the
    accumulator. *)
Lemma wp_foldM {A B} (f : B -> A -> prog B) (l : list A) (b : B) tr
    (I : list A -> trace -> B -> Prop) (Q : trace -> outcome B -> Prop) :
  I l tr b ->
  (forall a l' tr b, I (a :: l') tr b ->
     wp (f b a) tr (fun tr' o => match o with
                                 | Done b' => I l' tr' b'
                                 | Panicked m => Q tr' (Panicked m)
                                 end)) ->
  (forall tr b, I [] tr b -> Q tr (Done b)) ->
  wp (foldM f l b) tr Q.
Proof.
  intros HI Hstep Hend. revert tr b HI. induction l as [|a l IH]; intros tr b HI; simpl.
  { by apply Hend. }
  apply wp_bind. eapply wp_mono; [|by apply Hstep].
  intros tr' [b'|m] H; [by apply IH|done].
Qed.

(** An environment to start examples from: it accepts every change of the
    control plane, knows no object and no file. *)
Definition zero_volume : Volume :=
  {| v_Id := ""; v_Name := ""; v_NamespaceID := ""; v_Labels := None;
     v_NfsServiceEndpoint := None; v_MasterHealth := ""; v_Version := "" |}.

Definition plain_setup (c : setup_call) : setup_ret c :=
  match c return setup_ret c with
  | InstallJaegerExporter _ | NewManager _ _ _ _ | NewUncachedClient | NewCertManager _ _ _ _ _
  | AddRunnable _ | IndexField _ _ | CompleteController _ _ | NewDecoder | StartManager => None
  | StatFile _ => StatFound
  | TelemetryShutdown | Sleep _ | CancelContext | GoRefresh _ _ | GoSyncFunc _ _ _ | GoPollNodes _
  | RegisterWebhook _ _ => tt
  end.

Definition plain_answer (c : call) : ret c :=
  match c return ret c with
  | CP_RefreshJwt _ | CP_AuthenticateUser _ _ _ | CP_DeleteNamespace _ _ _ | CP_DeleteNode _ _ _
  | CP_UpdateNode _ _ _ | CP_SetComputeOnly _ _ _ | CP_UpdateVolume _ _ _ _ | CP_SetReplicas _ _ _ _
  | CP_SetFailureMode _ _ _ _ | CP_UpdateNFSVolumeMountEndpoint _ _ _ _ => (tt, None, None)
  | CP_ListNamespaces _ => ([], None, None)
  | CP_ListNodes _ => ([], None, None)
  | CP_ListVolumes _ _ => ([], None, None)
  | CP_GetVolume _ _ _ => (zero_volume, None, Some (Opaque ""))
  | K_GetNamespace _ | K_ListNodes | K_ListNamespaces | K_ListPVCs
  | K_GetNode _ | K_GetPVC _ | K_GetPV _ | K_GetStorageClass _ | K_GetService _ | K_GetEndpoints _
  | K_GetSecret _ | K_ListStorageClasses | K_ListPodsOnNode _ | K_ListVolumeAttachmentsOnNode _
  | K_CreateService _ | K_UpdateService _ | K_CreateEndpoints _ | K_UpdateEndpoints _ | K_CreateSecret _
  | K_UpdatePVC _ | ReadFile _ | RandRead _ => inr (Opaque "")
  | K_DeletePod _ _ | K_DeleteVolumeAttachment _ _ | SchemeConvert | CacheGetNode _ => None
  | K_Event _ _ _ _ | M_Increment _ _ | M_Observe _ | M_ObserveReconcile | SendAPIReset => tt
  | NewUUID => inl ""
  | Now | RandIntn _ => 0%Z
  | PollTicks _ _ => 0
  | Setup c => plain_setup c
  end.

(** ** Classes of calls *)

(** Calls that change the state of the control plane or of the cluster. *)
Definition mutates (c : call) : bool :=
  match c with
  | CP_DeleteNamespace _ _ _ | CP_UpdateNode _ _ _ | CP_DeleteNode _ _ _
  | CP_SetComputeOnly _ _ _ | CP_UpdateVolume _ _ _ _ | CP_SetReplicas _ _ _ _
  | CP_SetFailureMode _ _ _ _ | CP_UpdateNFSVolumeMountEndpoint _ _ _ _
  | K_CreateService _ | K_CreateEndpoints _ | K_CreateSecret _ | K_UpdateService _
  | K_UpdateEndpoints _ | K_UpdatePVC _ | K_DeletePod _ _ | K_DeleteVolumeAttachment _ _ => true
  | _ => false
  end.

(** The state-changing calls of a trace, in order. *)
Definition mutations (tr : trace) : list call := filter (fun c => mutates c = true) (map projT1 tr).

Lemma mutations_app tr1 tr2 : mutations (tr1 ++ tr2) = mutations tr1 ++ mutations tr2.
Proof. unfold mutations. by rewrite map_app, list.filter_app. Qed.

Lemma mutations_cons e tr :
  mutations (e :: tr) = (if mutates (projT1 e) then [projT1 e] else []) ++ mutations tr.
Proof.
  unfold mutations. simpl. rewrite filter_cons. destruct (mutates (projT1 e)) eqn:E;
    [rewrite decide_True by done | rewrite decide_False by done]; done.
Qed.

Create HintDb effects.
#[export] Hint Resolve wp_mono wp_and : effects.
Create Rewrite HintDb trace.
#[export] Hint Rewrite @mutations_app @mutations_cons : trace.

(** Symbolic execution: [run_steps] unfolds the binds, calls and case
    distinctions of a program under [every_run], naming the answers. *)
Ltac run_step :=
  lazymatch goal with
  | |- every_run (mbind _ _) _ => apply every_run_bind
  | |- every_run (pbind _ _) _ => apply every_run_bind
  | |- every_run (Call _) _ => apply every_run_call; intros
  | |- every_run (Do _ _) _ => apply every_run_do; intros
  | |- every_run (defer _ _) _ => apply every_run_defer
  | |- forall _ : ret _, _ => intro
  | |- every_run (mret _) _ => apply every_run_ret
  | |- every_run (Ret _) _ => apply every_run_ret
  | |- every_run (Panic _) _ => apply every_run_panic
  | |- every_run (match ?x with _ => _ end) _ => destruct x eqn:?
  | |- every_run (if ?x then _ else _) _ => destruct x eqn:?
  end.
Ltac run_steps := repeat (cbn beta iota; run_step); cbn beta iota.

(** ** Running in a given cluster *)

(** [runs h p r pl]: in the environment [h], [p] returns [r] having made the
    state-changing calls [pl]. *)
Definition runs {A} (h : handler unit) (p : prog A) (r : A) (pl : list call) : Prop :=
  exec_result h p tt = Done r /\ mutations (exec_trace h p tt) = pl.

Section runs_rules.
Context (h : handler unit).

Lemma runs_ret {A} (a : A) : runs h (mret a) a [].
Proof. done. Qed.

Lemma runs_bind {A B} (p : prog A) (f : A -> prog B) a b pl pl' :
  runs h p a pl -> runs h (f a) b pl' -> runs h (p ≫= f) b (pl ++ pl').
Proof.
  unfold runs, exec_result, exec_trace. rewrite exec_bind.
  destruct (exec h p tt) as [[o []] tr]. simpl. intros [-> Hm].
  destruct (exec h (f a) tt) as [[o' u'] tr']. simpl. intros [-> Hm'].
  by rewrite mutations_app, Hm, Hm'.
Qed.

(** A step that changes nothing. *)
Lemma runs_read {A B} (p : prog A) (f : A -> prog B) a b pl :
  runs h p a [] -> runs h (f a) b pl -> runs h (p ≫= f) b pl.
Proof. intros Hp Hf. by apply (runs_bind p f a b [] pl). Qed.

Lemma runs_call c :
  runs h (Call c) (h c tt).1 (if mutates c then [c] else []).
Proof.
  unfold runs, exec_result, exec_trace. simpl. destruct (h c tt) as [r []]. simpl. split; [done|].
  rewrite mutations_cons. simpl. by rewrite app_nil_r.
Qed.

Lemma runs_query {B} c (f : ret c -> prog B) b pl :
  mutates c = false -> runs h (f (h c tt).1) b pl -> runs h (Call c ≫= f) b pl.
Proof.
  intros Hc Hf. apply (runs_read (Call c) f (h c tt).1); [|done].
  pose proof (runs_call c) as H. by rewrite Hc in H.
Qed.

Lemma runs_change {B} c (f : ret c -> prog B) b pl :
  mutates c = true -> runs h (f (h c tt).1) b pl -> runs h (Call c ≫= f) b (c :: pl).
Proof.
  intros Hc Hf. apply (runs_bind (Call c) f (h c tt).1 b [c] pl); [|done].
  pose proof (runs_call c) as H. by rewrite Hc in H.
Qed.

Lemma runs_defer {A} d (p : prog A) a pl :
  mutates d = false -> runs h p a pl -> runs h (defer d p) a pl.
Proof.
  intros Hd. unfold runs, exec_result, exec_trace.
  enough (Hex : forall u, exists u' r, exec h (defer d p) u =
    ((exec h p u).1.1, u', (exec h p u).2 ++ [existT d r])).
  { destruct (Hex tt) as (u' & r & ->). simpl. intros [-> Hm]. split; [done|].
    rewrite mutations_app, mutations_cons, Hm. simpl. rewrite Hd. by rewrite !app_nil_r. }
  induction p as [x|m|c k IH]; intros u; simpl.
  - destruct (h d u) as [r u']. simpl. eauto.
  - destruct (h d u) as [r u']. simpl. eauto.
  - destruct (h c u) as [r u']. destruct (IH r u') as (u'' & r' & ->).
    destruct (exec h (k r) u') as [[o u3] tr]. simpl. eauto.
Qed.

Lemma runs_foldM {A B} (f : B -> A -> prog B) (g : B -> A -> B) l b :
  (forall b x, x ∈ l -> runs h (f b x) (g b x) []) -> runs h (foldM f l b) (foldl g b l) [].
Proof.
  revert b. induction l as [|x l IH]; intros b Hf; [apply runs_ret|]. cbn [foldM foldl].
  apply (runs_read _ _ (g b x)); [apply Hf; left|]. apply IH. intros. apply Hf. by right.
Qed.

End runs_rules.

(** ** Which changes a program may make, in every environment *)

(** Every state-changing call of every run satisfies [P]. *)
Definition changes (P : call -> Prop) {A} (p : prog A) : Prop :=
  every_run p (fun tr _ => Forall P (mutations tr)).

Section changes_rules.
Context (P : call -> Prop).

Lemma changes_ret {A} (a : A) : changes P (mret a).
Proof. constructor. Qed.

Lemma changes_panic {A} m : changes P (Panic m : prog A).
Proof. constructor. Qed.

Lemma changes_bind {A B} (p : prog A) (f : A -> prog B) :
  changes P p -> (forall a, changes P (f a)) -> changes P (p ≫= f).
Proof.
  intros Hp Hf. apply every_run_bind. eapply every_run_mono; [exact Hp|]. simpl.
  intros tr [a|m] Htr; [|done]. eapply every_run_mono; [apply Hf|]. simpl.
  intros tr' o Htr'. rewrite mutations_app. by apply Forall_app.
Qed.

Lemma changes_call c : (mutates c = true -> P c) -> changes P (Call c).
Proof.
  intros Hc r. simpl. rewrite mutations_cons. simpl. destruct (mutates c); constructor; auto.
Qed.

Lemma changes_defer {A} d (p : prog A) : mutates d = false -> changes P p -> changes P (defer d p).
Proof.
  intros Hd Hp. apply every_run_defer. eapply every_run_mono; [exact Hp|]. simpl. intros tr o Htr r.
  rewrite mutations_app, mutations_cons. simpl. rewrite Hd. by rewrite app_nil_r.
Qed.

Lemma changes_foldM {A B} (f : B -> A -> prog B) l b :
  (forall b x, x ∈ l -> changes P (f b x)) -> changes P (foldM f l b).
Proof.
  revert b. induction l as [|x l IH]; intros b Hf; [apply changes_ret|]. cbn [foldM].
  apply changes_bind; [apply Hf; left|]. intros b'. apply IH. intros. apply Hf. by right.
Qed.
End changes_rules.

(** Follow the structure of a program; the calls that change state remain. *)
Ltac changes_step :=
  lazymatch goal with
  | |- changes _ (mbind _ _) => apply changes_bind; [|intros]
  | |- changes _ (mret _) => apply changes_ret
  | |- changes _ (Ret _) => apply changes_ret
  | |- changes _ (Panic _) => apply changes_panic
  | |- changes _ (Call _) => apply changes_call; try discriminate
  | |- changes _ (defer _ _) => apply changes_defer; [done|]
  | |- changes _ (foldM _ _ _) => apply changes_foldM; intros
  | |- changes _ (match ?x with _ => _ end) => destruct x eqn:?
  | |- changes _ (if ?x then _ else _) => destruct x eqn:?
  end.
Ltac changes_steps := repeat (cbn beta iota; changes_step).

(** ** Running in an environment with state *)

(** [runs_to h p w r w' pl]: from the state [w], [p] returns [r] in the state
    [w'] having made the state-changing calls [pl]. *)
Definition runs_to {W A} (h : handler W) (p : prog A) (w : W) (r : A) (w' : W) (pl : list call) : Prop :=
  exists tr, exec h p w = (Done r, w', tr) /\ mutations tr = pl.

Section runs_to_rules.
Context {W : Type} (h : handler W).

Lemma runs_to_ret {A} (a : A) w : runs_to h (mret a) w a w [].
Proof. by exists []. Qed.

Lemma runs_to_bind {A B} (p : prog A) (f : A -> prog B) w a w1 pl b w2 pl' :
  runs_to h p w a w1 pl -> runs_to h (f a) w1 b w2 pl' -> runs_to h (p ≫= f) w b w2 (pl ++ pl').
Proof.
  intros (tr & Hp & Hm) (tr' & Hf & Hm'). exists (tr ++ tr'). rewrite exec_bind, Hp, Hf.
  by rewrite mutations_app, Hm, Hm'.
Qed.

Lemma runs_to_read {A B} (p : prog A) (f : A -> prog B) w a w1 b w2 pl :
  runs_to h p w a w1 [] -> runs_to h (f a) w1 b w2 pl -> runs_to h (p ≫= f) w b w2 pl.
Proof. intros Hp Hf. by apply (runs_to_bind p f w a w1 [] b w2 pl). Qed.

Lemma runs_to_call c w r w' :
  h c w = (r, w') -> runs_to h (Call c) w r w' (if mutates c then [c] else []).
Proof.
  intros Hc. eexists. simpl. rewrite Hc. split; [done|]. rewrite mutations_cons. simpl. by rewrite app_nil_r.
Qed.
End runs_to_rules.

(** ** Partial runs of a program *)

(** The program makes a call and is answered. *)
Definition makes {A} (p : prog A) (e : event) (p' : prog A) : Prop :=
  match p with
  | Do c k => exists r, e = existT c r /\ p' = k r
  | _ => False
  end.

(** What is left of a program after the calls of a trace. *)
Inductive ran {A} (p : prog A) : trace -> prog A -> Prop :=
  | ran_nil : ran p [] p
  | ran_snoc tr q e q' : ran p tr q -> makes q e q' -> ran p (tr ++ [e]) q'.

Lemma ran_wp {A} (p : prog A) tr q Q : ran p tr q -> every_run p Q -> wp q tr Q.
Proof.
  intros Hr Hp. induction Hr as [|tr q e q' _ IH Hm]; [done|].
  destruct q as [|?|c k]; [done..|]. destruct Hm as (r & -> & ->). apply IH.
Qed.

(** A finished run satisfies what every run satisfies. *)
Lemma ran_done {A} (p : prog A) tr a Q : ran p tr (Ret a) -> every_run p Q -> Q tr (Done a).
Proof. apply (ran_wp p tr (Ret a)). Qed.

Lemma ran_none {A} (p q : prog A) : ran p [] q -> q = p.
Proof. inversion 1 as [|tr ? ? ? ? ? Happ]; [done|by destruct tr]. Qed.

(** A run that has made a call began with one. *)
Lemma ran_head {A} (p : prog A) e tr q : ran p (e :: tr) q -> exists p', makes p e p' /\ ran p' tr q.
Proof.
  intros Hr. remember (e :: tr) as l eqn:El. revert e tr El.
  induction Hr as [|l q f q' Hr IH Hm]; intros e tr El; [done|].
  destruct l as [|e' l]; simplify_eq/=.
  - apply ran_none in Hr as ->. exists q'. split; [done|constructor].
  - destruct (IH _ _ eq_refl) as (p' & Hp' & Hl). exists p'. split; [done|by econstructor].
Qed.

(** A program that has returned makes no call. *)
Lemma ran_ret {A} (a b : A) tr : ran (Ret a) tr (Ret b) -> tr = [] /\ a = b.
Proof.
  destruct tr as [|e tr]; [by intros [= ->]%ran_none|]. by intros (? & [] & _)%ran_head.
Qed.

Lemma ran_call {A} c (f : ret c -> prog A) r tr q : ran (f r) tr q -> ran (Do c f) (existT c r :: tr) q.
Proof.
  induction 1 as [|tr q e q' _ IH Hm].
  - apply (ran_snoc _ []  (Do c f) _ _); [constructor|by exists r].
  - rewrite app_comm_cons. by econstructor.
Qed.

(** The run in a given environment. *)
Lemma ran_exec {A W} (h : handler W) (p : prog A) w a :
  exec_result h p w = Done a -> ran p (exec_trace h p w) (Ret a).
Proof.
  unfold exec_result, exec_trace. revert w. induction p as [b|m|c k IH]; intros w; simpl; [by intros [= ->]; constructor|done|].
  destruct (h c w) as [r w']. specialize (IH r w'). destruct (exec h (k r) w') as [[o w''] tr]. simpl in *.
  intros ->. by apply ran_call, IH.
Qed.

(** A finished run of two programs in sequence is a finished run of each. *)
Lemma ran_bind {A B} (p : prog A) (f : A -> prog B) tr b :
  ran (p ≫= f) tr (Ret b) -> exists tr1 a tr2, tr = tr1 ++ tr2 /\ ran p tr1 (Ret a) /\ ran (f a) tr2 (Ret b).
Proof.
  revert tr. induction p as [a|m|c k IH]; intros tr Hr.
  - exists [], a, tr. split_and!; [done|constructor|exact Hr].
  - destruct tr as [|e tr]; [by apply ran_none in Hr|]. by apply ran_head in Hr as (? & [] & _).
  - destruct tr as [|e tr]; [by apply ran_none in Hr|]. apply ran_head in Hr as (q & (r & -> & ->) & Hr).
    destruct (IH r tr Hr) as (tr1 & a & tr2 & -> & H1 & H2). exists (existT c r :: tr1), a, tr2.
    split_and!; [done|by apply ran_call|done].
Qed.

(** The run in full. *)
Lemma every_run_ran {A} (p : prog A) :
  every_run p (fun tr o => match o with Done a => ran p tr (Ret a) | Panicked _ => True end).
Proof.
  induction p as [a|m|c k IH]; [constructor|done|]. apply every_run_do. intros r.
  eapply every_run_mono; [apply (IH r)|]. intros tr [a|m]; [apply ran_call|done].
Qed.

(** ** Unique names *)

(** [uuid.New]: [Must(NewRandom())], a panic if the random source fails. *)
Definition uuid_New : prog string :=
  r ← Call NewUUID;
  match r with inl u => mret u | inr _ => Panic "uuid: random source" end.

