(* ===== verification/Labels.v ===== *)
(** * Reserved labels ([internal/pkg/storageos/labels.go], [internal/pkg/labels]) *)

From S2P Require Import Prelude GoLib.

Definition ReservedLabelPrefix : string := "storageos.com/".
Definition ReservedLabelComputeOnly : string := ReservedLabelPrefix +:+ "computeonly".
Definition ReservedLabelReplicas : string := ReservedLabelPrefix +:+ "replicas".
Definition ReservedLabelNoCache : string := ReservedLabelPrefix +:+ "nocache".
Definition ReservedLabelNoCompress : string := ReservedLabelPrefix +:+ "nocompress".
Definition ReservedLabelFailureMode : string := ReservedLabelPrefix +:+ "failure-mode".
Definition ReservedLabelEncryption : string := ReservedLabelPrefix +:+ "encryption".
Definition ReservedLabelFencing : string := ReservedLabelPrefix +:+ "fenced".
Definition ReservedLabelK8sPVCNamespace : string := "csi.storage.k8s.io/pvc/namespace".
Definition ReservedLabelK8sPVCName : string := "csi.storage.k8s.io/pvc/name".
Definition ReservedLabelK8sPVName : string := "csi.storage.k8s.io/pv/name".

Definition IsReservedLabel (key : string) : bool :=
  if HasPrefix key ReservedLabelPrefix then true
  else if bool_decide (key = ReservedLabelK8sPVCNamespace)
       || bool_decide (key = ReservedLabelK8sPVCName)
       || bool_decide (key = ReservedLabelK8sPVName) then true
  else false.

(** The labels of resources the api-manager creates. *)
Definition AppName : string := "app.kubernetes.io/name".
Definition AppComponent : string := "app.kubernetes.io/component".
Definition AppPartOf : string := "app.kubernetes.io/part-of".
Definition AppManagedBy : string := "app.kubernetes.io/managed-by".

Definition Default : labels :=
  {[ AppName := "storageos"; AppComponent := "storageos-api-manager";
     AppPartOf := "storageos"; AppManagedBy := "storageos-operator" ]}.

(** The two halves of a label map. *)
Definition reserved (m : labels) : labels := filter (fun kv => IsReservedLabel kv.1 = true) m.
Definition unreserved (m : labels) : labels := filter (fun kv => negb (IsReservedLabel kv.1) = true) m.

Lemma lookup_reserved m k :
  reserved m !! k = if IsReservedLabel k then m !! k else None.
Proof. apply lookup_filter_key. Qed.

Lemma lookup_unreserved m k :
  unreserved m !! k = if IsReservedLabel k then None else m !! k.
Proof.
  unfold unreserved. rewrite (lookup_filter_key (fun k => negb (IsReservedLabel k))).
  by destruct (IsReservedLabel k).
Qed.

#[export] Hint Rewrite lookup_reserved lookup_unreserved : golib.

(** The labels an update must carry: the unreserved labels wanted, and the
    reserved labels the object has now. *)
Definition merged (desired current : labels) : labels := reserved current ∪ unreserved desired.

Lemma lookup_merged desired current k :
  merged desired current !! k = if IsReservedLabel k then current !! k else desired !! k.
Proof.
  unfold merged. rewrite lookup_union, lookup_reserved, lookup_unreserved.
  destruct (IsReservedLabel k); [by destruct (current !! k) | by destruct (desired !! k)].
Qed.

Lemma unreserved_idemp m : unreserved (unreserved m) = unreserved m.
Proof.
  apply map_eq. intros k. rewrite !lookup_unreserved. by destruct (IsReservedLabel k).
Qed.

Lemma merged_unreserved desired current : merged (unreserved desired) current = merged desired current.
Proof. unfold merged. by rewrite unreserved_idemp. Qed.

(** An update changes nothing exactly when the unreserved labels agree. *)
Lemma merged_fixpoint desired current :
  current = merged desired current <-> unreserved current = unreserved desired.
Proof.
  split; intros Heq.
  - rewrite Heq. apply map_eq. intros k. rewrite !lookup_unreserved, lookup_merged.
    by destruct (IsReservedLabel k).
  - apply map_eq. intros k. rewrite lookup_merged.
    pose proof (f_equal (lookup k) Heq) as Hk. rewrite !lookup_unreserved in Hk.
    by destruct (IsReservedLabel k).
Qed.
