(* ===== verification/Client.v ===== *)
(** * The StorageOS API client: namespaces, nodes and volumes

    [internal/pkg/storageos]: [client.go] ([AddToken], the metrics wrapper),
    [namespace.go], [node.go], [volume.go].  Every method is the whole Go
    method: its calls, its error mapping, its metrics. *)

From Stdlib Require Import ZArith.
From S2P Require Import Prelude GoLib Errors Types Effects.

(** The state of a [*Client] its methods read. *)
Record Client := { c_ctx : Ctx; c_traced : bool }.

(** [AddToken]: the current token of the client in the given context. *)
Definition AddToken (c : Client) (ctx : Ctx) : Ctx := {| access_token := access_token (c_ctx c) |}.

(** The error value of a failed call, mapped. *)
Definition map_api_error (e : error) (resp : option response) : error :=
  default e (MapAPIError (Some e) resp).

(** The closure [observeErr] of every method. *)
Definition observeErr (funcName : string) (e : option error) : prog (option error) :=
  _ ← Call (M_Increment funcName e); mret e.

Definition failed {A} (funcName : string) (e : error) : prog (A + error) :=
  _ ← Call (M_Increment funcName (Some e)); mret (inr e).

(** The deferred latency observation. *)
Definition timed {A} (funcName : string) (body : prog A) : prog A :=
  defer (M_Observe funcName) body.

Definition nil_pointer : string := "invalid memory address or nil pointer dereference".

(** ** namespace.go *)

Definition ListNamespaces (c : Client) (ctx : Ctx) : prog (list object + error) :=
  timed "list_namespaces" (
    '(namespaces, resp, err) ← Call (CP_ListNamespaces (AddToken c ctx));
    match err with
    | Some e => failed "list_namespaces" (map_api_error e resp)
    | None => mret (inl (map ObjNamespace namespaces))
    end).

(** The first element with the name of the key. *)
Definition find_by_name {A} (name : A -> string) (l : list A) (n : string) : option A :=
  List.find (fun x => bool_decide (name x = n)) l.

Definition getNamespace (ctx : Ctx) (key : ObjectKey) : prog (Namespace + error) :=
  '(namespaces, resp, err) ← Call (CP_ListNamespaces ctx);
  match err with
  | Some e => mret (inr (map_api_error e resp))
  | None =>
      match find_by_name ns_Name namespaces (k_name key) with
      | Some ns => mret (inl ns)
      | None => mret (inr (Sentinel ErrNamespaceNotFound))
      end
  end.

(** The error of a delete whose HTTP response was [code]. *)
Definition namespace_delete_error (code : Z) (err : error) : error :=
  if (code =? 409)%Z then Sentinel ErrNamespaceInUse
  else if (code =? 404)%Z then Sentinel ErrNamespaceNotFound
  else err.

Definition DeleteNamespace (c : Client) (ctx0 : Ctx) (key : ObjectKey) : prog (option error) :=
  timed "delete_namespace" (
    let ctx := AddToken c ctx0 in
    r ← getNamespace ctx key;
    match r with
    | inr e => observeErr "delete_namespace" (Some e)
    | inl ns =>
        '(_, resp, err) ← Call (CP_DeleteNamespace ctx (ns_Id ns) (ns_Version ns));
        match err with
        | None => mret None
        | Some e =>
            let e' := map_api_error e resp in
            _ ← observeErr "delete_namespace" (Some e');
            match resp with
            | None => Panic nil_pointer
            | Some r => mret (Some (namespace_delete_error (StatusCode r) e'))
            end
        end
    end).

(** ** node.go *)

Definition NodeObjects (c : Client) (ctx : Ctx) : prog (gmap ObjectKey object + error) :=
  timed "node_objects" (
    '(nodes, resp, err) ← Call (CP_ListNodes (AddToken c ctx));
    match err with
    | Some e => failed "node_objects" (map_api_error e resp)
    | None =>
        mret (inl (foldl (fun m n => <[Key "" (n_Name n) := ObjNode n]> m) ∅ nodes))
    end).

Definition nodeToCR (n : Node) : NodeCR :=
  let health :=
    if bool_decide (n_Health n = HEALTH_ONLINE) then NodeHealthOnline
    else if bool_decide (n_Health n = HEALTH_OFFLINE) then NodeHealthOffline
    else NodeHealthUnknown in
  {| cr_meta := {| om_Name := n_Name n; om_Namespace := ""; om_UID := n_Id n;
                   om_ResourceVersion := n_Version n; om_CreationTimestamp := n_CreatedAt n;
                   om_Labels := n_Labels n; om_Annotations := None; om_OwnerReferences := [] |};
     cr_Spec := {| IoEndpoint := n_IoEndpoint n; SupervisorEndpoint := n_SupervisorEndpoint n;
                   GossipEndpoint := n_GossipEndpoint n; ClusteringEndpoint := n_ClusteringEndpoint n |};
     cr_Status := {| st_Health := health; st_Capacity := n_Capacity n |} |}.

Definition ListNodes (c : Client) (ctx : Ctx) : prog (list NodeCR + error) :=
  timed "list_nodes" (
    '(nodes, resp, err) ← Call (CP_ListNodes (AddToken c ctx));
    match err with
    | Some e => failed "list_nodes" (map_api_error e resp)
    | None => mret (inl (map nodeToCR nodes))
    end).

Definition getNodeByKey (ctx : Ctx) (key : ObjectKey) : prog (Node + error) :=
  '(nodes, resp, err) ← Call (CP_ListNodes ctx);
  match err with
  | Some e => mret (inr (map_api_error e resp))
  | None =>
      match find_by_name n_Name nodes (k_name key) with
      | Some n => mret (inl n)
      | None => mret (inr (Sentinel ErrNodeNotFound))
      end
  end.

Definition node_delete_error (code : Z) (err : error) : error :=
  if (code =? 409)%Z then Sentinel ErrNodeInUse
  else if (code =? 423)%Z then Sentinel ErrNodeHasLock
  else if (code =? 404)%Z then Sentinel ErrNodeNotFound
  else err.

Definition DeleteNode (c : Client) (ctx0 : Ctx) (key : ObjectKey) : prog (option error) :=
  timed "delete_node" (
    let ctx := AddToken c ctx0 in
    r ← getNodeByKey ctx key;
    match r with
    | inr e => observeErr "delete_node" (Some e)
    | inl node =>
        '(_, resp, err) ← Call (CP_DeleteNode ctx (n_Id node) (n_Version node));
        match err with
        | None => mret None
        | Some e =>
            match resp with
            | None => Panic nil_pointer
            | Some r => mret (Some (node_delete_error (StatusCode r) (map_api_error e resp)))
            end
        end
    end).

(** ** volume.go *)

Definition getVolumes (c : Client) (ctx : Ctx) : prog (list Volume + error) :=
  r ← ListNamespaces c ctx;
  match r with
  | inr e => mret (inr e)
  | inl namespaces =>
      foldM (fun acc ns =>
               match acc with
               | inr e => mret (inr e)
               | inl volumes =>
                   '(nsVols, resp, err) ← Call (CP_ListVolumes ctx (GetID ns));
                   match err with
                   | Some e => mret (inr (map_api_error e resp))
                   | None => mret (inl (volumes ++ nsVols))
                   end
               end) namespaces (inl [])
  end.

Definition VolumeObjects (c : Client) (ctx0 : Ctx) : prog (gmap ObjectKey object + error) :=
  timed "volume_objects" (
    let ctx := AddToken c ctx0 in
    r ← getVolumes c ctx;
    match r with
    | inr e => failed "volume_objects" e
    | inl volumes =>
        mret (inl (foldl (fun m v => <[ObjectKeyFromObject (ObjVolume v) := ObjVolume v]> m) ∅ volumes))
    end).

Definition ListVolumes (c : Client) (ctx0 : Ctx) : prog (list object + error) :=
  timed "list_volumes" (
    let ctx := AddToken c ctx0 in
    r ← getVolumes c ctx;
    match r with
    | inr e => failed "list_volumes" e
    | inl volumes => mret (inl (map ObjVolume volumes))
    end).

Definition getVolume (ctx : Ctx) (key : ObjectKey) : prog (Volume + error) :=
  r ← getNamespace ctx (Key "" (k_namespace key));
  match r with
  | inr e => mret (inr e)
  | inl ns =>
      '(volumes, resp, err) ← Call (CP_ListVolumes ctx (ns_Id ns));
      match err with
      | Some e => mret (inr (map_api_error e resp))
      | None =>
          match find_by_name v_Name volumes (k_name key) with
          | Some v => mret (inl v)
          | None => mret (inr (Sentinel ErrVolumeNotFound))
          end
      end
  end.

Definition GetVolume (c : Client) (ctx0 : Ctx) (key : ObjectKey) : prog (object + error) :=
  timed "get_volume" (
    let ctx := AddToken c ctx0 in
    r ← getVolume ctx key;
    match r with
    | inr e => failed "get_volume" e
    | inl vol => mret (inl (ObjVolume vol))
    end).

(** The volume is returned next to the error, as the code does. *)
Definition getVolumeByID (ctx : Ctx) (id namespace : string) : prog (option Volume * option error) :=
  r ← getNamespace ctx (Key "" namespace);
  match r with
  | inr e => mret (None, Some e)
  | inl ns =>
      '(vol, resp, err) ← Call (CP_GetVolume ctx (ns_Id ns) id);
      mret (Some vol, MapAPIError err resp)
  end.

(** ** Finding an object by its name *)

Lemma find_by_name_Some {A} (name : A -> string) l n x :
  find_by_name name l n = Some x -> x ∈ l /\ name x = n.
Proof.
  unfold find_by_name. intros [Hin Hn]%List.find_some. apply bool_decide_eq_true in Hn.
  split; [by apply list_elem_of_In|done].
Qed.

Lemma find_by_name_NoDup {A} (name : A -> string) (l : list A) x :
  NoDup (map name l) -> x ∈ l -> find_by_name name l (name x) = Some x.
Proof.
  induction l as [|y l IH]; simpl; [by intros _ ?%elem_of_nil|].
  intros Hnd. inversion_clear Hnd as [|? ? Hy Hnd']. rewrite elem_of_cons. intros [->|Hx].
  - by rewrite bool_decide_eq_true_2.
  - rewrite bool_decide_eq_false_2; [by apply IH|].
    intros Heq. apply Hy. rewrite Heq. by apply list_elem_of_fmap_2.
Qed.

(** A client that holds a token, for the witnesses. *)
Definition example_client : Client := {| c_ctx := {| access_token := Some "token" |}; c_traced := false |}.
