(* ===== verification/LabelSync.v ===== *)
(** * What node and volume label synchronisation share

    The computation of the labels to apply, the collection of errors, and the
    specification pattern of the [Ensure...] operations: which state-changing
    calls they attempt given what they read, and when they report success. *)

From S2P Require Import Prelude GoLib Errors Types Effects Labels Client.

(** Collect the error of an update, except the sentinel that is ignored. *)
Definition collect (ignored : sentinel) (errs : list error) (r : option error) : list error :=
  match r with
  | None => errs
  | Some e => if err_is e ignored then errs else Append errs e
  end.

(** The two copy loops of the unreserved-label updates: the desired
    unreserved labels, then the reserved labels of the object. *)
Definition applyLabels `{GoRange} (desired current : gomap) : labels :=
  let copied := copy_if (fun k => negb (IsReservedLabel k)) (gm_range desired) ∅ in
  copy_if IsReservedLabel (gm_range current) copied.

Lemma applyLabels_merged `{GoRange} desired current :
  applyLabels desired current = merged (gm_map desired) (gm_map current).
Proof.
  unfold applyLabels, gm_range, merged, reserved, unreserved.
  rewrite !copy_if_range. by rewrite (right_id_L ∅ (∪)).
Qed.

(** The two tests that skip an update amount to equality of contents. *)
Lemma skip_update_iff (cur : gomap) (apply : labels) :
  (bool_decide (gm_len cur = 0) && bool_decide (size apply = 0)) || deep_equal cur (Some apply)
  = bool_decide (gm_map cur = apply).
Proof.
  apply eq_true_iff_eq. unfold deep_equal. rewrite orb_true_iff, andb_true_iff, !bool_decide_eq_true.
  destruct cur as [m|]; simpl.
  - rewrite !map_size_empty_iff. split; [intros [[-> ->]|]; congruence | intros ->; auto].
  - rewrite map_size_empty_iff. split; [intros [[_ ->]|]; [done|congruence] | intros <-; auto].
Qed.

(** ** Events of the control plane *)

(** The error a control-plane call came back with. *)
Definition cp_error (e : event) : option error :=
  let '(existT c r) := e in
  match c return ret c -> option error with
  | CP_ListNamespaces _ | CP_ListNodes _ | CP_ListVolumes _ _ | CP_GetVolume _ _ _
  | CP_DeleteNamespace _ _ _ | CP_DeleteNode _ _ _ | CP_UpdateNode _ _ _ | CP_SetComputeOnly _ _ _
  | CP_UpdateVolume _ _ _ _ | CP_SetReplicas _ _ _ _ | CP_SetFailureMode _ _ _ _
  | CP_UpdateNFSVolumeMountEndpoint _ _ _ _ | CP_RefreshJwt _ | CP_AuthenticateUser _ _ _ => fun r => r.2
  | _ => fun _ => None
  end r.

(** Neither one of the program's sentinels nor a collection of errors. *)
Definition foreign_error (e : error) : Prop :=
  match e with Sentinel _ | Multi _ => False | _ => True end.

(** The environment only answers with errors of its own. *)
Definition foreign (e : event) : Prop :=
  match cp_error e with Some err => foreign_error err | None => True end.

(** A state-changing call that was accepted. *)
Definition succeeded (e : event) : Prop := mutates (projT1 e) = true -> cp_error e = None.

Lemma foreign_map_api_error e resp : foreign_error e -> foreign_error (map_api_error e resp).
Proof.
  unfold map_api_error, MapAPIError. destruct resp as [r|]; [|done].
  destruct (error_details e); [|done]. destruct (status_kind _); [done|].
  by case_bool_decide.
Qed.

(** ** The specification of an [Ensure...] operation

    Every operation reads its object afresh, and what it attempts depends on
    the object that this very read came back with. *)

(** The calls [tr] begin with a run of [fetch] that came back with [x]. *)
Definition reads {A} (fetch : prog (A + error)) (tr : trace) (x : A + error) : Prop :=
  exists rd rest, tr = rd ++ rest /\ ran fetch rd (Ret x).

(** The calls that follow the read: none if it failed. *)
Definition planned {A} (plan : A -> list call) (x : A + error) : list call :=
  match x with inl a => plan a | inr _ => [] end.

(** Nothing to report of what was read: the object is [ok], or there is none. *)
Definition fine {A} (missing : sentinel) (ok : A -> Prop) (x : A + error) : Prop :=
  match x with inl a => ok a | inr e => e = Sentinel missing end.

(** Not a collection of errors. *)
Definition one_error (e : error) : Prop := match e with Multi _ => False | _ => True end.

(** One operation: it attempts the plan of the object it has read, and reports
    success if and only if it found nothing wrong itself ([ok]) and the attempt
    was accepted; a failed read is reported as it is. *)
Definition ensures {A} (fetch : prog (A + error)) (plan : A -> list call) (ok : A -> Prop)
    (tr : trace) (o : outcome (option error)) : Prop :=
  exists r x, o = Done r /\ reads fetch tr x /\ mutations tr = planned plan x /\
    (Forall foreign tr ->
     match x with
     | inl a => (r = None <-> ok a /\ Forall succeeded tr) /\ match r with Some e => foreign_error e | None => True end
     | inr e => r = Some e /\ one_error e
     end).

(** One part of a longer run: a read, then the plan of what it came back with. *)
Definition part {A} (fetch : prog (A + error)) (plan : A -> list call) (tr : trace) (x : A + error) : Prop :=
  reads fetch tr x /\ mutations tr = planned plan x.

Lemma Forall_app3 {A} (P : A -> Prop) l1 l2 l3 :
  Forall P (l1 ++ l2 ++ l3) <-> Forall P l1 /\ Forall P l2 /\ Forall P l3.
Proof. by rewrite !Forall_app. Qed.

Lemma succeeded_read tr : mutations tr = [] -> Forall succeeded tr.
Proof.
  induction tr as [|e tr IH]; [constructor|]. rewrite mutations_cons. intros [He Ht]%app_eq_nil.
  constructor; [|auto]. unfold succeeded. by destruct (mutates (projT1 e)).
Qed.

Lemma collect_nil_iff missing errs r :
  match r with Some e => one_error e | None => True end ->
  collect missing errs r = [] <-> errs = [] /\ (r = None \/ r = Some (Sentinel missing)).
Proof.
  destruct r as [e|]; simpl; [|naive_solver]. intros Ho.
  destruct (err_is e missing) eqn:He; [apply err_is_spec in He as ->; naive_solver|].
  split; [by destruct e; try done; intros [? ?]%app_eq_nil|].
  intros [_ [?|[= ->]]]; [done|]. simpl in He. by rewrite bool_decide_eq_true_2 in He.
Qed.

Lemma collect_nil ignored errs r :
  match r with Some e => foreign_error e | None => True end ->
  collect ignored errs r = [] <-> errs = [] /\ r = None.
Proof. intros Hf. rewrite collect_nil_iff by (by destruct r as [[]|]). destruct r as [[]|]; simpl in *; naive_solver. Qed.

(** Collecting the result of one operation. *)
Lemma collect_step {A} missing (p : prog (option error)) (fetch : prog (A + error)) plan ok errs :
  every_run p (ensures fetch plan ok) ->
  every_run p (fun tr o => exists r x, o = Done r /\ part fetch plan tr x /\
    (Forall foreign tr ->
     (collect missing errs r = [] <-> errs = [] /\ fine missing ok x /\ Forall succeeded tr))).
Proof.
  intros Hp. eapply every_run_mono; [exact Hp|]. intros tr o (r & x & -> & Hx & Hm & Hr).
  exists r, x. split; [done|]. split; [done|]. intros Hf. specialize (Hr Hf). destruct x as [a|e]; simpl in *.
  - destruct Hr as [Hr Hfr]. rewrite collect_nil by done. naive_solver.
  - destruct Hr as [-> Ho]. rewrite collect_nil_iff by done. pose proof (succeeded_read tr Hm). naive_solver.
Qed.

Lemma ErrorOrNil_None errs : ErrorOrNil errs = None <-> errs = [].
Proof. by destruct errs. Qed.

#[export] Hint Resolve foreign_map_api_error : effects.

(** Simplify the claims on the events of a concrete piece of trace. *)
Ltac events :=
  rewrite ?Forall_app, ?Forall_cons_iff, ?Forall_nil_iff, ?mutations_app in *;
  unfold succeeded, foreign in *; simpl in *.

Lemma foreign_one e : foreign_error e -> one_error e.
Proof. by destruct e. Qed.
#[export] Hint Resolve foreign_one : effects.

(** The read of an operation. *)
Lemma fetched {A B} (fetch : prog (A + error)) (f : A + error -> prog B) (Q : trace -> outcome B -> Prop) :
  every_run fetch (fun tr o => exists x, o = Done x /\ mutations tr = [] /\
    (Forall foreign tr -> match x with inr e => one_error e | inl _ => True end)) ->
  (forall rd x, ran fetch rd (Ret x) -> mutations rd = [] -> Forall succeeded rd ->
     (Forall foreign rd -> match x with inr e => one_error e | inl _ => True end) ->
     every_run (f x) (fun tr o => Q (rd ++ tr) o)) ->
  every_run (fetch ≫= f) Q.
Proof.
  intros Hf Hk. eapply every_run_seq; [apply (every_run_and _ _ _ Hf (every_run_ran fetch))| |].
  - intros tr x [(? & [= <-] & Hm & Ho) Hr]. apply Hk; try done. by apply succeeded_read.
  - by intros tr m [(x & ? & _) _].
Qed.

(** Close a leaf of an [ensures] proof: the read [Hr] came back with the object
    the equations of the run speak of. *)
Ltac close_ensures x :=
  eexists _, x; (split; [done|]);
  (split; [eexists _, _; (split; [symmetry; apply (assoc_L (++))|eassumption])|]);
  events;
  repeat match goal with
  | H : ?y = _ |- context [match ?y with _ => _ end] => rewrite H
  | H : mutations _ = _ |- _ => rewrite H
  end;
  rewrite ?bool_decide_eq_true, ?bool_decide_eq_false in *;
  (split; [done |]); intros; destruct_and?; try done; (split; [naive_solver | eauto with effects]).

(** Read off the outcome of the two skip tests. *)
Ltac use_skip Hskip :=
  simpl in *;
  repeat match goal with H : _ = ?b :> bool |- _ => lazymatch H with Hskip => fail | _ => rewrite H in Hskip end end;
  simpl in Hskip; symmetry in Hskip.
