(* ===== verification/NodeLabels.v ===== *)
(** * Node label synchronisation ([internal/pkg/storageos/node_labels.go])

    The two parts of a synchronisation, each with its own listing of the nodes:
    what each changes on the node it has found, and what the whole reports. *)

From Stdlib Require Import ZArith.
From S2P Require Import Prelude GoLib Errors Types Effects Labels Client LabelSync.

(** The local variables of [EnsureNodeLabels] its first loop sets. *)
Record node_acc := { na_unreserved : labels; na_computeOnly : bool; na_errs : list error }.

(** One iteration of that loop. *)
Definition node_label_step (a : node_acc) (kv : string * string) : node_acc :=
  let '(k, v) := kv in
  if negb (IsReservedLabel k) then
    {| na_unreserved := <[k := v]> (na_unreserved a); na_computeOnly := na_computeOnly a;
       na_errs := na_errs a |}
  else if bool_decide (k = ReservedLabelNoCache) || bool_decide (k = ReservedLabelNoCompress)
       || bool_decide (k = ReservedLabelFailureMode) || bool_decide (k = ReservedLabelReplicas) then
    {| na_unreserved := na_unreserved a; na_computeOnly := na_computeOnly a;
       na_errs := Append (na_errs a) (Wrap (Sentinel ErrReservedLabelInvalid) k) |}
  else if bool_decide (k = ReservedLabelComputeOnly) then
    match ParseBool v with
    | inl b => {| na_unreserved := na_unreserved a; na_computeOnly := b; na_errs := na_errs a |}
    | inr e => {| na_unreserved := na_unreserved a; na_computeOnly := false;
                  na_errs := Append (na_errs a) (Wrap (NumErr e) k) |}
    end
  else
    {| na_unreserved := na_unreserved a; na_computeOnly := na_computeOnly a;
       na_errs := Append (na_errs a) (Wrap (Sentinel ErrReservedLabelUnknown) k) |}.

Definition node_label_loop (l : list (string * string)) : node_acc :=
  foldl node_label_step {| na_unreserved := ∅; na_computeOnly := false; na_errs := [] |} l.

Section node_labels.
Context `{GoRange} (c : Client).

Definition EnsureComputeOnly (ctx0 : Ctx) (key : ObjectKey) (enabled : bool) : prog (option error) :=
  timed "ensure_compute_only" (
    let ctx := AddToken c ctx0 in
    r ← getNodeByKey ctx key;
    match r with
    | inr e => observeErr "ensure_compute_only" (Some e)
    | inl node =>
        match match gm_lookup (n_Labels node) ReservedLabelComputeOnly with
              | None => inl false
              | Some v => ParseBool v
              end with
        | inr e => mret (Some (NumErr e))
        | inl current =>
            if bool_decide (current = enabled) then mret None
            else
              '(_, resp, err) ← Call (CP_SetComputeOnly ctx (n_Id node)
                 {| sco_ComputeOnly := enabled; sco_Version := n_Version node |});
              match err with
              | Some e => observeErr "ensure_compute_only" (Some (map_api_error e resp))
              | None => observeErr "ensure_compute_only" None
              end
        end
    end).

Definition EnsureUnreservedNodeLabels (ctx0 : Ctx) (key : ObjectKey) (labels0 : gomap) : prog (option error) :=
  timed "ensure_unreserved_node_labels" (
    let labels := match labels0 with None => Some ∅ | Some _ => labels0 end in
    let ctx := AddToken c ctx0 in
    r ← getNodeByKey ctx key;
    match r with
    | inr e => observeErr "ensure_unreserved_node_labels" (Some e)
    | inl node =>
        let apply := applyLabels labels (n_Labels node) in
        if bool_decide (gm_len (n_Labels node) = 0) && bool_decide (size apply = 0) then
          observeErr "ensure_unreserved_node_labels" None
        else if deep_equal (n_Labels node) (Some apply) then
          observeErr "ensure_unreserved_node_labels" None
        else
          '(_, resp, err) ← Call (CP_UpdateNode ctx (n_Id node)
             {| und_Labels := labels; und_Version := n_Version node |});
          match err with
          | Some e => observeErr "ensure_unreserved_node_labels" (Some (map_api_error e resp))
          | None => observeErr "ensure_unreserved_node_labels" None
          end
    end).

Definition EnsureNodeLabels (ctx : Ctx) (key : ObjectKey) (ls : gomap) : prog (option error) :=
  let a := node_label_loop (gm_range ls) in
  r1 ← EnsureComputeOnly ctx key (na_computeOnly a);
  let errs1 := collect ErrNodeNotFound (na_errs a) r1 in
  r2 ← EnsureUnreservedNodeLabels ctx key (Some (na_unreserved a));
  let errs2 := collect ErrNodeNotFound errs1 r2 in
  mret (ErrorOrNil errs2).
End node_labels.

(** ** What the first loop computes, for any iteration order *)

(** The reserved labels that do not apply to nodes. *)
Definition invalid_node_labels : list string :=
  [ReservedLabelNoCache; ReservedLabelNoCompress; ReservedLabelFailureMode; ReservedLabelReplicas].

(** The error a label gives rise to, if any. *)
Definition node_label_error (kv : string * string) : option error :=
  let '(k, v) := kv in
  if negb (IsReservedLabel k) then None
  else if bool_decide (k = ReservedLabelComputeOnly) then
    match ParseBool v with inl _ => None | inr e => Some (Wrap (NumErr e) k) end
  else if bool_decide (k ∈ invalid_node_labels)
  then Some (Wrap (Sentinel ErrReservedLabelInvalid) k)
  else Some (Wrap (Sentinel ErrReservedLabelUnknown) k).

(** The compute-only setting a label map asks for: false unless set to true. *)
Definition wanted_computeOnly (m : labels) : bool :=
  match m !! ReservedLabelComputeOnly with
  | Some v => match ParseBool v with inl b => b | inr _ => false end
  | None => false
  end.

Lemma computeOnly_reserved : IsReservedLabel ReservedLabelComputeOnly = true.
Proof. reflexivity. Qed.

(** One step in closed form. *)
Lemma node_label_step_eq a k v :
  node_label_step a (k, v) =
  {| na_unreserved := if negb (IsReservedLabel k) then <[k := v]> (na_unreserved a) else na_unreserved a;
     na_computeOnly := if bool_decide (k = ReservedLabelComputeOnly)
                       then match ParseBool v with inl b => b | inr _ => false end
                       else na_computeOnly a;
     na_errs := na_errs a ++ option_list (node_label_error (k, v)) |}.
Proof.
  unfold node_label_step, node_label_error.
  destruct (decide (k = ReservedLabelComputeOnly)) as [->|Hne].
  - rewrite computeOnly_reserved.
    rewrite (bool_decide_eq_true_2 (ReservedLabelComputeOnly = ReservedLabelComputeOnly)) by done.
    simpl. destruct (ParseBool v); simpl; by rewrite ?app_nil_r.
  - rewrite (bool_decide_eq_false_2 (k = ReservedLabelComputeOnly)) by done.
    destruct (IsReservedLabel k); simpl; [|by rewrite app_nil_r].
    destruct (decide (k ∈ invalid_node_labels)) as [Hin|Hout].
    + rewrite (bool_decide_eq_true_2 (k ∈ _)) by done. simpl.
      replace (bool_decide (k = ReservedLabelNoCache) || bool_decide (k = ReservedLabelNoCompress)
        || bool_decide (k = ReservedLabelFailureMode) || bool_decide (k = ReservedLabelReplicas))
        with true; [done|].
      symmetry. rewrite !orb_true_iff, !bool_decide_eq_true.
      unfold invalid_node_labels in Hin. rewrite !elem_of_cons, elem_of_nil in Hin. tauto.
    + rewrite (bool_decide_eq_false_2 (k ∈ _)) by done. simpl.
      unfold invalid_node_labels in Hout. rewrite !elem_of_cons, elem_of_nil in Hout.
      rewrite !bool_decide_eq_false_2 by tauto. done.
Qed.

(** The whole loop, from any accumulator. *)
Lemma node_label_loop_gen l a :
  NoDup l.*1 ->
  foldl node_label_step a l =
  {| na_unreserved := copy_if (fun k => negb (IsReservedLabel k)) l (na_unreserved a);
     na_computeOnly := match list_to_map (M:=labels) l !! ReservedLabelComputeOnly with
                       | Some v => match ParseBool v with inl b => b | inr _ => false end
                       | None => na_computeOnly a
                       end;
     na_errs := na_errs a ++ omap node_label_error l |}.
Proof.
  revert a. induction l as [|[k v] l IH]; intros a Hnd.
  { simpl. rewrite lookup_empty, app_nil_r. by destruct a. }
  inversion_clear Hnd as [|? ? Hnotin Hnd']. cbn [foldl]. rewrite IH by done.
  rewrite node_label_step_eq. cbn [na_unreserved na_computeOnly na_errs]. f_equal.
  - simpl. destruct (decide (k = ReservedLabelComputeOnly)) as [->|Hne].
    + rewrite lookup_insert_eq, not_elem_of_list_to_map_1 by done.
      by rewrite bool_decide_eq_true_2.
    + rewrite lookup_insert_ne by done. by rewrite bool_decide_eq_false_2.
  - rewrite <- (assoc_L (++)). f_equal. cbn [omap list_omap]. by destruct (node_label_error (k, v)).
Qed.

Section node_facts.
Context `{GoRange}.

Lemma node_label_loop_spec (ls : gomap) :
  node_label_loop (gm_range ls) =
  {| na_unreserved := unreserved (gm_map ls);
     na_computeOnly := wanted_computeOnly (gm_map ls);
     na_errs := omap node_label_error (gm_range ls) |}.
Proof.
  unfold node_label_loop, gm_range. rewrite node_label_loop_gen by apply range_NoDup. simpl.
  rewrite copy_if_range, list_to_map_range. unfold unreserved, wanted_computeOnly.
  by rewrite (right_id_L ∅ (∪)).
Qed.
End node_facts.

(** ** Which calls are attempted *)

(** The compute-only setting of a node, when its label can be parsed. *)
Definition current_computeOnly (n : Node) : bool + num_error :=
  match gm_lookup (n_Labels n) ReservedLabelComputeOnly with
  | None => inl false
  | Some v => ParseBool v
  end.

Definition computeOnly_readable (n : Node) : Prop := exists b, current_computeOnly n = inl b.

Definition computeOnly_plan (ctx : Ctx) (n : Node) (enabled : bool) : list call :=
  match current_computeOnly n with
  | inr _ => []
  | inl current =>
      if bool_decide (current = enabled) then []
      else [CP_SetComputeOnly ctx (n_Id n) {| sco_ComputeOnly := enabled; sco_Version := n_Version n |}]
  end.

Definition node_labels_plan (ctx : Ctx) (n : Node) (desired : labels) : list call :=
  if bool_decide (gm_map (n_Labels n) = merged desired (gm_map (n_Labels n))) then []
  else [CP_UpdateNode ctx (n_Id n) {| und_Labels := Some desired; und_Version := n_Version n |}].

Section node_runs.
Context `{GoRange} (c : Client).

(** The listing of [getNodeByKey] changes nothing. *)
Lemma getNodeByKey_run ctx key :
  every_run (getNodeByKey ctx key) (fun tr o => exists x, o = Done x /\ mutations tr = [] /\
    (Forall foreign tr -> match x with inr e => one_error e | inl _ => True end)).
Proof.
  unfold getNodeByKey. run_steps; eexists; (split; [done|]); (split; [done|]); events; naive_solver eauto with effects.
Qed.

Lemma EnsureComputeOnly_ensures ctx key enabled :
  every_run (EnsureComputeOnly c ctx key enabled)
    (ensures (getNodeByKey (AddToken c ctx) key) (fun n => computeOnly_plan (AddToken c ctx) n enabled)
       computeOnly_readable).
Proof.
  unfold EnsureComputeOnly, timed. apply every_run_defer.
  apply fetched; [apply getNodeByKey_run|]. intros rd x Hr Hm Hok Ho.
  unfold computeOnly_plan, computeOnly_readable, current_computeOnly, ensures, observeErr.
  run_steps; match goal with Hr : ran _ _ (Ret ?x) |- _ => close_ensures x end.
Qed.

Lemma EnsureUnreservedNodeLabels_ensures ctx key (desired : labels) :
  every_run (EnsureUnreservedNodeLabels c ctx key (Some desired))
    (ensures (getNodeByKey (AddToken c ctx) key) (fun n => node_labels_plan (AddToken c ctx) n desired) (fun _ => True)).
Proof.
  unfold EnsureUnreservedNodeLabels, timed. apply every_run_defer.
  apply fetched; [apply getNodeByKey_run|]. intros rd x Hr Hm Hok Ho.
  unfold node_labels_plan, ensures, observeErr. cbn beta iota zeta.
  destruct x as [node|e]; [|run_steps; close_ensures (inr e : Node + error)].
  rewrite applyLabels_merged.
  pose proof (skip_update_iff (n_Labels node) (merged desired (gm_map (n_Labels node)))) as Hskip.
  run_steps; use_skip Hskip; close_ensures (inl node : Node + error).
Qed.
End node_runs.
(** The label map holds no label that is an error for a node. *)
Definition node_labels_valid (m : labels) : Prop := forall k v, m !! k = Some v -> node_label_error (k, v) = None.

(** What a synchronisation of the label map [m] to the node of a key does,
    whatever it is answered: two reads of the node, after each of them the
    change that the node just read needs, sent with the version just read; and
    when it reports success ([r]). *)
Definition node_sync_run (ctx : Ctx) (key : ObjectKey) (m : labels) (tr : trace) (r : option error) : Prop :=
  exists tr1 tr2 x1 x2, tr = tr1 ++ tr2 /\
    part (getNodeByKey ctx key) (fun n => computeOnly_plan ctx n (wanted_computeOnly m)) tr1 x1 /\
    part (getNodeByKey ctx key) (fun n => node_labels_plan ctx n (unreserved m)) tr2 x2 /\
    (Forall foreign tr ->
     (r = None <-> node_labels_valid m /\
        fine ErrNodeNotFound computeOnly_readable x1 /\ fine ErrNodeNotFound (fun _ => True) x2 /\
        Forall succeeded tr)).

Section node_theorems.
Context `{GoRange} (c : Client).

Lemma node_errs_nil (ls : gomap) :
  omap node_label_error (gm_range ls) = [] <-> node_labels_valid (gm_map ls).
Proof.
  rewrite omap_nil_iff. unfold gm_range, node_labels_valid.
  split; [intros Hf k v Hk; apply Hf; by apply elem_of_range |].
  intros Hv [k v] Hin. apply Hv. by apply elem_of_range.
Qed.

Lemma EnsureNodeLabels_run ctx key ls :
  every_run (EnsureNodeLabels c ctx key ls) (fun tr o =>
    exists r, o = Done r /\ node_sync_run (AddToken c ctx) key (gm_map ls) tr r).
Proof.
  unfold EnsureNodeLabels. rewrite node_label_loop_spec. cbn [na_computeOnly na_unreserved na_errs].
  eapply every_run_seq; [apply (collect_step (A := Node) ErrNodeNotFound), EnsureComputeOnly_ensures| |by intros ? ? (? & ? & ? & _)].
  intros tr1 r1 (? & x1 & [= <-] & H1 & He1).
  eapply every_run_seq; [apply (collect_step (A := Node) ErrNodeNotFound), EnsureUnreservedNodeLabels_ensures| |by intros ? ? (? & ? & ? & _)].
  intros tr2 r2 (? & x2 & [= <-] & H2 & He2). apply every_run_ret. rewrite app_nil_r.
  eexists. split; [done|]. exists tr1, tr2, x1, x2. split_and!; try done.
  intros [Hf1 Hf2]%Forall_app. rewrite ErrorOrNil_None, He2, He1, node_errs_nil, Forall_app by done. tauto.
Qed.

(** C1. Node label synchronisation, for every order of iteration over the label
    map and every answer of the environment.  A run ends, and falls into two
    parts; each lists the nodes again and acts on the node it has just found,
    with the version it has just read: the first sends the compute-only change
    exactly if the label of that node can be read and differs, the second the
    label update exactly if the unreserved labels of that node differ, be the
    first change refused or not; a part whose listing fails or shows no such
    node sends nothing.  If the errors of the control plane are its own (none
    is a sentinel or a collection of this program), the run reports success
    exactly when no label of the map is in error, every listing succeeded or
    showed no such node, the compute-only label could be read, and every
    change was accepted. *)
Theorem EnsureNodeLabels_correct ctx key ls :
  every_run (EnsureNodeLabels c ctx key ls) (fun tr o =>
    exists r, o = Done r /\ node_sync_run (AddToken c ctx) key (gm_map ls) tr r).
Proof. apply EnsureNodeLabels_run. Qed.

(** The label map of a node update holds none of the reserved labels,
    neither those asked for nor those the node has: on a node with a
    reserved label every update would drop it.  (The merged map the code
    computes to keep them is compared, and not sent.) *)
Lemma EnsureNodeLabels_drops_reserved ctx key ls k :
  IsReservedLabel k = true ->
  every_run (EnsureNodeLabels c ctx key ls) (fun tr _ =>
    forall ctx' id data, CP_UpdateNode ctx' id data ∈ mutations tr ->
      gm_lookup (und_Labels data) k = None).
Proof.
  intros Hk. eapply every_run_mono; [apply (EnsureNodeLabels_run ctx key ls)|].
  intros tr o (r & _ & tr1 & tr2 & x1 & x2 & -> & [_ H1] & [_ H2] & _) ctx' id data.
  rewrite mutations_app, H1, H2. unfold computeOnly_plan, node_labels_plan. rewrite elem_of_app. intros [Hin|Hin].
  - destruct x1 as [n|]; simpl in Hin; [destruct (current_computeOnly n) as [b|]; [case_bool_decide|]|]; set_solver.
  - destruct x2 as [n|]; simpl in Hin; [|set_solver]. case_bool_decide; [set_solver|].
    apply list_elem_of_singleton in Hin as [= _ _ ->]. simpl. by rewrite lookup_unreserved, Hk.
Qed.
End node_theorems.

(** A node with a compute-only label, for the witnesses. *)
Definition example_node : Node :=
  {| n_Id := "n1"; n_Name := "node1"; n_Health := HEALTH_ONLINE;
     n_Capacity := {| cap_Total := 0; cap_Free := 0; cap_Available := 0 |};
     n_IoEndpoint := ""; n_SupervisorEndpoint := ""; n_GossipEndpoint := ""; n_ClusteringEndpoint := "";
     n_Labels := Some {[ ReservedLabelComputeOnly := "true"; "zone" := "a" ]};
     n_CreatedAt := 0; n_Version := "7" |}.

Definition example_sync (ls : labels) : prog (option error) :=
  EnsureNodeLabels (H := range_default) example_client background (Key "" "node1") (Some ls).
