(* ===== verification/VolumeLabels.v ===== *)
(** * Volume label synchronisation ([internal/pkg/storageos/volume_labels.go])

    The three parts of a synchronisation, each with its own listings: what each
    changes on the volume it has found, and what the whole reports. *)

From Stdlib Require Import ZArith.
From S2P Require Import Prelude GoLib Errors Types Effects Labels Client LabelSync.

Definition FailureModeSoft : string := "soft".
Definition FailureModeHard : string := "hard".
Definition FailureModeAlwaysOn : string := "alwayson".

(** The three intents of the API. *)
Definition FAILUREMODEINTENT_HARD : string := "hard".
Definition FAILUREMODEINTENT_SOFT : string := "soft".
Definition FAILUREMODEINTENT_ALWAYSON : string := "alwayson".

(** A failure mode intent and a threshold; only one of them is set. *)
Definition ParseFailureMode (s : string) : (string * Z) + error :=
  if bool_decide (s = FailureModeSoft) then inl (FAILUREMODEINTENT_SOFT, 0%Z)
  else if bool_decide (s = FailureModeHard) then inl (FAILUREMODEINTENT_HARD, 0%Z)
  else if bool_decide (s = FailureModeAlwaysOn) then inl (FAILUREMODEINTENT_ALWAYSON, 0%Z)
  else if bool_decide (s = "") then inl (FAILUREMODEINTENT_HARD, 0%Z)
  else match ParseUint s with
       | (_, Some e) => inr (Wrap (NumErr e)
           "failed to parse failure-mode label, must be hard, soft, alwayson or an integer toleration")
       | (threshold, None) => inl ("", threshold)
       end.

(** The local variables of [EnsureVolumeLabels] its first loop sets. *)
Record volume_acc := {
  va_unreserved : labels; va_replicas : Z; va_failureMode : string; va_errs : list error;
}.

Definition volume_label_step (a : volume_acc) (kv : string * string) : volume_acc :=
  let '(k, v) := kv in
  if negb (IsReservedLabel k) then
    {| va_unreserved := <[k := v]> (va_unreserved a); va_replicas := va_replicas a;
       va_failureMode := va_failureMode a; va_errs := va_errs a |}
  else if bool_decide (k = ReservedLabelComputeOnly) then
    {| va_unreserved := va_unreserved a; va_replicas := va_replicas a;
       va_failureMode := va_failureMode a;
       va_errs := Append (va_errs a) (Wrap (Sentinel ErrReservedLabelInvalid) k) |}
  else if bool_decide (k = ReservedLabelNoCache) || bool_decide (k = ReservedLabelNoCompress) then
    {| va_unreserved := va_unreserved a; va_replicas := va_replicas a;
       va_failureMode := va_failureMode a;
       va_errs := Append (va_errs a) (Wrap (Sentinel ErrReservedLabelFixed) k) |}
  else if bool_decide (k = ReservedLabelFailureMode) then
    {| va_unreserved := va_unreserved a; va_replicas := va_replicas a;
       va_failureMode := v; va_errs := va_errs a |}
  else if bool_decide (k = ReservedLabelReplicas) then
    {| va_unreserved := va_unreserved a; va_replicas := (ParseUint v).1;
       va_failureMode := va_failureMode a;
       va_errs := match (ParseUint v).2 with
                  | Some e => Append (va_errs a) (Wrap (NumErr e) k)
                  | None => va_errs a
                  end |}
  else
    {| va_unreserved := va_unreserved a; va_replicas := va_replicas a;
       va_failureMode := va_failureMode a;
       va_errs := Append (va_errs a) (Wrap (Sentinel ErrReservedLabelUnknown) k) |}.

Definition volume_label_loop (l : list (string * string)) : volume_acc :=
  foldl volume_label_step
    {| va_unreserved := ∅; va_replicas := 0%Z; va_failureMode := ""; va_errs := [] |} l.

Section volume_labels.
Context `{GoRange} (c : Client).

Definition EnsureUnreservedVolumeLabels (ctx0 : Ctx) (key : ObjectKey) (labels0 : gomap) : prog (option error) :=
  timed "ensure_unreserved_volume_labels" (
    let labels := match labels0 with None => Some ∅ | Some _ => labels0 end in
    let ctx := AddToken c ctx0 in
    r ← getVolume ctx key;
    match r with
    | inr e => observeErr "ensure_unreserved_volume_labels" (Some e)
    | inl vol =>
        let apply := applyLabels labels (v_Labels vol) in
        if bool_decide (gm_len (v_Labels vol) = 0) && bool_decide (size apply = 0) then
          observeErr "ensure_unreserved_volume_labels" None
        else if deep_equal (v_Labels vol) (Some apply) then
          observeErr "ensure_unreserved_volume_labels" None
        else
          '(_, resp, err) ← Call (CP_UpdateVolume ctx (v_NamespaceID vol) (v_Id vol)
             {| uvd_Labels := Some apply; uvd_Version := v_Version vol |});
          match err with
          | Some e => observeErr "ensure_unreserved_volume_labels" (Some (map_api_error e resp))
          | None => observeErr "ensure_unreserved_volume_labels" None
          end
    end).

Definition EnsureReplicas (ctx0 : Ctx) (key : ObjectKey) (desired : Z) : prog (option error) :=
  timed "ensure_replicas" (
    let ctx := AddToken c ctx0 in
    r ← getVolume ctx key;
    match r with
    | inr e => observeErr "ensure_replicas" (Some e)
    | inl vol =>
        match match gm_lookup (v_Labels vol) ReservedLabelReplicas with
              | None => (0%Z, None)
              | Some v => ParseUint v
              end with
        | (_, Some e) => mret (Some (NumErr e))
        | (current, None) =>
            if bool_decide (current = desired) then mret None
            else
              '(_, resp, err) ← Call (CP_SetReplicas ctx (v_NamespaceID vol) (v_Id vol)
                 {| srr_Replicas := desired; srr_Version := v_Version vol |});
              match err with
              | Some e => observeErr "ensure_replicas" (Some (map_api_error e resp))
              | None => observeErr "ensure_replicas" None
              end
        end
    end).

Definition EnsureFailureMode (ctx0 : Ctx) (key : ObjectKey) (desired : string) : prog (option error) :=
  timed "ensure_failure_mode" (
    let ctx := AddToken c ctx0 in
    r ← getVolume ctx key;
    match r with
    | inr e => observeErr "ensure_failure_mode" (Some e)
    | inl vol =>
        let current := gm_get (v_Labels vol) ReservedLabelFailureMode in
        if bool_decide (current = desired) then mret None
        else
          match ParseFailureMode desired with
          | inr e => observeErr "ensure_failure_mode" (Some e)
          | inl (mode, threshold) =>
              '(_, resp, err) ← Call (CP_SetFailureMode ctx (v_NamespaceID vol) (v_Id vol)
                 {| sfm_Mode := mode; sfm_FailureThreshold := threshold; sfm_Version := v_Version vol |});
              match err with
              | Some e => observeErr "ensure_failure_mode" (Some (map_api_error e resp))
              | None => observeErr "ensure_failure_mode" None
              end
          end
    end).

Definition EnsureVolumeLabels (ctx : Ctx) (key : ObjectKey) (ls : gomap) : prog (option error) :=
  let a := volume_label_loop (gm_range ls) in
  r1 ← EnsureReplicas ctx key (va_replicas a);
  let errs1 := collect ErrVolumeNotFound (va_errs a) r1 in
  r2 ← EnsureFailureMode ctx key (va_failureMode a);
  let errs2 := collect ErrVolumeNotFound errs1 r2 in
  r3 ← EnsureUnreservedVolumeLabels ctx key (Some (va_unreserved a));
  let errs3 := collect ErrVolumeNotFound errs2 r3 in
  mret (ErrorOrNil errs3).
End volume_labels.

(** ** What the first loop computes, for any iteration order *)

(** The error a label gives rise to, if any. *)
Definition volume_label_error (kv : string * string) : option error :=
  let '(k, v) := kv in
  if negb (IsReservedLabel k) then None
  else if bool_decide (k = ReservedLabelFailureMode) then None
  else if bool_decide (k = ReservedLabelReplicas) then
    match (ParseUint v).2 with Some e => Some (Wrap (NumErr e) k) | None => None end
  else if bool_decide (k = ReservedLabelComputeOnly) then Some (Wrap (Sentinel ErrReservedLabelInvalid) k)
  else if bool_decide (k ∈ [ReservedLabelNoCache; ReservedLabelNoCompress])
  then Some (Wrap (Sentinel ErrReservedLabelFixed) k)
  else Some (Wrap (Sentinel ErrReservedLabelUnknown) k).

(** The settings a label map asks for. *)
Definition wanted_replicas (m : labels) : Z :=
  match m !! ReservedLabelReplicas with Some v => (ParseUint v).1 | None => 0%Z end.

Definition wanted_failureMode (m : labels) : string := default "" (m !! ReservedLabelFailureMode).

Lemma volume_label_step_eq a kv :
  volume_label_step a kv =
  {| va_unreserved := if negb (IsReservedLabel kv.1) then <[kv.1 := kv.2]> (va_unreserved a) else va_unreserved a;
     va_replicas := if bool_decide (kv.1 = ReservedLabelReplicas) then (ParseUint kv.2).1 else va_replicas a;
     va_failureMode := if bool_decide (kv.1 = ReservedLabelFailureMode) then kv.2 else va_failureMode a;
     va_errs := va_errs a ++ option_list (volume_label_error kv) |}.
Proof.
  destruct kv as [k v]. unfold volume_label_step, volume_label_error. simpl.
  destruct (IsReservedLabel k) eqn:Er; simpl.
  2: { rewrite (bool_decide_eq_false_2 (k = ReservedLabelReplicas)) by (by intros ->).
       rewrite (bool_decide_eq_false_2 (k = ReservedLabelFailureMode)) by (by intros ->).
       by rewrite app_nil_r. }
  destruct (decide (k = ReservedLabelFailureMode)) as [->|H1]; [by rewrite app_nil_r|].
  rewrite (bool_decide_eq_false_2 (k = ReservedLabelFailureMode)) by done.
  destruct (decide (k = ReservedLabelReplicas)) as [->|H2].
  { simpl. destruct (ParseUint v) as [n [e|]]; simpl; [done|by rewrite app_nil_r]. }
  rewrite (bool_decide_eq_false_2 (k = ReservedLabelReplicas)) by done.
  destruct (decide (k = ReservedLabelComputeOnly)) as [->|H3]; [done|].
  rewrite (bool_decide_eq_false_2 (k = ReservedLabelComputeOnly)) by done.
  replace (bool_decide (k ∈ _)) with
    (bool_decide (k = ReservedLabelNoCache) || bool_decide (k = ReservedLabelNoCompress)).
  - by destruct (bool_decide (k = ReservedLabelNoCache) || bool_decide (k = ReservedLabelNoCompress)).
  - apply eq_true_iff_eq. rewrite orb_true_iff, !bool_decide_eq_true, !elem_of_cons, elem_of_nil. tauto.
Qed.

(** Reading the last value a loop stored under a key. *)
Lemma lookup_list_to_map_cons {B} (l : list (string * string)) k v k0 (f : string -> B) (b : B) :
  k ∉ l.*1 ->
  match list_to_map (M:=labels) ((k, v) :: l) !! k0 with Some v' => f v' | None => b end =
  match list_to_map (M:=labels) l !! k0 with
  | Some v' => f v'
  | None => if bool_decide (k = k0) then f v else b
  end.
Proof.
  intros Hnot. simpl. destruct (decide (k = k0)) as [->|Hne].
  - by rewrite lookup_insert_eq, not_elem_of_list_to_map_1, bool_decide_eq_true_2.
  - by rewrite lookup_insert_ne, bool_decide_eq_false_2.
Qed.

Lemma volume_label_loop_gen l a :
  NoDup l.*1 ->
  foldl volume_label_step a l =
  {| va_unreserved := copy_if (fun k => negb (IsReservedLabel k)) l (va_unreserved a);
     va_replicas := match list_to_map (M:=labels) l !! ReservedLabelReplicas with
                    | Some v => (ParseUint v).1
                    | None => va_replicas a
                    end;
     va_failureMode := match list_to_map (M:=labels) l !! ReservedLabelFailureMode with
                       | Some v => v
                       | None => va_failureMode a
                       end;
     va_errs := va_errs a ++ omap volume_label_error l |}.
Proof.
  revert a. induction l as [|[k v] l IH]; intros a Hnd.
  { simpl. rewrite !lookup_empty, app_nil_r. by destruct a. }
  inversion_clear Hnd as [|? ? Hnotin Hnd']. cbn [foldl]. rewrite IH by done.
  rewrite volume_label_step_eq. cbn [va_unreserved va_replicas va_failureMode va_errs fst snd].
  rewrite (lookup_list_to_map_cons _ _ _ _ (fun v => (ParseUint v).1)) by done.
  rewrite (lookup_list_to_map_cons _ _ _ _ (fun v => v)) by done. f_equal.
  rewrite <- (assoc_L (++)). f_equal. cbn [omap list_omap]. by destruct (volume_label_error (k, v)).
Qed.

(** The label map holds no label that is an error for a volume. *)
Definition volume_labels_valid (m : labels) : Prop := forall k v, m !! k = Some v -> volume_label_error (k, v) = None.

Section volume_facts.
Context `{GoRange}.

Lemma volume_label_loop_spec (ls : gomap) :
  volume_label_loop (gm_range ls) =
  {| va_unreserved := unreserved (gm_map ls);
     va_replicas := wanted_replicas (gm_map ls);
     va_failureMode := wanted_failureMode (gm_map ls);
     va_errs := omap volume_label_error (gm_range ls) |}.
Proof.
  unfold volume_label_loop, gm_range. rewrite volume_label_loop_gen by apply range_NoDup. simpl.
  rewrite copy_if_range, list_to_map_range. unfold unreserved, wanted_replicas, wanted_failureMode.
  by rewrite (right_id_L ∅ (∪)).
Qed.

Lemma volume_errs_nil (ls : gomap) :
  omap volume_label_error (gm_range ls) = [] <-> volume_labels_valid (gm_map ls).
Proof.
  rewrite omap_nil_iff. unfold gm_range, volume_labels_valid.
  split; [intros Hf k v Hk; apply Hf; by apply elem_of_range |].
  intros Hv [k v] Hin. apply Hv. by apply elem_of_range.
Qed.
End volume_facts.

(** ** Which calls are attempted *)

(** Every listing succeeds: the namespaces show [ns] first under the
    namespace of the key, and its volumes show [v] first under the name. *)
Definition sees_volume (key : ObjectKey) (ns : Namespace) (v : Volume) (e : event) : Prop :=
  let '(existT c r) := e in
  match c return ret c -> Prop with
  | CP_ListNamespaces _ => fun r => r.2 = None /\ find_by_name ns_Name r.1.1 (k_namespace key) = Some ns
  | CP_ListVolumes _ id => fun r =>
      id = ns_Id ns -> r.2 = None /\ find_by_name v_Name r.1.1 (k_name key) = Some v
  | _ => fun _ => True
  end r.

(** The number of replicas of a volume, when its label can be parsed. *)
Definition current_replicas (v : Volume) : Z * option num_error :=
  match gm_lookup (v_Labels v) ReservedLabelReplicas with
  | None => (0%Z, None)
  | Some s => ParseUint s
  end.

Definition current_failureMode (v : Volume) : string := gm_get (v_Labels v) ReservedLabelFailureMode.

Definition replicas_readable (v : Volume) : Prop := (current_replicas v).2 = None.

Definition replicas_plan (ctx : Ctx) (v : Volume) (desired : Z) : list call :=
  match current_replicas v with
  | (_, Some _) => []
  | (current, None) =>
      if bool_decide (current = desired) then []
      else [CP_SetReplicas ctx (v_NamespaceID v) (v_Id v) {| srr_Replicas := desired; srr_Version := v_Version v |}]
  end.

Definition failureMode_plan (ctx : Ctx) (v : Volume) (desired : string) : list call :=
  if bool_decide (current_failureMode v = desired) then []
  else match ParseFailureMode desired with
       | inr _ => []
       | inl (mode, threshold) =>
           [CP_SetFailureMode ctx (v_NamespaceID v) (v_Id v)
              {| sfm_Mode := mode; sfm_FailureThreshold := threshold; sfm_Version := v_Version v |}]
       end.

Definition failureMode_ok (v : Volume) (desired : string) : Prop :=
  current_failureMode v = desired \/ exists mt, ParseFailureMode desired = inl mt.

Definition volume_labels_plan (ctx : Ctx) (v : Volume) (desired : labels) : list call :=
  let apply := merged desired (gm_map (v_Labels v)) in
  if bool_decide (gm_map (v_Labels v) = apply) then []
  else [CP_UpdateVolume ctx (v_NamespaceID v) (v_Id v) {| uvd_Labels := Some apply; uvd_Version := v_Version v |}].

(** The calls a synchronisation of the label map [m] to the volume [v] attempts. *)
Definition volume_sync_plan (ctx : Ctx) (v : Volume) (m : labels) : list call :=
  replicas_plan ctx v (wanted_replicas m) ++ failureMode_plan ctx v (wanted_failureMode m) ++
  volume_labels_plan ctx v (unreserved m).

(** What a synchronisation of the label map [m] to the volume of a key does,
    whatever it is answered: three reads of the volume, after each of them the
    change that the volume just read needs, sent with the version just read;
    and when it reports success ([r]). *)
Definition volume_sync_run (ctx : Ctx) (key : ObjectKey) (m : labels) (tr : trace) (r : option error) : Prop :=
  exists tr1 tr2 tr3 x1 x2 x3, tr = tr1 ++ tr2 ++ tr3 /\
    part (getVolume ctx key) (fun v => replicas_plan ctx v (wanted_replicas m)) tr1 x1 /\
    part (getVolume ctx key) (fun v => failureMode_plan ctx v (wanted_failureMode m)) tr2 x2 /\
    part (getVolume ctx key) (fun v => volume_labels_plan ctx v (unreserved m)) tr3 x3 /\
    (Forall foreign tr ->
     (r = None <-> volume_labels_valid m /\
        fine ErrVolumeNotFound replicas_readable x1 /\
        fine ErrVolumeNotFound (fun v => failureMode_ok v (wanted_failureMode m)) x2 /\
        fine ErrVolumeNotFound (fun _ => True) x3 /\
        Forall succeeded tr)).

Lemma ParseFailureMode_foreign s e : ParseFailureMode s = inr e -> foreign_error e.
Proof. unfold ParseFailureMode. repeat case_bool_decide; try done. destruct (ParseUint s) as [n [e'|]]; [|done]. by intros [= <-]. Qed.
#[export] Hint Resolve ParseFailureMode_foreign : effects.

Section volume_runs.
Context `{GoRange} (c : Client).

(** The listings of [getVolume] change nothing; what they show is found. *)
Lemma getVolume_run ctx key :
  every_run (getVolume ctx key) (fun tr o => exists x, o = Done x /\ mutations tr = [] /\
    (Forall foreign tr -> match x with inr e => one_error e | inl _ => True end)).
Proof.
  unfold getVolume, getNamespace.
  run_steps; eexists; (split; [done|]); (split; [done|]); events; naive_solver eauto with effects.
Qed.

Lemma getVolume_sees ctx key ns v :
  every_run (getVolume ctx key) (fun tr o => Forall (sees_volume key ns v) tr -> o = Done (inl v)).
Proof.
  unfold getVolume, getNamespace. run_steps; events; intros; destruct_and?; simplify_eq/=; naive_solver congruence.
Qed.

Lemma EnsureReplicas_ensures ctx key desired :
  every_run (EnsureReplicas c ctx key desired)
    (ensures (getVolume (AddToken c ctx) key) (fun v => replicas_plan (AddToken c ctx) v desired) replicas_readable).
Proof.
  unfold EnsureReplicas, timed. apply every_run_defer.
  apply fetched; [apply getVolume_run|]. intros rd x Hr Hm Hok Ho.
  unfold replicas_plan, replicas_readable, current_replicas, ensures, observeErr.
  run_steps; match goal with Hr : ran _ _ (Ret ?x) |- _ => close_ensures x end.
Qed.

Lemma EnsureFailureMode_ensures ctx key desired :
  every_run (EnsureFailureMode c ctx key desired)
    (ensures (getVolume (AddToken c ctx) key) (fun v => failureMode_plan (AddToken c ctx) v desired)
       (fun v => failureMode_ok v desired)).
Proof.
  unfold EnsureFailureMode, timed. apply every_run_defer.
  apply fetched; [apply getVolume_run|]. intros rd x Hr Hm Hok Ho.
  unfold failureMode_plan, failureMode_ok, current_failureMode, ensures, observeErr.
  run_steps; match goal with Hr : ran _ _ (Ret ?x) |- _ => close_ensures x end.
Qed.

Lemma EnsureUnreservedVolumeLabels_ensures ctx key (desired : labels) :
  every_run (EnsureUnreservedVolumeLabels c ctx key (Some desired))
    (ensures (getVolume (AddToken c ctx) key) (fun v => volume_labels_plan (AddToken c ctx) v desired) (fun _ => True)).
Proof.
  unfold EnsureUnreservedVolumeLabels, timed. apply every_run_defer.
  apply fetched; [apply getVolume_run|]. intros rd x Hr Hm Hok Ho.
  unfold volume_labels_plan, ensures, observeErr. cbn beta iota zeta.
  destruct x as [vol|e]; [|run_steps; close_ensures (inr e : Volume + error)].
  rewrite applyLabels_merged.
  pose proof (skip_update_iff (v_Labels vol) (merged desired (gm_map (v_Labels vol)))) as Hskip.
  run_steps; use_skip Hskip; close_ensures (inl vol : Volume + error).
Qed.

Lemma EnsureVolumeLabels_parts ctx key ls :
  every_run (EnsureVolumeLabels c ctx key ls) (fun tr o =>
    exists r, o = Done r /\ volume_sync_run (AddToken c ctx) key (gm_map ls) tr r).
Proof.
  unfold EnsureVolumeLabels. rewrite volume_label_loop_spec.
  cbn [va_replicas va_failureMode va_unreserved va_errs].
  eapply every_run_seq; [eapply (collect_step (A := Volume) ErrVolumeNotFound); apply EnsureReplicas_ensures| |by intros ? ? (? & ? & ? & _)].
  intros tr1 r1 (? & x1 & [= <-] & H1 & He1).
  eapply every_run_seq; [eapply (collect_step (A := Volume) ErrVolumeNotFound); apply EnsureFailureMode_ensures| |by intros ? ? (? & ? & ? & _)].
  intros tr2 r2 (? & x2 & [= <-] & H2 & He2).
  eapply every_run_seq; [eapply (collect_step (A := Volume) ErrVolumeNotFound); apply EnsureUnreservedVolumeLabels_ensures| |by intros ? ? (? & ? & ? & _)].
  intros tr3 r3 (? & x3 & [= <-] & H3 & He3). apply every_run_ret. rewrite app_nil_r.
  eexists. split; [done|]. exists tr1, tr2, tr3, x1, x2, x3. split_and!; try done.
  intros (Hf1 & Hf2 & Hf3)%Forall_app3. rewrite ErrorOrNil_None, He3, He2, He1, volume_errs_nil, Forall_app3 by done. tauto.
Qed.


(** When all the reads show the volume [v]. *)
Lemma volume_sync_run_sees ctx key m tr r ns v :
  volume_sync_run ctx key m tr r -> Forall (sees_volume key ns v) tr -> Forall foreign tr ->
  mutations tr = volume_sync_plan ctx v m /\
  (r = None <-> (volume_labels_valid m /\ (current_replicas v).2 = None /\ failureMode_ok v (wanted_failureMode m)) /\
     Forall succeeded tr).
Proof.
  intros (tr1 & tr2 & tr3 & x1 & x2 & x3 & -> & [R1 H1] & [R2 H2] & [R3 H3] & Hr) (Hs1 & Hs2 & Hs3)%Forall_app3 Hf.
  assert (Hsame : forall t x, reads (getVolume ctx key) t x -> Forall (sees_volume key ns v) t -> x = inl v).
  { intros t x (rd & rest & -> & Hran) [Hs _]%Forall_app.
    pose proof (ran_done _ _ _ _ Hran (getVolume_sees ctx key ns v) Hs). congruence. }
  rewrite (Hsame _ _ R1 Hs1), (Hsame _ _ R2 Hs2), (Hsame _ _ R3 Hs3) in *.
  split; [by rewrite !mutations_app, H1, H2, H3|]. rewrite (Hr Hf). simpl. unfold replicas_readable. tauto.
Qed.

Lemma EnsureVolumeLabels_run ctx key ns v ls :
  every_run (EnsureVolumeLabels c ctx key ls) (fun tr o =>
    exists r, o = Done r /\
      (Forall (sees_volume key ns v) tr -> Forall foreign tr ->
         mutations tr = volume_sync_plan (AddToken c ctx) v (gm_map ls) /\
         (r = None <->
            (volume_labels_valid (gm_map ls) /\ (current_replicas v).2 = None /\
             failureMode_ok v (wanted_failureMode (gm_map ls))) /\
            Forall succeeded tr))).
Proof.
  eapply every_run_mono; [apply EnsureVolumeLabels_parts|]. intros tr o (r & -> & Hr).
  exists r. split; [done|]. intros. by eapply volume_sync_run_sees.
Qed.

(** A volume update keeps the reserved labels the volume had when it was read
    and takes every other label from the wanted map. *)
Lemma EnsureVolumeLabels_keeps_reserved ctx key ls :
  every_run (EnsureVolumeLabels c ctx key ls) (fun tr _ =>
    forall ctx' nsid id data, CP_UpdateVolume ctx' nsid id data ∈ mutations tr ->
      exists v rd, ran (getVolume (AddToken c ctx) key) rd (Ret (inl v)) /\
      nsid = v_NamespaceID v /\ id = v_Id v /\ uvd_Version data = v_Version v /\
      forall k, gm_lookup (uvd_Labels data) k =
                if IsReservedLabel k then gm_lookup (v_Labels v) k else gm_lookup ls k).
Proof.
  eapply every_run_mono; [apply (EnsureVolumeLabels_parts ctx key ls)|].
  intros tr o (r & _ & tr1 & tr2 & tr3 & x1 & x2 & x3 & -> & [_ H1] & [_ H2] & [(rd & rest & _ & Hrd) H3] & _).
  intros ctx' nsid id data. rewrite !mutations_app, H1, H2, H3, !elem_of_app.
  unfold replicas_plan, failureMode_plan, volume_labels_plan. intros [Hin|[Hin|Hin]].
  - destruct x1 as [v|]; simpl in Hin; [destruct (current_replicas v) as [? []]; repeat case_bool_decide|]; set_solver.
  - destruct x2 as [v|]; simpl in Hin; [case_bool_decide; [|destruct (ParseFailureMode _) as [[]|]]|]; set_solver.
  - destruct x3 as [v|]; simpl in Hin; [|set_solver]. case_bool_decide; [set_solver|].
    apply list_elem_of_singleton in Hin as [= _ -> -> ->]. exists v, rd. repeat (split; [done|]). intros k. simpl.
    rewrite merged_unreserved, lookup_merged, !gm_lookup_map. by destruct (IsReservedLabel k).
Qed.

End volume_runs.

(** A namespace and a volume with two replicas, for the witnesses. *)
Definition example_namespace : Namespace :=
  {| ns_Id := "ns1"; ns_Name := "default"; ns_Labels := None; ns_Version := "1" |}.

Definition example_volume : Volume :=
  {| v_Id := "v1"; v_Name := "pvc-1"; v_NamespaceID := "ns1";
     v_Labels := Some {[ ReservedLabelReplicas := "2"; "app" := "db" ]};
     v_NfsServiceEndpoint := None; v_MasterHealth := HEALTH_ONLINE; v_Version := "3" |}.

(** An environment that shows that volume and accepts every call. *)
Definition volume_handler : handler unit := fun c w =>
  (match c return ret c with
   | CP_ListNamespaces _ => ([example_namespace], None, None)
   | CP_ListVolumes _ _ => ([example_volume], None, None)
   | c' => plain_answer c'
   end, w).

Definition example_sync (ls : labels) : prog (option error) :=
  EnsureVolumeLabels (H := range_default) example_client background (Key "default" "pvc-1") (Some ls).

