(* ===== verification/ControlPlane.v ===== *)
(** * The control plane as a store of objects

    The label synchronisation reads an object before each change and sends the
    version it read.  Here: a store whose objects change under such calls
    ([ObjectStore]), and what an [Ensure...] operation does to one of its
    objects ([applies]).  [VolumeStore] and [NodeStore] say what the API of the
    control plane documents of volumes and of nodes, and prove the
    synchronisation of their labels against it. *)

From Stdlib Require Import ZArith.
From S2P Require Import Prelude GoLib Errors Types Effects Labels Client LabelSync.

(** ** Lists of objects with identifiers *)

(** The list with [x'] in the place of the object of the same identifier. *)
Definition replace {A} (id : A -> string) (x' : A) (l : list A) : list A :=
  map (fun x => if bool_decide (id x = id x') then x' else x) l.

Section replace.
Context {A : Type} (id name : A -> string).

Lemma replace_ids x' l : map id (replace id x' l) = map id l.
Proof.
  unfold replace. rewrite map_map. apply map_ext. intros x. case_bool_decide as Hx; [|done]. by rewrite Hx.
Qed.

Lemma replace_replace x' x'' l : id x'' = id x' -> replace id x'' (replace id x' l) = replace id x'' l.
Proof.
  intros Hid. unfold replace. rewrite map_map. apply map_ext. intros x.
  destruct (bool_decide_reflect (id x = id x')) as [Hx|Hx].
  - by rewrite !bool_decide_eq_true_2 by congruence.
  - done.
Qed.

(** The object is found under its name, and nothing else changes. *)
Lemma find_replace x x' l n :
  NoDup (map id l) -> find_by_name name l n = Some x -> id x' = id x -> name x' = name x ->
  find_by_name name (replace id x' l) n = Some x'.
Proof.
  intros Hnd Hf Hid Hn. apply find_by_name_Some in Hf as Hx. destruct Hx as [Hin Hx].
  unfold find_by_name in *. induction l as [|y l IH]; [done|]. simpl in *.
  inversion_clear Hnd as [|? ? Hy Hnd']. destruct (bool_decide_reflect (name y = n)) as [Hyn|Hyn].
  - injection Hf as ->. rewrite (bool_decide_eq_true_2 (id x = id x')) by done.
    by rewrite Hn, bool_decide_eq_true_2.
  - apply elem_of_cons in Hin as [->|Hin]; [done|]. rewrite (bool_decide_eq_false_2 (id y = id x')).
    + rewrite bool_decide_eq_false_2 by done. by apply IH.
    + rewrite Hid. intros Heq. apply Hy. rewrite Heq. apply list_elem_of_In, in_map, list_elem_of_In, Hin.
Qed.

Lemma replace_same x l : NoDup (map id l) -> x ∈ l -> replace id x l = l.
Proof.
  intros Hnd Hx. unfold replace. transitivity (map (fun y => y) l); [|apply map_id].
  apply map_ext_in. intros y Hy%list_elem_of_In. case_bool_decide as Hid; [|done].
  symmetry.
  clear - Hnd Hx Hy Hid. induction l as [|z l IH]; [by apply elem_of_nil in Hx|].
  inversion_clear Hnd as [|? ? Hz Hnd']. apply elem_of_cons in Hx as [->|Hx], Hy as [->|Hy]; auto; destruct Hz.
  - rewrite <- Hid. by apply list_elem_of_In, in_map, list_elem_of_In.
  - rewrite Hid. by apply list_elem_of_In, in_map, list_elem_of_In.
Qed.

End replace.

(** ** Programs in an environment with state *)

Section runs_to_more.
Context {W : Type} (h : handler W).

Lemma runs_to_defer {A} d (p : prog A) w a w1 pl r w2 :
  mutates d = false -> runs_to h p w a w1 pl -> h d w1 = (r, w2) -> runs_to h (defer d p) w a w2 pl.
Proof.
  intros Hd (tr & Hp & Hm) Hw. exists (tr ++ [existT d r]).
  rewrite mutations_app, mutations_cons, Hm. simpl. rewrite Hd, !app_nil_r. split; [|done]. clear Hm.
  revert w tr Hp. induction p as [x|m|c k IH]; intros w tr; simpl; [|done|].
  - intros [= -> -> <-]. by rewrite Hw.
  - destruct (h c w) as [r0 w0]. destruct (exec h (k r0) w0) as [[o w'] tr'] eqn:Hk.
    intros [= -> -> <-]. by rewrite (IH _ _ _ Hk).
Qed.

Lemma runs_to_query {B} c (f : ret c -> prog B) w r w1 b w2 pl :
  mutates c = false -> h c w = (r, w1) -> runs_to h (f r) w1 b w2 pl -> runs_to h (Call c ≫= f) w b w2 pl.
Proof.
  intros Hc Hw Hf. pose proof (runs_to_call h c w r w1 Hw) as Hr. rewrite Hc in Hr. exact (runs_to_read h _ _ _ _ _ _ _ _ Hr Hf).
Qed.

Lemma runs_to_change {B} c (f : ret c -> prog B) w r w1 b w2 pl :
  mutates c = true -> h c w = (r, w1) -> runs_to h (f r) w1 b w2 pl -> runs_to h (Call c ≫= f) w b w2 (c :: pl).
Proof.
  intros Hc Hw Hf. pose proof (runs_to_call h c w r w1 Hw) as Hr. rewrite Hc in Hr. exact (runs_to_bind h _ _ _ _ _ _ _ _ _ Hr Hf).
Qed.

(** The control plane accepts the call. *)
Definition accepts (w : W) (c : call) : Prop := cp_error (existT c (h c w).1) = None.
End runs_to_more.

(** ** Operations on one object

    A store of objects of one kind, as the operations of the label
    synchronisation see it: an object is found under a key by [fetch], one object
    may become another, metrics do not matter. *)
Class ObjectStore {W A : Type} (h : handler W) (fetch : Ctx -> ObjectKey -> prog (A + error)) := {
  os_state : Type;
  os_view : W -> os_state;
  os_at : os_state -> ObjectKey -> option A;
  os_becomes : os_state -> os_state -> A -> A -> Prop;
  os_refl : forall w key x, os_at (os_view w) key = Some x -> os_becomes (os_view w) (os_view w) x x;
  os_trans : forall s1 s2 s3 x1 x2 x3, os_becomes s1 s2 x1 x2 -> os_becomes s2 s3 x2 x3 -> os_becomes s1 s3 x1 x3;
  os_at_becomes : forall w w' key x x',
    os_at (os_view w) key = Some x -> os_becomes (os_view w) (os_view w') x x' -> os_at (os_view w') key = Some x';
  os_fetch : forall ctx w key x, os_at (os_view w) key = Some x -> runs_to h (fetch ctx key) w (inl x) w [];
  os_increment : forall f e w, os_view (h (M_Increment f e) w).2 = os_view w;
  os_observe : forall f w, os_view (h (M_Observe f) w).2 = os_view w;
}.

(** The labels agree, except on the keys of [mine]. *)
Definition keeps (mine : string -> bool) (ls ls' : gomap) : Prop :=
  forall k, mine k = false -> gm_lookup ls' k = gm_lookup ls k.

Section object_store.
Context {W A : Type} (h : handler W) {fetch : Ctx -> ObjectKey -> prog (A + error)} `{!ObjectStore h fetch}.
Context (labels_of : A -> gomap) (ctx : Ctx) (key : ObjectKey).

(** The outcome of an operation on the object [x] that it has found: it makes
    the calls of the plan; then the object is as wanted, or as it was if an
    error is reported; other labels, and other objects, stay as they are, and
    without a call all does.  An error is that the object is not [ok], or the
    refusal of a call. *)
Definition outcome_of (op : prog (option error)) (mine : string -> bool) (ok : Prop) (wanted : A -> Prop)
    (plan : list call) (w : W) (x : A) : Prop :=
  exists r x' w', runs_to h op w r w' plan /\
    os_becomes (os_view w) (os_view w') x x' /\ keeps mine (labels_of x) (labels_of x') /\
    match r with None => ok /\ wanted x' | Some e => foreign_error e /\ x' = x end /\ (plan = [] -> x' = x) /\
    (ok -> (forall w0 c, os_at (os_view w0) key = Some x -> c ∈ plan -> accepts h w0 c) -> r = None).

Definition applies (op : prog (option error)) (mine : string -> bool) (ok wanted : A -> Prop)
    (plan : A -> list call) : Prop :=
  forall w x, os_at (os_view w) key = Some x -> outcome_of op mine (ok x) wanted (plan x) w x.

(** The answer to a change of [x]: refused without effect, or accepted with the
    effect [E] on labels of [mine] only. *)
Definition change_of (x : A) (c : call) (mine : string -> bool) (E : A -> Prop) : Prop :=
  forall w, os_at (os_view w) key = Some x ->
  match cp_error (existT c (h c w).1) with
  | Some e => foreign_error e /\ os_view (h c w).2 = os_view w
  | None => exists x', os_becomes (os_view w) (os_view (h c w).2) x x' /\ keeps mine (labels_of x) (labels_of x') /\ E x'
  end.

(** The end of an operation: the metrics leave the objects as they are. *)
Lemma timed_runs_to {B} name (p : prog B) w r w1 pl :
  runs_to h p w r w1 pl ->
  exists w2, runs_to h (timed name p) w r w2 pl /\ os_view w2 = os_view w1.
Proof.
  intros Hp. exists (h (M_Observe name) w1).2. split; [|apply os_observe].
  eapply runs_to_defer; [done|exact Hp|]. apply surjective_pairing.
Qed.

Lemma observeErr_runs_to name e w :
  exists w', runs_to h (observeErr name e) w e w' [] /\ os_view w' = os_view w.
Proof.
  exists (h (M_Increment name e) w).2. split; [|apply os_increment]. unfold observeErr.
  eapply runs_to_query; [done|apply surjective_pairing|]. apply runs_to_ret.
Qed.

Lemma outcome_timed name body mine ok wanted plan w x :
  os_at (os_view w) key = Some x -> outcome_of (body x) mine ok wanted plan w x ->
  outcome_of (timed name (r ← fetch ctx key;
                          match r with inr e => observeErr name (Some e) | inl x => body x end))
    mine ok wanted plan w x.
Proof.
  intros Hx Hbody. destruct Hbody as (r & x' & w1 & Hrun & Hb & Hrest).
  destruct (timed_runs_to name (r ← fetch ctx key;
    match r with inr e => observeErr name (Some e) | inl x => body x end) w r w1 plan) as (w2 & Hrun2 & Hs).
  { eapply runs_to_read; [by apply os_fetch|exact Hrun]. }
  exists r, x', w2. rewrite Hs. by split.
Qed.

Lemma outcome_mono op mine ok (wanted wanted' : A -> Prop) plan w x :
  (forall x', wanted x' -> wanted' x') -> outcome_of op mine ok wanted plan w x -> outcome_of op mine ok wanted' plan w x.
Proof.
  intros Himp (r & x' & w' & H1 & H2 & H3 & H4 & H5 & H6). exists r, x', w'. split_and!; try done. destruct r; naive_solver.
Qed.

(** The object is not fit for the operation. *)
Lemma outcome_unfit op mine (ok : Prop) (wanted : A -> Prop) w x e :
  os_at (os_view w) key = Some x -> ~ ok -> foreign_error e ->
  (exists w', runs_to h op w (Some e) w' [] /\ os_view w' = os_view w) -> outcome_of op mine ok wanted [] w x.
Proof.
  intros Hin Hok He (w' & Hrun & Hs). exists (Some e), x, w'. rewrite Hs. split; [done|].
  by split; [eapply os_refl|].
Qed.

(** Nothing to do. *)
Lemma outcome_settled op mine (ok : Prop) (wanted : A -> Prop) w x :
  os_at (os_view w) key = Some x -> ok -> wanted x ->
  (exists w', runs_to h op w None w' [] /\ os_view w' = os_view w) -> outcome_of op mine ok wanted [] w x.
Proof.
  intros Hin Hok Hw (w' & Hrun & Hs). exists None, x, w'. rewrite Hs. split; [done|]. by split; [eapply os_refl|].
Qed.

(** A change that was answered, and counted. *)
Lemma outcome_changed (op : prog (option error)) mine (ok : Prop) wanted cl w x err w1 name resp :
  os_at (os_view w) key = Some x -> ok ->
  (cp_error (existT cl (h cl w).1) = err /\ (h cl w).2 = w1) ->
  change_of x cl mine wanted ->
  (forall r w', runs_to h (match err with
                           | Some e => observeErr name (Some (map_api_error e resp))
                           | None => observeErr name None
                           end) w1 r w' [] -> runs_to h op w r w' [cl]) ->
  outcome_of op mine ok wanted [cl] w x.
Proof.
  intros Hin Hok [He Hw1] Hch Hop. specialize (Hch w Hin). rewrite He, Hw1 in Hch. destruct err as [e|].
  - destruct Hch as [Hf Hs]. destruct (observeErr_runs_to name (Some (map_api_error e resp)) w1) as (w2 & Hr & Hs2).
    exists (Some (map_api_error e resp)), x, w2. rewrite Hs2, Hs. split; [by apply Hop|].
    split; [by eapply os_refl|]. split; [done|]. split; [by split; [apply foreign_map_api_error|]|]. split; [done|].
    intros _ Hacc. specialize (Hacc w cl Hin ltac:(left)). unfold accepts in Hacc. by rewrite He in Hacc.
  - destruct Hch as (x' & Hb & Hk & HE). destruct (observeErr_runs_to name None w1) as (w2 & Hr & Hs2).
    exists None, x', w2. rewrite Hs2. split; [by apply Hop|done].
Qed.
End object_store.

(** Apply it to the call at the head of an operation. *)
Ltac outcome_change law :=
  match goal with |- outcome_of ?h _ _ (Call ?cl ≫= _) _ _ _ _ ?w _ =>
    let Hh := fresh "Hh" in
    destruct (h cl w) as [[[[] resp] err] w1] eqn:Hh;
    eapply (outcome_changed h _ _ _ _ _ _ cl w _ err w1 _ resp); [eassumption|try done|by rewrite Hh|eapply law; try done|];
    [..|intros r0 w0 Hr0; eapply (runs_to_change h cl); [done|exact Hh|exact Hr0]]
  end.

Lemma not_reserved_ne k k' : IsReservedLabel k = false -> IsReservedLabel k' = true -> bool_decide (k = k') = false.
Proof. intros Hk Hk'. apply bool_decide_eq_false_2. intros ->. by rewrite Hk in Hk'. Qed.

Lemma ok_or_foreign (r : option error) (P : Prop) (Q : Prop) :
  match r with None => P | Some e => foreign_error e /\ Q end -> match r with Some e => foreign_error e | None => True end.
Proof. by destruct r as [e|]; [intros [? _]|]. Qed.


Lemma keeps_unreserved mine ls ls' :
  keeps mine ls ls' -> (forall k, IsReservedLabel k = false -> mine k = false) ->
  unreserved (gm_map ls') = unreserved (gm_map ls).
Proof.
  intros Hk Hm. apply map_eq. intros k. rewrite !lookup_unreserved. destruct (IsReservedLabel k) eqn:Hr; [done|].
  pose proof (Hk k (Hm k Hr)) as Hl. by rewrite !gm_lookup_map in Hl.
Qed.

Lemma keeps_reserved mine ls ls' :
  keeps mine ls ls' -> (forall k, IsReservedLabel k = true -> mine k = false) ->
  reserved (gm_map ls') = reserved (gm_map ls).
Proof.
  intros Hk Hm. apply map_eq. intros k. rewrite !lookup_reserved. destruct (IsReservedLabel k) eqn:Hr; [|done].
  pose proof (Hk k (Hm k Hr)) as Hl. by rewrite !gm_lookup_map in Hl.
Qed.
