(* ===== verification/VolumeStore.v ===== *)
(** * Volumes in the control plane

    What the API of the control plane documents of volumes: the listings show
    namespaces and their volumes; a change that carries the current version of
    the volume is accepted or refused, and has its effect if accepted:
    [SetReplicas] and [SetFailureMode] modify a protected label of the system
    each, [UpdateVolume] the labels of the users.  Nothing is assumed of a
    change with another version.  Against these laws, [EnsureVolumeLabels]
    brings the volume to the wanted labels in one run if its changes are
    accepted, although each of them gives the volume another version. *)

From Stdlib Require Import ZArith.
From S2P Require Import Prelude GoLib Errors Types Effects Labels Client LabelSync VolumeLabels ControlPlane.

(** What the control plane knows of volumes: the namespaces, and the volumes of
    each, by the identifier of the namespace. *)
Record volumes := Volumes { vs_namespaces : list Namespace; vs_volumes : string -> list Volume }.

(** [v] was replaced by [v'], in the same place. *)
Record becomes (s s' : volumes) (v v' : Volume) : Prop := {
  bc_namespaces : vs_namespaces s' = vs_namespaces s;
  bc_id : v_Id v' = v_Id v;
  bc_name : v_Name v' = v_Name v;
  bc_namespace : v_NamespaceID v' = v_NamespaceID v;
  bc_volumes : forall id, vs_volumes s' id =
    if decide (id = v_NamespaceID v) then replace v_Id v' (vs_volumes s id) else vs_volumes s id;
}.

(** The volume of a key. *)
Definition volume_at (s : volumes) (key : ObjectKey) : option Volume :=
  ns ← find_by_name ns_Name (vs_namespaces s) (k_namespace key);
  find_by_name v_Name (vs_volumes s (ns_Id ns)) (k_name key).

(** The answer to a change of a listed volume. *)
Definition volume_change {W} (h : handler W) (view : W -> volumes) (v : Volume) (c : call)
    (mine : string -> bool) (E : Volume -> Prop) : Prop :=
  forall w, v ∈ vs_volumes (view w) (v_NamespaceID v) ->
  match cp_error (existT c (h c w).1) with
  | Some e => foreign_error e /\ view (h c w).2 = view w
  | None => exists v', becomes (view w) (view (h c w).2) v v' /\ keeps mine (v_Labels v) (v_Labels v') /\ E v'
  end.

(** The changes of [v] that carry its version, with arguments the API allows. *)
Inductive current_change (v : Volume) : call -> Prop :=
  | current_replicas_change ctx n : (0 <= n <= maxUint64)%Z ->
      current_change v (CP_SetReplicas ctx (v_NamespaceID v) (v_Id v) {| srr_Replicas := n; srr_Version := v_Version v |})
  | current_failureMode_change ctx s mode threshold : ParseFailureMode s = inl (mode, threshold) ->
      current_change v (CP_SetFailureMode ctx (v_NamespaceID v) (v_Id v)
        {| sfm_Mode := mode; sfm_FailureThreshold := threshold; sfm_Version := v_Version v |})
  | current_labels_change ctx ls : reserved (gm_map ls) = reserved (gm_map (v_Labels v)) ->
      current_change v (CP_UpdateVolume ctx (v_NamespaceID v) (v_Id v) {| uvd_Labels := ls; uvd_Version := v_Version v |}).

Class VolumeStore {W : Type} (h : handler W) := {
  volumes_of : W -> volumes;
  vs_ids : forall w id, NoDup (map v_Id (vs_volumes (volumes_of w) id));
  vs_owner : forall w id v, v ∈ vs_volumes (volumes_of w) id -> v_NamespaceID v = id;
  vs_list_namespaces : forall ctx w,
    h (CP_ListNamespaces ctx) w = ((vs_namespaces (volumes_of w), None, None), w);
  vs_list_volumes : forall ctx id w,
    h (CP_ListVolumes ctx id) w = ((vs_volumes (volumes_of w) id, None, None), w);
  vs_increment : forall f e w, volumes_of (h (M_Increment f e) w).2 = volumes_of w;
  vs_observe : forall f w, volumes_of (h (M_Observe f) w).2 = volumes_of w;
  (* changes that carry the current version *)
  vs_set_replicas : forall ctx v n, (0 <= n <= maxUint64)%Z ->
    volume_change h volumes_of v
      (CP_SetReplicas ctx (v_NamespaceID v) (v_Id v) {| srr_Replicas := n; srr_Version := v_Version v |})
      (fun k => bool_decide (k = ReservedLabelReplicas)) (fun v' => current_replicas v' = (n, None));
  vs_set_failure_mode : forall ctx v s mode threshold, ParseFailureMode s = inl (mode, threshold) ->
    volume_change h volumes_of v
      (CP_SetFailureMode ctx (v_NamespaceID v) (v_Id v)
         {| sfm_Mode := mode; sfm_FailureThreshold := threshold; sfm_Version := v_Version v |})
      (fun k => bool_decide (k = ReservedLabelFailureMode))
      (fun v' => ParseFailureMode (current_failureMode v') = inl (mode, threshold));
  vs_update : forall ctx v ls, reserved (gm_map ls) = reserved (gm_map (v_Labels v)) ->
    volume_change h volumes_of v
      (CP_UpdateVolume ctx (v_NamespaceID v) (v_Id v) {| uvd_Labels := ls; uvd_Version := v_Version v |})
      (fun k => negb (IsReservedLabel k)) (fun v' => gm_map (v_Labels v') = gm_map ls);
}.

Section volume_store.
Context {W : Type} (h : handler W) `{!VolumeStore h} `{GoRange} (c : Client) (ctx : Ctx).

Lemma volume_at_listed w key v :
  volume_at (volumes_of w) key = Some v -> v ∈ vs_volumes (volumes_of w) (v_NamespaceID v).
Proof.
  unfold volume_at. destruct (find_by_name ns_Name _ _) as [ns|]; [|done]. simpl.
  intros [Hv _]%find_by_name_Some. by rewrite (vs_owner w (ns_Id ns) v Hv).
Qed.

Lemma volume_at_becomes w w' key v v' :
  volume_at (volumes_of w) key = Some v -> becomes (volumes_of w) (volumes_of w') v v' ->
  volume_at (volumes_of w') key = Some v'.
Proof.
  unfold volume_at. intros Hv [Hns Hid Hname Hnsid Hvols]. rewrite Hns.
  destruct (find_by_name ns_Name _ _) as [ns|]; [|done]. simpl in *. rewrite Hvols.
  rewrite (decide_True _ _ (eq_sym (vs_owner w (ns_Id ns) v (proj1 (find_by_name_Some _ _ _ _ Hv))))).
  by apply (find_replace v_Id v_Name v v'); [apply vs_ids|..].
Qed.

Lemma becomes_refl w v :
  v ∈ vs_volumes (volumes_of w) (v_NamespaceID v) -> becomes (volumes_of w) (volumes_of w) v v.
Proof.
  intros Hv. split; try done. intros id. case_decide as Hid; [|done]. subst id.
  symmetry. apply replace_same; [apply vs_ids|done].
Qed.

Lemma becomes_trans s1 s2 s3 v1 v2 v3 : becomes s1 s2 v1 v2 -> becomes s2 s3 v2 v3 -> becomes s1 s3 v1 v3.
Proof.
  intros [H1 H2 H3 H4 H5] [H1' H2' H3' H4' H5']. split; try congruence. intros id. rewrite H5', H5, H4.
  case_decide; [|done]. by apply replace_replace.
Qed.

Lemma getVolume_runs_to ctx' w key v :
  volume_at (volumes_of w) key = Some v -> runs_to h (getVolume ctx' key) w (inl v) w [].
Proof.
  unfold volume_at, getVolume, getNamespace. intros Hv.
  destruct (find_by_name ns_Name _ _) as [ns|] eqn:Hns; [|done]. simpl in Hv.
  eapply runs_to_read.
  - eapply runs_to_query; [done|apply vs_list_namespaces|]. cbn beta iota. simpl. rewrite Hns. apply runs_to_ret.
  - cbn iota. eapply runs_to_query; [done|apply vs_list_volumes|]. cbn beta iota. rewrite Hv. apply runs_to_ret.
Qed.

#[export] Instance volume_objects : ObjectStore h getVolume.
Proof.
  refine {| os_view := volumes_of; os_at := volume_at; os_becomes := becomes |}.
  - intros w key v Hv. by apply becomes_refl, (volume_at_listed w key).
  - apply becomes_trans.
  - apply volume_at_becomes.
  - intros ctx' w key v. apply getVolume_runs_to.
  - apply vs_increment.
  - apply vs_observe.
Defined.

Lemma volume_change_of key v cl mine E :
  volume_change h volumes_of v cl mine E -> change_of h v_Labels key v cl mine E.
Proof. intros Hc w Hv. exact (Hc w (volume_at_listed w key v Hv)). Qed.

Lemma EnsureReplicas_applies key n :
  (0 <= n <= maxUint64)%Z ->
  applies h v_Labels key (EnsureReplicas c ctx key n) (fun k => bool_decide (k = ReservedLabelReplicas))
    replicas_readable (fun v' => current_replicas v' = (n, None)) (fun v => replicas_plan (AddToken c ctx) v n).
Proof.
  intros Hn w v Hin. apply (outcome_timed h v_Labels); [done|].
  unfold replicas_plan, replicas_readable. fold (current_replicas v).
  destruct (current_replicas v) as [cur [e|]] eqn:Hcur; cbn iota.
  { eapply (outcome_unfit h v_Labels key _ _ _ _ _ _ (NumErr e)); [done..|]. exists w. split; [apply runs_to_ret|done]. }
  case_bool_decide as Heq.
  - apply (outcome_settled h v_Labels key); [done|done|by rewrite Hcur, Heq|]. exists w. split; [apply runs_to_ret|done].
  - outcome_change (volume_change_of key); by apply vs_set_replicas.
Qed.

Lemma EnsureFailureMode_applies key mode :
  applies h v_Labels key (EnsureFailureMode c ctx key mode) (fun k => bool_decide (k = ReservedLabelFailureMode))
    (fun v => failureMode_ok v mode)
    (fun v' => current_failureMode v' = mode \/
       exists mt, ParseFailureMode mode = inl mt /\ ParseFailureMode (current_failureMode v') = inl mt)
    (fun v => failureMode_plan (AddToken c ctx) v mode).
Proof.
  intros w v Hin. apply (outcome_timed h v_Labels); [done|].
  unfold failureMode_plan, failureMode_ok. cbn zeta. fold (current_failureMode v).
  case_bool_decide as Heq.
  - apply (outcome_settled h v_Labels key); [done|by left|by left|]. exists w. split; [apply runs_to_ret|done].
  - destruct (ParseFailureMode mode) as [[m t]|e] eqn:Hp; cbn iota beta.
    + eapply (outcome_mono h v_Labels key) with (wanted := fun v' => ParseFailureMode (current_failureMode v') = inl (m, t)); [eauto|].
      outcome_change (volume_change_of key); [by eauto|by eapply vs_set_failure_mode].
    + eapply (outcome_unfit h v_Labels key _ _ _ _ _ _ e); [done|naive_solver|by eapply ParseFailureMode_foreign|].
      apply (observeErr_runs_to h).
Qed.

Lemma EnsureUnreservedVolumeLabels_applies key (desired : labels) :
  applies h v_Labels key (EnsureUnreservedVolumeLabels c ctx key (Some desired)) (fun k => negb (IsReservedLabel k))
    (fun _ => True) (fun v' => unreserved (gm_map (v_Labels v')) = unreserved desired)
    (fun v => volume_labels_plan (AddToken c ctx) v desired).
Proof.
  intros w v Hin. apply (outcome_timed h v_Labels); [done|]. unfold volume_labels_plan. cbn zeta beta. rewrite applyLabels_merged. change (gm_map (Some desired)) with desired.
  pose proof (skip_update_iff (v_Labels v) (merged desired (gm_map (v_Labels v)))) as Hskip.
  destruct (bool_decide_reflect (gm_map (v_Labels v) = merged desired (gm_map (v_Labels v)))) as [Heq|Hne].
  - apply (outcome_settled h v_Labels key); [done|done|by apply merged_fixpoint|].
    apply orb_true_iff in Hskip as [->|Hd]; [apply (observeErr_runs_to h)|].
    destruct (_ && _); [apply (observeErr_runs_to h)|]. rewrite Hd. apply (observeErr_runs_to h).
  - apply orb_false_iff in Hskip as [-> ->].
    eapply (outcome_mono h v_Labels key) with (wanted := fun v' => gm_map (v_Labels v') = merged desired (gm_map (v_Labels v))).
    { intros v' ->. apply map_eq. intros k. rewrite !lookup_unreserved, lookup_merged. by destruct (IsReservedLabel k). }
    outcome_change (volume_change_of key). apply vs_update. simpl. apply map_eq. intros k. rewrite !lookup_reserved, lookup_merged.
    by destruct (IsReservedLabel k).
Qed.

(** The volume has the settings and the labels of the map; a failure mode may
    be written in another way that means the same. *)
Definition synced (v : Volume) (m : labels) : Prop :=
  current_replicas v = (wanted_replicas m, None) /\
  (current_failureMode v = wanted_failureMode m \/
   exists mt, ParseFailureMode (wanted_failureMode m) = inl mt /\ ParseFailureMode (current_failureMode v) = inl mt) /\
  unreserved (gm_map (v_Labels v)) = unreserved m.

(** The labels that a synchronisation may change. *)
Definition synchronised (k : string) : bool :=
  negb (IsReservedLabel k) || bool_decide (k = ReservedLabelReplicas) || bool_decide (k = ReservedLabelFailureMode).

Lemma keeps_replicas mine v v' :
  keeps mine (v_Labels v) (v_Labels v') -> mine ReservedLabelReplicas = false -> current_replicas v' = current_replicas v.
Proof. intros Hk Hm. unfold current_replicas. by rewrite (Hk _ Hm). Qed.

Lemma keeps_failureMode mine v v' :
  keeps mine (v_Labels v) (v_Labels v') -> mine ReservedLabelFailureMode = false -> current_failureMode v' = current_failureMode v.
Proof. intros Hk Hm. unfold current_failureMode, gm_get. by rewrite (Hk _ Hm). Qed.

Lemma wanted_replicas_bounds m : (0 <= wanted_replicas m <= maxUint64)%Z.
Proof. unfold wanted_replicas. destruct (m !! _); [apply ParseUint_bounds|done]. Qed.

(** No change is needed. *)
Lemma plans_nil v v1 v2 m :
  keeps (fun k => bool_decide (k = ReservedLabelReplicas)) (v_Labels v) (v_Labels v1) ->
  keeps (fun k => bool_decide (k = ReservedLabelFailureMode)) (v_Labels v1) (v_Labels v2) ->
  current_replicas v = (wanted_replicas m, None) -> current_failureMode v = wanted_failureMode m ->
  unreserved (gm_map (v_Labels v)) = unreserved m ->
  replicas_plan (AddToken c ctx) v (wanted_replicas m) ++ failureMode_plan (AddToken c ctx) v1 (wanted_failureMode m) ++
  volume_labels_plan (AddToken c ctx) v2 (unreserved m) ++ [] = [].
Proof.
  intros Hk1 Hk2 Hr Hf Hu. unfold replicas_plan, failureMode_plan, volume_labels_plan. cbn zeta.
  rewrite Hr, (keeps_failureMode _ _ _ Hk1), Hf, !(bool_decide_eq_true_2 (_ = _)) by done.
  rewrite bool_decide_eq_true_2; [done|]. rewrite merged_unreserved. apply merged_fixpoint.
  rewrite (keeps_unreserved _ _ _ Hk2), (keeps_unreserved _ _ _ Hk1); [done|..]; intros; by apply not_reserved_ne.
Qed.

(** The calls of the plans carry the version that was read. *)
Lemma plans_current ctx' v m cl :
  cl ∈ replicas_plan ctx' v (wanted_replicas m) \/ cl ∈ failureMode_plan ctx' v (wanted_failureMode m) \/
  cl ∈ volume_labels_plan ctx' v (unreserved m) ->
  current_change v cl.
Proof.
  unfold replicas_plan, failureMode_plan, volume_labels_plan. cbn zeta. intros [Hc|[Hc|Hc]].
  - destruct (current_replicas v) as [cur [e|]]; [by apply elem_of_nil in Hc|]. case_bool_decide; [by apply elem_of_nil in Hc|].
    apply list_elem_of_singleton in Hc as ->. constructor. apply wanted_replicas_bounds.
  - case_bool_decide; [by apply elem_of_nil in Hc|]. destruct (ParseFailureMode _) as [[mode thr]|] eqn:Hp; [|by apply elem_of_nil in Hc].
    apply list_elem_of_singleton in Hc as ->. by econstructor.
  - case_bool_decide; [by apply elem_of_nil in Hc|]. apply list_elem_of_singleton in Hc as ->. constructor.
    apply map_eq. intros k. simpl. rewrite !lookup_reserved, lookup_merged. by destruct (IsReservedLabel k).
Qed.

(** C3. Volume label synchronisation in a control plane that keeps versions
    ([VolumeStore]: a listing succeeds, and a change that carries the current
    version of the volume is refused without effect, or accepted and has its
    effect).  On a volume that is there, whatever its labels and the wanted
    ones: the run ends; it replaces that volume only, in its place, and of its
    labels only the replicas, the failure mode and the unreserved ones can
    differ; if it reports success, no wanted label was in error and the volume
    has the wanted replicas, failure mode and unreserved labels.  It does
    report success if no wanted label is in error, the replicas label of the
    volume can be read, the wanted failure mode is valid or already set, and
    the control plane accepts every change of this volume that carries its
    current version.  And it changes nothing if all was as wanted. *)
Theorem EnsureVolumeLabels_applies w key v ls :
  volume_at (volumes_of w) key = Some v ->
  exists r v' w' pl, runs_to h (EnsureVolumeLabels c ctx key ls) w r w' pl /\
    becomes (volumes_of w) (volumes_of w') v v' /\ keeps synchronised (v_Labels v) (v_Labels v') /\
    volume_at (volumes_of w') key = Some v' /\
    (r = None -> volume_labels_valid (gm_map ls) /\ synced v' (gm_map ls)) /\
    (volume_labels_valid (gm_map ls) -> replicas_readable v -> failureMode_ok v (wanted_failureMode (gm_map ls)) ->
     (forall w0 v0 cl, volume_at (volumes_of w0) key = Some v0 -> current_change v0 cl -> accepts h w0 cl) -> r = None) /\
    (current_replicas v = (wanted_replicas (gm_map ls), None) ->
     current_failureMode v = wanted_failureMode (gm_map ls) ->
     unreserved (gm_map (v_Labels v)) = unreserved (gm_map ls) -> pl = []).
Proof.
  intros Hv. unfold EnsureVolumeLabels. rewrite volume_label_loop_spec.
  cbn [va_replicas va_failureMode va_unreserved va_errs]. set (m := gm_map ls) in *.
  destruct (EnsureReplicas_applies key _ (wanted_replicas_bounds m) w v Hv) as (r1 & v1 & w1 & Hrun1 & Hb1 & Hk1 & Ho1 & _ & Ha1).
  pose proof (volume_at_becomes _ _ _ _ _ Hv Hb1) as Hv1.
  assert (Hfm1 : current_failureMode v1 = current_failureMode v) by by apply (keeps_failureMode _ _ _ Hk1).
  destruct (EnsureFailureMode_applies key (wanted_failureMode m) w1 v1 Hv1) as (r2 & v2 & w2 & Hrun2 & Hb2 & Hk2 & Ho2 & _ & Ha2).
  pose proof (volume_at_becomes _ _ _ _ _ Hv1 Hb2) as Hv2.
  destruct (EnsureUnreservedVolumeLabels_applies key (unreserved m) w2 v2 Hv2) as (r3 & v3 & w3 & Hrun3 & Hb3 & Hk3 & Ho3 & _ & Ha3).
  eexists _, v3, w3, _. split.
  { eapply runs_to_bind; [exact Hrun1|]. eapply runs_to_bind; [exact Hrun2|].
    eapply runs_to_bind; [exact Hrun3|]. apply runs_to_ret. }
  split; [by eapply becomes_trans; [|eapply becomes_trans]|].
  split.
  { intros k Hk. unfold synchronised in Hk. apply orb_false_iff in Hk as [[Hu Hr]%orb_false_iff Hf]. by rewrite Hk3, Hk2, Hk1. }
  split; [by eapply volume_at_becomes|].
  apply ok_or_foreign in Ho1 as Hf1, Ho2 as Hf2, Ho3 as Hf3.
  rewrite ErrorOrNil_None, !collect_nil, volume_errs_nil by done. split_and!.
  - intros (((Hvalid & ->) & ->) & ->). destruct Ho1 as [_ Ho1], Ho2 as [_ Ho2], Ho3 as [_ Ho3]. split; [done|]. split_and!.
    + by rewrite (keeps_replicas _ _ _ Hk3), (keeps_replicas _ _ _ Hk2).
    + by rewrite (keeps_failureMode _ _ _ Hk3).
    + by rewrite Ho3, unreserved_idemp.
  - intros Hvalid Hrep Hfm Hacc.
    assert (failureMode_ok v1 (wanted_failureMode m)) by (unfold failureMode_ok in *; by rewrite Hfm1).
    split_and!; [done|apply Ha1|apply Ha2|apply Ha3]; try done;
      intros w0 cl Hat Hcl; eapply Hacc; eauto using plans_current.
  - intros. by apply (plans_nil v v1 v2 m).
Qed.
End volume_store.

(** ** A control plane in memory

    One namespace with two volumes: the first has labels and a version that
    every change increments, the second refuses every change. *)
Module memory_volumes.
Record memory := Memory { m_labels : labels; m_version : Z }.

Definition first_volume (w : memory) : Volume :=
  {| v_Id := "v1"; v_Name := "pvc-1"; v_NamespaceID := "ns1"; v_Labels := Some (m_labels w);
     v_NfsServiceEndpoint := None; v_MasterHealth := HEALTH_ONLINE; v_Version := Itoa (m_version w) |}.

Definition second_volume : Volume :=
  {| v_Id := "v2"; v_Name := "pvc-2"; v_NamespaceID := "ns1"; v_Labels := None;
     v_NfsServiceEndpoint := None; v_MasterHealth := HEALTH_ONLINE; v_Version := "1" |}.

Definition stored (w : memory) : volumes :=
  Volumes [example_namespace] (fun id => if decide (id = "ns1") then [first_volume w; second_volume] else []).

(** A change is accepted with the current version only. *)
Definition change (w : memory) (id version : string) (ls : labels) : api_res unit * memory :=
  if bool_decide (id = "v1") && bool_decide (version = Itoa (m_version w))
  then ((tt, None, None), Memory ls (m_version w + 1))
  else ((tt, None, Some (Text "conflict")), w).

(** How a failure mode is written. *)
Definition written (mode : string) (threshold : Z) : string := if decide (mode = "") then Itoa threshold else mode.

Definition control_plane : handler memory := fun c w =>
  match c return ret c * memory with
  | CP_ListNamespaces _ => ((vs_namespaces (stored w), None, None), w)
  | CP_ListVolumes _ id => ((vs_volumes (stored w) id, None, None), w)
  | CP_SetReplicas _ _ id d => change w id (srr_Version d) (<[ReservedLabelReplicas := Itoa (srr_Replicas d)]> (m_labels w))
  | CP_SetFailureMode _ _ id d =>
      change w id (sfm_Version d)
        (<[ReservedLabelFailureMode := written (sfm_Mode d) (sfm_FailureThreshold d)]> (m_labels w))
  | CP_UpdateVolume _ _ id d => change w id (uvd_Version d) (gm_map (uvd_Labels d))
  | c' => (plain_answer c', w)
  end.

Lemma written_parses s mode threshold :
  ParseFailureMode s = inl (mode, threshold) -> ParseFailureMode (written mode threshold) = inl (mode, threshold).
Proof.
  intros Hs. unfold ParseFailureMode in Hs. repeat (case_bool_decide; [injection Hs as <- <-; by vm_compute|]).
  pose proof (ParseUint_bounds s) as Hb. destruct (ParseUint s) as [n [e|]]; [done|]. simplify_eq. simpl in Hb.
  pose proof (ParseUint_Itoa threshold Hb) as Hp. change (written "" threshold) with (Itoa threshold).
  unfold ParseFailureMode. rewrite Hp.
  do 4 (let Hx := fresh in case_bool_decide as Hx; [rewrite Hx in Hp; vm_compute in Hp; congruence|]). done.
Qed.

(** What a change of a listed volume comes to. *)
Lemma changes (v : Volume) (cl : call) (ls : labels -> labels) mine E :
  (forall w, cp_error (existT cl (control_plane cl w).1) = (change w (v_Id v) (v_Version v) (ls (m_labels w))).1.2 /\
             (control_plane cl w).2 = (change w (v_Id v) (v_Version v) (ls (m_labels w))).2) ->
  (forall w, v = first_volume w -> keeps mine (v_Labels v) (Some (ls (m_labels w)))) ->
  (forall w version, v = first_volume w -> E (first_volume (Memory (ls (m_labels w)) version))) ->
  volume_change control_plane stored v cl mine E.
Proof.
  intros Hcl Hk HE w Hv. destruct (Hcl w) as [-> ->].
  assert (v = first_volume w \/ v = second_volume) as [->| ->].
  { simpl in Hv. case_decide; [|by apply elem_of_nil in Hv]. rewrite !elem_of_cons, elem_of_nil in Hv. tauto. }
  - unfold change. simpl. rewrite bool_decide_eq_true_2 by done. simpl.
    exists (first_volume (Memory (ls (m_labels w)) (m_version w + 1))). split; [|split; [by apply Hk|by apply HE]]. split; try done. intros id. simpl.
    by destruct (decide (id = "ns1")) as [->|].
  - done.
Qed.

#[global] Instance store : VolumeStore control_plane.
Proof.
  refine {| volumes_of := stored |}.
  - intros w id. simpl. case_decide; simpl; repeat constructor; set_solver.
  - intros w id v. simpl. case_decide as Hid; [|set_solver]. rewrite Hid. intros Hv.
    rewrite !elem_of_cons, elem_of_nil in Hv. by destruct Hv as [->|[->|[]]].
  - done.
  - done.
  - done.
  - done.
  - intros ctx v n Hn. apply (changes v _ (insert ReservedLabelReplicas (Itoa n))); [done|..].
    + intros w -> k Hk%bool_decide_eq_false. simpl. by rewrite lookup_insert_ne.
    + intros w version _. unfold current_replicas. simpl. rewrite lookup_insert_eq. by apply ParseUint_Itoa.
  - intros ctx v s mode threshold Hs. apply (changes v _ (insert ReservedLabelFailureMode (written mode threshold))); [done|..].
    + intros w -> k Hk%bool_decide_eq_false. simpl. by rewrite lookup_insert_ne.
    + intros w version _. unfold current_failureMode, gm_get. simpl. rewrite lookup_insert_eq. by eapply written_parses.
  - intros ctx v ls Hls. apply (changes v _ (fun _ => gm_map ls)); [done|..|done].
    intros w -> k Hk%negb_false_iff. pose proof (f_equal (.!! k) Hls) as Hl. simpl in Hl.
    rewrite !lookup_reserved, Hk in Hl. by rewrite !gm_lookup_map.
Defined.

(** It refuses no change that carries the current version. *)
Lemma obliging w key v cl :
  volume_at (stored w) key = Some v -> v_Id v = "v1" -> current_change v cl -> accepts control_plane w cl.
Proof.
  intros Hv Hid Hcl. assert (v = first_volume w) as ->.
  { unfold volume_at in Hv. destruct (find_by_name ns_Name _ _) as [ns|]; [|done]. simpl in Hv.
    apply find_by_name_Some in Hv as [Hv _]. case_decide; [|by apply elem_of_nil in Hv].
    rewrite !elem_of_cons, elem_of_nil in Hv. by destruct Hv as [->|[->|[]]]. }
  destruct Hcl; unfold accepts; simpl; unfold change; simpl; by rewrite bool_decide_eq_true_2.
Qed.
End memory_volumes.

Lemma EnsureVolumeLabels_applies_witness :
  let w := memory_volumes.Memory {[ ReservedLabelReplicas := "1"; ReservedLabelNoCache := "true"; "app" := "db" ]} 7 in
  let ls := {[ ReservedLabelReplicas := "2"; ReservedLabelFailureMode := "3"; "tier" := "x" ]} : labels in
  exists v' w' pl,
    runs_to memory_volumes.control_plane
      (EnsureVolumeLabels (H := range_default) example_client background (Key "default" "pvc-1") (Some ls)) w None w' pl /\
    volume_at (memory_volumes.stored w') (Key "default" "pvc-1") = Some v' /\ synced v' ls /\
    gm_lookup (v_Labels v') ReservedLabelNoCache = Some "true".
Proof.
  intros w ls.
  destruct (EnsureVolumeLabels_applies (H := range_default) memory_volumes.control_plane example_client background w (Key "default" "pvc-1")
    (memory_volumes.first_volume w) (Some ls)) as (r & v' & w' & pl & Hrun & _ & Hk & Hat & Hs & Hacc & _).
  - vm_compute. reflexivity.
  - assert (r = None) as ->.
    { apply Hacc.
      - apply (volume_errs_nil (H := range_default)). vm_compute. reflexivity.
      - vm_compute. reflexivity.
      - right. eexists. vm_compute. reflexivity.
      - intros w0 v0 cl Hv0. apply (memory_volumes.obliging _ _ _ _ Hv0). vm_compute in Hv0. by simplify_eq. }
    exists v', w', pl. split; [exact Hrun|]. split; [exact Hat|]. split; [by apply Hs|].
    rewrite (Hk ReservedLabelNoCache eq_refl). reflexivity.
Defined.
