(* ===== verification/NodeStore.v ===== *)
(** * Nodes in the control plane

    What the API of the control plane documents of nodes: the listing shows
    them; a change that carries the current version of a node is accepted or
    refused, and has its effect if accepted: [SetComputeOnly] modifies the
    compute-only label, [UpdateNode] the labels of the users.  An update whose
    reserved labels are not those of the node fails validation (the comment in
    [EnsureUnreservedNodeLabels]).  Against these laws: where
    [EnsureNodeLabels] brings the node to the wanted labels, and where it never
    does. *)

From S2P Require Import Prelude GoLib Errors Types Effects Labels Client LabelSync NodeLabels ControlPlane.

Lemma reserved_unreserved m : reserved (unreserved m) = ∅.
Proof. apply map_empty. intros k. rewrite lookup_reserved, lookup_unreserved. by destruct (IsReservedLabel k). Qed.

(** [n] was replaced by [n'], in the same place. *)
Record node_becomes (s s' : list Node) (n n' : Node) : Prop := {
  nb_id : n_Id n' = n_Id n;
  nb_name : n_Name n' = n_Name n;
  nb_nodes : s' = replace n_Id n' s;
}.

(** The node of a key. *)
Definition node_at (s : list Node) (key : ObjectKey) : option Node := find_by_name n_Name s (k_name key).

(** The answer to a change of a listed node. *)
Definition node_change {W} (h : handler W) (view : W -> list Node) (n : Node) (c : call)
    (mine : string -> bool) (E : Node -> Prop) : Prop :=
  forall w, n ∈ view w ->
  match cp_error (existT c (h c w).1) with
  | Some e => foreign_error e /\ view (h c w).2 = view w
  | None => exists n', node_becomes (view w) (view (h c w).2) n n' /\ keeps mine (n_Labels n) (n_Labels n') /\ E n'
  end.

(** The changes of [n] that carry its version and that the API allows. *)
Inductive current_node_change (n : Node) : call -> Prop :=
  | current_computeOnly_change ctx enabled :
      current_node_change n (CP_SetComputeOnly ctx (n_Id n) {| sco_ComputeOnly := enabled; sco_Version := n_Version n |})
  | current_node_labels_change ctx ls : reserved (gm_map ls) = reserved (gm_map (n_Labels n)) ->
      current_node_change n (CP_UpdateNode ctx (n_Id n) {| und_Labels := ls; und_Version := n_Version n |}).

Class NodeStore {W : Type} (h : handler W) := {
  nodes_of : W -> list Node;
  nst_ids : forall w, NoDup (map n_Id (nodes_of w));
  nst_list : forall ctx w, h (CP_ListNodes ctx) w = ((nodes_of w, None, None), w);
  nst_increment : forall f e w, nodes_of (h (M_Increment f e) w).2 = nodes_of w;
  nst_observe : forall f w, nodes_of (h (M_Observe f) w).2 = nodes_of w;
  (* changes that carry the current version *)
  nst_set_compute_only : forall ctx n enabled,
    node_change h nodes_of n
      (CP_SetComputeOnly ctx (n_Id n) {| sco_ComputeOnly := enabled; sco_Version := n_Version n |})
      (fun k => bool_decide (k = ReservedLabelComputeOnly)) (fun n' => current_computeOnly n' = inl enabled);
  nst_update : forall ctx n ls, reserved (gm_map ls) = reserved (gm_map (n_Labels n)) ->
    node_change h nodes_of n (CP_UpdateNode ctx (n_Id n) {| und_Labels := ls; und_Version := n_Version n |})
      (fun k => negb (IsReservedLabel k)) (fun n' => gm_map (n_Labels n') = gm_map ls);
  (* the reserved labels must be those of the node *)
  nst_validates : forall ctx n ls w, n ∈ nodes_of w -> reserved (gm_map ls) <> reserved (gm_map (n_Labels n)) ->
    let cl := CP_UpdateNode ctx (n_Id n) {| und_Labels := ls; und_Version := n_Version n |} in
    exists e, cp_error (existT cl (h cl w).1) = Some e /\ foreign_error e /\ nodes_of (h cl w).2 = nodes_of w;
}.

Section node_store.
Context {W : Type} (h : handler W) `{!NodeStore h} `{GoRange} (c : Client) (ctx : Ctx).

Lemma node_at_becomes w w' key n n' :
  node_at (nodes_of w) key = Some n -> node_becomes (nodes_of w) (nodes_of w') n n' ->
  node_at (nodes_of w') key = Some n'.
Proof.
  unfold node_at. intros Hn [Hid Hname ->]. by apply (find_replace n_Id n_Name n n'); [apply nst_ids|..].
Qed.

Lemma node_becomes_refl w n : n ∈ nodes_of w -> node_becomes (nodes_of w) (nodes_of w) n n.
Proof. intros Hn. split; [done..|]. symmetry. apply replace_same; [apply nst_ids|done]. Qed.

Lemma node_becomes_trans s1 s2 s3 n1 n2 n3 :
  node_becomes s1 s2 n1 n2 -> node_becomes s2 s3 n2 n3 -> node_becomes s1 s3 n1 n3.
Proof. intros [H1 H2 ->] [H1' H2' ->]. split; try congruence. by apply replace_replace. Qed.

Lemma getNodeByKey_runs_to ctx' w key n :
  node_at (nodes_of w) key = Some n -> runs_to h (getNodeByKey ctx' key) w (inl n) w [].
Proof.
  unfold node_at, getNodeByKey. intros Hn. eapply runs_to_query; [done|apply nst_list|].
  cbn beta iota. rewrite Hn. apply runs_to_ret.
Qed.

Lemma node_at_listed w key n : node_at (nodes_of w) key = Some n -> n ∈ nodes_of w.
Proof. by intros [Hn _]%find_by_name_Some. Qed.

#[export] Instance node_objects : ObjectStore h getNodeByKey.
Proof.
  refine {| os_view := nodes_of; os_at := node_at; os_becomes := node_becomes |}.
  - intros w key n Hn. by apply node_becomes_refl, (node_at_listed w key).
  - apply node_becomes_trans.
  - apply node_at_becomes.
  - intros ctx' w key n. apply getNodeByKey_runs_to.
  - apply nst_increment.
  - apply nst_observe.
Defined.

Lemma node_change_of key n cl mine E :
  node_change h nodes_of n cl mine E -> change_of h n_Labels key n cl mine E.
Proof. intros Hc w Hn. exact (Hc w (node_at_listed w key n Hn)). Qed.

Lemma EnsureComputeOnly_applies key enabled :
  applies h n_Labels key (EnsureComputeOnly c ctx key enabled) (fun k => bool_decide (k = ReservedLabelComputeOnly))
    computeOnly_readable (fun n' => current_computeOnly n' = inl enabled)
    (fun n => computeOnly_plan (AddToken c ctx) n enabled).
Proof.
  intros w n Hin. apply (outcome_timed h n_Labels); [done|].
  unfold computeOnly_plan, computeOnly_readable. fold (current_computeOnly n).
  destruct (current_computeOnly n) as [cur|e] eqn:Hcur; cbn iota.
  2: { eapply (outcome_unfit h n_Labels key _ _ _ _ _ _ (NumErr e)); [done|by intros [? ?]|done|].
       exists w. split; [apply runs_to_ret|done]. }
  case_bool_decide as Heq.
  - apply (outcome_settled h n_Labels key); [done|by eexists|by rewrite Hcur, Heq|]. exists w. split; [apply runs_to_ret|done].
  - outcome_change (node_change_of key); [by eexists|by apply nst_set_compute_only].
Qed.

(** The update sends unreserved labels only: it has its effect on a node
    without reserved labels, and is refused on any other. *)
Lemma unreserved_update_change key n (m : labels) :
  change_of h n_Labels key n
    (CP_UpdateNode (AddToken c ctx) (n_Id n) {| und_Labels := Some (unreserved m); und_Version := n_Version n |})
    (fun k => negb (IsReservedLabel k))
    (fun n' => reserved (gm_map (n_Labels n)) = ∅ /\ unreserved (gm_map (n_Labels n')) = unreserved m).
Proof.
  intros w Hn%node_at_listed.
  destruct (decide (reserved (gm_map (n_Labels n)) = ∅)) as [He|Hne].
  - pose proof (nst_update (AddToken c ctx) n (Some (unreserved m))) as Hu.
    specialize (Hu ltac:(simpl; by rewrite reserved_unreserved) w Hn).
    destruct (cp_error _); [done|]. destruct Hu as (n' & Hb & Hk & Hl). exists n'. split_and!; try done.
    rewrite Hl. apply unreserved_idemp.
  - destruct (nst_validates (AddToken c ctx) n (Some (unreserved m)) w Hn) as (e & -> & He); [|done].
    simpl. by rewrite reserved_unreserved.
Qed.

Lemma EnsureUnreservedNodeLabels_applies w key (m : labels) n :
  node_at (nodes_of w) key = Some n ->
  outcome_of h n_Labels key (EnsureUnreservedNodeLabels c ctx key (Some (unreserved m))) (fun k => negb (IsReservedLabel k))
    True
    (fun n' => (unreserved (gm_map (n_Labels n)) = unreserved m \/ reserved (gm_map (n_Labels n)) = ∅) /\
               unreserved (gm_map (n_Labels n')) = unreserved m)
    (node_labels_plan (AddToken c ctx) n (unreserved m)) w n.
Proof.
  intros Hin. apply (outcome_timed h n_Labels); [done|]. unfold node_labels_plan. cbn zeta beta.
  rewrite applyLabels_merged. change (gm_map (Some (unreserved m))) with (unreserved m).
  pose proof (skip_update_iff (n_Labels n) (merged (unreserved m) (gm_map (n_Labels n)))) as Hskip.
  destruct (bool_decide_reflect (gm_map (n_Labels n) = merged (unreserved m) (gm_map (n_Labels n)))) as [Heq|Hne].
  - rewrite merged_unreserved in Heq. apply merged_fixpoint in Heq.
    apply (outcome_settled h n_Labels key); [done|done|by auto|].
    apply orb_true_iff in Hskip as [->|Hd]; [apply (observeErr_runs_to h)|].
    destruct (_ && _); [apply (observeErr_runs_to h)|]. rewrite Hd. apply (observeErr_runs_to h).
  - apply orb_false_iff in Hskip as [-> ->].
    eapply (outcome_mono h n_Labels key) with
      (wanted := fun n' => reserved (gm_map (n_Labels n)) = ∅ /\ unreserved (gm_map (n_Labels n')) = unreserved m).
    { intros n' [? ?]. auto. }
    outcome_change unreserved_update_change.
Qed.

(** The node has the setting and the labels of the map. *)
Definition node_synced (n : Node) (m : labels) : Prop :=
  current_computeOnly n = inl (wanted_computeOnly m) /\ unreserved (gm_map (n_Labels n)) = unreserved m.

(** The labels that a synchronisation may change. *)
Definition node_synchronised (k : string) : bool := negb (IsReservedLabel k) || bool_decide (k = ReservedLabelComputeOnly).

Lemma keeps_computeOnly n n' :
  keeps (fun k => negb (IsReservedLabel k)) (n_Labels n) (n_Labels n') -> current_computeOnly n' = current_computeOnly n.
Proof. intros Hk. unfold current_computeOnly. by rewrite (Hk ReservedLabelComputeOnly eq_refl). Qed.

(** What both operations do to the node, one after the other. *)
Lemma EnsureNodeLabels_outcome w key n ls :
  node_at (nodes_of w) key = Some n ->
  let m := gm_map ls in
  exists r (r1 r2 : option error) n1 n' w' pl, runs_to h (EnsureNodeLabels c ctx key ls) w r w' pl /\
    (r = None <-> (node_labels_valid m /\ r1 = None) /\ r2 = None) /\
    node_becomes (nodes_of w) (nodes_of w') n n' /\
    n_Id n1 = n_Id n /\
    keeps (fun k => bool_decide (k = ReservedLabelComputeOnly)) (n_Labels n) (n_Labels n1) /\
    keeps (fun k => negb (IsReservedLabel k)) (n_Labels n1) (n_Labels n') /\
    match r1 with
    | None => computeOnly_readable n /\ current_computeOnly n1 = inl (wanted_computeOnly m)
    | Some _ => n1 = n
    end /\
    (computeOnly_plan (AddToken c ctx) n (wanted_computeOnly m) = [] -> n1 = n) /\
    match r2 with
    | None => (unreserved (gm_map (n_Labels n)) = unreserved m \/ reserved (gm_map (n_Labels n1)) = ∅) /\
              unreserved (gm_map (n_Labels n')) = unreserved m
    | Some _ => n' = n1
    end /\
    pl = computeOnly_plan (AddToken c ctx) n (wanted_computeOnly m) ++ node_labels_plan (AddToken c ctx) n1 (unreserved m) /\
    (computeOnly_readable n ->
     (forall w0 cl, node_at (nodes_of w0) key = Some n -> cl ∈ computeOnly_plan (AddToken c ctx) n (wanted_computeOnly m) ->
        accepts h w0 cl) -> r1 = None) /\
    ((forall w0 cl, node_at (nodes_of w0) key = Some n1 -> cl ∈ node_labels_plan (AddToken c ctx) n1 (unreserved m) ->
        accepts h w0 cl) -> r2 = None).
Proof.
  intros Hn m. unfold EnsureNodeLabels. rewrite node_label_loop_spec. cbn [na_computeOnly na_unreserved na_errs].
  fold m. destruct (EnsureComputeOnly_applies key (wanted_computeOnly m) w n Hn) as (r1 & n1 & w1 & Hrun1 & Hb1 & Hk1 & Ho1 & Hs1 & Ha1).
  pose proof (node_at_becomes _ _ _ _ _ Hn Hb1) as Hn1.
  destruct (EnsureUnreservedNodeLabels_applies w1 key m n1 Hn1) as (r2 & n2 & w2 & Hrun2 & Hb2 & Hk2 & Ho2 & _ & Ha2).
  apply ok_or_foreign in Ho1 as Hf1, Ho2 as Hf2.
  eexists _, r1, r2, n1, n2, w2, _. split.
  { eapply runs_to_bind; [exact Hrun1|]. eapply runs_to_bind; [exact Hrun2|]. apply runs_to_ret. }
  rewrite app_nil_r. split; [by rewrite ErrorOrNil_None, !collect_nil, node_errs_nil by done|].
  split; [by eapply node_becomes_trans|]. split; [apply (nb_id _ _ _ _ Hb1)|]. split_and!; try done.
  - destruct r1; [by destruct Ho1|done].
  - rewrite <- (keeps_unreserved _ _ _ Hk1) by (intros; by apply not_reserved_ne). destruct r2; [by destruct Ho2|by destruct Ho2].
  - by apply Ha2.
Qed.

(** The calls of a synchronisation carry the version that was read, and are
    allowed: the compute-only change always, the update of the labels if the
    node has no reserved label. *)
Lemma node_plans_current ctx' n m cl :
  cl ∈ computeOnly_plan ctx' n (wanted_computeOnly m) \/
  cl ∈ node_labels_plan ctx' n (unreserved m) /\
    (unreserved (gm_map (n_Labels n)) = unreserved m \/ reserved (gm_map (n_Labels n)) = ∅) ->
  current_node_change n cl.
Proof.
  unfold computeOnly_plan, node_labels_plan. intros [Hcl|[Hcl Hok]].
  - destruct (current_computeOnly n); [|by apply elem_of_nil in Hcl]. case_bool_decide; [by apply elem_of_nil in Hcl|].
    apply list_elem_of_singleton in Hcl as ->. constructor.
  - rewrite merged_unreserved in Hcl. case_bool_decide as Hne; [by apply elem_of_nil in Hcl|].
    rewrite merged_fixpoint in Hne. apply list_elem_of_singleton in Hcl as ->. constructor.
    destruct Hok as [?| ->]; [done|]. apply reserved_unreserved.
Qed.

(** No change is needed. *)
Lemma node_plans_nil ctx' n m :
  node_synced n m -> computeOnly_plan ctx' n (wanted_computeOnly m) = [] /\ node_labels_plan ctx' n (unreserved m) = [].
Proof.
  intros [Hc Hu]. unfold computeOnly_plan, node_labels_plan. rewrite Hc, bool_decide_eq_true_2 by done.
  by rewrite merged_unreserved, bool_decide_eq_true_2 by (apply merged_fixpoint; congruence).
Qed.

(** The node that a change is about. *)
Definition node_target (cl : call) : option string :=
  match cl with CP_SetComputeOnly _ id _ | CP_UpdateNode _ id _ => Some id | _ => None end.

Lemma node_plans_target ctx' n1 n2 enabled desired :
  n_Id n2 = n_Id n1 ->
  Forall (fun cl => node_target cl = Some (n_Id n1)) (computeOnly_plan ctx' n1 enabled ++ node_labels_plan ctx' n2 desired).
Proof.
  intros Hid. unfold computeOnly_plan, node_labels_plan. apply Forall_app. split.
  - destruct (current_computeOnly n1); [case_bool_decide|]; by repeat constructor.
  - case_bool_decide; repeat constructor. simpl. congruence.
Qed.

(** The control plane accepts every valid change of the node of the key that
    carries its current version. *)
Definition obliging (key : ObjectKey) : Prop :=
  forall w0 n0 cl, node_at (nodes_of w0) key = Some n0 -> current_node_change n0 cl -> accepts h w0 cl.

(** What a synchronisation comes to. *)
Definition node_applied (key : ObjectKey) (m : labels) (s s' : list Node) (n n' : Node) (r : option error) (pl : list call) : Prop :=
  node_becomes s s' n n' /\ keeps node_synchronised (n_Labels n) (n_Labels n') /\
  (r = None -> node_labels_valid m /\ computeOnly_readable n /\
     (unreserved (gm_map (n_Labels n)) = unreserved m \/ reserved (gm_map (n_Labels n')) = ∅) /\ node_synced n' m) /\
  (obliging key -> node_labels_valid m -> computeOnly_readable n ->
     unreserved (gm_map (n_Labels n)) = unreserved m \/ reserved (gm_map (n_Labels n')) = ∅ -> r = None) /\
  Forall (fun cl => node_target cl = Some (n_Id n)) pl /\
  (node_synced n m -> pl = []).

Lemma EnsureNodeLabels_synchronises w key n ls :
  node_at (nodes_of w) key = Some n ->
  exists r n' w' pl, runs_to h (EnsureNodeLabels c ctx key ls) w r w' pl /\
    node_at (nodes_of w') key = Some n' /\
    node_applied key (gm_map ls) (nodes_of w) (nodes_of w') n n' r pl.
Proof.
  intros Hn. set (m := gm_map ls) in *.
  destruct (EnsureNodeLabels_outcome w key n ls Hn) as
    (r & r1 & r2 & n1 & n' & w' & pl & Hrun & Hr & Hbc & Hid1 & Hk1 & Hk2 & Ho1 & Hs1 & Ho2 & Hpl & Ha1 & Ha2).
  fold m in Hr, Ho1, Hs1, Ho2, Hpl, Ha1, Ha2.
  assert (Hu1 : unreserved (gm_map (n_Labels n1)) = unreserved (gm_map (n_Labels n))).
  { apply (keeps_unreserved _ _ _ Hk1). intros; by apply not_reserved_ne. }
  assert (Hres : reserved (gm_map (n_Labels n')) = reserved (gm_map (n_Labels n1))).
  { apply (keeps_reserved _ _ _ Hk2). by intros k ->. }
  exists r, n', w', pl. split; [done|]. split; [by eapply node_at_becomes|]. unfold node_applied. rewrite Hres. split_and!; try done.
  - intros k Hk. unfold node_synchronised in Hk. apply orb_false_iff in Hk as [Hu Hc]. by rewrite Hk2, Hk1.
  - intros Hnone. apply Hr in Hnone as [[Hv ->] ->]. destruct Ho1 as [Hb Hc], Ho2 as [Hor Hu]. split_and!; try done.
    split; [by rewrite (keeps_computeOnly _ _ Hk2)|done].
  - intros Hacc Hv Hb Hok. apply Hr. split_and!; [done|apply Ha1; [done|]|apply Ha2]; intros w0 cl Hat Hcl;
      apply (Hacc _ _ _ Hat), (node_plans_current (AddToken c ctx) _ m); [by left|]. right. by rewrite Hu1.
  - rewrite Hpl. by apply node_plans_target.
  - intros Hs. destruct (node_plans_nil (AddToken c ctx) n m Hs) as [Hc Hu]. rewrite Hpl, (Hs1 Hc), Hc. exact Hu.
Qed.

(** C4. Node label synchronisation in a control plane that keeps versions
    ([NodeStore]: a listing succeeds; a change that carries the current version
    of a node is refused without effect, or accepted and has its effect; an
    update of the labels whose reserved ones are not those of the node is
    refused).  On a node that is there, whatever its labels and the wanted
    ones: the run ends; it replaces that node only, in its place, and of its
    labels only the compute-only one and the unreserved ones can differ.  If
    it reports success, no wanted label was in error, the compute-only label of
    the node could be read, the unreserved labels agreed before or the node
    ends up without reserved labels, and the node has the wanted setting and
    unreserved labels.  In a control plane that accepts every valid change of
    the node with its current version, those first three conditions together
    are also enough for success.  Every change it attempts is of that node, and
    it attempts none if all was as wanted. *)
Theorem EnsureNodeLabels_applies w key n ls :
  node_at (nodes_of w) key = Some n ->
  exists r n' w' pl, runs_to h (EnsureNodeLabels c ctx key ls) w r w' pl /\
    node_at (nodes_of w') key = Some n' /\
    node_applied key (gm_map ls) (nodes_of w) (nodes_of w') n n' r pl.
Proof. apply EnsureNodeLabels_synchronises. Qed.

(** A run that the missing reserved labels stop. *)
Lemma EnsureNodeLabels_refused w key n ls :
  node_at (nodes_of w) key = Some n ->
  current_computeOnly n = inl (wanted_computeOnly (gm_map ls)) ->
  reserved (gm_map (n_Labels n)) <> ∅ ->
  unreserved (gm_map (n_Labels n)) <> unreserved (gm_map ls) ->
  exists r w' pl, runs_to h (EnsureNodeLabels c ctx key ls) w r w' pl /\ r <> None /\ nodes_of w' = nodes_of w.
Proof.
  intros Hn Hc Hres Hun. destruct (EnsureNodeLabels_outcome w key n ls Hn) as
    (r & r1 & r2 & n1 & n' & w1 & pl1 & Hrun & Hr & Hb & _ & _ & _ & _ & Hs1 & Ho2 & _).
  exists r, w1, pl1. split; [done|].
  assert (n1 = n) as ->. { apply Hs1. unfold computeOnly_plan. by rewrite Hc, bool_decide_eq_true_2. }
  destruct r2 as [e|]; [|destruct Ho2 as [[?|?] _]; done]. subst n'. split.
  - rewrite Hr. by intros [_ ?].
  - rewrite (nb_nodes _ _ _ _ Hb). apply replace_same; [apply nst_ids|by eapply node_at_listed].
Qed.

(** The same program, a number of times. *)
Fixpoint repeated {A} (k : nat) (p : prog A) : prog (list A) :=
  match k with
  | O => mret []
  | S k => a ← p; l ← repeated k p; mret (a :: l)
  end.

(** C34. What the update of a node without its reserved labels comes to: a node
    that has a reserved label, compute-only as wanted, and other unreserved
    labels than wanted, is never synchronised: every one of any number of runs
    reports an error, and the nodes stay as they are. *)
Theorem EnsureNodeLabels_stuck w key n ls passes :
  node_at (nodes_of w) key = Some n ->
  current_computeOnly n = inl (wanted_computeOnly (gm_map ls)) ->
  reserved (gm_map (n_Labels n)) <> ∅ ->
  unreserved (gm_map (n_Labels n)) <> unreserved (gm_map ls) ->
  exists rs w' pl, runs_to h (repeated passes (EnsureNodeLabels c ctx key ls)) w rs w' pl /\
    length rs = passes /\ Forall (fun r => r <> None) rs /\ nodes_of w' = nodes_of w.
Proof.
  revert w. induction passes as [|k IH]; intros w Hn Hc Hres Hun.
  { exists [], w, []. split_and!; [apply runs_to_ret|done..]. }
  destruct (EnsureNodeLabels_refused w key n ls) as (r & w1 & pl1 & Hrun & Hne & Hw1); [done..|].
  destruct (IH w1) as (rs & w2 & pl2 & Hrs & Hlen & Hall & Hw2); [by rewrite Hw1|done..|].
  exists (r :: rs), w2, (pl1 ++ pl2). split_and!; [|simpl; by rewrite Hlen|by constructor|congruence].
  cbn [repeated]. eapply runs_to_bind; [exact Hrun|]. rewrite <- (app_nil_r pl2). eapply runs_to_bind; [exact Hrs|]. apply runs_to_ret.
Qed.
End node_store.

(** ** A control plane in memory

    One node, with labels and a version that every change increments. *)
Module memory_nodes.
Record memory := Memory { m_labels : labels; m_version : Z }.

Definition memory_node (w : memory) : Node :=
  {| n_Id := "n1"; n_Name := "node1"; n_Health := HEALTH_ONLINE;
     n_Capacity := {| cap_Total := 0; cap_Free := 0; cap_Available := 0 |};
     n_IoEndpoint := ""; n_SupervisorEndpoint := ""; n_GossipEndpoint := ""; n_ClusteringEndpoint := "";
     n_Labels := Some (m_labels w); n_CreatedAt := 0; n_Version := Itoa (m_version w) |}.

(** A change is accepted with the current version, if it is valid. *)
Definition change (w : memory) (id version : string) (valid : bool) (ls : labels) : api_res unit * memory :=
  if bool_decide (id = "n1") && bool_decide (version = Itoa (m_version w)) && valid
  then ((tt, None, None), Memory ls (m_version w + 1))
  else ((tt, None, Some (Text "refused")), w).

(** The label is there exactly on compute-only nodes. *)
Definition set_computeOnly (enabled : bool) (ls : labels) : labels :=
  if enabled then <[ReservedLabelComputeOnly := "true"]> ls else delete ReservedLabelComputeOnly ls.

Definition control_plane : handler memory := fun c w =>
  match c return ret c * memory with
  | CP_ListNodes _ => (([memory_node w], None, None), w)
  | CP_SetComputeOnly _ id d => change w id (sco_Version d) true (set_computeOnly (sco_ComputeOnly d) (m_labels w))
  | CP_UpdateNode _ id d =>
      change w id (und_Version d) (bool_decide (reserved (gm_map (und_Labels d)) = reserved (m_labels w)))
        (gm_map (und_Labels d))
  | c' => (plain_answer c', w)
  end.

#[global] Instance store : NodeStore control_plane.
Proof.
  refine {| nodes_of := fun w => [memory_node w] |}.
  - intros w. repeat constructor. set_solver.
  - done.
  - done.
  - done.
  - intros ctx n enabled w ->%list_elem_of_singleton. simpl. unfold change. simpl. rewrite bool_decide_eq_true_2 by done. simpl.
    exists (memory_node (Memory (set_computeOnly enabled (m_labels w)) (m_version w + 1))). split; [done|].
    unfold current_computeOnly. simpl. unfold set_computeOnly. split.
    + intros k Hk%bool_decide_eq_false. simpl. destruct enabled; [by rewrite lookup_insert_ne|by rewrite lookup_delete_ne].
    + destruct enabled; [by rewrite lookup_insert_eq|by rewrite lookup_delete_eq].
  - intros ctx n ls Hls w ->%list_elem_of_singleton. simpl in *. unfold change. simpl.
    rewrite (bool_decide_eq_true_2 _ Hls), bool_decide_eq_true_2 by done. simpl.
    exists (memory_node (Memory (gm_map ls) (m_version w + 1))). split; [done|]. split; [|done].
    intros k Hk%negb_false_iff. pose proof (f_equal (.!! k) Hls) as Hl. simpl in Hl.
    rewrite !lookup_reserved, Hk in Hl. by rewrite !gm_lookup_map.
  - intros ctx n ls w ->%list_elem_of_singleton Hls. simpl in *. unfold change. simpl.
    rewrite (bool_decide_eq_false_2 _ Hls), andb_false_r. by eexists.
Defined.

(** It refuses no valid change that carries the current version. *)
Lemma obliging_node w key n cl : node_at [memory_node w] key = Some n -> current_node_change n cl -> accepts control_plane w cl.
Proof.
  intros [->%list_elem_of_singleton _]%find_by_name_Some Hcl.
  destruct Hcl as [ctx enabled|ctx ls Hls]; unfold accepts; simpl in *; unfold change; simpl;
    by rewrite !bool_decide_eq_true_2.
Qed.
End memory_nodes.

(** A node that stops being compute-only gets its labels. *)
Lemma EnsureNodeLabels_applies_witness :
  let w := memory_nodes.Memory {[ ReservedLabelComputeOnly := "true"; "zone" := "a" ]} 7 in
  let ls := {[ "zone" := "b" ]} : labels in
  exists n' w' pl,
    runs_to memory_nodes.control_plane
      (EnsureNodeLabels (H := range_default) example_client background (Key "" "node1") (Some ls)) w None w' pl /\
    node_at [memory_nodes.memory_node w'] (Key "" "node1") = Some n' /\ node_synced n' ls.
Proof.
  intros w ls.
  destruct (EnsureNodeLabels_applies (H := range_default) memory_nodes.control_plane example_client background w
    (Key "" "node1") (memory_nodes.memory_node w) (Some ls)) as (r & n' & w' & pl & Hrun & Hat & _ & Hk & Hs & Hacc & _).
  - vm_compute. reflexivity.
  - assert (r = None) as ->.
    { apply Hacc; [intros w0 n0 cl; apply memory_nodes.obliging_node| |eexists; vm_compute; reflexivity|].
      - apply (node_errs_nil (H := range_default)). vm_compute. reflexivity.
      - right. assert (Hw' : w' = exec_state memory_nodes.control_plane
          (EnsureNodeLabels (H := range_default) example_client background (Key "" "node1") (Some ls)) w).
        { destruct Hrun as (tr & Hex & _). unfold exec_state. by rewrite Hex. }
        rewrite Hw' in Hat. vm_compute in Hat. injection Hat as <-. vm_compute. reflexivity. }
    exists n', w', pl. split; [exact Hrun|]. split; [exact Hat|by apply Hs].
Defined.

(** A compute-only node never gets its labels. *)
Lemma EnsureNodeLabels_stuck_witness :
  let w := memory_nodes.Memory {[ ReservedLabelComputeOnly := "true"; "zone" := "a" ]} 7 in
  let ls := {[ ReservedLabelComputeOnly := "true"; "zone" := "b" ]} : labels in
  exists rs w' pl,
    runs_to memory_nodes.control_plane
      (repeated 3 (EnsureNodeLabels (H := range_default) example_client background (Key "" "node1") (Some ls))) w rs w' pl /\
    length rs = 3 /\ Forall (fun r => r <> None) rs /\ nodes_of w' = nodes_of w.
Proof.
  intros w ls.
  destruct (EnsureNodeLabels_stuck (H := range_default) memory_nodes.control_plane example_client background w
    (Key "" "node1") (memory_nodes.memory_node w) (Some ls) 3) as (rs & w' & pl & Hrun & Hlen & Hne & Hw).
  - vm_compute. reflexivity.
  - vm_compute. reflexivity.
  - intros Hx. apply (f_equal (.!! ReservedLabelComputeOnly)) in Hx. vm_compute in Hx. discriminate.
  - intros Hx. apply (f_equal (.!! "zone")) in Hx. vm_compute in Hx. discriminate.
  - by exists rs, w', pl.
Defined.
