(* ===== verification/Toolkit.v ===== *)
(** * The reconcilers of the operator toolkit

    The vendored [operator-toolkit] packages the controllers plug into:
    [sync/v1] ([Reconcile]), [external-object-sync/v1] ([collectGarbage]),
    [metadata-sync/v1] ([resync]), [object] ([NamespacedNames],
    [NamespacedNamesDiff]) and [client/composite] ([Get]).  A controller is a
    record of operations; what garbage collection does is proved for any
    controller, from the specification of its operations. *)

From S2P Require Import Prelude GoLib Errors Types Effects.

(** The [Controller] interfaces: [sync/v1], with the method each extension adds. *)
Record SyncController := {
  Ensure : Ctx -> client_object -> prog (option error);
  Delete : Ctx -> client_object -> prog (option error);
}.

(** What a reconciler knows of the kind it reconciles: the name and
    namespace put into a fresh instance, and the client's [Get] and [List]. *)
Record Prototype := {
  new_instance : ObjectKey -> client_object;
  client_Get : ObjectKey -> prog (client_object + error);
  client_List : prog (list client_object + error);
}.

(** [ctrl.Result]. *)
Record Result := { Requeue : bool }.

Definition Reconcile (p : Prototype) (ctl : SyncController) (ctx : Ctx) (req : ObjectKey)
  : prog (Result * option error) :=
  r ← client_Get p req;
  match r with
  | inr getErr =>
      if IsNotFound getErr then
        del ← Delete ctl ctx (new_instance p req);
        match del with
        | Some delErr =>
            mret ({| Requeue := true |},
                  Some (Wrap delErr ("failed to delete " +:+ key_string req +:+ " from external system")))
        | None => mret ({| Requeue := false |}, None)
        end
      else mret ({| Requeue := false |}, Some getErr)
  | inl instance =>
      ens ← Ensure ctl ctx instance;
      match ens with
      | Some ensErr =>
          mret ({| Requeue := true |},
                Some (Wrap ensErr ("failed to ensure " +:+ key_string req +:+ " in the external system")))
      | None => mret ({| Requeue := false |}, None)
      end
  end.

(** ** Lists of names *)

Definition NamespacedNames (instances : list client_object) : list ObjectKey := map obj_key instances.

(** The two loops of [NamespacedNamesDiff]. *)
Fixpoint name_found (a : ObjectKey) (b : list ObjectKey) : bool :=
  match b with
  | [] => false
  | bb :: b' => if bool_decide (a = bb) then true else name_found a b'
  end.

Fixpoint NamespacedNamesDiff (a b : list ObjectKey) : list ObjectKey :=
  match a with
  | [] => []
  | aa :: a' => if name_found aa b then NamespacedNamesDiff a' b else aa :: NamespacedNamesDiff a' b
  end.

(** ** Garbage collection *)

Definition collectGarbage (p : Prototype) (ctl : SyncController)
    (List : Ctx -> prog (list ObjectKey + error)) : prog unit :=
  r ← client_List p;
  match r with
  | inr _ => mret tt
  | inl instances =>
      let kObjList := NamespacedNames instances in
      e ← List background;
      match e with
      | inr _ => mret tt
      | inl extObjList =>
          foldM (fun _ key => _ ← Delete ctl background (new_instance p key); mret tt)
            (NamespacedNamesDiff extObjList kObjList) tt
      end
  end.

(** ** Resync *)

(** [ClientObjects]: one conversion per object; the first failure aborts. *)
Fixpoint ClientObjects (objs : list client_object) : prog (list client_object + error) :=
  match objs with
  | [] => mret (inl [])
  | o :: objs' =>
      err ← Call SchemeConvert;
      match err with
      | Some e => mret (inr e)
      | None =>
          rest ← ClientObjects objs';
          mret (match rest with inl l => inl (o :: l) | inr e => inr e end)
      end
  end.

Definition resync (p : Prototype) (ctl : SyncController)
    (Diff : Ctx -> list client_object -> prog (list client_object + error)) : prog unit :=
  r ← client_List p;
  match r with
  | inr _ => mret tt
  | inl instances =>
      c ← ClientObjects instances;
      match c with
      | inr _ => mret tt
      | inl k8sObjList =>
          d ← Diff background k8sObjList;
          match d with
          | inr _ => mret tt
          | inl resyncObjs => foldM (fun _ obj => _ ← Ensure ctl background obj; mret tt) resyncObjs tt
          end
      end
  end.

(** ** The composite client *)

(** [Get] of the cached client, then of the uncached one when not found. *)
Definition composite_Get {A} (cached uncached : ObjectKey -> prog (A + error)) (key : ObjectKey) : prog (A + error) :=
  r ← cached key;
  match r with
  | inr cErr => if IsNotFound cErr then uncached key else mret (inr cErr)
  | inl obj => mret (inl obj)
  end.

(** ** Lemmas *)

Lemma name_found_spec a b : name_found a b = true <-> a ∈ b.
Proof.
  induction b as [|bb b IH]; simpl; [by rewrite elem_of_nil|].
  rewrite elem_of_cons. case_bool_decide; naive_solver.
Qed.

Lemma NamespacedNamesDiff_filter a b :
  NamespacedNamesDiff a b = filter (fun k => k ∉ b) a.
Proof.
  induction a as [|k a IH]; [done|]. simpl. rewrite filter_cons, IH.
  destruct (name_found k b) eqn:E.
  - rewrite decide_False; [done|]. apply name_found_spec in E. tauto.
  - rewrite decide_True; [done|]. intros Hin%name_found_spec. congruence.
Qed.

(** The runs of a loop that performs [f] on each element: [R x tr o]
    describes the run on one element; a panic ends the loop. *)
Inductive each {A B} (R : A -> trace -> outcome B -> Prop) : list A -> trace -> outcome unit -> Prop :=
  | each_nil : each R [] [] (Done tt)
  | each_cons x l tr b tr' o :
      R x tr (Done b) -> each R l tr' o -> each R (x :: l) (tr ++ tr') o
  | each_panic x l tr m :
      R x tr (Panicked m) -> each R (x :: l) tr (Panicked m).

Lemma foldM_each {A B} (f : A -> prog B) (R : A -> trace -> outcome B -> Prop) l :
  (forall x, every_run (f x) (R x)) ->
  every_run (foldM (fun _ x => _ ← f x; mret tt) l tt) (each R l).
Proof.
  intros Hf. induction l as [|x l IH]; simpl; [apply every_run_ret; constructor|].
  apply every_run_bind. apply every_run_bind. eapply every_run_mono; [apply Hf|].
  intros tr [b|m] HR; [|by constructor].
  apply every_run_ret. rewrite app_nil_r. eapply every_run_mono; [exact IH|].
  intros tr' o Ho. by econstructor.
Qed.

(** ** What garbage collection does, for any controller

    [LK], [L] and [D] describe the runs of the client's [List], of the
    controller's [List] and of its [Delete]. *)
Definition garbage_collected (LK : trace -> outcome (list client_object + error) -> Prop)
    (L : trace -> outcome (list ObjectKey + error) -> Prop)
    (D : ObjectKey -> trace -> outcome (option error) -> Prop)
    (tr : trace) (o : outcome unit) : Prop :=
  exists t1 o1, LK t1 o1 /\
  match o1 with
  | Panicked m => tr = t1 /\ o = Panicked m
  | Done (inr _) => tr = t1 /\ o = Done tt
  | Done (inl instances) =>
      exists t2 o2, L t2 o2 /\
      match o2 with
      | Panicked m => tr = t1 ++ t2 /\ o = Panicked m
      | Done (inr _) => tr = t1 ++ t2 /\ o = Done tt
      | Done (inl ext) =>
          exists t3, tr = t1 ++ t2 ++ t3 /\
            each D (filter (fun k => k ∉ NamespacedNames instances) ext) t3 o
      end
  end.

Lemma collectGarbage_run p ctl List LK L D :
  (forall k, obj_key (new_instance p k) = k) ->
  every_run (client_List p) LK ->
  every_run (List background) L ->
  (forall obj, every_run (Delete ctl background obj) (D (obj_key obj))) ->
  every_run (collectGarbage p ctl List) (garbage_collected LK L D).
Proof.
  intros Hkey HK HL HD. unfold collectGarbage, garbage_collected.
  eapply every_run_seq; [exact HK| |by intros t1 m H1; exists t1, (Panicked m)].
  intros t1 [instances|e] H1;
    [|apply every_run_ret; rewrite app_nil_r; by exists t1, (Done (inr e))].
  eapply every_run_seq; [exact HL| |intros t2 m H2; do 2 eexists; split; [exact H1|]; simpl; by exists t2, (Panicked m)].
  intros t2 [ext|e] H2;
    [|apply every_run_ret; do 2 eexists; split; [exact H1|]; simpl; do 2 eexists; split; [exact H2|]; by rewrite app_nil_r].
  eapply every_run_mono.
  - apply (foldM_each (fun key => Delete ctl background (new_instance p key)) D).
    intros key. rewrite <- (Hkey key) at 2. apply HD.
  - intros t3 o Ho. do 2 eexists. split; [exact H1|]. simpl. do 2 eexists. split; [exact H2|]. simpl.
    exists t3. split; [done|]. by rewrite <- NamespacedNamesDiff_filter.
Qed.
