(* ===== verification/Provisioner.v ===== *)
(** * What StorageOS provisions ([internal/pkg/provisioner])

    [storageos.go]: which nodes, claims and volumes belong to StorageOS;
    [storageclass.go]: the storage class of a claim, its default parameters,
    and the check that the class is the one that created the volume. *)

From Stdlib Require Import ZArith.
From S2P Require Import Prelude GoLib Json Errors Types Effects Labels.

(** ** storageos.go *)

Definition DriverName : string := "csi.storageos.com".
Definition NodeDriverAnnotationKey : string := "csi.volume.kubernetes.io/nodeid".
Definition PVCProvisionerAnnotationKey : string := "volume.beta.kubernetes.io/storage-provisioner".

Definition IsStorageOSNode (obj : ObjectMeta) : bool * option error :=
  match gm_lookup (om_Annotations obj) NodeDriverAnnotationKey with
  | None => (false, None)
  | Some drivers =>
      match Unmarshal drivers with
      | inr e => (false, Some (JsonErr e))
      | inl driversMap =>
          match gm_lookup driversMap DriverName with
          | Some _ => (true, None)
          | None => (false, None)
          end
      end
  end.

Definition HasStorageOSAnnotation (obj : ObjectMeta) : bool :=
  match gm_lookup (om_Annotations obj) PVCProvisionerAnnotationKey with
  | Some provisioner => bool_decide (provisioner = DriverName)
  | None => false
  end.

(** The kind is the one of the object's [GroupVersionKind]. *)
Definition IsStorageOS (kind : string) (obj : ObjectMeta) : bool * option error :=
  if bool_decide (kind = "Node") then IsStorageOSNode obj
  else if bool_decide (kind = "PersistentVolumeClaim") then (HasStorageOSAnnotation obj, None)
  else if bool_decide (kind = "Volume") then (false, Some (Sentinel ErrUnsupportedKind))
  else (false, Some (Sentinel ErrUnsupportedKind)).

(** ** storageclass.go *)

Definition pvcStorageClassKey : string := "volume.beta.kubernetes.io/storage-class".
Definition DefaultStorageClassKey : string := "storageclass.kubernetes.io/is-default-class".
Definition StorageClassUUIDAnnotationKey : string := "storageos.com/storageclass".
Definition reservedParamPrefix : string := "storageos.com/".

Definition is_default_class (sc : StorageClass) : bool :=
  match gm_lookup (om_Annotations (sc_meta sc)) DefaultStorageClassKey with
  | Some val => bool_decide (val = "true")
  | None => false
  end.

Definition DefaultStorageClass : prog (StorageClass + error) :=
  r ← Call K_ListStorageClasses;
  match r with
  | inr e => mret (inr (Errorf "failed to get StorageClasses" e))
  | inl items =>
      match List.find is_default_class items with
      | Some sc => mret (inl sc)
      | None => mret (inr (Text "default StorageClass not found"))
      end
  end.

(** [StorageClass], the function. *)
Definition GetStorageClass (name : string) : prog (StorageClass + error) :=
  if bool_decide (name = "") then DefaultStorageClass
  else
    r ← Call (K_GetStorageClass (Key "" name));
    match r with
    | inr e => mret (inr (Wrap e "failed to get StorageClass"))
    | inl sc => mret (inl sc)
    end.

Definition PVCStorageClassName (pvc : PersistentVolumeClaim) : string :=
  let beta :=
    match gm_lookup (om_Annotations (pvc_meta pvc)) pvcStorageClassKey with
    | Some val => val
    | None => ""
    end in
  match pvc_StorageClassName pvc with
  | Some name => if bool_decide (0 < String.length name) then name else beta
  | None => beta
  end.

Definition StorageClassForPVC (pvc : PersistentVolumeClaim) : prog (StorageClass + error) :=
  let name := PVCStorageClassName pvc in
  if bool_decide (name = "") then DefaultStorageClass else GetStorageClass name.

Definition StorageClassReservedParams `{GoRange} (sc : StorageClass) : labels :=
  copy_if (fun k => HasPrefix k reservedParamPrefix) (gm_range (sc_Parameters sc)) ∅.

Definition nil_map_write : string := "assignment to entry in nil map".

(** The claim is given by its metadata, the class by its own. *)
Definition ValidateOrSetStorageClassUID (sc pvc : ObjectMeta) : prog (bool * option error) :=
  let provisionedUID := gm_get (om_Annotations pvc) StorageClassUUIDAnnotationKey in
  if negb (bool_decide (provisionedUID = "")) then mret (bool_decide (om_UID sc = provisionedUID), None)
  else if (om_CreationTimestamp pvc <? om_CreationTimestamp sc)%Z then mret (false, None)
  else
    r ← Call (K_GetPVC (meta_key pvc));
    match r with
    | inr e => mret (false, Some e)
    | inl v1Pvc =>
        match om_Annotations (pvc_meta v1Pvc) with
        | None => Panic nil_map_write
        | Some a =>
            u ← Call (K_UpdatePVC (pvc_with_annotations v1Pvc (Some (<[StorageClassUUIDAnnotationKey := om_UID sc]> a))));
            match u with
            | inr e => mret (false, Some e)
            | inl _ => mret (true, None)
            end
        end
    end.

(** ** storageos.go, volumes *)

Definition IsProvisionedStorageClass (sc : StorageClass) (provisioners : list string) : bool :=
  existsb (fun p => bool_decide (sc_Provisioner sc = p)) provisioners.

Definition IsProvisionedPVC (pvc : PersistentVolumeClaim) (namespace : string) (provisioners : list string)
  : prog (bool * option error) :=
  r ← StorageClassForPVC pvc;
  match r with
  | inr e => mret (false, Some e)
  | inl sc => mret (IsProvisionedStorageClass sc provisioners, None)
  end.

Definition IsProvisionedVolume (volume : PodVolume) (namespace : string) (provisioners : list string)
  : prog (bool * option error) :=
  match vol_ClaimName volume with
  | None => mret (false, None)
  | Some claimName =>
      r ← Call (K_GetPVC (Key namespace claimName));
      match r with
      | inr e => mret (false, Some (Wrap e "failed to get PVC"))
      | inl pvc => IsProvisionedPVC pvc namespace provisioners
      end
  end.

Definition IsStorageOSVolume (volume : PodVolume) (namespace : string) : prog (bool * option error) :=
  IsProvisionedVolume volume namespace [DriverName].

(** ** Properties *)

Lemma lookup_foldl_insert (ms : list (string * string)) (m : labels) k :
  is_Some (foldl (fun m kv => <[kv.1 := kv.2]> m) m ms !! k) <-> k ∈ ms.*1 \/ is_Some (m !! k).
Proof.
  revert m. induction ms as [|[k' v] ms IH]; intros m; simpl; [set_solver|].
  rewrite IH, elem_of_cons. destruct (decide (k = k')) as [->|Hne].
  - rewrite lookup_insert_eq. naive_solver.
  - rewrite lookup_insert_ne by done. naive_solver.
Qed.

(** What a JSON object of plain strings decodes to. *)
Lemma decoded_driver ms :
  plain_members ms ->
  exists m, Unmarshal (marshal ms) = inl m /\ (is_Some (gm_lookup m DriverName) <-> DriverName ∈ ms.*1).
Proof.
  intros Hp. eexists. split; [by apply Unmarshal_marshal|]. simpl.
  rewrite (lookup_foldl_insert ms ∅ DriverName), lookup_empty. split; [intros [?|[? [=]]]; done|by left].
Qed.

(** C32. Which objects [IsStorageOSNode] recognises: exactly those whose
    driver annotation decodes, as a JSON object of strings, to a map that has
    the StorageOS driver; an object without the annotation, or with other
    drivers only, is refused without an error, and the error is that of the
    decoding, which always comes to an end.  In particular, on an annotation
    that is the JSON text of a list of plain members, it answers without error
    whether the StorageOS driver is among them. *)
Theorem IsStorageOSNode_correct obj :
  let annotation := gm_lookup (om_Annotations obj) NodeDriverAnnotationKey in
  (IsStorageOSNode obj = (true, None) <->
     exists text m, annotation = Some text /\ Unmarshal text = inl m /\ is_Some (gm_lookup m DriverName)) /\
  (forall e, IsStorageOSNode obj = (false, Some e) <->
     exists text e', annotation = Some text /\ Unmarshal text = inr e' /\ e' <> OutOfFuel /\ e = JsonErr e') /\
  (forall e, IsStorageOSNode obj <> (true, Some e)) /\
  (forall ms, plain_members ms -> annotation = Some (marshal ms) ->
     IsStorageOSNode obj = (bool_decide (DriverName ∈ ms.*1), None)).
Proof.
  unfold IsStorageOSNode. cbn zeta. destruct (gm_lookup (om_Annotations obj) _) as [text|];
    [|split; [split; [done|by intros (? & ? & [=] & _)]|split; [intros e; split; [done|by intros (? & ? & [=] & _)]|done]]].
  pose proof (Unmarshal_terminates text) as Hfuel. split_and!.
  - destruct (Unmarshal text) as [m|e] eqn:Hu;
      [|split; [done|intros (? & ? & [= <-] & ? & _); congruence]].
    destruct (gm_lookup m DriverName) as [d|] eqn:Hd; split; try done; [intros _; exists text, m; rewrite Hd; eauto|].
    intros (? & ? & [= <-] & Hu' & [? Hd']). congruence.
  - intros e. destruct (Unmarshal text) as [m|e'] eqn:Hu.
    + destruct (gm_lookup m DriverName); (split; [done|intros (? & ? & [= <-] & ? & _); congruence]).
    + split; [intros [= <-]; exists text, e'; split_and!; congruence|].
      intros (? & ? & [= <-] & Hu' & _ & ->). congruence.
  - intros e. destruct (Unmarshal text) as [m|]; [|done]. by destruct (gm_lookup m DriverName).
  - intros ms Hp [= ->]. destruct (decoded_driver ms Hp) as (m & -> & Hm).
    destruct (gm_lookup m DriverName) as [d|]; f_equal; symmetry; [apply bool_decide_eq_true_2, Hm; eauto|].
    apply bool_decide_eq_false_2. intros [d [=]]%Hm.
Qed.

Lemma IsStorageOSNode_correct_witness :
  IsStorageOSNode {| om_Name := "n"; om_Namespace := ""; om_UID := ""; om_ResourceVersion := "";
    om_CreationTimestamp := 0; om_Labels := None; om_OwnerReferences := [];
    om_Annotations := Some {[ NodeDriverAnnotationKey := marshal [("csi.other", "x"); ("csi.storageos.com", "y")] ]} |}
  = (true, None).
Proof.
  match goal with |- IsStorageOSNode ?o = _ => destruct (IsStorageOSNode_correct o) as (_ & _ & _ & Hm) end.
  apply (Hm [("csi.other", "x"); ("csi.storageos.com", "y")]); [repeat constructor | vm_compute; reflexivity].
Defined.

(** The parameters that are defaults for the labels of a volume. *)
Definition reserved_params (sc : StorageClass) : labels :=
  filter (fun kv => HasPrefix kv.1 reservedParamPrefix = true) (gm_map (sc_Parameters sc)).

Lemma StorageClassReservedParams_spec `{GoRange} sc : StorageClassReservedParams sc = reserved_params sc.
Proof.
  unfold StorageClassReservedParams, reserved_params, gm_range.
  rewrite copy_if_range. by rewrite (right_id_L ∅ (∪)).
Qed.

(** The class that the claim records, if any. *)
Definition recorded_class (pvc : ObjectMeta) : string := gm_get (om_Annotations pvc) StorageClassUUIDAnnotationKey.

(** The class is not younger than the claim. *)
Definition class_older (sc pvc : ObjectMeta) : Prop := (om_CreationTimestamp sc <= om_CreationTimestamp pvc)%Z.

(** When the class may be used for the claim: it is the recorded one, or none
    is recorded and the class is not younger than the claim. *)
Definition class_matches (sc pvc : ObjectMeta) : Prop :=
  recorded_class pvc <> "" /\ om_UID sc = recorded_class pvc \/ recorded_class pvc = "" /\ class_older sc pvc.

(** The claim [v1Pvc], whose annotations are [a], with the class recorded. *)
Definition with_class (sc : ObjectMeta) (v1Pvc : PersistentVolumeClaim) (a : labels) : PersistentVolumeClaim :=
  pvc_with_annotations v1Pvc (Some (<[StorageClassUUIDAnnotationKey := om_UID sc]> a)).

(** The two calls that record the class: the claim is read, and written back
    with the annotation; [u] is the answer. *)
Definition records (sc pvc : ObjectMeta) (tr : trace) (u : k8s_res PersistentVolumeClaim) : Prop :=
  exists v1Pvc a, om_Annotations (pvc_meta v1Pvc) = Some a /\
    tr = [existT (K_GetPVC (meta_key pvc)) (inl v1Pvc); existT (K_UpdatePVC (with_class sc v1Pvc a)) u].

(** What the check of a claim against its class does and answers. *)
Definition uid_checked (sc pvc : ObjectMeta) (tr : trace) (o : outcome (bool * option error)) : Prop :=
  (o = Done (true, None) <->
     recorded_class pvc <> "" /\ om_UID sc = recorded_class pvc \/
     recorded_class pvc = "" /\ class_older sc pvc /\ exists pvc', records sc pvc tr (inl pvc')) /\
  (o = Done (false, None) <-> ~ class_matches sc pvc) /\
  (forall b e, o = Done (b, Some e) -> b = false /\
     (tr = [existT (K_GetPVC (meta_key pvc)) (inr e)] \/ records sc pvc tr (inr e))) /\
  (forall m, o = Panicked m -> exists v1Pvc,
     tr = [existT (K_GetPVC (meta_key pvc)) (inl v1Pvc)] /\ om_Annotations (pvc_meta v1Pvc) = None) /\
  (tr <> [] -> recorded_class pvc = "" /\ class_older sc pvc) /\
  (mutations tr = [] \/ exists u, records sc pvc tr u).

(** The answer is determined by the calls. *)
Lemma records_answer sc pvc tr u u' : records sc pvc tr u -> records sc pvc tr u' -> u = u'.
Proof.
  intros (v & a & _ & ->) (v' & a' & _ & Heq).
  apply (f_equal (fun l => match l with
    | [_; existT c r] => match c return ret c -> k8s_res PersistentVolumeClaim with K_UpdatePVC _ => fun r => r | _ => fun _ => u end r
    | _ => u
    end)) in Heq. exact Heq.
Qed.

Lemma ValidateOrSetStorageClassUID_run sc pvc :
  every_run (ValidateOrSetStorageClassUID sc pvc) (uid_checked sc pvc).
Proof.
  unfold ValidateOrSetStorageClassUID, uid_checked, class_matches, class_older. fold (recorded_class pvc).
  destruct (decide (recorded_class pvc = "")) as [Hu|Hne].
  - rewrite bool_decide_eq_true_2 by done. cbn [negb]. destruct (Z.ltb_spec (om_CreationTimestamp pvc) (om_CreationTimestamp sc)).
    + apply every_run_ret. split_and!; try done; [naive_solver lia|split; [intros _; naive_solver lia|done]|by left].
    + apply every_run_bind, every_run_call. intros [v1|e].
      2: { apply every_run_ret. split_and!; try naive_solver. split; [done|]. intros [[? _]|(_ & _ & ? & ? & ? & _ & Heq%(f_equal length))]; done. }
      destruct (om_Annotations (pvc_meta v1)) as [a|] eqn:Ha.
      2: { apply every_run_panic. split_and!; try naive_solver. split; [done|]. intros [[? _]|(_ & _ & ? & ? & ? & _ & Heq%(f_equal length))]; done. }
      apply every_run_bind, every_run_call. intros u.
      assert (Hrec : records sc pvc [existT (K_GetPVC (meta_key pvc)) (inl v1); existT (K_UpdatePVC (with_class sc v1 a)) u] u)
        by by exists v1, a.
      destruct u as [u|e]; apply every_run_ret; (split_and!; [split|naive_solver|naive_solver|done|done|eauto]).
      * intros _. right. eauto.
      * done.
      * done.
      * intros [[? _]|(_ & _ & u & Hrec')]; [done|]. by pose proof (records_answer _ _ _ _ _ Hrec Hrec').
  - rewrite bool_decide_eq_false_2 by done. cbn [negb]. apply every_run_ret. split_and!; try done; [| |by left].
    + split; [intros [= Heq%bool_decide_eq_true]; auto|]. intros [[_ Heq]|[? _]]; [|done]. by rewrite bool_decide_eq_true_2.
    + split; [intros [= Heq%bool_decide_eq_false]; naive_solver|]. intros Hn. rewrite bool_decide_eq_false_2; naive_solver.
Qed.

