(* ===== verification/DeleteControllers.v ===== *)
(** * Decommissioning: [controllers/node-delete] and [controllers/namespace-delete]

    A deleted Kubernetes node or namespace is deleted in StorageOS too, by the
    reconciler when the event is seen and by periodic garbage collection; the
    latter also against a control plane whose listings show the deletions that
    were accepted ([NodeRegistry]). *)

From Stdlib Require Import ZArith.
From S2P Require Import Prelude GoLib Errors Types Effects Client LabelSync ControlPlane Toolkit Provisioner.

(** ** Controllers *)

Module NodeDelete.
Definition Ensure (ctx : Ctx) (obj : client_object) : prog (option error) := mret None.

Definition Delete (c : Client) (ctx : Ctx) (obj : client_object) : prog (option error) :=
  r ← DeleteNode c ctx (obj_key obj);
  match r with
  | Some e => if err_is e ErrNodeNotFound then mret None else mret (Some e)
  | None => mret None
  end.

Definition List (c : Client) (ctx : Ctx) : prog (list ObjectKey + error) :=
  r ← ListNodes c ctx;
  match r with
  | inr e => mret (inr e)
  | inl nodes => mret (inl (map (fun n => Key "" (om_Name (cr_meta n))) nodes))
  end.

Definition controller (c : Client) : SyncController := {| Toolkit.Ensure := Ensure; Toolkit.Delete := Delete c |}.

Definition prototype : Prototype :=
  {| new_instance := fun k => ONode {| kn_meta := set_key zero_meta k |};
     client_Get := fun k => r ← Call (K_GetNode k); mret (match r with inl n => inl (ONode n) | inr e => inr e end);
     client_List := r ← Call K_ListNodes; mret (match r with inl l => inl (map ONode l) | inr e => inr e end) |}.

(** [predicate.go]: only deletions of StorageOS nodes pass. *)
Definition Predicate_Delete (obj : ObjectMeta) : bool := (IsStorageOSNode obj).1.
End NodeDelete.

Module NamespaceDelete.
Definition Ensure (ctx : Ctx) (obj : client_object) : prog (option error) := mret None.

Definition Delete (c : Client) (ctx : Ctx) (obj : client_object) : prog (option error) :=
  r ← DeleteNamespace c ctx (obj_key obj);
  match r with
  | Some e => if err_is e ErrNamespaceNotFound then mret None else mret (Some e)
  | None => mret None
  end.

Definition List (c : Client) (ctx : Ctx) : prog (list ObjectKey + error) :=
  r ← ListNamespaces c ctx;
  match r with
  | inr e => mret (inr e)
  | inl objects => mret (inl (ObjectKeys objects))
  end.

Definition controller (c : Client) : SyncController := {| Toolkit.Ensure := Ensure; Toolkit.Delete := Delete c |}.

Definition prototype : Prototype :=
  {| new_instance := fun k => ONamespace {| kns_meta := set_key zero_meta k |};
     client_Get := fun k => r ← Call (K_GetNamespace k); mret (match r with inl n => inl (ONamespace n) | inr e => inr e end);
     client_List := r ← Call K_ListNamespaces; mret (match r with inl l => inl (map ONamespace l) | inr e => inr e end) |}.

(** [controllers/namespace-delete/predicate.go]: only delete events pass. *)
Definition Predicate_Delete (obj : client_object) : bool := true.
End NamespaceDelete.

(** ** What both collectors share

    A collection of StorageOS objects of type [A]: their names, the call that
    deletes one, and which events list them. *)
Section collector.
Context {A : Type} (name : A -> string) (del : A -> call) (lists : event -> list A -> Prop).

(** Every change made in [tr] deletes an object of the given name that a
    listing in [tr] showed. *)
Definition deletes_listed (P : string -> Prop) (tr : trace) : Prop :=
  forall cl, cl ∈ mutations tr -> exists e l x, e ∈ tr /\ lists e l /\ x ∈ l /\ P (name x) /\ cl = del x.

(** The specification of a delete operation, for any environment. *)
Definition delete_spec (key : ObjectKey) (tr : trace) (o : outcome (option error)) : Prop :=
  deletes_listed (fun n => n = k_name key) tr.

Lemma deletes_listed_app P tr1 tr2 :
  deletes_listed P tr1 -> deletes_listed P tr2 -> deletes_listed P (tr1 ++ tr2).
Proof.
  intros H1 H2 cl. rewrite mutations_app, elem_of_app.
  intros [(e & l & x & He & Hx)%H1|(e & l & x & He & Hx)%H2]; exists e, l, x;
    rewrite elem_of_app; tauto.
Qed.

Lemma deletes_listed_weaken (P Q : string -> Prop) tr :
  (forall n, P n -> Q n) -> deletes_listed P tr -> deletes_listed Q tr.
Proof.
  intros HPQ H cl (e & l & x & He & Hl & Hx & Hn & ->)%H. exists e, l, x. repeat split; auto.
Qed.

Lemma deletes_listed_none P tr : mutations tr = [] -> deletes_listed P tr.
Proof. intros Hm cl. rewrite Hm. by intros ?%elem_of_nil. Qed.

(** A run over many keys deletes nothing but listed objects with those names. *)
Lemma each_delete_listed keys tr o :
  each delete_spec keys tr o -> deletes_listed (fun n => exists k, k ∈ keys /\ k_name k = n) tr.
Proof.
  induction 1 as [|k keys tr b tr' o Hd _ IH|k keys tr m Hd].
  - by apply deletes_listed_none.
  - apply deletes_listed_app;
      (eapply deletes_listed_weaken; [|eassumption]); simpl; [intros n ->; set_solver|].
    intros n (k' & ? & ?). set_solver.
  - eapply deletes_listed_weaken; [|exact Hd]. simpl. intros n ->. set_solver.
Qed.
End collector.

Lemma filter_map {A B} (f : A -> B) (P : B -> Prop) `{!forall x, Decision (P x)} (l : list A) :
  filter P (map f l) = map f (filter (fun x => P (f x)) l).
Proof.
  induction l as [|x l IH]; [done|]. simpl. rewrite !filter_cons. by case_decide; rewrite IH.
Qed.

Lemma filter_iff_in {A} (P Q : A -> Prop) `{!forall x, Decision (P x), !forall x, Decision (Q x)} (l : list A) :
  (forall x, x ∈ l -> P x <-> Q x) -> filter P l = filter Q l.
Proof.
  induction l as [|x l IH]; intros Hl; [done|]. rewrite !filter_cons, IH by (intros; apply Hl; by right).
  pose proof (Hl x ltac:(left)). by repeat case_decide; try tauto.
Qed.

Lemma NoDup_map_filter {A B} (f : A -> B) (P : A -> Prop) `{!forall x, Decision (P x)} (l : list A) :
  NoDup (map f l) -> NoDup (map f (filter P l)).
Proof. intros Hl. eapply sublist_NoDup; [exact Hl|]. apply fmap_sublist, sublist_filter. Qed.

(** Garbage collection of a collection, from the specifications of the three
    operations it calls.  [klists e names]: the event [e] lists the Kubernetes
    objects called [names]. *)
Section collection.
Context {A : Type} (name : A -> string) (del : A -> call).
Context (lists : event -> list A -> Prop) (klists : event -> list ObjectKey -> Prop).

Definition ext_key (x : A) : ObjectKey := Key "" (name x).

Definition list_spec (tr : trace) (o : outcome (list ObjectKey + error)) : Prop :=
  mutations tr = [] /\ exists r, o = Done r /\
    (forall keys, r = inl keys -> exists e l', e ∈ tr /\ lists e l' /\ keys = map ext_key l').

Definition k8s_list_spec (tr : trace) (o : outcome (list client_object + error)) : Prop :=
  mutations tr = [] /\ exists r, o = Done r /\
    (forall objs, r = inl objs -> exists e, e ∈ tr /\ klists e (NamespacedNames objs)).

(** Whatever the environment answers, only orphans are deleted: objects that
    were listed, and whose name was missing from the Kubernetes listing. *)
Definition deletes_orphans (tr : trace) : Prop :=
  forall cl, cl ∈ mutations tr ->
    exists e l x e' names, e ∈ tr /\ lists e l /\ x ∈ l /\ cl = del x /\
      e' ∈ tr /\ klists e' names /\ ext_key x ∉ names.

Lemma gc_safe tr o :
  garbage_collected k8s_list_spec list_spec (delete_spec name del lists) tr o -> deletes_orphans tr.
Proof.
  intros (t1 & o1 & (Hm1 & r1 & -> & Hk) & H1) cl Hcl. destruct r1 as [objs|e1];
    [|destruct H1 as [-> _]; rewrite Hm1 in Hcl; by apply elem_of_nil in Hcl].
  destruct H1 as (t2 & o2 & (Hm2 & r2 & -> & Hl) & H2). destruct r2 as [ext|e2];
    [|destruct H2 as [-> _]; rewrite mutations_app, Hm1, Hm2 in Hcl; by apply elem_of_nil in Hcl].
  destruct H2 as (t3 & -> & H3). rewrite !mutations_app, Hm1, Hm2 in Hcl. simpl in Hcl.
  destruct (each_delete_listed _ _ _ _ _ _ H3 cl Hcl) as (e & l' & x & He & Hlist & Hx & (k & Hkin & Hkn) & ->).
  destruct (Hl ext eq_refl) as (_ & l'' & _ & _ & ->).
  apply list_elem_of_filter in Hkin as [Hnot Hk']. apply list_elem_of_fmap in Hk' as (y & -> & _).
  simpl in Hkn. destruct (Hk objs eq_refl) as (e' & He' & Hlk).
  exists e, l', x, e', (NamespacedNames objs). rewrite !elem_of_app.
  unfold ext_key in *. rewrite Hkn in Hnot. tauto.
Qed.
End collection.

(** ** Nodes *)

Definition node_deletion (c : Client) (n : Node) : call := CP_DeleteNode (AddToken c background) (n_Id n) (n_Version n).

(** The event is a successful listing of the nodes [l]. *)
Definition lists_nodes (e : event) (l : list Node) : Prop :=
  exists ctx resp, e = existT (CP_ListNodes ctx) (l, resp, None).

Definition lists_k8s_nodes (e : event) (names : list ObjectKey) : Prop :=
  exists l, e = existT K_ListNodes (inl l) /\ names = map (fun n => meta_key (kn_meta n)) l.

(** ** Namespaces *)

Definition namespace_deletion (c : Client) (n : Namespace) : call :=
  CP_DeleteNamespace (AddToken c background) (ns_Id n) (ns_Version n).

Definition lists_namespaces (e : event) (l : list Namespace) : Prop :=
  exists ctx resp, e = existT (CP_ListNamespaces ctx) (l, resp, None).

Definition lists_k8s_namespaces (e : event) (names : list ObjectKey) : Prop :=
  exists l, e = existT K_ListNamespaces (inl l) /\ names = map (fun n => meta_key (kns_meta n)) l.

(** Close a leaf of a delete run: nothing was deleted, or the listed object
    of that name was. *)
Ltac delete_leaf :=
  first
    [ by apply deletes_listed_none
    | intros cl Hcl; apply list_elem_of_singleton in Hcl as ->;
      match goal with H : find_by_name _ _ _ = Some _ |- _ => destruct (find_by_name_Some _ _ _ _ H) end;
      do 3 eexists; split; [left|]; split; [eexists _, _; reflexivity|]; naive_solver ].

(** Close a leaf of a listing run. *)
Ltac list_leaf :=
  (split; [done|]); eexists; (split; [done|]);
  intros ? [=]; subst; try (do 2 eexists; split; [left|]; split; [eexists _, _; reflexivity|]);
  rewrite ?map_map; reflexivity.

(** Close a leaf of a listing of the Kubernetes client. *)
Ltac k8s_list_leaf :=
  match goal with |- context [match ?x with inl _ => _ | inr _ => _ end] => destruct x end; simpl;
  (split; [done|]); eexists; (split; [done|]);
  intros ? [=]; subst; eexists; (split; [left|]); eexists; (split; [done|]);
  unfold NamespacedNames; by rewrite map_map.

Section runs.
Context (c : Client).

Lemma NodeDelete_Delete_run obj :
  every_run (NodeDelete.Delete c background obj) (delete_spec n_Name (node_deletion c) lists_nodes (obj_key obj)).
Proof.
  unfold NodeDelete.Delete, DeleteNode, timed, getNodeByKey, observeErr, delete_spec.
  run_steps; simpl; delete_leaf.
Qed.

Lemma NamespaceDelete_Delete_run obj :
  every_run (NamespaceDelete.Delete c background obj)
    (delete_spec ns_Name (namespace_deletion c) lists_namespaces (obj_key obj)).
Proof.
  unfold NamespaceDelete.Delete, DeleteNamespace, timed, getNamespace, observeErr, delete_spec.
  run_steps; simpl; delete_leaf.
Qed.

Lemma NodeDelete_List_run : every_run (NodeDelete.List c background) (list_spec n_Name lists_nodes).
Proof. unfold NodeDelete.List, ListNodes, timed, failed, list_spec. run_steps; simpl; list_leaf. Qed.

Lemma NamespaceDelete_List_run : every_run (NamespaceDelete.List c background) (list_spec ns_Name lists_namespaces).
Proof.
  unfold NamespaceDelete.List, ListNamespaces, timed, failed, list_spec, ObjectKeys.
  run_steps; simpl; list_leaf.
Qed.

Lemma NodeDelete_k8s_run : every_run (client_List NodeDelete.prototype) (k8s_list_spec lists_k8s_nodes).
Proof.
  unfold k8s_list_spec, NodeDelete.prototype. cbn [client_List]. run_steps; simpl; k8s_list_leaf.
Qed.

Lemma NamespaceDelete_k8s_run :
  every_run (client_List NamespaceDelete.prototype) (k8s_list_spec lists_k8s_namespaces).
Proof.
  unfold k8s_list_spec, NamespaceDelete.prototype. cbn [client_List]. run_steps; simpl; k8s_list_leaf.
Qed.

(** C6. Node garbage collection is safe in every environment, whatever the
    API server and the control plane answer to each call: every change it
    makes deletes a StorageOS node that a listing of the run showed, with
    the version shown, and whose name the Kubernetes node listing of the
    run did not contain.  If either listing fails nothing is deleted. *)
Theorem node_garbage_collection_safe :
  every_run (collectGarbage NodeDelete.prototype (NodeDelete.controller c) (NodeDelete.List c))
    (fun tr _ => deletes_orphans n_Name (node_deletion c) lists_nodes lists_k8s_nodes tr).
Proof.
  eapply every_run_mono; [|intros tr o Hgc; by eapply gc_safe].
  apply collectGarbage_run; [by intros []|apply NodeDelete_k8s_run|apply NodeDelete_List_run|].
  intros obj. apply NodeDelete_Delete_run.
Qed.

(** The same for namespaces: safe in every environment. *)
Theorem namespace_garbage_collection_safe :
  every_run (collectGarbage NamespaceDelete.prototype (NamespaceDelete.controller c) (NamespaceDelete.List c))
    (fun tr _ => deletes_orphans ns_Name (namespace_deletion c) lists_namespaces lists_k8s_namespaces tr).
Proof.
  eapply every_run_mono; [|intros tr o Hgc; by eapply gc_safe].
  apply collectGarbage_run; [by intros []|apply NamespaceDelete_k8s_run|apply NamespaceDelete_List_run|].
  intros obj. apply NamespaceDelete_Delete_run.
Qed.
End runs.

(** ** Collection in a control plane with state

    What the API documents of the deletion of nodes: a node is listed until a
    deletion that carries its current version is accepted; a refused deletion
    has no effect, and comes with an HTTP response. *)
Class NodeRegistry {W : Type} (h : handler W) := {
  registered : W -> list Node;
  reg_names : forall w, NoDup (map n_Name (registered w));
  reg_list : forall ctx w, h (CP_ListNodes ctx) w = ((registered w, None, None), w);
  reg_increment : forall f e w, registered (h (M_Increment f e) w).2 = registered w;
  reg_observe : forall f w, registered (h (M_Observe f) w).2 = registered w;
  reg_delete : forall ctx n w, n ∈ registered w ->
    let '((_, resp, err), w') := h (CP_DeleteNode ctx (n_Id n) (n_Version n)) w in
    match err with
    | None => registered w' = filter (fun n' => n_Name n' <> n_Name n) (registered w)
    | Some _ => registered w' = registered w /\ resp <> None
    end;
}.

Section registry.
Context {W : Type} (h : handler W) `{!NodeRegistry h} (c : Client).

(** The control plane accepts every deletion of a node with its version. *)
Definition accepts_deletions : Prop :=
  forall w n, n ∈ registered w -> accepts h w (node_deletion c n).

(** One deletion: the node is gone, or the deletion was refused. *)
Lemma NodeDelete_Delete_registered w n :
  n ∈ registered w ->
  exists r w', runs_to h (NodeDelete.Delete c background (new_instance NodeDelete.prototype (ext_key n_Name n))) w r w' [node_deletion c n] /\
    (registered w' = filter (fun n' => n_Name n' <> n_Name n) (registered w) \/
     registered w' = registered w /\ ~ accepts h w (node_deletion c n)).
Proof.
  intros Hn. unfold NodeDelete.Delete, DeleteNode, timed.
  change (obj_key _) with (ext_key n_Name n).
  pose proof (reg_delete (AddToken c background) n w Hn) as Hd.
  destruct (h (CP_DeleteNode (AddToken c background) (n_Id n) (n_Version n)) w) as [[[u resp] err] w1] eqn:Hh.
  pose proof (reg_observe "delete_node" w1) as Ho. destruct (h (M_Observe "delete_node") w1) as [ro w2] eqn:Hw2.
  assert (Hfind : runs_to h (getNodeByKey (AddToken c background) (ext_key n_Name n)) w (inl n) w []).
  { unfold getNodeByKey. eapply runs_to_query; [done|apply reg_list|]. cbn beta iota.
    change (k_name (ext_key n_Name n)) with (n_Name n). rewrite (find_by_name_NoDup n_Name _ n (reg_names w) Hn). apply runs_to_ret. }
  assert (Hacc : accepts h w (node_deletion c n) <-> err = None).
  { unfold accepts, node_deletion. rewrite Hh. done. }
  simpl in Ho. destruct err as [e|].
  - destruct Hd as [Hw1 Hr]. destruct resp as [resp|]; [|done]. set (e' := node_delete_error (StatusCode resp) (map_api_error e (Some resp))).
    exists (if err_is e' ErrNodeNotFound then None else Some e'), w2. split; [|right; split; [congruence|naive_solver]].
    rewrite <- (app_nil_r [_]). eapply runs_to_bind.
    + eapply runs_to_defer; [done| |exact Hw2]. eapply runs_to_read; [exact Hfind|]. cbn iota.
      eapply runs_to_change; [done|exact Hh|]. cbn beta iota. apply runs_to_ret.
    + fold e'. cbn iota. destruct (err_is e' ErrNodeNotFound); apply runs_to_ret.
  - exists None, w2. split; [|left; congruence]. rewrite <- (app_nil_r [_]). eapply runs_to_bind.
    + eapply runs_to_defer; [done| |exact Hw2]. eapply runs_to_read; [exact Hfind|]. cbn iota.
      eapply runs_to_change; [done|exact Hh|]. cbn beta iota. apply runs_to_ret.
    + apply runs_to_ret.
Qed.

(** Deleting some of the nodes, one after the other. *)
Lemma delete_each (l : list Node) w :
  NoDup (map n_Name l) -> (forall n, n ∈ l -> n ∈ registered w) ->
  exists removed w', runs_to h (foldM (fun _ key => _ ← NodeDelete.Delete c background (new_instance NodeDelete.prototype key); mret tt)
      (map (ext_key n_Name) l) tt) w tt w' (map (node_deletion c) l) /\
    removed ⊆ map n_Name l /\ registered w' = filter (fun n => n_Name n ∉ removed) (registered w) /\
    (accepts_deletions -> forall n, n ∈ l -> n_Name n ∈ removed).
Proof.
  revert w. induction l as [|n l IH]; intros w Hnd Hin.
  { exists [], w. split_and!; [apply runs_to_ret|done| |by intros _ n ?%elem_of_nil].
    symmetry. rewrite (filter_iff_in _ (fun _ => True)); [|intros n _; split; [done|intros _; apply not_elem_of_nil]].
    clear. induction (registered w) as [|n l IH]; [done|]. rewrite filter_cons, decide_True by done. by rewrite IH. }
  inversion_clear Hnd as [|? ? Hn Hnd'].
  destruct (NodeDelete_Delete_registered w n (Hin n ltac:(left))) as (r & w1 & Hrun & Hw1).
  destruct (IH w1 Hnd') as (removed & w2 & Hrest & Hsub & Hw2 & Hacc).
  { intros n' Hn'. assert (Hn2 : n' ∈ registered w) by (apply Hin; by right).
    destruct Hw1 as [->|[-> _]]; [|done]. apply list_elem_of_filter. split; [|done].
    intros Heq. apply Hn. rewrite <- Heq. by apply list_elem_of_fmap_2. }
  assert (Hall : runs_to h (foldM (fun _ key => _ ← NodeDelete.Delete c background (new_instance NodeDelete.prototype key); mret tt)
      (map (ext_key n_Name) (n :: l)) tt) w tt w2 (map (node_deletion c) (n :: l))).
  { cbn [foldM map]. apply (runs_to_bind h _ _ w tt w1 [node_deletion c n]); [|exact Hrest].
    rewrite <- (app_nil_r [_]). eapply runs_to_bind; [exact Hrun|apply runs_to_ret]. }
  destruct Hw1 as [Hw1|[Hw1 Hno]].
  - exists (n_Name n :: removed), w2. split_and!; [done|set_solver| |intros; set_solver].
    rewrite Hw2, Hw1, list_filter_filter. apply list_filter_iff. intros n'. rewrite not_elem_of_cons. tauto.
  - exists removed, w2. rewrite <- Hw1. split_and!; [done|set_solver|done|].
    intros Ha. destruct Hno. apply Ha, Hin. left.
Qed.

(** C7. Node garbage collection is complete, in a control plane with state
    ([NodeRegistry]: nodes have distinct names; a listing succeeds and shows
    the nodes there are then; a deletion with the version of the node is
    accepted and removes it, or is refused without effect and with an HTTP
    response, since without one the deletion panics), when the Kubernetes
    listing succeeds.  The run ends normally, having attempted to delete
    exactly the nodes that Kubernetes does not have, each once, in the order
    of the first listing, although every deletion lists the nodes again and a
    refusal leaves its node there; no other node is removed; and if the control
    plane accepts the deletions, exactly the nodes that Kubernetes has are left. *)
Theorem node_garbage_collection_complete w kl :
  h K_ListNodes w = (inl kl, w) ->
  let orphan n := ext_key n_Name n ∉ map (fun kn => meta_key (kn_meta kn)) kl in
  exists w', runs_to h (collectGarbage NodeDelete.prototype (NodeDelete.controller c) (NodeDelete.List c)) w tt w'
      (map (node_deletion c) (filter orphan (registered w))) /\
    (forall n, n ∈ registered w' -> n ∈ registered w) /\
    (forall n, n ∈ registered w -> ~ orphan n -> n ∈ registered w') /\
    (accepts_deletions -> registered w' = filter (fun n => ~ orphan n) (registered w)).
Proof.
  intros Hk orphan. destruct (h (M_Observe "list_nodes") w) as [ro w1] eqn:Hw1.
  pose proof (reg_observe "list_nodes" w) as Ho. rewrite Hw1 in Ho. simpl in Ho.
  destruct (delete_each (filter orphan (registered w)) w1) as (removed & w' & Hrun & Hsub & Hw' & Hacc).
  { apply NoDup_map_filter, reg_names. }
  { intros n [_ Hn]%list_elem_of_filter. by rewrite Ho. }
  rewrite Ho in Hw'.
  assert (Hname : forall n, n ∈ registered w -> n_Name n ∈ removed -> orphan n).
  { intros n Hn Hr%Hsub. apply list_elem_of_fmap in Hr as (x & Hx & [Hox _]%list_elem_of_filter).
    unfold orphan, ext_key in *. by rewrite Hx. }
  exists w'. split_and!.
  - unfold collectGarbage, NodeDelete.List, ListNodes, timed.
    eapply runs_to_read; [unfold NodeDelete.prototype; cbn [client_List]; eapply runs_to_query; [done|exact Hk|apply runs_to_ret]|].
    cbn iota zeta. eapply runs_to_read.
    + eapply runs_to_read; [eapply runs_to_defer; [done| |exact Hw1]|].
      * eapply runs_to_query; [done|apply reg_list|]. apply runs_to_ret.
      * apply runs_to_ret.
    + cbn iota. rewrite NamespacedNamesDiff_filter. unfold NamespacedNames. rewrite !map_map. simpl.
      change (fun x : Node => Key "" (n_Name x)) with (ext_key n_Name). rewrite filter_map. exact Hrun.
  - intros n. rewrite Hw', list_elem_of_filter. tauto.
  - intros n Hn Hno. rewrite Hw'. apply list_elem_of_filter. split; [|done]. intros Hr. by apply Hno, Hname.
  - intros Ha. rewrite Hw'. apply filter_iff_in. intros n Hn. split.
    + intros Hr Hor. apply Hr, (Hacc Ha), list_elem_of_filter. done.
    + intros Hno Hr. by apply Hno, Hname.
Qed.
End registry.

(** A control plane in memory: three nodes that are listed until deleted, of
    which Kubernetes has one. *)
Module memory_registry.
Definition memory_node (name id : string) : Node :=
  {| n_Id := id; n_Name := name; n_Health := HEALTH_ONLINE;
     n_Capacity := {| cap_Total := 0; cap_Free := 0; cap_Available := 0 |};
     n_IoEndpoint := ""; n_SupervisorEndpoint := ""; n_GossipEndpoint := ""; n_ClusteringEndpoint := "";
     n_Labels := None; n_CreatedAt := 0; n_Version := "1" |}.

Definition all_nodes : list Node := [memory_node "a" "1"; memory_node "b" "2"; memory_node "c" "3"].

(** The identifiers of the nodes that were deleted. *)
Definition memory_nodes (gone : list string) : list Node := filter (fun n => n_Id n ∉ gone) all_nodes.

Definition control_plane : handler (list string) := fun c gone =>
  match c return ret c * list string with
  | CP_ListNodes _ => ((memory_nodes gone, None, None), gone)
  | CP_DeleteNode _ id version =>
      if bool_decide (version = "1") then ((tt, None, None), id :: gone)
      else ((tt, Some {| StatusCode := 409; Authorization := "" |}, Some (Text "conflict")), gone)
  | K_ListNodes => (inl [{| kn_meta := meta "b" "" None [] |}], gone)
  | c' => (plain_answer c', gone)
  end.

#[global] Instance registry : NodeRegistry control_plane.
Proof.
  refine {| registered := memory_nodes |}; try done.
  - intros gone. apply NoDup_map_filter. apply (bool_decide_unpack _). vm_compute. exact I.
  - intros ctx n gone [_ Hn]%list_elem_of_filter. unfold memory_nodes.
    assert (Hv : n_Version n = "1") by (unfold all_nodes in Hn; set_solver). simpl. rewrite Hv. simpl.
    rewrite list_filter_filter. apply filter_iff_in. intros n' Hn'. rewrite not_elem_of_cons.
    enough (n_Id n' = n_Id n <-> n_Name n' = n_Name n) by tauto.
    unfold all_nodes in Hn, Hn'. rewrite !elem_of_cons, elem_of_nil in Hn, Hn'.
    by destruct Hn as [->|[->|[->|[]]]], Hn' as [->|[->|[->|[]]]].
Defined.
End memory_registry.

(** Two orphans, and both are deleted. *)
Lemma node_garbage_collection_complete_witness :
  exists gone, runs_to memory_registry.control_plane
    (collectGarbage NodeDelete.prototype (NodeDelete.controller example_client) (NodeDelete.List example_client)) [] tt gone
    [CP_DeleteNode {| access_token := Some "token" |} "1" "1"; CP_DeleteNode {| access_token := Some "token" |} "3" "1"] /\
  memory_registry.memory_nodes gone = [memory_registry.memory_node "b" "2"].
Proof.
  destruct (node_garbage_collection_complete memory_registry.control_plane example_client []
    [{| kn_meta := meta "b" "" None [] |}] eq_refl) as (gone & Hrun & _ & _ & Hleft).
  exists gone. split; [exact Hrun|]. refine (eq_trans (Hleft _) _); [|vm_compute; reflexivity].
  intros w n [_ Hn]%list_elem_of_filter. unfold accepts, node_deletion. simpl.
  assert (Hv : n_Version n = "1") by (unfold memory_registry.all_nodes in Hn; set_solver). by rewrite Hv.
Defined.

(** ** Failed deletions *)

(** The HTTP response of a control-plane deletion. *)
Definition delete_response (e : event) : option response :=
  let '(existT c r) := e in
  match c return ret c -> option response with
  | CP_DeleteNode _ _ _ | CP_DeleteNamespace _ _ _ => fun r => r.1.2
  | _ => fun _ => None
  end r.

(** A change that was refused without any HTTP response, or accepted. *)
Definition transport_failure (e : event) : Prop :=
  mutates (projT1 e) = true /\ cp_error e <> None /\ delete_response e = None.

Definition accepted (e : event) : Prop := mutates (projT1 e) = true /\ cp_error e = None.

Ltac outcome_leaf :=
  unfold transport_failure, accepted; rewrite !Exists_cons, !Exists_nil; simpl;
  (split; [split; [intros [? [=]] | naive_solver] | split; [intros [=] | naive_solver]]); naive_solver.

Section failures.
Context (c : Client).

(** C37. Deleting a node panics exactly when the delete request fails
    without an HTTP response (a transport error); it returns no error
    exactly when the delete request was made and accepted. *)
Theorem DeleteNode_outcome ctx key :
  every_run (DeleteNode c ctx key) (fun tr o =>
    ((exists m, o = Panicked m) <-> Exists transport_failure tr) /\
    (o = Done None <-> Exists accepted tr)).
Proof. unfold DeleteNode, timed, getNodeByKey, observeErr. run_steps; simpl; outcome_leaf. Qed.

(** The same of deleting a namespace. *)
Theorem DeleteNamespace_outcome ctx key :
  every_run (DeleteNamespace c ctx key) (fun tr o =>
    ((exists m, o = Panicked m) <-> Exists transport_failure tr) /\
    (o = Done None <-> Exists accepted tr)).
Proof. unfold DeleteNamespace, timed, getNamespace, observeErr. run_steps; simpl; outcome_leaf. Qed.
End failures.
