(* ===== verification/LabelControllers.v ===== *)
(** * Label controllers: [controllers/node-label] and [controllers/pvc-label]

    Kubernetes labels of nodes and claims are applied to StorageOS nodes and
    volumes, on update events ([Predicate], [Ensure]) and by a periodic resync
    of the objects whose labels differ ([Diff]). *)

From Stdlib Require Import ZArith.
From S2P Require Import Prelude GoLib Json Errors Types Effects Labels Client LabelSync NodeLabels VolumeLabels ControlPlane NodeStore Toolkit Provisioner DeleteControllers.

Module NodeLabel.
Definition Ensure `{GoRange} (c : Client) (ctx : Ctx) (obj : client_object) : prog (option error) :=
  EnsureNodeLabels c ctx (obj_key obj) (om_Labels (obj_meta obj)).

Definition Diff (c : Client) (ctx : Ctx) (objs : list client_object) : prog (list client_object + error) :=
  r ← NodeObjects c ctx;
  match r with
  | inr e => mret (inr e)
  | inl nodes =>
      mret (inl (foldl (fun apply obj =>
        match nodes !! obj_key obj with
        | None => apply
        | Some node =>
            if negb (deep_equal (om_Labels (obj_meta obj)) (GetLabels node)) then apply ++ [obj] else apply
        end) [] objs))
  end.

Definition Delete (ctx : Ctx) (obj : client_object) : prog (option error) := mret None.

Definition controller `{GoRange} (c : Client) : SyncController :=
  {| Toolkit.Ensure := Ensure c; Toolkit.Delete := Delete |}.

(** [predicate.go]: whether an update event is processed. *)
Definition Predicate_Update (objectOld objectNew : ObjectMeta) : bool :=
  if negb (IsStorageOSNode objectNew).1 then false
  else if negb (IsStorageOSNode objectOld).1 then true
  else if negb (deep_equal (om_Labels objectOld) (om_Labels objectNew)) then true
  else false.
End NodeLabel.

Module PVCLabel.
Definition Ensure `{GoRange} (c : Client) (ctx : Ctx) (pvc : PersistentVolumeClaim) : prog (option error) :=
  conv ← Call SchemeConvert;
  match conv with
  | Some e => mret (Some (Errorf "failed to convert Object to Unstructured" e))
  | None =>
      let scName := default "" (pvc_StorageClassName pvc) in
      scr ← GetStorageClass scName;
      match scr with
      | inr e => mret (Some (Wrap e "failed to get storageclass for pvc"))
      | inl sc =>
          '(ok, err) ← ValidateOrSetStorageClassUID (sc_meta sc) (pvc_meta pvc);
          match err with
          | Some e => mret (Some (Wrap e "failed to set storageclass annotation on the pvc"))
          | None =>
              if negb ok then mret None
              else
                let ensureLabels :=
                  copy_if (fun _ => true) (gm_range (om_Labels (pvc_meta pvc))) (StorageClassReservedParams sc) in
                let pvName := pvc_VolumeName pvc in
                if bool_decide (pvName = "") then mret (Some (Text "pv for pvc not yet provisioned"))
                else EnsureVolumeLabels c ctx (Key (om_Namespace (pvc_meta pvc)) pvName) (Some ensureLabels)
          end
      end
  end.

Definition Diff (c : Client) (ctx : Ctx) (objs : list client_object) : prog (list client_object + error) :=
  r ← VolumeObjects c ctx;
  match r with
  | inr e => mret (inr e)
  | inl volumes =>
      mret (inl (foldl (fun apply obj =>
        match volumes !! obj_key obj with
        | None => apply
        | Some vol =>
            if negb (deep_equal (om_Labels (obj_meta obj)) (GetLabels vol)) then apply ++ [obj] else apply
        end) [] objs))
  end.

Definition Delete (ctx : Ctx) (obj : client_object) : prog (option error) := mret None.

(** What [Ensure] finds in the object it is given, by [NestedString]: only a
    claim has a class and a volume. *)
Definition claim_of (obj : client_object) : PersistentVolumeClaim :=
  match obj with
  | OPVC pvc => pvc
  | _ => {| pvc_meta := obj_meta obj; pvc_StorageClassName := None; pvc_VolumeName := "" |}
  end.

Definition controller `{GoRange} (c : Client) : SyncController :=
  {| Toolkit.Ensure := fun ctx obj => Ensure c ctx (claim_of obj); Toolkit.Delete := Delete |}.

Definition prototype : Prototype :=
  {| new_instance := fun k => OPVC {| pvc_meta := set_key zero_meta k; pvc_StorageClassName := None; pvc_VolumeName := "" |};
     client_Get := fun k => r ← Call (K_GetPVC k); mret (match r with inl p => inl (OPVC p) | inr e => inr e end);
     client_List := r ← Call K_ListPVCs; mret (match r with inl l => inl (map OPVC l) | inr e => inr e end) |}.

Definition Predicate_Update (objectOld objectNew : ObjectMeta) : bool :=
  if negb (HasStorageOSAnnotation objectNew) then false
  else if negb (deep_equal (om_Labels objectOld) (om_Labels objectNew)) then true
  else false.
End PVCLabel.

(** ** Claims *)

(** The labels a claim asks for: its own over the defaults of its class. *)
Definition claim_labels (sc : StorageClass) (pvc : PersistentVolumeClaim) : labels :=
  gm_map (om_Labels (pvc_meta pvc)) ∪ reserved_params sc.

Lemma ensureLabels_spec `{GoRange} sc pvc :
  copy_if (fun _ => true) (gm_range (om_Labels (pvc_meta pvc))) (StorageClassReservedParams sc) = claim_labels sc pvc.
Proof.
  unfold gm_range, claim_labels. rewrite copy_if_range, StorageClassReservedParams_spec. f_equal.
  apply map_eq. intros k. by rewrite (lookup_filter_key (fun _ => true)).
Qed.

(** What follows once the class of a claim is known: the check of the class;
    then, if it may be used and the claim is bound, the synchronisation of the
    volume named after the PV, in the namespace of the claim, to the labels the
    claim asks for; otherwise nothing. *)
Definition claim_run (c : Client) (ctx : Ctx) (pvc : PersistentVolumeClaim) (sc : StorageClass)
    (tr : trace) (o : outcome (option error)) : Prop :=
  exists checks checked rest, tr = checks ++ rest /\ uid_checked (sc_meta sc) (pvc_meta pvc) checks checked /\
    match checked with
    | Done (true, None) =>
        if decide (pvc_VolumeName pvc = "") then rest = [] /\ exists e, o = Done (Some e)
        else exists r, o = Done r /\
          volume_sync_run (AddToken c ctx) (Key (om_Namespace (pvc_meta pvc)) (pvc_VolumeName pvc)) (claim_labels sc pvc) rest r
    | Done (false, None) => rest = [] /\ o = Done None
    | Done (_, Some _) => rest = [] /\ exists e, o = Done (Some e)
    | Panicked m => rest = [] /\ o = Panicked m
    end.

(** The lookup of the class by the name [name], or of the default class if it
    is empty; a claim without a class has the empty name. *)
Definition class_lookup (pvc : PersistentVolumeClaim) : prog (StorageClass + error) :=
  GetStorageClass (default "" (pvc_StorageClassName pvc)).

Lemma GetStorageClass_reads name :
  every_run (GetStorageClass name) (fun tr o => mutations tr = [] /\ exists r, o = Done r).
Proof. unfold GetStorageClass, DefaultStorageClass. run_steps; eauto. Qed.

Section claims.
Context `{GoRange} (c : Client).

Lemma claim_run_end ctx pvc sc checks checked o :
  uid_checked (sc_meta sc) (pvc_meta pvc) checks checked ->
  match checked with
  | Done (true, None) => pvc_VolumeName pvc = "" /\ exists e, o = Done (Some e)
  | Done (false, None) => o = Done None
  | Done (_, Some _) => exists e, o = Done (Some e)
  | Panicked m => o = Panicked m
  end -> claim_run c ctx pvc sc checks o.
Proof.
  intros Hc Ho. exists checks, checked, []. rewrite app_nil_r. split; [done|]. split; [done|].
  destruct checked as [[[] [e|]]|m]; try done. destruct Ho as [-> He]. by rewrite decide_True.
Qed.

End claims.

(** ** Differences *)

(** The object is known under its key, with other labels. *)
Definition differs (m : gmap ObjectKey object) (obj : client_object) : bool :=
  match m !! obj_key obj with
  | None => false
  | Some x => negb (deep_equal (om_Labels (obj_meta obj)) (GetLabels x))
  end.

(** Both [Diff] loops compute a filter. *)
Lemma diff_filter m objs acc :
  foldl (fun apply obj =>
          match m !! obj_key obj with
          | None => apply
          | Some x =>
              if negb (deep_equal (om_Labels (obj_meta obj)) (GetLabels x)) then apply ++ [obj] else apply
          end) acc objs = acc ++ filter (fun o => differs m o = true) objs.
Proof.
  revert acc. induction objs as [|o objs IH]; intros acc; simpl; [by rewrite app_nil_r|].
  rewrite IH, filter_cons. destruct (differs m o) eqn:Hd;
    [rewrite decide_True by done | rewrite decide_False by done];
    unfold differs in Hd; destruct (m !! obj_key o); try done; rewrite Hd; [by rewrite <- (assoc_L (++))|done].
Qed.

(** The map of nodes, by key. *)
Definition node_map (l : list Node) : gmap ObjectKey object :=
  foldl (fun m n => <[Key "" (n_Name n) := ObjNode n]> m) ∅ l.

Lemma lookup_node_map_gen l (m : gmap ObjectKey object) k :
  NoDup (map n_Name l) -> k_namespace k = "" ->
  foldl (fun m n => <[Key "" (n_Name n) := ObjNode n]> m) m l !! k =
  match find_by_name n_Name l (k_name k) with Some n => Some (ObjNode n) | None => m !! k end.
Proof.
  intros Hnd Hk. revert m. induction l as [|n l IH]; intros m; [done|]. simpl.
  inversion_clear Hnd as [|? ? Hn Hnd']. rewrite IH by done.
  case_bool_decide as Heq.
  - replace (find_by_name n_Name l (k_name k)) with (@None Node).
    + rewrite Heq. destruct k as [kns kn]; simpl in *. subst. by rewrite lookup_insert_eq.
    + symmetry. destruct (find_by_name n_Name l (k_name k)) as [n'|] eqn:Hf; [|done].
      apply find_by_name_Some in Hf as [Hin Hname]. exfalso. apply Hn. rewrite Heq, <- Hname.
      by apply list_elem_of_fmap_2.
  - destruct (find_by_name n_Name l (k_name k)); [done|].
    rewrite lookup_insert_ne; [done|]. intros <-. by apply Heq.
Qed.

Lemma lookup_node_map l k :
  NoDup (map n_Name l) -> k_namespace k = "" ->
  node_map l !! k = ObjNode <$> find_by_name n_Name l (k_name k).
Proof.
  intros Hnd Hk. unfold node_map. rewrite lookup_node_map_gen by done.
  destruct (find_by_name _ _ _); [done|]. apply lookup_empty.
Qed.

(** ** Nodes *)

(** StorageOS has the Kubernetes node, with other labels. *)
Definition stale (kn : K8sNode) (n : Node) : Prop :=
  om_Name (kn_meta kn) = n_Name n /\ deep_equal (om_Labels (kn_meta kn)) (n_Labels n) = false.

Definition k8s_key (kn : K8sNode) : ObjectKey := meta_key (kn_meta kn).

Lemma NoDup_map_inj {A} (f : A -> string) (l : list A) x y : NoDup (map f l) -> x ∈ l -> y ∈ l -> f x = f y -> x = y.
Proof.
  intros Hnd Hx Hy Hf. induction l as [|z l IH]; [by apply elem_of_nil in Hx|].
  inversion_clear Hnd as [|? ? Hz Hnd']. apply elem_of_cons in Hx as [->|Hx], Hy as [->|Hy]; auto; destruct Hz.
  - rewrite Hf. by apply list_elem_of_fmap_2.
  - rewrite <- Hf. by apply list_elem_of_fmap_2.
Qed.

Section node_resync.
Context {W : Type} (h : handler W) `{!NodeStore h} `{GoRange} (c : Client).

(** What a resync for the Kubernetes node [kn] makes of the node [n]. *)
Definition node_resynced (kn : K8sNode) (n n' : Node) : Prop :=
  let m := gm_map (om_Labels (kn_meta kn)) in
  keeps node_synchronised (n_Labels n) (n_Labels n') /\
  (obliging h (k8s_key kn) -> node_labels_valid m -> computeOnly_readable n ->
     unreserved (gm_map (n_Labels n)) = unreserved m \/ reserved (gm_map (n_Labels n')) = ∅ -> node_synced n' m).

(** One Kubernetes node whose StorageOS node is there. *)
Lemma NodeLabel_Ensure_resyncs w kn n :
  node_at (nodes_of w) (k8s_key kn) = Some n ->
  exists r n' w' pl, runs_to h (NodeLabel.Ensure c background (ONode kn)) w r w' pl /\
    node_becomes (nodes_of w) (nodes_of w') n n' /\ node_resynced kn n n' /\
    Forall (fun cl => node_target cl = Some (n_Id n)) pl.
Proof.
  intros Hn. destruct (EnsureNodeLabels_synchronises h c background w (k8s_key kn) n (om_Labels (kn_meta kn)) Hn)
    as (r & n' & w' & pl & Hrun & _ & Hb & Hk & Hs & Ho & Ht & _).
  exists r, n', w', pl. split_and!; try done. split; [done|]. intros. by apply Hs, Ho.
Qed.

(** Every other node is the same after one node was replaced. *)
Lemma becomes_others w w' n n' x :
  n ∈ nodes_of w -> node_becomes (nodes_of w) (nodes_of w') n n' -> x ∈ nodes_of w -> n_Name x <> n_Name n -> x ∈ nodes_of w'.
Proof.
  intros Hn [Hid _ ->] Hx Hne. unfold replace. apply list_elem_of_In, in_map_iff. exists x.
  split; [|by apply list_elem_of_In]. rewrite bool_decide_eq_false_2; [done|]. rewrite Hid. intros Heq.
  apply Hne. f_equal. eapply NoDup_map_inj; [apply nst_ids|done..].
Qed.

Lemma becomes_others_back w w' n n' x :
  node_becomes (nodes_of w) (nodes_of w') n n' -> x ∈ nodes_of w' -> n_Name x <> n_Name n -> x ∈ nodes_of w.
Proof.
  intros [_ Hname ->] Hx Hne. unfold replace in Hx. apply list_elem_of_In, in_map_iff in Hx as (y & Hy & Hin).
  apply list_elem_of_In in Hin. case_bool_decide; simplify_eq; done.
Qed.

Lemma becomes_names w w' n n' :
  n ∈ nodes_of w -> node_becomes (nodes_of w) (nodes_of w') n n' -> map n_Name (nodes_of w') = map n_Name (nodes_of w).
Proof.
  intros Hn [Hid Hname ->]. unfold replace. rewrite map_map. apply map_ext_in. intros x Hx%list_elem_of_In.
  case_bool_decide as Heq; [|done]. rewrite Hname. f_equal. eapply NoDup_map_inj; [apply nst_ids|done..|congruence].
Qed.

(** The nodes after a resync of the Kubernetes nodes [kl]. *)
Definition all_resynced (kl : list K8sNode) (s s' : list Node) : Prop :=
  map n_Id s' = map n_Id s /\ map n_Name s' = map n_Name s /\
  forall n, n ∈ s -> exists n', n' ∈ s' /\ n_Id n' = n_Id n /\ n_Name n' = n_Name n /\
    ((forall kn, kn ∈ kl -> om_Name (kn_meta kn) <> n_Name n) -> n' = n) /\
    (forall kn, kn ∈ kl -> om_Name (kn_meta kn) = n_Name n -> node_resynced kn n n').

Lemma resync_each (kl : list K8sNode) w :
  NoDup (map (fun kn => om_Name (kn_meta kn)) kl) -> NoDup (map n_Name (nodes_of w)) ->
  (forall kn, kn ∈ kl -> is_Some (node_at (nodes_of w) (k8s_key kn))) ->
  exists w' pl, runs_to h (foldM (fun _ obj => _ ← NodeLabel.Ensure c background obj; mret tt) (map ONode kl) tt) w tt w' pl /\
    all_resynced kl (nodes_of w) (nodes_of w') /\
    Forall (fun cl => exists kn n, kn ∈ kl /\ n ∈ nodes_of w /\ om_Name (kn_meta kn) = n_Name n /\
                      node_target cl = Some (n_Id n)) pl.
Proof.
  revert w. induction kl as [|kn kl IH]; intros w Hnd Hnames Hall.
  { exists w, []. split; [apply runs_to_ret|]. split; [|constructor]. split; [done|]. split; [done|].
    intros n Hn. exists n. split_and!; try done. by intros kn ?%elem_of_nil. }
  inversion_clear Hnd as [|? ? Hkn Hnd'].
  assert (Hother : forall kn', kn' ∈ kl -> om_Name (kn_meta kn') <> om_Name (kn_meta kn)).
  { intros kn' Hkn' Heq. apply Hkn. rewrite <- Heq. by apply (list_elem_of_fmap_2 (fun kn => om_Name (kn_meta kn))). }
  destruct (Hall kn ltac:(left)) as [n0 Hn0].
  destruct (find_by_name_Some _ _ _ _ Hn0) as [Hin0 Hname0]. cbn in Hname0.
  destruct (NodeLabel_Ensure_resyncs w kn n0 Hn0) as (r & n1 & w1 & pl1 & Hrun & Hb & Hres & Ht).
  pose proof (becomes_names _ _ _ _ Hin0 Hb) as Hnames1.
  destruct (IH w1 Hnd') as (w2 & pl2 & Hrest & (Hids & Hn2 & Heach) & Ht2).
  { by rewrite Hnames1. }
  { intros kn' Hkn'. destruct (Hall kn' ltac:(by right)) as [n' Hn']. exists n'.
    destruct (find_by_name_Some _ _ _ _ Hn') as [Hin' Hname']. cbn in Hname'.
    change (find_by_name n_Name (nodes_of w1) (om_Name (kn_meta kn')) = Some n'). rewrite <- Hname'.
    apply find_by_name_NoDup; [by rewrite Hnames1|]. eapply becomes_others; [exact Hin0|exact Hb|done|].
    rewrite Hname', Hname0. by apply Hother. }
  exists w2, (pl1 ++ pl2). split; [|split].
  - cbn [foldM map]. eapply runs_to_bind; [|exact Hrest].
    rewrite <- (app_nil_r pl1). eapply runs_to_bind; [exact Hrun|apply runs_to_ret].
  - split; [rewrite Hids, (nb_nodes _ _ _ _ Hb); apply replace_ids|]. split; [congruence|].
    intros n Hn. destruct (decide (n_Name n = n_Name n0)) as [Heq|Hne].
    + assert (n = n0) as -> by (eapply (NoDup_map_inj n_Name); done).
      assert (Hin1 : n1 ∈ nodes_of w1).
      { rewrite (nb_nodes _ _ _ _ Hb). apply list_elem_of_In, in_map_iff. exists n0. split; [|by apply list_elem_of_In].
        by rewrite bool_decide_eq_true_2 by by rewrite (nb_id _ _ _ _ Hb). }
      destruct (Heach n1 Hin1) as (n2 & Hin2 & Hid2 & Hname2 & Hsame & _).
      rewrite Hsame in Hin2 by (intros kn' Hkn'; rewrite (nb_name _ _ _ _ Hb), Hname0; by apply Hother).
      exists n1. split_and!; [exact Hin2|apply (nb_id _ _ _ _ Hb)|apply (nb_name _ _ _ _ Hb)| |].
      * intros Hno. exfalso. by apply (Hno kn); [left|].
      * intros kn' [->|Hkn']%elem_of_cons Heq'; [done|]. destruct (Hother kn' Hkn'). congruence.
    + destruct (Heach n) as (n2 & Hin2 & Hid2 & Hname2 & Hsame & Hr2); [by apply (becomes_others w w1 n0 n1)|].
      exists n2. split_and!; try done.
      * intros Hno. apply Hsame. intros kn' ?. apply Hno. by right.
      * intros kn' [->|Hkn']%elem_of_cons Heq'; [congruence|by apply Hr2].
  - apply Forall_app. split.
    + eapply Forall_impl; [|exact Ht]. intros cl Hcl. exists kn, n0. split; [left|done].
    + eapply Forall_impl; [|exact Ht2]. intros cl (kn' & n' & Hkn' & Hn' & Heq & Hcl). simpl.
      exists kn', n'. split_and!; [by right| |done..]. eapply becomes_others_back; [exact Hb|done|].
      rewrite <- Heq, Hname0. by apply Hother.
Qed.

Lemma ClientObjects_runs_to w objs :
  (forall w0, h SchemeConvert w0 = (None, w0)) -> runs_to h (ClientObjects objs) w (inl objs) w [].
Proof.
  intros Hconv. induction objs as [|x objs IH]; cbn [ClientObjects]; [apply runs_to_ret|].
  eapply runs_to_query; [done|apply Hconv|]. cbn iota. eapply runs_to_read; [exact IH|]. apply runs_to_ret.
Qed.

(** The stale nodes among the Kubernetes nodes [kl]. *)
Definition stale_nodes (kl : list K8sNode) (s : list Node) : list K8sNode :=
  filter (fun kn => differs (node_map s) (ONode kn) = true) kl.

Lemma elem_of_stale_nodes kl s kn :
  NoDup (map n_Name s) -> (forall kn, kn ∈ kl -> om_Namespace (kn_meta kn) = "") ->
  kn ∈ stale_nodes kl s <-> kn ∈ kl /\ exists n, n ∈ s /\ stale kn n.
Proof.
  intros Hnd Hns. unfold stale_nodes. rewrite list_elem_of_filter. unfold differs.
  split; [intros [Hd Hkn]; rewrite lookup_node_map in Hd by (done || by apply Hns); split; [done|]
         |intros [Hkn (n & Hn & Heq & Hd)]; split; [rewrite lookup_node_map by (done || by apply Hns)|done]].
  - destruct (find_by_name n_Name s _) as [n|] eqn:Hf; [|done]. apply find_by_name_Some in Hf as [Hn Heq].
    exists n. split; [done|]. split; [done|]. by apply negb_true_iff.
  - change (k_name (obj_key (ONode kn))) with (om_Name (kn_meta kn)). rewrite Heq, find_by_name_NoDup by done.
    simpl. by rewrite Hd.
Qed.

(** C23. A resync of node labels, in a control plane that keeps versions
    ([NodeStore], with nodes of distinct names), when the Kubernetes listing
    succeeds and shows nodes of distinct names without a namespace, and their
    conversion succeeds.  The run ends normally.  It attempts changes only of
    StorageOS nodes that are stale: Kubernetes has the node, with other labels;
    every other node is left as it is, and none is added or removed.  A stale
    node ends up with no change but to its compute-only and unreserved labels;
    and it has the wanted setting and unreserved labels if the control plane
    accepts every valid change of it with its current version, the labels of
    the Kubernetes node are valid for a node, its own compute-only label can be
    read, and its unreserved labels agreed before or it ends up without
    reserved labels.  A failure at one node does not stop the others. *)
Theorem node_resync_correct w kl :
  h K_ListNodes w = (inl kl, w) -> (forall w0, h SchemeConvert w0 = (None, w0)) ->
  NoDup (map n_Name (nodes_of w)) -> NoDup (map (fun kn => om_Name (kn_meta kn)) kl) ->
  (forall kn, kn ∈ kl -> om_Namespace (kn_meta kn) = "") ->
  exists w' pl,
    runs_to h (resync DeleteControllers.NodeDelete.prototype (NodeLabel.controller c) (NodeLabel.Diff c)) w tt w' pl /\
    Forall (fun cl => exists kn n, kn ∈ kl /\ n ∈ nodes_of w /\ stale kn n /\ node_target cl = Some (n_Id n)) pl /\
    map n_Id (nodes_of w') = map n_Id (nodes_of w) /\ map n_Name (nodes_of w') = map n_Name (nodes_of w) /\
    forall n, n ∈ nodes_of w -> exists n', n' ∈ nodes_of w' /\ n_Id n' = n_Id n /\ n_Name n' = n_Name n /\
      ((forall kn, kn ∈ kl -> ~ stale kn n) -> n' = n) /\
      (forall kn, kn ∈ kl -> stale kn n -> node_resynced kn n n').
Proof.
  intros Hk Hconv Hnd Hnk Hns. pose proof (fun kn => elem_of_stale_nodes kl (nodes_of w) kn Hnd Hns) as Hstale.
  destruct (h (M_Observe "node_objects") w) as [ro w1] eqn:Hw1.
  pose proof (nst_observe "node_objects" w) as Ho. rewrite Hw1 in Ho. simpl in Ho.
  destruct (resync_each (stale_nodes kl (nodes_of w)) w1) as (w' & pl & Hrun & (Hids & Hnames & Heach) & Ht).
  { by apply NoDup_map_filter. }
  { by rewrite Ho. }
  { intros kn (_ & n & Hn & Heq & _)%Hstale. exists n. rewrite Ho.
    change (find_by_name n_Name (nodes_of w) (om_Name (kn_meta kn)) = Some n). rewrite Heq. by apply find_by_name_NoDup. }
  rewrite Ho in *.
  assert (Hname : forall kn n, kn ∈ stale_nodes kl (nodes_of w) -> n ∈ nodes_of w -> om_Name (kn_meta kn) = n_Name n -> kn ∈ kl /\ stale kn n).
  { intros kn n (Hkn & n' & Hn' & Heq' & Hd)%Hstale Hn Heq. split; [done|].
    assert (n' = n) as <- by (eapply (NoDup_map_inj n_Name); [done..|congruence]). done. }
  exists w', pl. split_and!; try done.
  - unfold resync, DeleteControllers.NodeDelete.prototype. cbn [client_List].
    eapply runs_to_read; [eapply runs_to_query; [done|exact Hk|apply runs_to_ret]|]. cbn iota.
    eapply runs_to_read; [by apply ClientObjects_runs_to|]. cbn iota.
    eapply runs_to_read.
    + unfold NodeLabel.Diff, NodeObjects, timed. eapply runs_to_read.
      * eapply runs_to_defer; [done| |exact Hw1]. eapply runs_to_query; [done|apply nst_list|apply runs_to_ret].
      * cbn iota. rewrite diff_filter. apply runs_to_ret.
    + cbn iota. simpl app. fold (node_map (nodes_of w)). rewrite filter_map. exact Hrun.
  - eapply Forall_impl; [|exact Ht]. intros cl (kn & n & Hkn & Hn & Heq & Hcl).
    destruct (Hname kn n Hkn Hn Heq). by exists kn, n.
  - intros n Hn. destruct (Heach n Hn) as (n' & Hin' & Hid' & Hname' & Hsame & Hres). exists n'. split_and!; try done.
    + intros Hno. apply Hsame. intros kn Hkn Heq. destruct (Hname kn n Hkn Hn Heq) as [? ?]. by apply (Hno kn).
    + intros kn Hkn Hs. apply Hres; [apply Hstale; eauto|apply Hs].
Qed.
End node_resync.

(** A node that is no longer compute-only in Kubernetes. *)
Definition relabelled_node : K8sNode :=
  {| kn_meta := meta "node1" "" (Some {[ "zone" := "b" ]}) [] |}.

Definition node_resync_handler : handler memory_nodes.memory := fun c w =>
  match c return ret c * memory_nodes.memory with
  | K_ListNodes => (inl [relabelled_node], w)
  | c' => memory_nodes.control_plane c' w
  end.

#[export] Instance node_resync_store : NodeStore node_resync_handler.
Proof.
  refine {| nodes_of := fun w => [memory_nodes.memory_node w] |}.
  - exact (nst_ids (h := memory_nodes.control_plane)).
  - done.
  - done.
  - done.
  - exact (nst_set_compute_only (h := memory_nodes.control_plane)).
  - exact (nst_update (h := memory_nodes.control_plane)).
  - exact (nst_validates (h := memory_nodes.control_plane)).
Defined.

Lemma node_resync_correct_witness :
  let w := memory_nodes.Memory {[ ReservedLabelComputeOnly := "true"; "zone" := "a" ]} 7 in
  exists w' pl, runs_to node_resync_handler
      (resync DeleteControllers.NodeDelete.prototype (NodeLabel.controller (H := range_default) example_client)
         (NodeLabel.Diff example_client)) w tt w' pl /\
    node_synced (memory_nodes.memory_node w') {[ "zone" := "b" ]}.
Proof.
  intros w. destruct (node_resync_correct (H := range_default) node_resync_handler example_client w [relabelled_node])
    as (w' & pl & Hrun & _ & _ & _ & Hn).
  - reflexivity.
  - reflexivity.
  - repeat constructor. apply not_elem_of_nil.
  - repeat constructor. apply not_elem_of_nil.
  - by intros kn ->%list_elem_of_singleton.
  - exists w', pl. split; [exact Hrun|].
    destruct (Hn (memory_nodes.memory_node w) ltac:(left)) as (n' & Hin & _ & _ & _ & Hr).
    apply list_elem_of_singleton in Hin as ->.
    destruct (Hr relabelled_node ltac:(left) ltac:(split; vm_compute; reflexivity)) as [_ Hsync].
    apply Hsync; [|apply (node_errs_nil (H := range_default)); vm_compute; reflexivity|eexists; vm_compute; reflexivity|].
    + intros w0 n0 cl Hat Hcl. destruct Hcl; apply (memory_nodes.obliging_node w0 _ n0 _ Hat); by constructor.
    + right. assert (Hw' : w' = exec_state node_resync_handler
        (resync DeleteControllers.NodeDelete.prototype (NodeLabel.controller (H := range_default) example_client)
         (NodeLabel.Diff example_client)) w).
      { destruct Hrun as (tr & Hex & _). unfold exec_state. by rewrite Hex. }
      rewrite Hw'. vm_compute. reflexivity.
Defined.

(** ** The resync of claims *)

(** Every volume listed in the event belongs to a StorageOS namespace whose
    identifier is in [ids]. *)
Definition volumes_in (ids : list string) (e : event) : Prop :=
  let '(existT c r) := e in
  match c return ret c -> Prop with
  | CP_ListVolumes _ _ => fun r => Forall (fun v => v_NamespaceID v ∈ ids) r.1.1
  | _ => fun _ => True
  end r.

Lemma getVolumes_run c ctx ids :
  every_run (getVolumes c ctx) (fun tr o => exists r, o = Done r /\
    (Forall (volumes_in ids) tr -> forall vols, r = inl vols -> Forall (fun v => v_NamespaceID v ∈ ids) vols)).
Proof.
  unfold getVolumes. apply every_run_bind.
  apply (every_run_mono _ (fun tr o => exists r, o = Done r)).
  { unfold ListNamespaces, timed, failed. run_steps; eauto. }
  intros tr0 o [r ->]. destruct r as [nss|e]; [|apply every_run_ret; eexists; split; [done|]; congruence].
  unfold every_run. apply wp_foldM with (I := fun _ tr acc =>
    Forall (volumes_in ids) tr -> forall vols, acc = inl vols -> Forall (fun v => v_NamespaceID v ∈ ids) vols).
  - intros _ vols [= <-]. constructor.
  - intros ns nss' tr [vols|e] HI; simpl; [|congruence].
    intros [[nsVols resp] [e|]]; simpl; [congruence|]. intros [Ht [Hv _]%Forall_cons_iff]%Forall_app vols' [= <-].
    apply Forall_app. simpl in Hv. eauto.
  - intros tr acc HI. eexists. split; [done|]. intros [_ Ht]%Forall_app. auto.
Qed.

Lemma lookup_volume_map vols k x :
  foldl (fun (m : gmap ObjectKey object) v => <[ObjectKeyFromObject (ObjVolume v) := ObjVolume v]> m) ∅ vols !! k = Some x ->
  exists v, v ∈ vols /\ k = Key (v_NamespaceID v) (v_Name v).
Proof.
  enough (Hgen : forall m : gmap ObjectKey object,
    foldl (fun m v => <[ObjectKeyFromObject (ObjVolume v) := ObjVolume v]> m) m vols !! k = Some x ->
    (exists v, v ∈ vols /\ k = Key (v_NamespaceID v) (v_Name v)) \/ m !! k = Some x).
  { intros H. destruct (Hgen ∅ H) as [?|He]; [done|]. by rewrite lookup_empty in He. }
  induction vols as [|v vols IH]; intros m; simpl; [auto|].
  intros [(v' & Hv' & ->)|H]%IH; [left; exists v'; split; [by right|done]|].
  destruct (decide (k = Key (v_NamespaceID v) (v_Name v))) as [->|Hne]; [left; exists v; split; [left|done]|].
  right. by rewrite lookup_insert_ne in H.
Qed.

Lemma filter_nil_none (P : client_object -> bool) l :
  (forall x, x ∈ l -> P x = false) -> filter (fun x => P x = true) l = [].
Proof.
  induction l as [|x l IH]; intros Hl; [done|]. rewrite filter_cons, decide_False.
  - apply IH. intros y Hy. apply Hl. by right.
  - rewrite Hl by left. done.
Qed.

(** C40. The resync of claims compares volumes by the identifier of their
    StorageOS namespace, claims by the name of their Kubernetes namespace: as
    long as no claim lives in a namespace whose name is such an identifier,
    [Diff] finds no stale claim, whatever the labels are. *)
Theorem PVCLabel_Diff_blind c ctx ids objs :
  (forall o, o ∈ objs -> om_Namespace (obj_meta o) ∉ ids) ->
  every_run (PVCLabel.Diff c ctx objs) (fun tr o =>
    Forall (volumes_in ids) tr -> exists r, o = Done r /\ (r = inl [] \/ exists e, r = inr e)).
Proof.
  intros Hobjs. unfold PVCLabel.Diff, VolumeObjects, timed. apply every_run_bind, every_run_defer.
  eapply every_run_seq; [apply (getVolumes_run _ _ ids)| |by intros ? ? (? & [=] & _)].
  intros tr r (? & [= <-] & Hr). destruct r as [vols|e].
  - apply every_run_ret. intros u. apply every_run_ret. rewrite !app_nil_r.
    intros [Ht _]%Forall_app. eexists. split; [done|]. left. rewrite diff_filter. simpl. f_equal.
    specialize (Hr Ht vols eq_refl). apply filter_nil_none. intros o Ho. unfold differs.
    destruct (_ !! obj_key o) as [x|] eqn:Hl; [|done]. exfalso.
    apply lookup_volume_map in Hl as (v & Hv & Hk). apply (Hobjs o Ho).
    change (om_Namespace (obj_meta o)) with (k_namespace (obj_key o)). rewrite Hk.
    rewrite Forall_forall in Hr. by apply (Hr v), list_elem_of_In.
  - unfold failed. run_steps. eauto.
Qed.

(** ** Examples *)

Definition example_class : StorageClass :=
  {| sc_meta := {| om_Name := "fast"; om_Namespace := ""; om_UID := "sc-uid"; om_ResourceVersion := "";
       om_CreationTimestamp := 10; om_Labels := None; om_Annotations := None; om_OwnerReferences := [] |};
     sc_Provisioner := DriverName;
     sc_Parameters := Some {[ ReservedLabelReplicas := "1"; "fsType" := "ext4" ]} |}.

Definition example_claim : PersistentVolumeClaim :=
  {| pvc_meta := {| om_Name := "data"; om_Namespace := "default"; om_UID := ""; om_ResourceVersion := "";
       om_CreationTimestamp := 20; om_Labels := Some {[ "app" := "db" ]};
       om_Annotations := Some {[ StorageClassUUIDAnnotationKey := "sc-uid" ]}; om_OwnerReferences := [] |};
     pvc_StorageClassName := Some "fast"; pvc_VolumeName := "pvc-1" |}.

Definition claim_handler : handler unit := fun c w =>
  (match c return ret c with
   | CP_ListNamespaces _ => ([example_namespace], None, None)
   | CP_ListVolumes _ _ => ([example_volume], None, None)
   | K_GetStorageClass _ => inl example_class
   | c' => plain_answer c'
   end, w).

Lemma PVCLabel_Diff_blind_witness :
  exec_result claim_handler (PVCLabel.Diff example_client background [OPVC example_claim]) tt = Done (inl []).
Proof.
  pose proof (every_run_exec claim_handler _ tt _ (PVCLabel_Diff_blind example_client background ["ns1"]
    [OPVC example_claim] ltac:(intros o ->%list_elem_of_singleton; vm_compute; intros Hin; inversion Hin; subst;
      match goal with H : _ ∈ [] |- _ => inversion H end))) as Hc.
  destruct Hc as (r & Hr & [->|[e ->]]); [vm_compute; repeat constructor|exact Hr|discriminate Hr].
Defined.
