(* ===== verification/StatelessAction.v ===== *)
(** * Controllers of stateless actions ([stateless-action/v1] of the operator toolkit)

    [controller.go], [action/action.go] and [reconcile.go]: a controller says
    which objects need an action and builds a manager for it; [Reconcile]
    starts the action, which is run and then checked and run again until the
    check is satisfied or the deadline has passed.

    The two interfaces are type classes over the types of their receivers;
    [O] stands for the objects.  A manager is a pointer that its operations
    may write to, and [Check] of the fencer does: it returns the manager. *)

From Stdlib Require Import ZArith.
From S2P Require Import Prelude GoLib Json Errors Types Effects.

(** [action.Manager]. *)
Class Manager (M O : Type) := {
  mgr_GetName : M -> O -> string + error;
  mgr_GetObjects : M -> list O + error;
  mgr_Check : M -> O -> prog (M * (bool * option error));
  mgr_Run : M -> O -> prog (option error);
  mgr_Defer : M -> O -> prog (option error);
}.

(** [Controller]; an object that is absent without an error is [None]. *)
Class Controller (C M O : Type) := {
  ctl_GetObject : C -> ObjectKey -> prog (option O + error);
  ctl_RequireAction : C -> O -> prog (bool * option error);
  ctl_BuildActionManager : C -> O -> M + error;
}.

Section reconciler.
Context {C M O : Type} `{!Manager M O} `{!Controller C M O}.

(** The loop of [RunAction]: [ticks] retry periods pass before the deadline. *)
Fixpoint action_loop (ticks : nat) (actmgr : M) (o : O) : prog M :=
  match ticks with
  | 0 => mret actmgr
  | S ticks' =>
      '(actmgr, (checkResult, checkErr)) ← mgr_Check actmgr o;
      match checkErr with
      | Some _ => action_loop ticks' actmgr o
      | None =>
          if (checkResult : bool) then _ ← mgr_Run actmgr o; action_loop ticks' actmgr o
          else mret actmgr
      end
  end.

(** [Defer] runs at the end; it is not set up when the name is missing. *)
Definition RunAction (ticks : nat) (actmgr : M) (o : O) : prog (option error) :=
  match mgr_GetName actmgr o with
  | inr e => mret (Some (Wrap e "failed to get action manager name"))
  | inl _ =>
      _ ← mgr_Run actmgr o;
      actmgr ← action_loop ticks actmgr o;
      deferErr ← mgr_Defer actmgr o;
      mret (match deferErr with Some e => Some (Wrap e "failed to run deferred action") | None => None end)
  end.

(** The actions that are started, each by a goroutine of its own, and the error. *)
Definition RunActionManager (ctrlr : C) (o : O) : list (M * O) * option error :=
  match ctl_BuildActionManager ctrlr o with
  | inr e => ([], Some (Wrap e "failed to build action manager"))
  | inl actmgr =>
      match mgr_GetObjects actmgr with
      | inr e => ([], Some (Wrap e "failed to get objects from action manager"))
      | inl objects => (map (fun obj => (actmgr, obj)) objects, None)
      end
  end.

Definition Reconcile (ctrlr : C) (key : ObjectKey) : prog (list (M * O) * option error) :=
  r ← ctl_GetObject ctrlr key;
  match r with
  | inr e => mret ([], if IsNotFound e then None else Some e)
  | inl None => mret ([], None)
  | inl (Some obj) =>
      '(requireAction, err) ← ctl_RequireAction ctrlr obj;
      match err with
      | Some e => mret ([], Some e)
      | None => mret (if (requireAction : bool) then RunActionManager ctrlr obj else ([], None))
      end
  end.
End reconciler.
