(* ===== verification/Fencer.v ===== *)
(** * The pod fencer ([controllers/fencer])

    [fencer.go]: when a StorageOS node is offline, the pods on it that ask to
    be fenced and whose volumes are healthy elsewhere are deleted, with their
    volume attachments; [reconciler.go]: the poller that feeds the cache of
    nodes.  The retry loop of the action is [StatelessAction]. *)

From Stdlib Require Import ZArith.
From S2P Require Import Prelude GoLib Json Errors Types Effects Labels Client LabelSync Toolkit Provisioner StatelessAction.

Definition gracePeriodSeconds : Z := 0.

Definition node_name (node : NodeCR) : string := om_Name (cr_meta node).

(** ** The controller *)

Definition GetObject (key : ObjectKey) : prog (option NodeCR + error) :=
  val ← Call (CacheGetNode (key_string key));
  match val with
  | None => mret (inr (Sentinel ErrNodeNotCached))
  | Some node =>
      conv ← Call SchemeConvert;
      match conv with
      | Some e => mret (inr (Errorf "failed to convert cached object to Node" e))
      | None => mret (inl (Some node))
      end
  end.

(** The object is a node: the type assertion cannot fail on what [GetObject] returns. *)
Definition RequireAction (node : NodeCR) : prog (bool * option error) :=
  r ← Call (K_GetNode (Key "" (node_name node)));
  match r with
  | inr e => if IsNotFound e then mret (false, None) else mret (false, Some e)
  | inl _ =>
      if bool_decide (st_Health (cr_Status node) = NodeHealthOffline) then mret (true, None)
      else mret (false, None)
  end.

(** ** The claims of a pod *)

Definition podPVCs (pod : Pod) : prog (list PersistentVolumeClaim * option error) :=
  '(pvcs, errs) ← foldM (fun acc vol =>
      let '(pvcs, errs) := acc in
      match vol_ClaimName vol with
      | None => mret (pvcs, errs)
      | Some claim =>
          if bool_decide (claim = "") then mret (pvcs, errs)
          else
            r ← Call (K_GetPVC (Key (om_Namespace (pod_meta pod)) claim));
            match r with
            | inr e => mret (pvcs, Append errs e)
            | inl pvc =>
                match gm_lookup (om_Annotations (pvc_meta pvc)) PVCProvisionerAnnotationKey with
                | Some provisioner =>
                    if bool_decide (provisioner = DriverName) then mret (pvcs ++ [pvc], errs)
                    else mret (pvcs, errs)
                | None =>
                    v ← Call (K_GetPV (Key "" (pvc_VolumeName pvc)));
                    match v with
                    | inr _ => mret (pvcs, errs)
                    | inl pv =>
                        match pv_CSI_Driver pv with
                        | Some driver =>
                            if bool_decide (driver = DriverName) then mret (pvcs ++ [pvc], errs)
                            else mret (pvcs, errs)
                        | None => mret (pvcs, errs)
                        end
                    end
                end
            end
      end) (pod_Volumes pod) ([], []);
  mret (pvcs, ErrorOrNil errs).

(** The keys of the volumes of the claims that are bound. *)
Definition volKeys (pvcs : list PersistentVolumeClaim) : list ObjectKey :=
  omap (fun pvc =>
    if bool_decide (pvc_VolumeName pvc = "") then None
    else Some (Key (om_Namespace (pvc_meta pvc)) (pvc_VolumeName pvc))) pvcs.

(** Whether the pod asks to be fenced. *)
Definition fenced (pod : Pod) : bool :=
  match gm_lookup (om_Labels (pod_meta pod)) ReservedLabelFencing with
  | Some v => match ParseBool v with inl enabled => enabled | inr _ => false end
  | None => false
  end.

Definition getTargetPods (node : NodeCR) : prog (list Pod + error) :=
  r ← Call (K_ListPodsOnNode (node_name node));
  match r with
  | inr e => mret (inr e)
  | inl pods =>
      foldM (fun acc pod =>
        match acc with
        | inr e => mret (inr e)
        | inl items =>
            if negb (fenced pod) then mret (inl items)
            else
              '(pvcs, err) ← podPVCs pod;
              match err with
              | Some e => mret (inr (Errorf "failed to get pvcs for pod" e))
              | None =>
                  if bool_decide (length (volKeys pvcs) = 0) then mret (inl items)
                  else mret (inl (items ++ [pod]))
              end
        end) pods (inl [])
  end.

(** ** Fencing one pod *)

Definition stosVolumes (c : Client) (ctx : Ctx) (keys : list ObjectKey) : prog (list object + error) :=
  foldM (fun acc key =>
    match acc with
    | inr e => mret (inr e)
    | inl volumes =>
        r ← GetVolume c ctx key;
        match r with
        | inr e => mret (inr (Errorf "failed to get storageos volume for pvc" e))
        | inl volume => mret (inl (volumes ++ [volume]))
        end
    end) keys (inl []).

(** The attachment of a claim; reading an attachment without a PV name panics. *)
Fixpoint pvcVA (pvc : PersistentVolumeClaim) (vaList : list VolumeAttachment) : prog (option VolumeAttachment) :=
  match vaList with
  | [] => mret None
  | va :: vaList' =>
      match va_PersistentVolumeName va with
      | None => Panic nil_pointer
      | Some name => if bool_decide (name = pvc_VolumeName pvc) then mret (Some va) else pvcVA pvc vaList'
      end
  end.

(** One iteration of the loop that deletes volume attachments. *)
Definition deleteVA (vaList : list VolumeAttachment) (pvc : PersistentVolumeClaim) : prog unit :=
  va ← pvcVA pvc vaList;
  match va with
  | None => mret tt
  | Some va =>
      if negb (bool_decide (va_Attacher va = DriverName)) then mret tt
      else _ ← Call (K_DeleteVolumeAttachment va gracePeriodSeconds); mret tt
  end.

Definition fencePod (c : Client) (ctx : Ctx) (pod : Pod) (vaList : list VolumeAttachment) : prog (option error) :=
  '(pvcs, err) ← podPVCs pod;
  match err with
  | Some e => mret (Some (Errorf "failed to get pvcs for pod" e))
  | None =>
      r ← stosVolumes c ctx (volKeys pvcs);
      match r with
      | inr e => mret (Some (Errorf "failed to get storageos volumes for pod" e))
      | inl volumes =>
          if negb (forallb IsHealthy volumes) then mret None
          else
            d ← Call (K_DeletePod pod gracePeriodSeconds);
            match d with
            | Some e => mret (Some (Errorf "failed to delete pod" e))
            | None =>
                _ ← foldM (fun _ pvc => _ ← deleteVA vaList pvc; mret tt) pvcs tt;
                mret None
            end
      end
  end.

(** ** Fencing a node *)

Definition fenceNode (c : Client) (ctx : Ctx) (node : NodeCR) : prog (option error) :=
  r ← Call (K_ListVolumeAttachmentsOnNode (node_name node));
  match r with
  | inr e => mret (Some e)
  | inl vaList =>
      t ← getTargetPods node;
      match t with
      | inr e => mret (Some e)
      | inl pods =>
          _ ← foldM (fun _ pod => _ ← fencePod c ctx pod vaList; mret tt) pods tt;
          mret None
      end
  end.

(** ** The action manager *)

(** The manager of one action: [node] is a pointer, which [Check] writes to. *)
Record fenceActionManager := { am_api : Client; am_node : NodeCR }.

Record Controller := { api : Client }.

Definition NewController (api : Client) : Controller := {| api := api |}.

Definition BuildActionManager (c : Controller) (node : NodeCR) : fenceActionManager + error :=
  inl {| am_api := api c; am_node := node |}.

Definition GetName (am : fenceActionManager) (o : NodeCR) : string + error := inl (node_name (am_node am)).

Definition GetObjects (am : fenceActionManager) : list NodeCR + error := inl [am_node am].

Definition Run (am : fenceActionManager) (o : NodeCR) : prog (option error) :=
  fenceNode (am_api am) background (am_node am).

Definition Defer (am : fenceActionManager) (o : NodeCR) : prog (option error) := mret None.

(** The check updates the node of the manager, whatever it answers. *)
Definition Check (am : fenceActionManager) (o : NodeCR) : prog (fenceActionManager * (bool * option error)) :=
  val ← Call (CacheGetNode (key_string (meta_key (cr_meta (am_node am)))));
  match val with
  | None => mret (am, (true, Some (Sentinel ErrNodeNotCached)))
  | Some cached =>
      conv ← Call SchemeConvert;
      match conv with
      | Some e => mret (am, (true, Some (Wrap e "failed to convert cached object to Node")))
      | None =>
          let am := {| am_api := am_api am; am_node := cached |} in
          if negb (bool_decide (st_Health (cr_Status (am_node am)) = NodeHealthOffline)) then mret (am, (false, None))
          else
            t ← getTargetPods (am_node am);
            match t with
            | inr e => mret (am, (true, Some (Wrap e "failed to get target pods to fence")))
            | inl pods => mret (am, (bool_decide (0 < length pods), None))
            end
      end
  end.

#[export] Instance fence_manager : Manager fenceActionManager NodeCR := {|
  mgr_GetName := GetName; mgr_GetObjects := GetObjects; mgr_Check := Check; mgr_Run := Run; mgr_Defer := Defer;
|}.

#[export] Instance fence_controller : StatelessAction.Controller Controller fenceActionManager NodeCR := {|
  ctl_GetObject := fun _ => GetObject; ctl_RequireAction := fun _ => RequireAction;
  ctl_BuildActionManager := BuildActionManager;
|}.

(** One tick of [pollNodes]: the nodes sent to the event source. *)
Definition pollNodes_tick (c : Client) (ctx : Ctx) : prog (list NodeCR) :=
  r ← ListNodes c ctx;
  match r with
  | inr _ => _ ← Call SendAPIReset; mret []
  | inl nodes => mret nodes
  end.

(** [NewReconciler]: the poll interval has a minimum; durations are in nanoseconds. *)
Definition minPollInterval : Z := 5 * 1000000000.
Definition effective_poll_interval (pollInterval : Z) : Z :=
  if (pollInterval <? minPollInterval)%Z then minPollInterval else pollInterval.

(** ** A cluster at rest

    What the API server and the control plane answer, as long as nothing
    changes; deletions may be refused. *)
Record World := {
  w_pods : string -> k8s_res (list Pod);
  w_vas : string -> k8s_res (list VolumeAttachment);
  w_pvc : ObjectKey -> k8s_res PersistentVolumeClaim;
  w_pv : ObjectKey -> k8s_res PersistentVolume;
  w_namespaces : api_res (list Namespace);
  w_volumes : string -> api_res (list Volume);
  w_delete_pod : Pod -> option error;
  w_delete_va : VolumeAttachment -> option error;
  w_cache : string -> option NodeCR;
}.

Definition in_world (w : World) : handler unit := fun c u =>
  (match c return ret c with
   | K_ListPodsOnNode n => w_pods w n
   | K_ListVolumeAttachmentsOnNode n => w_vas w n
   | K_GetPVC k => w_pvc w k
   | K_GetPV k => w_pv w k
   | CP_ListNamespaces _ => w_namespaces w
   | CP_ListVolumes _ id => w_volumes w id
   | K_DeletePod p _ => w_delete_pod w p
   | K_DeleteVolumeAttachment va _ => w_delete_va w va
   | CacheGetNode k => w_cache w k
   | c' => plain_answer c'
   end, u).

(** The volume of a claim was provisioned by StorageOS: by its annotation, or
    by the driver of its PV when it has none. *)
Definition storageos_claim (w : World) (pvc : PersistentVolumeClaim) : bool :=
  match gm_lookup (om_Annotations (pvc_meta pvc)) PVCProvisionerAnnotationKey with
  | Some provisioner => bool_decide (provisioner = DriverName)
  | None => match w_pv w (Key "" (pvc_VolumeName pvc)) with
            | inl pv => bool_decide (pv_CSI_Driver pv = Some DriverName)
            | inr _ => false
            end
  end.

(** The claim of a pod volume, looked up: the StorageOS claim, or the errors. *)
Definition volume_claim (w : World) (pod : Pod) (vol : PodVolume) : list PersistentVolumeClaim * list error :=
  match vol_ClaimName vol with
  | None => ([], [])
  | Some claim =>
      if bool_decide (claim = "") then ([], [])
      else match w_pvc w (Key (om_Namespace (pod_meta pod)) claim) with
           | inr e => ([], Append [] e)
           | inl pvc => (if storageos_claim w pvc then [pvc] else [], [])
           end
  end.

Definition pod_claims (w : World) (pod : Pod) : list PersistentVolumeClaim :=
  concat (map (fun v => (volume_claim w pod v).1) (pod_Volumes pod)).

Definition pod_errors (w : World) (pod : Pod) : list error :=
  concat (map (fun v => (volume_claim w pod v).2) (pod_Volumes pod)).

Definition volume_of (w : World) (key : ObjectKey) : option Volume :=
  match w_namespaces w with
  | (nss, _, None) =>
      match find_by_name ns_Name nss (k_namespace key) with
      | None => None
      | Some ns => match w_volumes w (ns_Id ns) with
                   | (vols, _, None) => find_by_name v_Name vols (k_name key)
                   | _ => None
                   end
      end
  | _ => None
  end.

(** Every bound StorageOS claim of the pod has a volume, and it is healthy. *)
Definition can_failover (w : World) (pod : Pod) : bool :=
  forallb (fun key => match volume_of w key with Some v => IsHealthy (ObjVolume v) | None => false end)
    (volKeys (pod_claims w pod)).

(** What a piece of the fencing does to the cluster: its changes, and whether
    it ends in a panic. *)
Definition effect : Type := list call * bool.

(** The same on each element in turn, until a panic. *)
Fixpoint in_turn {A} (f : A -> effect) (l : list A) : effect :=
  match l with
  | [] => ([], false)
  | x :: l' => if (f x).2 then f x else ((f x).1 ++ (in_turn f l').1, (in_turn f l').2)
  end.

(** The attachment at which the search for the attachment of a claim stops: the
    first that names its volume, or that names none. *)
Definition search_stop (vas : list VolumeAttachment) (pvc : PersistentVolumeClaim) : option VolumeAttachment :=
  List.find (fun va => bool_decide (va_PersistentVolumeName va = None)
                       || bool_decide (va_PersistentVolumeName va = Some (pvc_VolumeName pvc))) vas.

(** The deletion of the attachment of a claim, if it is one of StorageOS; a
    panic if an attachment without a volume name comes before it. *)
Definition va_effect (vas : list VolumeAttachment) (pvc : PersistentVolumeClaim) : effect :=
  match search_stop vas pvc with
  | None => ([], false)
  | Some va =>
      if bool_decide (va_PersistentVolumeName va = None) then ([], true)
      else (if bool_decide (va_Attacher va = DriverName) then [K_DeleteVolumeAttachment va 0] else [], false)
  end.

Definition fence_pod_effect (w : World) (vas : list VolumeAttachment) (pod : Pod) : effect :=
  if bool_decide (pod_errors w pod = []) && can_failover w pod then
    match w_delete_pod w pod with
    | None => let detached := in_turn (va_effect vas) (pod_claims w pod) in (K_DeletePod pod 0 :: detached.1, detached.2)
    | Some _ => ([K_DeletePod pod 0], false)
    end
  else ([], false).

(** A pod to be fenced: it asks for it and has a bound StorageOS claim. *)
Definition targeted (w : World) (pod : Pod) : bool :=
  fenced pod && negb (bool_decide (length (volKeys (pod_claims w pod)) = 0)).

(** The pods to be fenced among [pods], unless the claims of one that asks to
    be fenced cannot be read. *)
Definition target_pods (w : World) (pods : list Pod) : option (list Pod) :=
  if existsb (fun pod => fenced pod && negb (bool_decide (pod_errors w pod = []))) pods then None
  else Some (filter (fun pod => targeted w pod = true) pods).

(** What fencing a node does to the cluster. *)
Definition fence_effect (w : World) (node : NodeCR) : effect :=
  match w_vas w (node_name node), w_pods w (node_name node) with
  | inl vas, inl pods =>
      match target_pods w pods with
      | Some targets => in_turn (fence_pod_effect w vas) targets
      | None => ([], false)
      end
  | _, _ => ([], false)
  end.

Definition fence_plan (w : World) (node : NodeCR) : list call := (fence_effect w node).1.

(** [has h p e]: run in the environment [h], the program has the effect [e]. *)
Definition has {A} (h : handler unit) (p : prog A) (e : effect) : Prop :=
  mutations (exec_trace h p tt) = e.1 /\
  if e.2 then exec_result h p tt = Panicked nil_pointer else exists r, exec_result h p tt = Done r.

Section effects.
Context (h : handler unit).

Lemma runs_has {A} (p : prog A) r pl : runs h p r pl -> has h p (pl, false).
Proof. intros [Hr Hm]. split; [done|]. by exists r. Qed.

Lemma has_runs {A} (p : prog A) pl : has h p (pl, false) -> exists r, runs h p r pl.
Proof. intros [Hm [r Hr]]. by exists r. Qed.

Lemma has_after {A B} (p : prog A) (f : A -> prog B) a pl e :
  runs h p a pl -> has h (f a) e -> has h (p ≫= f) (pl ++ e.1, e.2).
Proof.
  unfold runs, has, exec_result, exec_trace. rewrite exec_bind.
  destruct (exec h p tt) as [[o []] tr]. simpl. intros [-> Hm].
  destruct (exec h (f a) tt) as [[o' u'] tr']. simpl. intros [Hm' Ho]. by rewrite mutations_app, Hm, Hm'.
Qed.

Lemma has_read {A B} (p : prog A) (f : A -> prog B) a e : runs h p a [] -> has h (f a) e -> has h (p ≫= f) e.
Proof. intros Hp Hf. pose proof (has_after p f a [] e Hp Hf) as He. by destruct e. Qed.

(** A panic ends the sequence. *)
Lemma has_then {A B} (p : prog A) (f : A -> prog B) e e' :
  has h p e -> (forall a, has h (f a) e') -> has h (p ≫= f) (if e.2 then e else (e.1 ++ e'.1, e'.2)).
Proof.
  destruct e as [pl [|]]; simpl.
  - unfold has, exec_result, exec_trace. rewrite exec_bind. destruct (exec h p tt) as [[o []] tr]. simpl.
    intros [<- ->] _. done.
  - intros [r Hr]%has_runs Hf. by eapply has_after.
Qed.

Lemma has_each {A B} (f : A -> prog B) (e : A -> effect) l :
  (forall x, x ∈ l -> has h (f x) (e x)) -> has h (foldM (fun _ x => _ ← f x; mret tt) l tt) (in_turn e l).
Proof.
  induction l as [|x l IH]; intros Hf; [by eapply runs_has, runs_ret|]. cbn [foldM in_turn].
  assert (Hx : has h (_ ← f x; mret tt) (e x)).
  { pose proof (has_then (f x) (fun _ => mret tt) (e x) ([], false) (Hf x ltac:(left))) as Hx.
    specialize (Hx (fun _ => runs_has _ _ _ (runs_ret h tt))). destruct (e x) as [pl [|]]; simpl in *; [done|].
    by rewrite app_nil_r in Hx. }
  apply has_then; [done|]. intros []. apply IH. intros y Hy. apply Hf. by right.
Qed.
End effects.

Section in_a_world.
Context (w : World) (c : Client).
Let h : handler unit := in_world w.

Ltac world := repeat (rewrite ?app_nil_r; first [apply runs_ret | apply runs_query; [done|simpl]]).

Lemma foldl_concat2 {A B D} (f : A -> list B * list D) l acc :
  foldl (fun acc x => (acc.1 ++ (f x).1, acc.2 ++ (f x).2)) acc l =
  (acc.1 ++ concat (map (fun x => (f x).1) l), acc.2 ++ concat (map (fun x => (f x).2) l)).
Proof.
  revert acc. induction l as [|x l IH]; intros [a b]; simpl; [by rewrite !app_nil_r|].
  rewrite IH. simpl. by rewrite <- !(assoc_L (++)).
Qed.

Lemma podPVCs_runs pod :
  runs h (podPVCs pod) (pod_claims w pod, ErrorOrNil (pod_errors w pod)) [].
Proof.
  unfold podPVCs. apply (runs_read h _ _ (pod_claims w pod, pod_errors w pod)); [|apply runs_ret].
  pose proof (foldl_concat2 (volume_claim w pod) (pod_Volumes pod) ([], [])) as Hf. simpl in Hf.
  unfold pod_claims, pod_errors. rewrite <- Hf.
  apply (runs_foldM h). intros [pvcs errs] vol _. unfold volume_claim. simpl.
  destruct (vol_ClaimName vol) as [claim|]; [|world].
  case_bool_decide; [world|]. world.
  destruct (w_pvc w _) as [pvc|e]; [|rewrite app_nil_r; destruct e; apply runs_ret].
  unfold storageos_claim. destruct (gm_lookup _ _) as [prov|]; [case_bool_decide; world|]. world.
  destruct (w_pv w _) as [pv|e]; [|world].
  destruct (pv_CSI_Driver pv) as [driver|]; [|world].
  case_bool_decide as Hd; case_bool_decide as Hd'; try congruence; world.
Qed.

(** The loop of [getTargetPods] as a fold. *)
Definition target_step (acc : list Pod + error) (pod : Pod) : list Pod + error :=
  match acc with
  | inr e => inr e
  | inl items =>
      if negb (fenced pod) then inl items
      else match ErrorOrNil (pod_errors w pod) with
           | Some e => inr (Errorf "failed to get pvcs for pod" e)
           | None =>
               if bool_decide (length (volKeys (pod_claims w pod)) = 0) then inl items else inl (items ++ [pod])
           end
  end.

Lemma foldl_target_inr pods e : foldl target_step (inr e) pods = inr e.
Proof. by induction pods. Qed.

Lemma foldl_target pods items :
  match target_pods w pods with
  | Some targets => foldl target_step (inl items) pods = inl (items ++ targets)
  | None => exists e, foldl target_step (inl items) pods = inr e
  end.
Proof.
  revert items. induction pods as [|pod pods IH]; intros items; unfold target_pods in *; simpl;
    [by rewrite app_nil_r|].
  destruct (fenced pod) eqn:Hf; simpl.
  - destruct (pod_errors w pod) as [|e errs] eqn:He; simpl.
    + rewrite (filter_bool_cons (targeted w)). unfold targeted at 1. rewrite Hf. simpl.
      case_bool_decide; simpl; [apply IH|]. specialize (IH (items ++ [pod])).
      destruct (existsb _ pods); [done|]. by rewrite IH, <- (assoc_L (++)).
    + rewrite foldl_target_inr. eauto.
  - rewrite (filter_bool_cons (targeted w)). unfold targeted at 1. rewrite Hf. simpl. apply IH.
Qed.

Lemma getTargetPods_runs node :
  exists r, runs h (getTargetPods node) r [] /\
    match w_pods w (node_name node) with
    | inr e => r = inr e
    | inl pods => match target_pods w pods with
                  | Some targets => r = inl targets
                  | None => exists e, r = inr e
                  end
    end.
Proof.
  unfold getTargetPods. destruct (w_pods w (node_name node)) as [pods|e] eqn:Hp.
  2: { exists (inr e). split; [|done]. world. rewrite Hp. world. }
  exists (foldl target_step (inl []) pods). split.
  - world. rewrite Hp. apply (runs_foldM h). intros [items|e] pod _; [|apply runs_ret]. simpl.
    destruct (fenced pod); simpl; [|world].
    apply (runs_read h _ _ _ _ _ (podPVCs_runs pod)).
    destruct (ErrorOrNil _); [world|]. case_bool_decide; world.
  - pose proof (foldl_target pods []) as Hf. by destruct (target_pods w pods).
Qed.

Lemma getVolume_runs ctx key :
  exists r, runs h (getVolume ctx key) r [] /\
    match volume_of w key with Some v => r = inl v | None => exists e, r = inr e end.
Proof.
  unfold getVolume, getNamespace, volume_of.
  destruct (w_namespaces w) as [[nss resp] [e|]] eqn:Hns.
  { eexists. split; [|eauto]. apply (runs_read h _ _ (inr (map_api_error e resp))); world. rewrite Hns. world. }
  destruct (find_by_name ns_Name nss (k_namespace key)) as [ns|] eqn:Hf.
  2: { eexists. split; [|eauto]. apply (runs_read h _ _ (inr (Sentinel ErrNamespaceNotFound))); world. rewrite Hns, Hf. world. }
  destruct (w_volumes w (ns_Id ns)) as [[vols resp'] [e|]] eqn:Hv.
  { eexists. split; [|eauto]. apply (runs_read h _ _ (inl ns)); [world; rewrite Hns, Hf; world|]. world. rewrite Hv. world. }
  exists (match find_by_name v_Name vols (k_name key) with Some v => inl v | None => inr (Sentinel ErrVolumeNotFound) end).
  split; [|destruct (find_by_name v_Name vols (k_name key)); eauto].
  apply (runs_read h _ _ (inl ns)); [world; rewrite Hns, Hf; world|]. world. rewrite Hv.
  destruct (find_by_name v_Name vols (k_name key)); world.
Qed.

Lemma GetVolume_runs ctx key :
  exists r, runs h (GetVolume c ctx key) r [] /\
    match volume_of w key with Some v => r = inl (ObjVolume v) | None => exists e, r = inr e end.
Proof.
  destruct (getVolume_runs (AddToken c ctx) key) as (r & Hr & Hv).
  exists (match r with inl v => inl (ObjVolume v) | inr e => inr e end). split.
  - unfold GetVolume, timed, failed. apply runs_defer; [done|].
    apply (runs_read h _ _ _ _ _ Hr). destruct r; world.
  - destruct (volume_of w key); [by subst|]. destruct Hv as [e ->]. eauto.
Qed.

(** Reading the volumes of a pod tells whether it can fail over. *)
Definition all_healthy (keys : list ObjectKey) : bool :=
  forallb (fun key => match volume_of w key with Some v => IsHealthy (ObjVolume v) | None => false end) keys.

Lemma stosVolumes_gen ctx keys acc :
  exists r, runs h (foldM (fun acc key =>
    match acc with
    | inr e => mret (inr e)
    | inl volumes =>
        r ← GetVolume c ctx key;
        match r with
        | inr e => mret (inr (Errorf "failed to get storageos volume for pvc" e))
        | inl volume => mret (inl (volumes ++ [volume]))
        end
    end) keys acc) r [] /\
  match acc, r with
  | inl vols, inl vols' => forallb IsHealthy vols' = forallb IsHealthy vols && all_healthy keys
  | inl vols, inr _ => all_healthy keys = false
  | inr e, _ => r = inr e
  end.
Proof.
  revert acc. induction keys as [|key keys IH]; intros [vols|e].
  - exists (inl vols). split; [apply runs_ret|]. by rewrite andb_true_r.
  - exists (inr e). split; [apply runs_ret|done].
  - destruct (GetVolume_runs ctx key) as (rv & Hrv & Hv).
    set (acc' := match rv with inl v => inl (vols ++ [v]) | inr e => inr (Errorf "failed to get storageos volume for pvc" e) end).
    destruct (IH acc') as (r & Hr & Hres). exists r. split.
    + cbn [foldM]. apply (runs_read h _ _ acc'); [|done]. apply (runs_read h _ _ _ _ _ Hrv). subst acc'. destruct rv; world.
    + simpl. destruct (volume_of w key) as [v|]; [|destruct Hv as [e ->]; subst acc'; by rewrite Hres].
      subst rv acc'. destruct r as [vols'|e]; [|by rewrite Hres, andb_false_r].
      rewrite Hres, forallb_app. simpl. by rewrite andb_true_r, andb_assoc.
  - destruct (IH (inr e)) as (r & Hr & ->). exists (inr e). split; [|done]. cbn [foldM].
    apply (runs_read h _ _ (inr e)); [apply runs_ret|done].
Qed.

Lemma stosVolumes_runs ctx keys :
  exists r, runs h (stosVolumes c ctx keys) r [] /\
    match r with inl vols => forallb IsHealthy vols = all_healthy keys | inr _ => all_healthy keys = false end.
Proof. destruct (stosVolumes_gen ctx keys (inl [])) as (r & Hr & Hres). exists r. split; [exact Hr|]. by destruct r. Qed.

Lemma deleteVA_has vas pvc : has h (deleteVA vas pvc) (va_effect vas pvc).
Proof.
  unfold deleteVA, va_effect, search_stop. induction vas as [|va vas IH]; [by eapply runs_has, runs_ret|].
  cbn [pvcVA List.find]. destruct (va_PersistentVolumeName va) as [name|] eqn:Hva; [|simpl; by rewrite Hva].
  rewrite (bool_decide_eq_false_2 (Some name = None)) by done. cbn [orb].
  destruct (bool_decide_reflect (name = pvc_VolumeName pvc)) as [->|Hne].
  - rewrite bool_decide_eq_true_2 by done. rewrite Hva, bool_decide_eq_false_2 by done.
    cbn [mbind prog_bind pbind mret prog_ret]. case_bool_decide; cbn [negb]; eapply runs_has; [|apply runs_ret].
    apply (runs_change h (K_DeleteVolumeAttachment va gracePeriodSeconds)); [done|apply runs_ret].
  - rewrite bool_decide_eq_false_2 by congruence. exact IH.
Qed.

Lemma fencePod_has ctx pod vas : has h (fencePod c ctx pod vas) (fence_pod_effect w vas pod).
Proof.
  unfold fencePod, fence_pod_effect. eapply has_read; [apply (podPVCs_runs pod)|]. cbn beta iota.
  destruct (pod_errors w pod) as [|e errs] eqn:He; [|simpl; by eapply runs_has, runs_ret].
  destruct (stosVolumes_runs ctx (volKeys (pod_claims w pod))) as (r & Hr & Hall).
  change (can_failover w pod) with (all_healthy (volKeys (pod_claims w pod))).
  rewrite bool_decide_eq_true_2 by done. cbn [ErrorOrNil andb].
  eapply has_read; [exact Hr|]. destruct r as [vols|e]; [|rewrite Hall; by eapply runs_has, runs_ret].
  cbn iota. rewrite Hall. destruct (all_healthy _); cbn [negb]; [|by eapply runs_has, runs_ret].
  destruct (w_delete_pod w pod) as [e|] eqn:Hd.
  - eapply runs_has. apply (runs_change h (K_DeletePod pod gracePeriodSeconds)); [done|]. simpl. rewrite Hd. apply runs_ret.
  - apply (has_after h (Call (K_DeletePod pod gracePeriodSeconds)) _ None [_]).
    { pose proof (runs_call h (K_DeletePod pod gracePeriodSeconds)) as Hc. simpl in Hc. by rewrite Hd in Hc. }
    cbn iota. set (eff := in_turn (va_effect vas) (pod_claims w pod)).
    assert (Heff : has h (_ ← foldM (fun _ pvc => _ ← deleteVA vas pvc; mret tt) (pod_claims w pod) tt; mret (None : option error))
      (if eff.2 then eff else (eff.1 ++ [], false))).
    { apply (has_then h _ _ eff ([], false)); [apply has_each; intros; apply deleteVA_has|]. intros _. eapply runs_has, runs_ret. }
    destruct eff as [pl [|]]; simpl in *; [done|]. by rewrite app_nil_r in Heff.
Qed.

Lemma fenceNode_has ctx node : has h (fenceNode c ctx node) (fence_effect w node).
Proof.
  unfold fenceNode, fence_effect.
  eapply has_read; [apply (runs_call h (K_ListVolumeAttachmentsOnNode (node_name node)))|].
  change ((h (K_ListVolumeAttachmentsOnNode (node_name node)) tt).1) with (w_vas w (node_name node)).
  destruct (w_vas w (node_name node)) as [vas|e]; [|by eapply runs_has, runs_ret].
  destruct (getTargetPods_runs node) as (t & Ht & Hres). eapply has_read; [exact Ht|].
  destruct (w_pods w (node_name node)) as [pods|e]; [|destruct t; [done|by eapply runs_has, runs_ret]].
  destruct (target_pods w pods) as [targets|]; [subst t|destruct t; [by destruct Hres|by eapply runs_has, runs_ret]].
  set (eff := in_turn (fence_pod_effect w vas) targets).
  assert (Heff : has h (_ ← foldM (fun _ pod => _ ← fencePod c ctx pod vas; mret tt) targets tt; mret (None : option error))
    (if eff.2 then eff else (eff.1 ++ [], false))).
  { apply (has_then h _ _ eff ([], false)); [apply has_each; intros; apply fencePod_has|]. intros _. eapply runs_has, runs_ret. }
  destruct eff as [pl [|]]; simpl in *; [done|]. by rewrite app_nil_r in Heff.
Qed.

(** Without a panic. *)
Lemma fenceNode_runs ctx node :
  (fence_effect w node).2 = false -> exists r, runs h (fenceNode c ctx node) r (fence_plan w node).
Proof.
  intros He. apply has_runs. pose proof (fenceNode_has ctx node) as Hh. unfold fence_plan.
  destruct (fence_effect w node) as [pl b]. simpl in He. by subst b.
Qed.
End in_a_world.

(** ** Safety in every environment *)

(** What fencing the node may do, given the pods and the attachments the run
    was shown for it. *)
Definition fencing_allowed (pods : list Pod) (vas : list VolumeAttachment) (cl : call) : Prop :=
  match cl with
  | K_DeletePod pod g => g = 0%Z /\ pod ∈ pods /\ fenced pod = true
  | K_DeleteVolumeAttachment va g => g = 0%Z /\ va ∈ vas /\ va_Attacher va = DriverName
  | _ => False
  end.

Section every_environment.
Context (c : Client).

Lemma podPVCs_changes P pod : changes P (podPVCs pod).
Proof. unfold podPVCs. changes_steps. Qed.

Lemma GetVolume_changes P ctx key : changes P (GetVolume c ctx key).
Proof. unfold GetVolume, timed, getVolume, getNamespace, failed. changes_steps. Qed.

Lemma stosVolumes_changes P ctx keys : changes P (stosVolumes c ctx keys).
Proof. unfold stosVolumes. changes_steps. apply GetVolume_changes. Qed.

Lemma getTargetPods_changes P node : changes P (getTargetPods node).
Proof. unfold getTargetPods. changes_steps. apply podPVCs_changes. Qed.

Lemma pvcVA_found pvc vas :
  every_run (pvcVA pvc vas) (fun tr o => tr = [] /\ forall va, o = Done (Some va) -> va ∈ vas).
Proof.
  induction vas as [|va vas IH]; simpl; [by apply every_run_ret|].
  destruct (va_PersistentVolumeName va); [|by apply every_run_panic]. case_bool_decide.
  - apply every_run_ret. split; [done|]. intros ? [= <-]. left.
  - eapply every_run_mono; [exact IH|]. simpl. intros tr o [-> Ho]. split; [done|]. intros. right. auto.
Qed.

Lemma deleteVA_changes pods vas pvc : changes (fencing_allowed pods vas) (deleteVA vas pvc).
Proof.
  unfold deleteVA, changes. eapply every_run_seq; [apply pvcVA_found| |by intros ? ? [-> _]].
  intros tr [va|] [-> Hva]; cbn beta iota; [|by apply every_run_ret].
  case_bool_decide; cbn [negb]; [|by apply every_run_ret].
  apply (changes_bind (fencing_allowed pods vas)); [|intros; apply changes_ret].
  apply changes_call. intros _. simpl. auto.
Qed.

Lemma fencePod_changes ctx pods vas pod :
  pod ∈ pods -> fenced pod = true -> changes (fencing_allowed pods vas) (fencePod c ctx pod vas).
Proof.
  intros Hin Hf. unfold fencePod. changes_steps.
  - apply podPVCs_changes.
  - apply stosVolumes_changes.
  - by split.
  - apply deleteVA_changes.
Qed.

(** The targets are pods of the listing that ask to be fenced. *)
Lemma getTargetPods_targets node :
  every_run (getTargetPods node) (fun tr o => forall targets, o = Done (inl targets) ->
    exists pods, existT (K_ListPodsOnNode (node_name node)) (inl pods) ∈ tr /\
      Forall (fun pod => pod ∈ pods /\ fenced pod = true) targets).
Proof.
  unfold getTargetPods. apply every_run_bind, every_run_call. intros [pods|e]; [|by apply every_run_ret].
  unfold every_run. apply wp_foldM with (I := fun todo _ acc =>
    (forall pod, pod ∈ todo -> pod ∈ pods) /\
    forall items, acc = inl items -> Forall (fun pod => pod ∈ pods /\ fenced pod = true) items).
  - split; [auto|]. intros items [= <-]. constructor.
  - intros pod todo tr acc [Hsub Hacc].
    assert (Htodo : forall pod, pod ∈ todo -> pod ∈ pods) by (intros; apply Hsub; by right).
    destruct acc as [items|e]; [|split; [done|congruence]].
    specialize (Hacc items eq_refl). destruct (fenced pod) eqn:Hf; simpl; [|split; [done|congruence]].
    apply wp_shift, every_run_bind. apply every_run_all. intros tr' [[pvcs err]|m]; [|congruence].
    destruct err; [apply every_run_ret; split; [done|congruence]|].
    case_bool_decide; apply every_run_ret; (split; [done|]); intros items' [= <-]; [done|].
    apply Forall_app. split; [done|]. constructor; [|constructor]. split; [|done]. apply Hsub. left.
  - intros tr acc [_ Hacc] targets [= ->]. exists pods. split; [left|]. by apply Hacc.
Qed.

(** C8. Fencing is safe in every environment: the only changes it makes are
    deletions, with no grace period, of pods that the pod listing of the run
    showed on the node and that carry a true fencing label, and of volume
    attachments that the attachment listing of the run showed for the node
    and that belong to the StorageOS driver. *)
Theorem fenceNode_safe ctx node :
  every_run (fenceNode c ctx node) (fun tr _ =>
    mutations tr = [] \/
    exists pods vas,
      existT (K_ListPodsOnNode (node_name node)) (inl pods) ∈ tr /\
      existT (K_ListVolumeAttachmentsOnNode (node_name node)) (inl vas) ∈ tr /\
      Forall (fencing_allowed pods vas) (mutations tr)).
Proof.
  unfold fenceNode. apply every_run_bind, every_run_call. intros [vas|e]; [|apply every_run_ret; by left].
  eapply every_run_seq; [apply every_run_and; [apply getTargetPods_targets|apply (getTargetPods_changes (fun _ => False))]| |].
  2: { intros tr m [_ Hch]. left. simpl in *. rewrite mutations_cons. simpl.
       destruct (mutations tr); [done|]. by inversion Hch. }
  intros tr t [Ht Hch]. assert (Hm : mutations tr = []) by (destruct (mutations tr); [done|by inversion Hch]).
  destruct t as [targets|e]; [|apply every_run_ret; left; rewrite app_nil_r; exact Hm].
  destruct (Ht targets eq_refl) as (pods & Hpods & Htargets).
  eapply every_run_mono.
  - apply (changes_bind (fencing_allowed pods vas)); [|intros; apply changes_ret].
    apply changes_foldM. intros _ pod Hpod. apply changes_bind; [|intros; apply changes_ret].
    rewrite Forall_forall in Htargets. destruct (Htargets pod) as [? ?]; [by apply list_elem_of_In|].
    by apply fencePod_changes.
  - simpl. intros tr' o Hall. right. exists pods, vas. split; [right; apply elem_of_app; by left|].
    split; [left|]. rewrite mutations_cons, mutations_app, Hm. done.
Qed.
End every_environment.

(** ** The action *)

Definition offline (node : NodeCR) : Prop := st_Health (cr_Status node) = NodeHealthOffline.

(** The pods still to be fenced on a node, when they can be determined. *)
Definition remaining (w : World) (node : NodeCR) : option (list Pod) :=
  match w_pods w (node_name node) with inl pods => target_pods w pods | inr _ => None end.

Section action.
Context (w : World) (c : Client).
Let h : handler unit := in_world w.

(** The manager of an action for the node. *)
Definition manager (node : NodeCR) : fenceActionManager := {| am_api := c; am_node := node |}.

Lemma Check_runs node o cached :
  w_cache w (key_string (meta_key (cr_meta node))) = Some cached ->
  (~ offline cached -> runs h (Check (manager node) o) (manager cached, (false, None)) []) /\
  (offline cached -> forall targets, remaining w cached = Some targets ->
     runs h (Check (manager node) o) (manager cached, (bool_decide (0 < length targets), None)) []).
Proof.
  intros Hc. unfold Check, remaining, offline. cbn [manager am_node am_api]. split.
  - intros Hoff. apply runs_query; [done|]. simpl. rewrite Hc. apply runs_query; [done|]. simpl.
    rewrite bool_decide_eq_false_2 by done. simpl. apply runs_ret.
  - intros Hoff targets Ht. apply runs_query; [done|]. simpl. rewrite Hc. apply runs_query; [done|]. simpl.
    rewrite bool_decide_eq_true_2 by done. simpl.
    destruct (getTargetPods_runs w cached) as (r & Hr & Hres).
    destruct (w_pods w (node_name cached)) as [pods|]; [|done]. rewrite Ht in Hres. subst r.
    apply (runs_read h _ _ _ _ _ Hr). apply runs_ret.
Qed.

(** A pod to be fenced has a StorageOS claim. *)
Lemma targeted_claims pods pod targets : target_pods w pods = Some (pod :: targets) -> pod_claims w pod <> [].
Proof.
  unfold target_pods. destruct (existsb _ _); [done|]. intros [= Ht].
  assert (Hpod : pod ∈ filter (fun pod => targeted w pod = true) pods) by (rewrite Ht; left).
  apply list_elem_of_filter in Hpod as [Hpod _]. unfold targeted in Hpod. intros Hnil.
  rewrite Hnil in Hpod. simpl in Hpod. by rewrite andb_false_r in Hpod.
Qed.

(** The loop ends at once when the check is satisfied. *)
Lemma action_loop_satisfied ticks node o cached :
  w_cache w (key_string (meta_key (cr_meta node))) = Some cached ->
  ~ offline cached \/ remaining w cached = Some [] ->
  exists am, runs h (action_loop ticks (manager node) o) am [].
Proof.
  intros Hc Hstop. destruct ticks as [|ticks]; [eexists; apply runs_ret|]. exists (manager cached). cbn [action_loop mgr_Check fence_manager].
  destruct (Check_runs node o cached Hc) as [Hno Hyes].
  destruct (decide (st_Health (cr_Status cached) = NodeHealthOffline)) as [Hoff|Hoff].
  - destruct Hstop as [?|Hrem]; [done|]. apply (runs_read h _ _ _ _ _ (Hyes Hoff [] Hrem)). apply runs_ret.
  - apply (runs_read h _ _ _ _ _ (Hno Hoff)). apply runs_ret.
Qed.

Lemma action_loop_retries ticks node o pod targets :
  w_cache w (key_string (meta_key (cr_meta node))) = Some node -> offline node ->
  remaining w node = Some (pod :: targets) ->
  (fence_effect w node).2 = false ->
  runs h (action_loop ticks (manager node) o) (manager node) (concat (replicate ticks (fence_plan w node))).
Proof.
  intros Hc Hoff Hrem Hn. induction ticks as [|ticks IH]; [apply runs_ret|]. cbn [action_loop replicate concat mgr_Check mgr_Run fence_manager].
  destruct (Check_runs node o node Hc) as [_ Hrun].
  apply (runs_read h _ _ _ _ _ (Hrun Hoff _ Hrem)). rewrite bool_decide_eq_true_2 by (simpl; lia). cbn beta iota.
  destruct (fenceNode_runs w c background node Hn) as [r Hr]. by apply (runs_bind h _ _ r).
Qed.

(** C9. Fencing a node in a cluster at rest, whatever the cluster is: nothing
    is changed when a listing fails or when the claims of a pod that asks to be
    fenced cannot be read; otherwise, for each pod of the node that asks to be
    fenced and has a bound StorageOS claim, in order, provided all its StorageOS
    volumes exist and are healthy, the pod is deleted and, if that deletion is
    accepted, the StorageOS attachments of its claims are; a pod that cannot be
    fenced does not keep the others from it.  The run returns, having made
    exactly these changes, unless the search for the attachment of a claim
    meets an attachment that names no volume: then it panics there, having made
    exactly the changes up to that point. *)
Theorem fenceNode_correct ctx node :
  mutations (exec_trace h (fenceNode c ctx node) tt) = (fence_effect w node).1 /\
  if (fence_effect w node).2 then exec_result h (fenceNode c ctx node) tt = Panicked nil_pointer
  else exists r, exec_result h (fenceNode c ctx node) tt = Done r.
Proof. exact (fenceNode_has w c ctx node). Qed.

(** C17. An attachment that names no volume, such as one of an inline volume, breaks
    the fencing of a node: if the attachments on the node begin with one, the
    first pod that can be fenced is deleted, and the run panics with its
    attachments still there and the other pods not fenced. *)
Theorem fenceNode_panics ctx node va vas pods pod targets :
  w_vas w (node_name node) = inl (va :: vas) -> va_PersistentVolumeName va = None ->
  w_pods w (node_name node) = inl pods -> target_pods w pods = Some (pod :: targets) ->
  pod_errors w pod = [] -> can_failover w pod = true -> w_delete_pod w pod = None ->
  exec_result h (fenceNode c ctx node) tt = Panicked nil_pointer /\
  mutations (exec_trace h (fenceNode c ctx node) tt) = [K_DeletePod pod 0].
Proof.
  intros Hv Hname Hp Ht He Hc Hd. destruct (fenceNode_has w c ctx node) as [Hm Hr].
  assert (Heff : fence_effect w node = ([K_DeletePod pod 0], true)).
  { unfold fence_effect. rewrite Hv, Hp, Ht. cbn [in_turn].
    assert (Hpod : fence_pod_effect w (va :: vas) pod = ([K_DeletePod pod 0], true)); [|by rewrite Hpod].
    unfold fence_pod_effect. rewrite bool_decide_eq_true_2, Hc, Hd by done. simpl.
    assert (Hcl : pod_claims w pod <> []) by (by eapply targeted_claims).
    destruct (pod_claims w pod) as [|pvc pvcs]; [done|]. cbn [in_turn].
    assert (Hva : va_effect (va :: vas) pvc = ([], true)); [|by rewrite Hva].
    unfold va_effect, search_stop. simpl. rewrite Hname. simpl. by rewrite Hname. }
  rewrite Heff in *. by split.
Qed.

(** C38. One unreadable claim blocks the fencing of the whole node: if a pod
    on the node asks to be fenced and the lookup of one of its claims fails,
    no pod of the node is fenced, whatever the others are. *)
Theorem fenceNode_blocked ctx node pods pod vol claim msg r :
  w_pods w (node_name node) = inl pods -> pod ∈ pods -> fenced pod = true ->
  vol ∈ pod_Volumes pod -> vol_ClaimName vol = Some claim -> claim <> "" ->
  w_pvc w (Key (om_Namespace (pod_meta pod)) claim) = inr (K8sError r msg) ->
  exists res, runs h (fenceNode c ctx node) res [].
Proof.
  intros Hp Hin Hf Hvol Hclaim Hne Hpvc. apply has_runs.
  replace ([], false) with (fence_effect w node); [apply fenceNode_has|].
  unfold fence_effect. rewrite Hp. destruct (w_vas w (node_name node)); [|done].
  unfold target_pods. replace (existsb _ pods) with true; [done|]. symmetry.
  apply existsb_exists. exists pod. split; [by apply list_elem_of_In|]. rewrite Hf. simpl.
  rewrite bool_decide_eq_false_2; [done|]. unfold pod_errors. intros Hnil.
  assert (Hv : (volume_claim w pod vol).2 = []).
  { apply (concat_nil_Forall (map (fun v => (volume_claim w pod v).2) (pod_Volumes pod))) in Hnil.
    rewrite Forall_forall in Hnil. apply Hnil. apply list_elem_of_In, list_elem_of_fmap. eauto. }
  unfold volume_claim in Hv. rewrite Hclaim, bool_decide_eq_false_2, Hpvc in Hv by done. done.
Qed.

(** The retries of the action in a cluster at rest, when fencing the node does
    not panic: the plan is carried
    out once and then again on every retry as long as the cached node is
    offline and pods remain to be fenced; it is carried out only once when the
    cached node is no longer offline, or no pod remains. *)
Theorem RunAction_retries ticks node o cached targets :
  (fence_effect w node).2 = false ->
  w_cache w (key_string (meta_key (cr_meta node))) = Some cached ->
  remaining w cached = Some targets ->
  (~ offline cached \/ targets = [] -> runs h (RunAction ticks (manager node) o) None (fence_plan w node)) /\
  (offline cached -> cached = node -> targets <> [] ->
     runs h (RunAction ticks (manager node) o) None (concat (replicate (S ticks) (fence_plan w node)))).
Proof.
  intros Hn Hc Hrem. destruct (fenceNode_runs w c background node Hn) as [r Hr].
  unfold RunAction. cbn [mgr_GetName mgr_Run mgr_Defer fence_manager GetName]. split.
  - intros Hstop. rewrite <- (app_nil_r (fence_plan w node)). apply (runs_bind h _ _ r); [done|].
    destruct (action_loop_satisfied ticks node o cached Hc) as [am Ham]; [destruct Hstop as [?| ->]; auto|].
    apply (runs_read h _ _ _ _ _ Ham). apply runs_ret.
  - intros Hoff -> Hne. destruct targets as [|pod targets]; [done|]. cbn [replicate concat].
    apply (runs_bind h _ _ r); [done|]. rewrite <- (app_nil_r (concat _)).
    eapply runs_bind; [by eapply action_loop_retries|]. apply runs_ret.
Qed.
End action.

(** No cached node of the event is offline. *)
Definition not_offline (e : event) : Prop :=
  let '(existT c r) := e in
  match c return ret c -> Prop with
  | CacheGetNode _ => fun r => forall node, r = Some node -> ~ offline node
  | _ => fun _ => True
  end r.

Section reconcile.
Context (c : Client).

(** Actions are started only for the node cached under the key of the
    request, one action, when that node is offline and a Kubernetes node of
    that name was found: in every environment. *)
Theorem Reconcile_starts key :
  every_run (Reconcile (NewController c) key) (fun tr o => forall act acts err, o = Done (act :: acts, err) ->
    err = None /\ acts = [] /\ exists node, act = (manager c node, node) /\ offline node /\
    existT (CacheGetNode (key_string key)) (Some node) ∈ tr /\
    exists kn, existT (K_GetNode (Key "" (node_name node))) (inl kn) ∈ tr).
Proof.
  unfold Reconcile, fence_controller, ctl_GetObject, ctl_RequireAction, GetObject, RequireAction, offline. run_steps; simpl; intros ? ? ? [=]; subst;
    match goal with H : bool_decide _ = true |- _ => apply bool_decide_eq_true in H end;
    (split; [done|]); (split; [done|]); eexists; (split; [done|]); (split; [done|]); (split; [left|]);
    eexists; right; right; left.
Qed.

(** Once the node has recovered the action does nothing more: a retry
    loop that never reads an offline node from the cache changes nothing, in
    every environment. *)
Theorem action_loop_stops ticks node o :
  every_run (action_loop ticks (manager c node) o) (fun tr _ => Forall not_offline tr -> mutations tr = []).
Proof.
  revert node. induction ticks as [|ticks IH]; intros node; [by apply every_run_ret|]. cbn [action_loop mgr_Check mgr_Run fence_manager].
  unfold Check. cbn [manager am_node am_api]. apply every_run_bind, every_run_bind, every_run_call. intros [cached|].
  2: { apply every_run_ret. eapply every_run_mono; [apply IH|]. simpl. intros tr o' Htr.
       rewrite Forall_cons_iff. intros [_ Hall]. rewrite mutations_cons. simpl. auto. }
  apply every_run_bind, every_run_call. intros [e|].
  { apply every_run_ret. eapply every_run_mono; [apply IH|]. simpl. intros tr o' Htr.
    rewrite !Forall_cons_iff. intros (_ & _ & Hall). rewrite !mutations_cons. simpl. auto. }
  case_bool_decide as Hoff; cbn [negb].
  - apply every_run_all. intros tr [[? [? ?]]|m]; [|].
    + apply every_run_all. intros tr' o'. simpl. rewrite Forall_cons_iff. intros [Hno _]. by destruct (Hno cached eq_refl).
    + simpl. rewrite Forall_cons_iff. intros [Hno _]. by destruct (Hno cached eq_refl).
  - apply every_run_ret, every_run_ret. done.
Qed.
End reconcile.

(** ** An example cluster *)

Definition example_cr : NodeCR :=
  {| cr_meta := meta "n1" "" None [];
     cr_Spec := {| IoEndpoint := ""; SupervisorEndpoint := ""; GossipEndpoint := ""; ClusteringEndpoint := "" |};
     cr_Status := {| st_Health := NodeHealthOffline;
                     st_Capacity := {| cap_Total := 0; cap_Free := 0; cap_Available := 0 |} |} |}.

Definition example_pod (name claim : string) : Pod :=
  {| pod_meta := meta name "default" (Some {[ ReservedLabelFencing := "true" ]}) [];
     pod_NodeName := "n1"; pod_SchedulerName := "";
     pod_Volumes := [{| vol_Name := "v"; vol_ClaimName := Some claim |}] |}.

Definition example_pvc : PersistentVolumeClaim :=
  {| pvc_meta := {| om_Name := "data"; om_Namespace := "default"; om_UID := ""; om_ResourceVersion := "";
       om_CreationTimestamp := 0; om_Labels := None; om_OwnerReferences := [];
       om_Annotations := Some {[ PVCProvisionerAnnotationKey := DriverName ]} |};
     pvc_StorageClassName := None; pvc_VolumeName := "pv1" |}.

Definition example_va : VolumeAttachment :=
  {| va_meta := meta "va1" "" None []; va_Attacher := DriverName; va_NodeName := "n1";
     va_PersistentVolumeName := Some "pv1" |}.

(** The pods [pods] are on the node, with the attachments [vas]; only the claim
    [data] can be read. *)
Definition example_world_with (vas : list VolumeAttachment) (pods : list Pod) : World :=
  {| w_pods := fun _ => inl pods;
     w_vas := fun _ => inl vas;
     w_pvc := fun k => if bool_decide (k = Key "default" "data") then inl example_pvc
                       else inr (K8sError StatusReasonNotFound "");
     w_pv := fun _ => inr (K8sError StatusReasonNotFound "");
     w_namespaces := ([{| ns_Id := "ns1"; ns_Name := "default"; ns_Labels := None; ns_Version := "" |}], None, None);
     w_volumes := fun _ => ([{| v_Id := "v1"; v_Name := "pv1"; v_NamespaceID := "ns1"; v_Labels := None;
        v_NfsServiceEndpoint := None; v_MasterHealth := HEALTH_ONLINE; v_Version := "" |}], None, None);
     w_delete_pod := fun _ => None; w_delete_va := fun _ => None;
     w_cache := fun _ => Some example_cr |}.

Definition example_world : list Pod -> World := example_world_with [example_va].

(** An attachment of an inline volume, by some driver. *)
Definition inline_va : VolumeAttachment :=
  {| va_meta := meta "va0" "" None []; va_Attacher := "csi.other"; va_NodeName := "n1"; va_PersistentVolumeName := None |}.

Lemma fenceNode_panics_witness :
  let w := example_world_with [inline_va; example_va] [example_pod "p1" "data"; example_pod "p2" "data"] in
  exec_result (in_world w) (fenceNode example_client background example_cr) tt = Panicked nil_pointer /\
  mutations (exec_trace (in_world w) (fenceNode example_client background example_cr) tt) = [K_DeletePod (example_pod "p1" "data") 0].
Proof.
  intros w. apply (fenceNode_panics w example_client background example_cr inline_va [example_va]
    [example_pod "p1" "data"; example_pod "p2" "data"] (example_pod "p1" "data") [example_pod "p2" "data"]);
    vm_compute; reflexivity.
Defined.

Lemma fenceNode_blocked_witness :
  exists res, runs (in_world (example_world [example_pod "p1" "data"; example_pod "p2" "gone"]))
    (fenceNode example_client background example_cr) res [].
Proof.
  apply (fenceNode_blocked (example_world [example_pod "p1" "data"; example_pod "p2" "gone"]) example_client
    background example_cr [example_pod "p1" "data"; example_pod "p2" "gone"] (example_pod "p2" "gone")
    {| vol_Name := "v"; vol_ClaimName := Some "gone" |} "gone" "" StatusReasonNotFound);
    [reflexivity | right; left | vm_compute; reflexivity | left | reflexivity | discriminate | vm_compute; reflexivity].
Defined.

Lemma RunAction_retries_witness :
  let pod := example_pod "p1" "data" in
  runs (in_world (example_world [pod])) (RunAction 1 (manager example_client example_cr) example_cr) None
    [K_DeletePod pod 0; K_DeleteVolumeAttachment example_va 0; K_DeletePod pod 0; K_DeleteVolumeAttachment example_va 0].
Proof.
  intros pod.
  destruct (RunAction_retries (example_world [pod]) example_client 1 example_cr example_cr example_cr [pod]
    ltac:(vm_compute; reflexivity) ltac:(reflexivity) ltac:(vm_compute; reflexivity)) as [_ Hrun].
  apply Hrun; [reflexivity | reflexivity | discriminate].
Defined.
