(* ===== verification/Cache.v ===== *)
(** * The object cache ([internal/pkg/cache], on [go-cache])

    Objects by key with an expiration, read by the fencer's actions and used
    to decide which reported objects are enqueued.  Times are in nanoseconds;
    the clock is an argument of each operation. *)

From Stdlib Require Import ZArith Lia.
From S2P Require Import Prelude Types.
Local Open Scope Z_scope.

(** The comparison of the cache: [equality.Semantic.DeepEqual]. *)
Class SemanticEqual (A : Type) := {
  DeepEqual : A -> A -> bool;
  DeepEqual_refl : forall x, DeepEqual x x = true;
}.

(** On nodes: nil and empty maps are not told apart. *)
Definition meta_semantic_equal (m1 m2 : ObjectMeta) : bool :=
  bool_decide (om_Name m1 = om_Name m2) && bool_decide (om_Namespace m1 = om_Namespace m2) &&
  bool_decide (om_UID m1 = om_UID m2) && bool_decide (om_ResourceVersion m1 = om_ResourceVersion m2) &&
  bool_decide (om_CreationTimestamp m1 = om_CreationTimestamp m2) &&
  bool_decide (gm_map (om_Labels m1) = gm_map (om_Labels m2)) &&
  bool_decide (gm_map (om_Annotations m1) = gm_map (om_Annotations m2)) &&
  bool_decide (om_OwnerReferences m1 = om_OwnerReferences m2).

Definition node_semantic_equal (n1 n2 : NodeCR) : bool :=
  meta_semantic_equal (cr_meta n1) (cr_meta n2) && bool_decide (cr_Spec n1 = cr_Spec n2) &&
  bool_decide (cr_Status n1 = cr_Status n2).

Lemma node_semantic_equal_refl n : node_semantic_equal n n = true.
Proof. unfold node_semantic_equal, meta_semantic_equal. by rewrite !bool_decide_eq_true_2. Qed.

#[export] Instance node_semantic : SemanticEqual NodeCR :=
  {| DeepEqual := node_semantic_equal; DeepEqual_refl := node_semantic_equal_refl |}.

Section cache.
Context {A : Type} `{SemanticEqual A}.

(** [cache.Item]; an expiration of 0 or less never expires. *)
Record Item := { i_Object : A; i_Expiration : Z }.

Record Cache := { defaultExpiration : Z; items : gmap string Item }.

Definition NewCache (expiryInterval : Z) : Cache :=
  {| defaultExpiration := if expiryInterval =? 0 then -1 else expiryInterval; items := ∅ |}.

Definition expired (it : Item) (now : Z) : bool := (0 <? i_Expiration it) && (i_Expiration it <? now).

Definition Get (c : Cache) (k : string) (now : Z) : option A :=
  match items c !! k with
  | None => None
  | Some it => if expired it now then None else Some (i_Object it)
  end.

Definition Set_ (c : Cache) (k : string) (x : A) (d now : Z) : Cache :=
  let d' := if d =? 0 then defaultExpiration c else d in
  let e := if 0 <? d' then now + d' else 0 in
  {| defaultExpiration := defaultExpiration c; items := <[k := {| i_Object := x; i_Expiration := e |}]> (items c) |}.

(** The clock is read by [Get] and again by [Set]. *)
Definition CacheMiss (c : Cache) (key : string) (obj : A) (now now' : Z) : bool * Cache :=
  match Get c key now with
  | Some cached => if DeepEqual cached obj then (false, c) else (true, Set_ c key obj 0 now')
  | None => (true, Set_ c key obj 0 now')
  end.

(** The janitor. *)
Definition DeleteExpired (c : Cache) (now : Z) : Cache :=
  {| defaultExpiration := defaultExpiration c;
     items := filter (fun kv => negb (expired kv.2 now) = true) (items c) |}.

(** ** Sequences of operations *)

Inductive op := OpMiss (key : string) (obj : A) (now now' : Z) | OpJanitor (now : Z).

Definition step (c : Cache) (o : op) : Cache :=
  match o with
  | OpMiss key obj now now' => (CacheMiss c key obj now now').2
  | OpJanitor now => DeleteExpired c now
  end.

(** The operation happens by time [t] and does not report an object under [k]. *)
Definition elsewhere (k : string) (t : Z) (o : op) : Prop :=
  match o with
  | OpMiss key _ now _ => key <> k
  | OpJanitor now => now <= t
  end.

Lemma defaultExpiration_step c o : defaultExpiration (step c o) = defaultExpiration c.
Proof. destruct o as [key obj now now'|now]; [|done]. simpl. unfold CacheMiss. by repeat cases. Qed.

(** Other operations are invisible under a key. *)
Lemma Get_elsewhere c k t o : elsewhere k t o -> Get (step c o) k t = Get c k t.
Proof.
  destruct o as [key obj now now'|now]; simpl; intros He.
  - unfold CacheMiss. repeat (cases; try done); unfold Get, Set_; simpl; by rewrite lookup_insert_ne.
  - unfold Get, DeleteExpired. simpl. destruct (items c !! k) as [it|] eqn:Hk.
    + destruct (expired it now) eqn:Hx.
      * replace (filter _ (items c) !! k) with (@None Item).
        { replace (expired it t) with true; [done|]. symmetry. unfold expired in *.
          rewrite andb_true_iff, !Z.ltb_lt in *. lia. }
        symmetry. apply map_lookup_filter_None. right. intros it' Hit'. simpl. simplify_eq. by rewrite Hx.
      * replace (filter _ (items c) !! k) with (Some it); [done|].
        symmetry. apply map_lookup_filter_Some. simpl. by rewrite Hx.
    + replace (filter _ (items c) !! k) with (@None Item); [done|]. symmetry. apply map_lookup_filter_None. by left.
Qed.

Lemma Get_elsewheres c k t ops : Forall (elsewhere k t) ops -> Get (foldl step c ops) k t = Get c k t.
Proof.
  revert c. induction ops as [|o ops IH]; intros c Ho; [done|]. simpl.
  apply Forall_cons_iff in Ho as [Ho Hos]. rewrite IH by done. by apply Get_elsewhere.
Qed.

Lemma Get_Set c k x d now t :
  Get (Set_ c k x d now) k t =
  let d' := if d =? 0 then defaultExpiration c else d in
  if (0 <? d') && (0 <? now + d') && (now + d' <? t) then None else Some x.
Proof.
  unfold Get, Set_. simpl. rewrite lookup_insert_eq. unfold expired. simpl.
  destruct (0 <? (if d =? 0 then defaultExpiration c else d)); done.
Qed.

Lemma CacheMiss_true c key obj now now' :
  (CacheMiss c key obj now now').1 = true -> (CacheMiss c key obj now now').2 = Set_ c key obj 0 now'.
Proof. unfold CacheMiss. repeat cases; done. Qed.

(** What the cache decides: an object is not enqueued exactly when an
    unexpired object that is semantically equal to it is stored under its key,
    and the cache then stays as it is; otherwise the cache holds the object
    afterwards, until the expiry interval has passed. *)
Theorem CacheMiss_correct c key obj now now' :
  let '(miss, c') := CacheMiss c key obj now now' in
  (miss = false <-> exists x, Get c key now = Some x /\ DeepEqual x obj = true) /\
  (miss = false -> c' = c) /\
  (miss = true -> forall t, Get c' key t =
     if (0 <? defaultExpiration c) && (0 <? now' + defaultExpiration c) && (now' + defaultExpiration c <? t)
     then None else Some obj).
Proof.
  unfold CacheMiss. destruct (Get c key now) as [x|] eqn:Hg; [destruct (DeepEqual x obj) eqn:Heq|].
  - split; [split; [eauto|done]|]. split; [done|]. done.
  - split; [split; [done|naive_solver congruence]|]. split; [done|]. intros _ t. by rewrite Get_Set.
  - split; [split; [done|naive_solver congruence]|]. split; [done|]. intros _ t. by rewrite Get_Set.
Qed.

(** An unchanged object is enqueued again exactly when the expiry
    interval has passed since it was stored, whatever other objects are
    reported and however often the janitor runs in between. *)
Theorem CacheMiss_again c key obj now now' ops t t' :
  (CacheMiss c key obj now now').1 = true ->
  0 < defaultExpiration c -> 0 < now' + defaultExpiration c ->
  Forall (elsewhere key t) ops ->
  (CacheMiss (foldl step (CacheMiss c key obj now now').2 ops) key obj t t').1
  = bool_decide (now' + defaultExpiration c < t).
Proof.
  intros Hm Hde Hpos Hops. rewrite (CacheMiss_true _ _ _ _ _ Hm).
  unfold CacheMiss at 1. rewrite Get_elsewheres, Get_Set by done. simpl.
  rewrite (proj2 (Z.ltb_lt _ _) Hde), (proj2 (Z.ltb_lt _ _) Hpos). simpl.
  destruct (Z.ltb_spec (now' + defaultExpiration c) t).
  - by rewrite bool_decide_eq_true_2.
  - rewrite DeepEqual_refl. rewrite bool_decide_eq_false_2 by lia. done.
Qed.
End cache.

Arguments Item : clear implicits.
Arguments Cache : clear implicits.
Arguments op : clear implicits.

(** The node of the example is stored at time 100 for 60 time units. *)
Definition example_cached : NodeCR :=
  {| cr_meta := meta "n1" "" None [];
     cr_Spec := {| IoEndpoint := ""; SupervisorEndpoint := ""; GossipEndpoint := ""; ClusteringEndpoint := "" |};
     cr_Status := {| st_Health := NodeHealthOffline;
                     st_Capacity := {| cap_Total := 0; cap_Free := 0; cap_Available := 0 |} |} |}.

Lemma CacheMiss_again_witness :
  (CacheMiss (foldl step (CacheMiss (NewCache 60) "/n1" example_cached 100 100).2
     [OpJanitor 130; OpMiss "/n2" example_cached 140 140]) "/n1" example_cached 161 161).1 = true.
Proof.
  rewrite (CacheMiss_again (NewCache 60) "/n1" example_cached 100 100
    [OpJanitor 130; OpMiss "/n2" example_cached 140 140] 161 161); [reflexivity..|].
  constructor; [simpl; lia|]. constructor; [simpl; discriminate|constructor].
Defined.
