(* ===== verification/Endpoint.v ===== *)
(** * Endpoints of the form host:port ([internal/pkg/endpoint]) *)

From Stdlib Require Import ZArith Lia.
From S2P Require Import Prelude GoLib Json Errors.
Local Open Scope Z_scope.

Definition SplitAddressPort (endpoint : string) : (string * Z) + error :=
  match SplitHostPort endpoint with
  | inr e => inr (AddrErr e)
  | inl (address, port) =>
      match Atoi port with
      | (_, Some e) => inr (NumErr e)
      | (portNum, None) => inl (address, portNum)
      end
  end.

(** ** Reading back what was printed *)

(** No colon and no bracket. *)
Definition host_byte (c : ascii) : Prop := c <> ":"%char /\ c <> "["%char /\ c <> "]"%char.

Definition host_string (s : string) : Prop := Forall host_byte (bytes_of s).

Lemma index_byte_None l b : index_byte l b = None <-> b ∉ l.
Proof.
  induction l as [|c l IH]; simpl; [split; [intros _ ?%elem_of_nil; done|done]|]. rewrite elem_of_cons.
  destruct (Ascii.eqb_spec c b) as [->|Hne]; [split; [done|tauto]|].
  destruct (index_byte l b); simpl; split; try done; naive_solver.
Qed.

Lemma has_byte_false l b : has_byte l b = false <-> b ∉ l.
Proof. unfold has_byte. rewrite <- index_byte_None. by destruct (index_byte l b). Qed.

Lemma last_byte_None l b : b ∉ l -> last_byte l b = None.
Proof.
  induction l as [|c l IH]; simpl; [done|]. rewrite elem_of_cons. intros Hn. rewrite IH by tauto.
  destruct (Ascii.eqb_spec c b) as [->|]; [tauto|done].
Qed.

Lemma last_byte_app l1 b l2 : b ∉ l2 -> last_byte (l1 ++ b :: l2) b = Some (length l1).
Proof.
  intros Hn. induction l1 as [|c l1 IH]; simpl.
  - rewrite last_byte_None by done. by rewrite Ascii.eqb_refl.
  - by rewrite IH.
Qed.

Lemma index_byte_app l1 b l2 : b ∉ l1 -> index_byte (l1 ++ b :: l2) b = Some (length l1).
Proof.
  induction l1 as [|c l1 IH]; simpl; [by rewrite Ascii.eqb_refl|]. rewrite elem_of_cons. intros Hn.
  destruct (Ascii.eqb_spec c b) as [->|]; [tauto|]. rewrite IH by tauto. done.
Qed.

(** Decimal digits are neither colons nor brackets. *)
Lemma format_uint_host n : 0 <= n -> Forall host_byte (format_uint n).
Proof.
  intros Hn. eapply Forall_impl; [|by apply format_uint_digits].
  intros c [d Hd]. unfold host_byte. repeat split; intros ->; by vm_compute in Hd.
Qed.

Lemma Itoa_host n : 0 <= n -> host_string (Itoa n).
Proof.
  intros Hn. unfold host_string, Itoa. rewrite bytes_of_of_bytes.
  replace (n <? 0) with false by (symmetry; apply Z.ltb_ge; lia). by apply format_uint_host.
Qed.

Lemma host_not_in l c : Forall host_byte l -> c = ":"%char \/ c = "["%char \/ c = "]"%char -> c ∉ l.
Proof.
  intros Hl Hc Hin. rewrite Forall_forall in Hl. apply list_elem_of_In in Hin.
  destruct (Hl c Hin) as (? & ? & ?). naive_solver.
Qed.

Lemma split_host_plain l rest :
  Forall host_byte l -> split_host (l ++ ":"%char :: rest) (length l) = inl (l, O, O).
Proof.
  intros Hl. assert (Hh : has_byte (take (length l) (l ++ ":"%char :: rest)) ":"%char = false).
  { rewrite take_app_length. apply has_byte_false, (host_not_in l); auto. }
  assert (Hb : match l ++ ":"%char :: rest with "["%char :: _ => False | _ => True end).
  { destruct l as [|c l]; [done|]. simpl. apply Forall_cons_iff in Hl as [(_ & Hc & _) _].
    destruct c as [[] [] [] [] [] [] [] []]; done. }
  unfold split_host. rewrite Hh, take_app_length.
  destruct (l ++ ":"%char :: rest) as [|[[] [] [] [] [] [] [] []] t]; done.
Qed.

Lemma SplitHostPort_plain host port :
  host_string host -> host_string port -> SplitHostPort (host +:+ ":" +:+ port) = inl (host, port).
Proof.
  intros Hh Hp. unfold SplitHostPort. rewrite !bytes_of_app.
  change (bytes_of ":" ++ bytes_of port) with (":"%char :: bytes_of port).
  rewrite last_byte_app by (apply (host_not_in (bytes_of port)); auto).
  rewrite split_host_plain by done. rewrite !drop_0.
  assert (Hn : forall c, c = "["%char \/ c = "]"%char -> has_byte (bytes_of host ++ ":"%char :: bytes_of port) c = false).
  { intros c Hc. apply has_byte_false. rewrite elem_of_app, elem_of_cons.
    intros [Hin|[->|Hin]]; [|by destruct Hc|]; revert Hin; apply host_not_in; auto; tauto. }
  rewrite !Hn by auto. rewrite of_bytes_bytes_of.
  rewrite <- Nat.add_1_r, <- drop_drop, drop_app_length. simpl. by rewrite drop_0, of_bytes_bytes_of.
Qed.

(** Colons are allowed between brackets. *)
Definition ip6_byte (c : ascii) : Prop := c <> "["%char /\ c <> "]"%char.

Lemma SplitHostPort_bracketed host port :
  Forall ip6_byte (bytes_of host) -> host_string port ->
  SplitHostPort ("[" +:+ host +:+ "]:" +:+ port) = inl (host, port).
Proof.
  intros Hh Hp. unfold SplitHostPort. rewrite !bytes_of_app.
  change (bytes_of "[") with ["["%char]. change (bytes_of "]:") with ["]"%char; ":"%char].
  set (h := bytes_of host) in *. set (p := bytes_of port) in *. cbn [app].
  assert (Hin : forall c, c = "["%char \/ c = "]"%char -> c ∉ h).
  { intros c Hc Hin. rewrite Forall_forall in Hh. apply list_elem_of_In in Hin. destruct (Hh c Hin). naive_solver. }
  assert (Hl : "["%char :: h ++ "]"%char :: ":"%char :: p = ("["%char :: h ++ ["]"%char]) ++ ":"%char :: p).
  { simpl. by rewrite <- (assoc_L (++)). }
  rewrite Hl at 1. rewrite last_byte_app by (apply (host_not_in p); auto).
  assert (Hlen : length ("["%char :: h ++ ["]"%char]) = S (S (length h))) by (simpl; rewrite length_app; simpl; lia).
  rewrite Hlen.
  assert (Hs : split_host ("["%char :: h ++ "]"%char :: ":"%char :: p) (S (S (length h))) = inl (h, 1%nat, S (S (length h)))).
  { unfold split_host. change ("["%char :: h ++ "]"%char :: ":"%char :: p) with (("["%char :: h) ++ "]"%char :: ":"%char :: p).
    rewrite index_byte_app by (rewrite elem_of_cons; intros [?|?]; [done|by apply (Hin "]"%char); auto]).
    cbn [length]. rewrite length_app. cbn [length app].
    replace (Nat.eqb (S (S (length h))) (S (length h) + S (S (length p)))) with false by (symmetry; apply Nat.eqb_neq; lia).
    rewrite Nat.eqb_refl. cbn [drop]. rewrite drop_0. replace (S (length h) - 1)%nat with (length h) by lia.
    by rewrite take_app_length. }
  rewrite Hs.
  assert (Hp' : forall c, c = "["%char \/ c = "]"%char -> c ∉ p) by (intros c Hc; apply (host_not_in p); [done|tauto]).
  assert (H1 : has_byte (drop 1 ("["%char :: h ++ "]"%char :: ":"%char :: p)) "["%char = false).
  { cbn [drop]. rewrite drop_0. apply has_byte_false. rewrite elem_of_app, !elem_of_cons.
    intros [?|[?|[?|?]]]; [by apply (Hin "["%char); auto|done|done|by apply (Hp' "["%char); auto]. }
  assert (Hdrop : drop (S (S (length h))) ("["%char :: h ++ "]"%char :: ":"%char :: p) = ":"%char :: p).
  { rewrite Hl, <- Hlen. apply drop_app_length. }
  rewrite H1, Hdrop.
  replace (has_byte (":"%char :: p) "]"%char) with false.
  - assert (Hd2 : drop (S (S (S (length h)))) ("["%char :: h ++ "]"%char :: ":"%char :: p) = p).
    { rewrite <- (Nat.add_1_r (S (S (length h)))), <- drop_drop, Hdrop. cbn [drop]. apply drop_0. }
    rewrite Hd2. subst h p. by rewrite !of_bytes_bytes_of.
  - symmetry. apply has_byte_false. rewrite elem_of_cons. intros [?|?]; [done|by apply (Hp' "]"%char); auto].
Qed.

Lemma SplitAddressPort_Itoa endpoint host port :
  0 <= port <= maxInt64 -> SplitHostPort endpoint = inl (host, Itoa port) ->
  SplitAddressPort endpoint = inl (host, port).
Proof. intros Hp Hs. unfold SplitAddressPort. by rewrite Hs, Atoi_Itoa. Qed.

(** Reading an endpoint back: a host without colons or brackets and a
    port printed as host:port, or any address without brackets printed as
    [address]:port, is split into the same host and port. *)
Theorem SplitAddressPort_roundtrip host port :
  0 <= port <= maxInt64 ->
  (host_string host -> SplitAddressPort (host +:+ ":" +:+ Itoa port) = inl (host, port)) /\
  (Forall ip6_byte (bytes_of host) -> SplitAddressPort ("[" +:+ host +:+ "]:" +:+ Itoa port) = inl (host, port)).
Proof.
  intros Hp. assert (host_string (Itoa port)) by (apply Itoa_host; lia). split; intros Hh.
  - apply SplitAddressPort_Itoa; [done|]. by apply SplitHostPort_plain.
  - apply SplitAddressPort_Itoa; [done|]. by apply SplitHostPort_bracketed.
Qed.

Lemma SplitAddressPort_roundtrip_witness :
  SplitAddressPort ("10.0.0.1" +:+ ":" +:+ Itoa 2049) = inl ("10.0.0.1", 2049) /\
  SplitAddressPort ("[" +:+ "fe80::1" +:+ "]:" +:+ Itoa 2049) = inl ("fe80::1", 2049).
Proof.
  split.
  - apply (SplitAddressPort_roundtrip "10.0.0.1" 2049); [vm_compute; split; discriminate|].
    unfold host_string. vm_compute. repeat (constructor; [repeat split; discriminate|]). constructor.
  - apply (SplitAddressPort_roundtrip "fe80::1" 2049); [vm_compute; split; discriminate|].
    vm_compute. repeat (constructor; [repeat split; discriminate|]). constructor.
Defined.
