(* ===== verification/SharedVolume.v ===== *)
(** * Shared volumes

    [internal/pkg/storageos/shared_volume_types.go]: the service and endpoints
    a shared volume needs, compared with and repaired from what the cluster
    has; [shared_volume.go]: listing the shared volumes and publishing their
    external endpoint. *)

From Stdlib Require Import ZArith Lia.
From S2P Require Import Prelude GoLib Json Errors Types Effects Client LabelSync Endpoint.
Local Open Scope Z_scope.

(** ** shared_volume_types.go *)

Definition NFSPort : Z := 2049.
Definition NFSPortName : string := "nfs".
Definition NFSProtocol : string := "TCP".
Definition ServiceTypeClusterIP : string := "ClusterIP".
Definition VolumeIDLabelName : string := "storageos.com/volume-id".
Definition LabelNFSMountEndpoint : string := "storageos.com/nfs/mount-endpoint".
Definition LabelPVName : string := "csi.storage.k8s.io/pv/name".
Definition LabelPVCName : string := "csi.storage.k8s.io/pvc/name".
Definition LabelPVCNamespace : string := "csi.storage.k8s.io/pvc/namespace".

Record SharedVolume := NewSharedVolume {
  ID : string; ServiceName : string; PVCName : string; sv_Namespace : string;
  InternalEndpoint : string; ExternalEndpoint : string;
}.

(** The argument may be nil. *)
Definition IsEqual (v : SharedVolume) (obj : option SharedVolume) : bool :=
  match obj with
  | None => false
  | Some o =>
      bool_decide (ServiceName o = ServiceName v) && bool_decide (PVCName o = PVCName v) &&
      bool_decide (sv_Namespace o = sv_Namespace v) && bool_decide (InternalEndpoint o = InternalEndpoint v) &&
      bool_decide (ExternalEndpoint o = ExternalEndpoint v)
  end.

Definition InternalAddress (v : SharedVolume) : string :=
  match SplitAddressPort (InternalEndpoint v) with inl (address, _) => address | inr _ => "" end.

Definition InternalPort (v : SharedVolume) : Z :=
  match SplitAddressPort (InternalEndpoint v) with inl (_, port) => port | inr _ => 0 end.

(** The port of the service, for the volume. *)
Definition nfs_service_port (v : SharedVolume) : ServicePort :=
  {| sp_Name := NFSPortName; sp_Port := NFSPort; sp_Protocol := NFSProtocol;
     sp_TargetPort := FromInt (InternalPort v) |}.

Definition Service_ (v : SharedVolume) (ownerRef : OwnerReference) : Service :=
  {| svc_meta := meta (ServiceName v) (sv_Namespace v) (Some {[ VolumeIDLabelName := ID v ]}) [ownerRef];
     svc_Type := ServiceTypeClusterIP; svc_ClusterIP := "";
     svc_Ports := [nfs_service_port v] |}.

Definition ServiceIsEqual (v : SharedVolume) (svc : option Service) : bool :=
  match svc with
  | None => false
  | Some svc =>
      if negb (bool_decide (om_Name (svc_meta svc) = ServiceName v)) ||
         negb (bool_decide (om_Namespace (svc_meta svc) = sv_Namespace v)) ||
         negb (bool_decide (svc_Type svc = ServiceTypeClusterIP)) then false
      else match svc_Ports svc with
           | [p] => bool_decide (sp_Name p = NFSPortName) && bool_decide (sp_Port p = NFSPort) &&
                    bool_decide (sp_Protocol p = NFSProtocol) &&
                    bool_decide (ios_IntVal (sp_TargetPort p) = int32 (InternalPort v))
           | _ => false
           end
  end.

Definition set_ports (svc : Service) (ports : list ServicePort) : Service :=
  {| svc_meta := svc_meta svc; svc_Type := svc_Type svc; svc_ClusterIP := svc_ClusterIP svc; svc_Ports := ports |}.

Definition ServiceUpdate (v : SharedVolume) (svc : Service) : Service :=
  match svc_Ports svc with
  | [p] => set_ports svc [{| sp_Name := sp_Name p; sp_Port := sp_Port p; sp_Protocol := sp_Protocol p;
                             sp_TargetPort := FromInt (InternalPort v) |}]
  | _ => set_ports svc [nfs_service_port v]
  end.

(** The subset of the endpoints, for the volume. *)
Definition nfs_subset (v : SharedVolume) : EndpointSubset :=
  {| es_Addresses := [{| ea_IP := InternalAddress v; ea_Hostname := "" |}];
     es_Ports := [{| ep_Name := NFSPortName; ep_Port := int32 (InternalPort v); ep_Protocol := NFSProtocol |}] |}.

Definition Endpoints_ (v : SharedVolume) : Endpoints :=
  {| eps_meta := meta (ServiceName v) (sv_Namespace v) (Some {[ VolumeIDLabelName := ID v ]}) [];
     eps_Subsets := [nfs_subset v] |}.

Definition EndpointsIsEqual (v : SharedVolume) (e : option Endpoints) : bool :=
  match e with
  | None => false
  | Some e =>
      if negb (bool_decide (om_Name (eps_meta e) = ServiceName v)) ||
         negb (bool_decide (om_Namespace (eps_meta e) = sv_Namespace v)) then false
      else match eps_Subsets e with
           | [s] =>
               match es_Addresses s, es_Ports s with
               | a :: _, p :: _ =>
                   bool_decide (ea_IP a = InternalAddress v) && bool_decide (ep_Name p = NFSPortName) &&
                   bool_decide (ep_Port p = int32 (InternalPort v)) && bool_decide (ep_Protocol p = NFSProtocol)
               | _, _ => false
               end
           | _ => false
           end
  end.

Definition set_subsets (e : Endpoints) (ss : list EndpointSubset) : Endpoints :=
  {| eps_meta := eps_meta e; eps_Subsets := ss |}.

Definition EndpointsUpdate (v : SharedVolume) (e : Endpoints) : Endpoints :=
  match eps_Subsets e with
  | [s] =>
      match es_Addresses s, es_Ports s with
      | [a], [p] =>
          set_subsets e [{| es_Addresses := [{| ea_IP := InternalAddress v; ea_Hostname := ea_Hostname a |}];
                            es_Ports := [{| ep_Name := ep_Name p; ep_Port := int32 (InternalPort v);
                                            ep_Protocol := ep_Protocol p |}] |}]
      | _, _ => set_subsets e [nfs_subset v]
      end
  | _ => set_subsets e [nfs_subset v]
  end.

(** ** shared_volume.go *)

Definition toSharedVolume (namespace : string) (vol : Volume) : SharedVolume + error :=
  let pvName := gm_get (v_Labels vol) LabelPVName in
  let pvcName := gm_get (v_Labels vol) LabelPVCName in
  let pvcNamespace := gm_get (v_Labels vol) LabelPVCNamespace in
  if bool_decide (pvName = "") || bool_decide (pvcName = "") || bool_decide (pvcNamespace = "")
  then inr (Sentinel ErrNotKubernetes)
  else match v_NfsServiceEndpoint vol with
       | None => inr (Sentinel ErrNotShared)
       | Some ep =>
           match SplitAddressPort ep with
           | inr e => inr (Wrap e "invalid internal endpoint")
           | inl _ => inl (NewSharedVolume (v_Id vol) pvName pvcName pvcNamespace ep
                             (gm_get (v_Labels vol) LabelNFSMountEndpoint))
           end
       end.

(** The shared volumes among the volumes of a namespace. *)
Definition shared (namespace : string) (vols : list Volume) : list SharedVolume :=
  omap (fun vol => match toSharedVolume namespace vol with inl sv => Some sv | inr _ => None end) vols.

(** The loop stops at the first namespace whose volumes cannot be listed. *)
Fixpoint list_shared (ctx : Ctx) (namespaces : list Namespace) (acc : list SharedVolume)
  : prog (list SharedVolume * option error) :=
  match namespaces with
  | [] => _ ← Call (M_Increment "list_shared_volumes" None); mret (acc, None)
  | ns :: namespaces' =>
      '(volumes, resp, err) ← Call (CP_ListVolumes ctx (ns_Id ns));
      match err with
      | Some e =>
          _ ← Call (M_Increment "list_shared_volumes" (Some (map_api_error e resp)));
          mret ([], ErrorOrNil (Append [] (map_api_error e resp)))
      | None => list_shared ctx namespaces' (acc ++ shared (ns_Name ns) volumes)
      end
  end.

Definition ListSharedVolumes (c : Client) (ctx0 : Ctx) : prog (list SharedVolume * option error) :=
  timed "list_shared_volumes" (
    let ctx := AddToken c ctx0 in
    '(namespaces, resp, err) ← Call (CP_ListNamespaces ctx);
    match err with
    | Some e =>
        _ ← Call (M_Increment "list_shared_volumes" (Some (map_api_error e resp)));
        mret ([], Some (map_api_error e resp))
    | None => list_shared ctx namespaces []
    end).

Definition SetExternalEndpoint (c : Client) (ctx0 : Ctx) (volID namespace endpoint : string) : prog (option error) :=
  timed "set_external_endpoint" (
    let ctx := AddToken c ctx0 in
    '(curVol, err) ← getVolumeByID ctx volID namespace;
    match err, curVol with
    | Some e, _ => observeErr "set_external_endpoint" (Some e)
    | None, None => Panic nil_pointer
    | None, Some curVol =>
        if bool_decide (gm_get (v_Labels curVol) LabelNFSMountEndpoint = endpoint) then
          observeErr "set_external_endpoint" None
        else
          '(_, resp, err) ← Call (CP_UpdateNFSVolumeMountEndpoint ctx (v_NamespaceID curVol) (v_Id curVol)
             {| nve_MountEndpoint := endpoint; nve_Version := v_Version curVol |});
          match err with
          | Some e => observeErr "set_external_endpoint" (Some (map_api_error e resp))
          | None => observeErr "set_external_endpoint" None
          end
    end).

(** ** Properties of the desired objects *)

(** What is created for a shared volume is what is accepted for it. *)
Lemma desired_is_equal v ownerRef :
  ServiceIsEqual v (Some (Service_ v ownerRef)) = true /\ EndpointsIsEqual v (Some (Endpoints_ v)) = true.
Proof.
  unfold ServiceIsEqual, EndpointsIsEqual, Service_, Endpoints_. simpl. by rewrite !bool_decide_eq_true_2.
Qed.

(** The service can be repaired by [ServiceUpdate]: the fields it does not
    touch are right. *)
Definition service_repairable (v : SharedVolume) (svc : Service) : Prop :=
  om_Name (svc_meta svc) = ServiceName v /\ om_Namespace (svc_meta svc) = sv_Namespace v /\
  svc_Type svc = ServiceTypeClusterIP /\
  forall p, svc_Ports svc = [p] -> sp_Name p = NFSPortName /\ sp_Port p = NFSPort /\ sp_Protocol p = NFSProtocol.

Definition endpoints_repairable (v : SharedVolume) (e : Endpoints) : Prop :=
  om_Name (eps_meta e) = ServiceName v /\ om_Namespace (eps_meta e) = sv_Namespace v /\
  forall a p, eps_Subsets e = [{| es_Addresses := [a]; es_Ports := [p] |}] ->
    ep_Name p = NFSPortName /\ ep_Protocol p = NFSProtocol.

(** After [ServiceUpdate] the service is equal to the desired one exactly when
    what the update does not write was right already. *)
Lemma ServiceUpdate_converges v svc :
  ServiceIsEqual v (Some (ServiceUpdate v svc)) = true <-> service_repairable v svc.
Proof.
  unfold ServiceIsEqual, ServiceUpdate, service_repairable.
  destruct (svc_Ports svc) as [|p [|p' ps]] eqn:Hp; simpl;
    repeat (case_bool_decide; simpl); naive_solver.
Qed.

(** The same for endpoints. *)
Lemma EndpointsUpdate_converges v e :
  EndpointsIsEqual v (Some (EndpointsUpdate v e)) = true <-> endpoints_repairable v e.
Proof.
  unfold EndpointsIsEqual, EndpointsUpdate, endpoints_repairable.
  destruct (eps_Subsets e) as [|[[|a [|a' as']] [|p [|p' ps]]] [|s' ss]] eqn:Hs; simpl;
    repeat (case_bool_decide; simpl); naive_solver.
Qed.

(** ** Properties of the listing *)

(** What the reconciler relies on: names of the Kubernetes objects and an
    internal endpoint that can be split. *)
Definition well_formed (sv : SharedVolume) : Prop :=
  ServiceName sv <> "" /\ PVCName sv <> "" /\ sv_Namespace sv <> "" /\
  SplitAddressPort (InternalEndpoint sv) = inl (InternalAddress sv, InternalPort sv).

Lemma toSharedVolume_well_formed ns vol sv : toSharedVolume ns vol = inl sv -> well_formed sv.
Proof.
  unfold toSharedVolume. repeat case_bool_decide; simpl; try done.
  destruct (v_NfsServiceEndpoint vol) as [ep|]; [|done].
  destruct (SplitAddressPort ep) as [[a p]|] eqn:Hs; [|done]. intros [= <-].
  unfold well_formed, InternalAddress, InternalPort. simpl. by rewrite Hs.
Qed.

Lemma shared_well_formed ns vols : Forall well_formed (shared ns vols).
Proof.
  apply Forall_forall. intros sv (vol & Hvol & Hsv)%list_elem_of_In%list_elem_of_omap.
  destruct (toSharedVolume ns vol) as [sv'|] eqn:Ht; [|done]. simplify_eq. by eapply toSharedVolume_well_formed.
Qed.

(** The listings succeed and show the namespaces [nss] with the volumes [vols]. *)
Definition shows (nss : list Namespace) (vols : string -> list Volume) (e : event) : Prop :=
  let '(existT c r) := e in
  match c return ret c -> Prop with
  | CP_ListNamespaces _ => fun r => r.1.1 = nss /\ r.2 = None
  | CP_ListVolumes _ id => fun r => r.1.1 = vols id /\ r.2 = None
  | _ => fun _ => True
  end r.

Definition all_shared (nss : list Namespace) (vols : string -> list Volume) : list SharedVolume :=
  concat (map (fun ns => shared (ns_Name ns) (vols (ns_Id ns))) nss).

Definition no_error (e : event) : Prop := cp_error e = None.

Lemma Append_foreign e : foreign_error e -> ErrorOrNil (Append [] e) <> None.
Proof. by destruct e. Qed.

Lemma list_shared_run ctx nss0 vols nss acc :
  Forall well_formed acc ->
  every_run (list_shared ctx nss acc) (fun tr o => exists svs err, o = Done (svs, err) /\
    mutations tr = [] /\ Forall well_formed svs /\
    (Forall foreign tr -> (err = None <-> Forall no_error tr)) /\
    (Forall (shows nss0 vols) tr -> svs = acc ++ all_shared nss vols /\ err = None)).
Proof.
  revert acc. induction nss as [|ns nss IH]; intros acc Hacc; cbn [list_shared].
  - run_steps. do 2 eexists. split; [done|]. split; [done|]. split; [done|]. split.
    + intros _. split; [intros _; by repeat constructor|done].
    + intros _. by rewrite app_nil_r.
  - apply every_run_bind, every_run_call. intros [[volumes resp] [e|]]; cbn beta iota.
    + run_steps. do 2 eexists. split; [done|]. split; [done|]. split; [constructor|].
      simpl. rewrite !Forall_cons_iff. split.
      * intros [Hf _]. split; [|intros [Hn _]; done]. intros Hn. exfalso. revert Hn.
        apply Append_foreign, foreign_map_api_error. exact Hf.
      * simpl. intros [[_ [=]] _].
    + eapply every_run_mono; [apply IH|].
      { apply Forall_app. split; [done|apply shared_well_formed]. }
      simpl. intros tr o (svs & err & -> & Hm & Hwf & Herr & Hsvs). do 2 eexists. split; [done|].
      split; [rewrite mutations_cons; exact Hm|]. split; [done|]. rewrite !Forall_cons_iff. split.
      * intros [_ Hf]. rewrite (Herr Hf). split; [intros; split; done|by intros [_ ?]].
      * simpl. intros [[-> _] Hs]. destruct (Hsvs Hs) as [-> ->]. split; [|done].
        unfold all_shared. simpl. by rewrite <- (assoc_L (++)).
Qed.

Section client.
Context (c : Client).

(** The list of shared volumes, in every environment: nothing is changed,
    every volume returned is well formed, and an error is returned exactly
    when one of the listings failed; when they show the volumes [vols] of the
    namespaces [nss], the shared ones among them are returned, in order. *)
Theorem ListSharedVolumes_correct ctx nss vols :
  every_run (ListSharedVolumes c ctx) (fun tr o => exists svs err, o = Done (svs, err) /\
    mutations tr = [] /\ Forall well_formed svs /\
    (Forall foreign tr -> (err = None <-> Forall no_error tr)) /\
    (Forall (shows nss vols) tr -> svs = all_shared nss vols /\ err = None)).
Proof.
  unfold ListSharedVolumes, timed. apply every_run_defer, every_run_bind, every_run_call.
  intros [[nss' resp] [e|]]; cbn beta iota.
  - run_steps. do 2 eexists. split; [done|]. split; [done|]. split; [constructor|]. simpl.
    rewrite !Forall_cons_iff. split.
    + intros [Hf _]. split; [done|]. by intros [Hn _].
    + simpl. by intros [[_ [=]] _].
  - eapply every_run_mono; [apply (list_shared_run _ nss vols); constructor|].
    intros tr o (svs & err & -> & Hm & Hwf & Herr & Hsvs) u. do 2 eexists. split; [done|].
    split; [rewrite !mutations_app, Hm; done|]. split; [done|]. simpl. rewrite !Forall_cons_iff, !Forall_app. split.
    + intros (_ & Hf & _). rewrite (Herr Hf). split; [|by intros (_ & ? & _)].
      intros Hn. split; [done|]. split; [done|by repeat constructor].
    + simpl. intros ([-> _] & Hs & _). by destruct (Hsvs Hs) as [-> ->].
Qed.

(** The volume with the identifier [id] in the namespace called [ns]. *)
Definition sees_volume_id (namespace id : string) (ns : Namespace) (v : Volume) (e : event) : Prop :=
  let '(existT c r) := e in
  match c return ret c -> Prop with
  | CP_ListNamespaces _ => fun r => r.2 = None /\ find_by_name ns_Name r.1.1 namespace = Some ns
  | CP_GetVolume _ nsid id' => fun r => nsid = ns_Id ns -> id' = id -> r.2 = None /\ r.1.1 = v
  | _ => fun _ => True
  end r.

Definition endpoint_plan (ctx : Ctx) (v : Volume) (endpoint : string) : list call :=
  if bool_decide (gm_get (v_Labels v) LabelNFSMountEndpoint = endpoint) then []
  else [CP_UpdateNFSVolumeMountEndpoint ctx (v_NamespaceID v) (v_Id v)
          {| nve_MountEndpoint := endpoint; nve_Version := v_Version v |}].

(** Publishing the external endpoint of a volume: it is written, with the
    version that was read, exactly when the volume does not have it yet, and
    success is reported exactly when the write was accepted or not needed. *)
Theorem SetExternalEndpoint_correct ctx volID namespace endpoint ns v :
  every_run (SetExternalEndpoint c ctx volID namespace endpoint)
    (fun tr o => Forall (sees_volume_id namespace volID ns v) tr -> Forall foreign tr ->
       mutations tr = endpoint_plan (AddToken c ctx) v endpoint /\
       exists r, o = Done r /\ (r = None <-> Forall succeeded tr)).
Proof.
  unfold SetExternalEndpoint, timed, getVolumeByID, getNamespace, observeErr, endpoint_plan.
  run_steps; events; intros; unpair; simplify_eq/=;
    repeat match goal with H : ?a = ?a -> _ |- _ => specialize (H eq_refl) end; unpair; simplify_eq/=; try done.
  { match goal with H : MapAPIError None ?o = _ |- _ => by destruct o end. }
  all: match goal with H : bool_decide _ = _ |- _ => rewrite H end.
  all: (split; [done|]); eexists; (split; [done|]); rewrite !Forall_cons_iff; simpl; naive_solver.
Qed.
End client.
