(* ===== verification/SharedVolumeController.v ===== *)
(** * The shared volume reconciler ([internal/controllers/sharedvolume])

    A loop that lists the shared volumes and gives each the Kubernetes service
    and endpoints it needs, publishing the address of the service to
    StorageOS.  Volumes that were verified recently are skipped, by a cache. *)

From Stdlib Require Import ZArith Lia.
From S2P Require Import Prelude GoLib Json Errors Types Effects Client LabelSync Cache Endpoint SharedVolume.

(** [wait.WaitFor]: the condition is tried at each of [ticks] ticks of the
    poller and, if the poller has a timeout, once more when that closes its
    channel; without a timeout nothing but the end of the process, after those
    ticks, ends the wait. *)
Definition still_polling : string := "process ended while polling".

Fixpoint WaitFor {S} (ticks : nat) (closes : bool) (condition : S -> prog ((bool + error) * S)) (s : S)
  : prog (option error * S) :=
  match ticks, closes with
  | O, false => Panic still_polling
  | _, _ =>
      '(r, s1) ← condition s;
      match r with
      | inr e => mret (Some e, s1)
      | inl true => mret (None, s1)
      | inl false =>
          match ticks with
          | O => mret (Some (Sentinel ErrWaitTimeout), s1)
          | S ticks' => WaitFor ticks' closes condition s1
          end
      end
  end.

(** [wait.Poll] with its poller: a ticker needs a positive interval (the
    goroutine of the poller panics, which ends the process), and a timeout of 0
    is none.  How many ticks are delivered is up to the clock and the
    scheduler. *)
Definition ticker_panic : string := "non-positive interval for NewTicker".

Definition Poll {S} (interval timeout : Z) (condition : S -> prog ((bool + error) * S)) (s : S)
  : prog (option error * S) :=
  if (interval <=? 0)%Z then Panic ticker_panic
  else
    ticks ← Call (PollTicks interval timeout);
    WaitFor ticks (negb (timeout =? 0)%Z) condition s.

(** The object is filled in by [Get], and stays as it is when not found. *)
Definition waitForClusterIP (nn : ObjectKey) (svc : Service) (interval timeout : Z) : prog (option error * Service) :=
  Poll interval timeout (fun svc =>
    r ← Call (K_GetService nn);
    match r with
    | inr e => if negb (IsNotFound e) then mret (inr e, svc)
               else mret (inl (negb (bool_decide (svc_ClusterIP svc = ""))), svc)
    | inl svc' => mret (inl (negb (bool_decide (svc_ClusterIP svc' = ""))), svc')
    end) svc.

Definition waitForAvailable (nn : ObjectKey) (ep : Endpoints) (interval timeout : Z) : prog (option error * Endpoints) :=
  Poll interval timeout (fun ep =>
    r ← Call (K_GetEndpoints nn);
    match r with
    | inr e => if negb (IsNotFound e) then mret (inr e, ep) else mret (inl true, ep)
    | inl ep' => mret (inl true, ep')
    end) ep.

Definition frontend (svc : option Service) : string :=
  match svc with
  | None => ""
  | Some svc => match svc_Ports svc with
                | [p] => svc_ClusterIP svc +:+ ":" +:+ Itoa (sp_Port p)
                | _ => ""
                end
  end.

Section ensure.
Context (sv : SharedVolume) (ownerRef : OwnerReference) (interval timeout : Z).

Let nn : ObjectKey := Key (sv_Namespace sv) (ServiceName sv).

(** The service, created when it is missing. *)
Definition get_or_create_service : prog (Service + error) :=
  r ← Call (K_GetService nn);
  match r with
  | inl svc => mret (inl svc)
  | inr e =>
      if IsNotFound e then
        cr ← Call (K_CreateService (Service_ sv ownerRef));
        match cr with
        | inr e => mret (inr (Wrap e "failed to create service resource"))
        | inl _ =>
            '(err, svc) ← waitForClusterIP nn zero_service interval timeout;
            match err with
            | Some e => mret (inr (Wrap e "failed to get service resource after create"))
            | None =>
                _ ← Call (K_Event svc "Normal" "Created"
                      ("Created service for shared volume " +:+ sv_Namespace sv +:+ "/" +:+ ServiceName sv));
                mret (inl svc)
            end
        end
      else mret (inr (Wrap e "failed to get service, aborting reconcile"))
  end.

(** The update fills in the object the server returns. *)
Definition repair_service (svc : Service) : prog (Service + error) :=
  if negb (ServiceIsEqual sv (Some svc)) then
    u ← Call (K_UpdateService (ServiceUpdate sv svc));
    match u with
    | inr e => mret (inr (Wrap e "failed to update service resource"))
    | inl svc' => mret (inl svc')
    end
  else mret (inl svc).

Definition get_or_create_endpoints : prog (Endpoints + error) :=
  r ← Call (K_GetEndpoints nn);
  match r with
  | inl ep => mret (inl ep)
  | inr e =>
      if IsNotFound e then
        cr ← Call (K_CreateEndpoints (Endpoints_ sv));
        match cr with
        | inr e => mret (inr (Wrap e "failed to create endpoints resource"))
        | inl _ =>
            '(err, ep) ← waitForAvailable nn zero_endpoints interval timeout;
            match err with
            | Some e => mret (inr (Wrap e "failed to get endpoints resource after create"))
            | None => mret (inl ep)
            end
        end
      else mret (inr (Wrap e "failed to get endpoint, aborting reconcile"))
  end.

Definition repair_endpoints (svc : Service) (ep : Endpoints) : prog (unit + error) :=
  if negb (EndpointsIsEqual sv (Some ep)) then
    u ← Call (K_UpdateEndpoints (EndpointsUpdate sv ep));
    match u with
    | inr e => mret (inr (Wrap e "failed to update endpoints resource"))
    | inl _ =>
        _ ← Call (K_Event svc "Warning" "Updated"
              ("Shared volume service target changed " +:+ sv_Namespace sv +:+ "/" +:+ ServiceName sv));
        mret (inl tt)
    end
  else mret (inl tt).

Definition ensureService : prog (string + error) :=
  try get_or_create_service (fun svc0 =>
  try (repair_service svc0) (fun svc =>
  try get_or_create_endpoints (fun ep =>
  try (repair_endpoints svc ep) (fun _ =>
  mret (inl (frontend (Some svc))))))).
End ensure.

(** ** The loop *)

(** What the reconciler is configured with, and its cache. *)
Record Reconciler := {
  r_api : Client; apiPollInterval : Z; cacheExpiryInterval : Z;
  k8sCreatePollInterval : Z; k8sCreateWaitDuration : Z;
  r_volumes : Cache SharedVolume;
}.

Definition defaultCacheExpiryInterval : Z := 60 * 1000000000.

Definition NewReconciler (api : Client)
    (apiPollInterval cacheExpiryInterval k8sCreatePollInterval k8sCreateWaitDuration : Z) : Reconciler := {|
  r_api := api; apiPollInterval := apiPollInterval; cacheExpiryInterval := cacheExpiryInterval;
  k8sCreatePollInterval := k8sCreatePollInterval; k8sCreateWaitDuration := k8sCreateWaitDuration;
  r_volumes := NewCache defaultCacheExpiryInterval;
|}.

Definition with_external (v : SharedVolume) (e : string) : SharedVolume :=
  NewSharedVolume (ID v) (ServiceName v) (PVCName v) (sv_Namespace v) (InternalEndpoint v) e.

(** The owner of the service: the claim. *)
Definition pvc_owner (pvc : PersistentVolumeClaim) : OwnerReference :=
  {| or_APIVersion := "v1"; or_Kind := "PersistentVolumeClaim";
     or_Name := om_Name (pvc_meta pvc); or_UID := om_UID (pvc_meta pvc) |}.

(** The volume is cached as it is listed, and not expired. *)
Definition up_to_date (volumes : Cache SharedVolume) (vol : SharedVolume) (now : Z) : bool :=
  match Get volumes (ID vol) now with Some cachedVol => IsEqual cachedVol (Some vol) | None => false end.

(** The body of the loop over volumes: the cache afterwards. *)
Definition reconcile_volume (r : Reconciler) (ctx : Ctx) (volumes : Cache SharedVolume) (vol : SharedVolume)
  : prog (Cache SharedVolume) :=
  now ← Call Now;
  if up_to_date volumes vol now then mret volumes
  else
    p ← Call (K_GetPVC (Key (sv_Namespace vol) (PVCName vol)));
    match p with
    | inr _ => mret volumes
    | inl pvc =>
        e ← ensureService vol (pvc_owner pvc) (k8sCreatePollInterval r) (k8sCreateWaitDuration r);
        match e with
        | inr _ => mret volumes
        | inl externalEndpoint =>
            if negb (bool_decide (externalEndpoint = ExternalEndpoint vol)) then
              s ← SetExternalEndpoint (r_api r) ctx (ID vol) (sv_Namespace vol) externalEndpoint;
              match s with
              | Some _ => mret volumes
              | None =>
                  now' ← Call Now;
                  mret (Set_ volumes (ID vol) (with_external vol externalEndpoint) (cacheExpiryInterval r) now')
              end
            else
              now' ← Call Now;
              mret (Set_ volumes (ID vol) vol (cacheExpiryInterval r) now')
        end
    end.

(** One round of [Start], between two waits. *)
Definition Start_round (r : Reconciler) (ctx : Ctx) (volumes : Cache SharedVolume) : prog (Cache SharedVolume) :=
  '(vols, err) ← ListSharedVolumes (r_api r) ctx;
  _ ← match err with Some _ => Call SendAPIReset | None => mret tt end;
  volumes' ← foldM (reconcile_volume r ctx) vols volumes;
  _ ← Call M_ObserveReconcile;
  mret volumes'.

(** The loop, for [rounds] rounds; the context is cancelled during the wait
    that follows them. *)
Fixpoint Start_loop (r : Reconciler) (ctx : Ctx) (rounds : nat) (volumes : Cache SharedVolume)
  : prog (Cache SharedVolume) :=
  match rounds with
  | O => mret volumes
  | S rounds' =>
      volumes' ← Start_round r ctx volumes;
      _ ← Call (Setup (Sleep (apiPollInterval r)));
      Start_loop r ctx rounds' volumes'
  end.

(** The cache it leaves, and no error. *)
Definition Start (r : Reconciler) (ctx : Ctx) (rounds : nat) : prog (Cache SharedVolume * option error) :=
  volumes ← Start_loop r ctx (S rounds) (r_volumes r); mret (volumes, None).

(** ** What may be changed for a volume, in every environment *)

Lemma Poll_changes {S} P interval timeout (condition : S -> prog ((bool + error) * S)) s :
  (forall s, changes P (condition s)) -> changes P (Poll interval timeout condition s).
Proof.
  intros Hc. unfold Poll. changes_steps. clear -Hc. generalize (negb (timeout =? 0)%Z).
  match goal with |- forall b, changes P (WaitFor ?n b _ _) => generalize n end. intros n closes. revert s.
  induction n as [|n IH]; intros s; cbn [WaitFor]; destruct closes; changes_steps; auto.
Qed.

(** Only the service and the endpoints of the volume: creations of the desired
    objects, and updates of objects that differ from them. *)
Definition ensure_allowed (sv : SharedVolume) (ownerRef : OwnerReference) (cl : call) : Prop :=
  match cl with
  | K_CreateService s => s = Service_ sv ownerRef
  | K_UpdateService s => exists svc, ServiceIsEqual sv (Some svc) = false /\ s = ServiceUpdate sv svc
  | K_CreateEndpoints e => e = Endpoints_ sv
  | K_UpdateEndpoints e => exists ep, EndpointsIsEqual sv (Some ep) = false /\ e = EndpointsUpdate sv ep
  | _ => False
  end.

(** In every environment, ensuring the service of a shared volume changes
    nothing but that service and those endpoints: it creates the desired ones,
    and it updates an object only when it differs from the desired one, with
    the repaired object. *)
Theorem ensureService_changes sv ownerRef interval timeout :
  changes (ensure_allowed sv ownerRef) (ensureService sv ownerRef interval timeout).
Proof.
  unfold ensureService, try, get_or_create_service, get_or_create_endpoints, repair_service, repair_endpoints,
    waitForClusterIP, waitForAvailable.
  changes_steps; try (apply Poll_changes; intros; changes_steps); intros _; simpl; try done;
    match goal with H : negb _ = true |- _ => apply negb_true_iff in H end; eauto.
Qed.

(** ** Only verified volumes are cached *)

(** A state-changing call that was accepted, by either API. *)
Definition granted (e : event) : Prop :=
  let '(existT c r) := e in
  match c return ret c -> Prop with
  | CP_UpdateNFSVolumeMountEndpoint _ _ _ _ => fun r => r.2 = None
  | K_CreateService _ | K_UpdateService _ => fun r => exists s, r = inl s
  | K_CreateEndpoints _ | K_UpdateEndpoints _ => fun r => exists ep, r = inl ep
  | _ => fun _ => True
  end r.

(** No panic, and on success the result satisfies [P]. *)
Definition ends {A} (P : trace -> A -> Prop) (tr : trace) (o : outcome (A + error)) : Prop :=
  match o with Done (inl a) => P tr a | Done (inr _) => True | Panicked _ => False end.

Lemma try_ends {A B} (p : prog (A + error)) (k : A -> prog (B + error)) P Q :
  every_run p (ends P) ->
  (forall tr a, P tr a -> every_run (k a) (ends (fun tr' => Q (tr ++ tr')))) -> every_run (try p k) (ends Q).
Proof.
  intros Hp Hk. unfold try. eapply every_run_seq; [exact Hp| |done].
  intros tr [a|e] Ha; [by apply Hk|by apply every_run_ret].
Qed.

(** A poll that comes to an end by itself: with a positive interval, and a
    timeout. *)
Definition bounded_poll (interval timeout : Z) : Prop := (0 < interval)%Z /\ timeout <> 0%Z.

(** The condition reads, keeps [I] of the object it fills in, and establishes
    [Q] of it when it is met; so does polling. *)
Section polls.
Context {S : Type} (I Q : trace -> S -> Prop) (condition : S -> prog ((bool + error) * S)).
Hypothesis condition_run : forall tr s, I tr s -> every_run (condition s) (fun tr' o => Forall granted tr' /\
  match o with
  | Done (inl true, s') => Q (tr ++ tr') s'
  | Done (inl false, s') => I (tr ++ tr') s'
  | Done (inr _, _) => True
  | Panicked _ => False
  end).

Lemma WaitFor_run ticks s past :
  I past s ->
  every_run (WaitFor ticks true condition s) (fun tr o => Forall granted tr /\
    match o with Done (None, s') => Q (past ++ tr) s' | Done (Some _, _) => True | Panicked _ => False end).
Proof.
  revert s past. induction ticks as [|ticks IH]; intros s past Hs; cbn [WaitFor];
    (eapply every_run_seq; [by apply condition_run| |by intros ? ? [_ []]]);
    intros tr [[[]|e] s1] [Hg Hs1]; cbn beta iota; try (apply every_run_ret; by rewrite app_nil_r).
  eapply every_run_mono; [apply (IH _ _ Hs1)|]. intros tr' o [Hg' Ho]. split; [by apply Forall_app|].
  by rewrite <- app_assoc in Ho.
Qed.

Lemma Poll_run interval timeout s past :
  bounded_poll interval timeout -> (forall ticks, I (past ++ [existT (PollTicks interval timeout) ticks]) s) ->
  every_run (Poll interval timeout condition s) (fun tr o => Forall granted tr /\
    match o with Done (None, s') => Q (past ++ tr) s' | Done (Some _, _) => True | Panicked _ => False end).
Proof.
  intros [Hi Ht] Hs. unfold Poll. destruct (Z.leb_spec interval 0); [lia|].
  rewrite (proj2 (Z.eqb_neq timeout 0) Ht). cbn [negb]. apply every_run_bind, every_run_call. intros ticks.
  eapply every_run_mono; [apply (WaitFor_run ticks s _ (Hs ticks))|]. intros tr o [Hg Ho].
  split; [by constructor|]. by rewrite <- app_assoc in Ho.
Qed.
End polls.

(** The API server returned the service. *)
Definition served (key : ObjectKey) (svc : Service) (e : event) : Prop :=
  let '(existT c r) := e in
  match c return ret c -> Prop with
  | K_GetService k => fun r => k = key /\ r = inl svc
  | K_UpdateService _ => fun r => r = inl svc
  | _ => fun _ => False
  end r.

(** The API server returned the endpoints. *)
Definition ep_served (key : ObjectKey) (ep : Endpoints) (e : event) : Prop :=
  let '(existT c r) := e in
  match c return ret c -> Prop with
  | K_GetEndpoints k => fun r => k = key /\ r = inl ep
  | _ => fun _ => False
  end r.

(** A service that is waited for is one that the server returned. *)
Lemma waitForClusterIP_run nn interval timeout :
  bounded_poll interval timeout ->
  every_run (waitForClusterIP nn zero_service interval timeout) (fun tr o => Forall granted tr /\
    match o with Done (None, svc) => Exists (served nn svc) tr | Done (Some _, _) => True | Panicked _ => False end).
Proof.
  intros Hb. refine (Poll_run (fun tr svc => svc_ClusterIP svc = "" \/ Exists (served nn svc) tr)
    (fun tr svc => Exists (served nn svc) tr) _ _ interval timeout zero_service [] Hb (fun _ => or_introl eq_refl)).
  intros tr svc Hsvc. run_steps; (split; [by repeat constructor|]); cbn beta iota; try done.
  - case_bool_decide; cbn [negb]; [by left|]. apply Exists_app. right. left. by simpl.
  - destruct Hsvc as [->|Hsvc]; [by left|].
    case_bool_decide; cbn [negb]; [right|]; apply Exists_app; by left.
Qed.

(** So are endpoints that are waited for, or they are still empty. *)
Lemma waitForAvailable_run nn interval timeout :
  bounded_poll interval timeout ->
  every_run (waitForAvailable nn zero_endpoints interval timeout) (fun tr o => Forall granted tr /\
    match o with
    | Done (None, ep) => ep = zero_endpoints \/ Exists (ep_served nn ep) tr
    | Done (Some _, _) => True
    | Panicked _ => False
    end).
Proof.
  intros Hb. refine (Poll_run (fun tr ep => ep = zero_endpoints \/ Exists (ep_served nn ep) tr)
    (fun tr ep => ep = zero_endpoints \/ Exists (ep_served nn ep) tr) _ _ interval timeout zero_endpoints [] Hb
    (fun _ => or_introl eq_refl)).
  intros tr ep Hep. run_steps; (split; [by repeat constructor|]); cbn beta iota; try done.
  - right. apply Exists_app. right. left. by simpl.
  - destruct Hep as [->|Hep]; [by left|]. right. apply Exists_app. by left.
Qed.

(** Everything was accepted, and the server returned the service. *)
Definition ensured (key : ObjectKey) (tr : trace) (svc : Service) : Prop :=
  Forall granted tr /\ Exists (served key svc) tr.

(** The service of the volume is as wanted, or the server accepted the update
    that makes it so as far as updates go. *)
Definition service_settled (sv : SharedVolume) (tr : trace) (svc : Service) : Prop :=
  ensured (Key (sv_Namespace sv) (ServiceName sv)) tr svc /\
  (ServiceIsEqual sv (Some svc) = true \/ exists svc0, existT (K_UpdateService (ServiceUpdate sv svc0)) (inl svc) ∈ tr).

(** The same of its endpoints. *)
Definition endpoints_settled (sv : SharedVolume) (tr : trace) : Prop :=
  exists ep, EndpointsIsEqual sv (Some ep) = true /\ Exists (ep_served (Key (sv_Namespace sv) (ServiceName sv)) ep) tr \/
             exists ep', existT (K_UpdateEndpoints (EndpointsUpdate sv ep)) (inl ep') ∈ tr.

Lemma service_settled_within sv before tr after svc :
  Forall granted before -> Forall granted after -> service_settled sv tr svc -> service_settled sv (before ++ tr ++ after) svc.
Proof.
  intros Hb Ha [[Hg Hs] Hu]. split; [split; [by rewrite !Forall_app|rewrite !Exists_app; tauto]|].
  destruct Hu as [?|[svc0 Hu]]; [by left|]. right. exists svc0. rewrite !elem_of_app. tauto.
Qed.

Lemma endpoints_settled_within sv before tr after : endpoints_settled sv tr -> endpoints_settled sv (before ++ tr ++ after).
Proof.
  intros (ep & [[Heq Hs]|[ep' Hu]]); exists ep; [left; split; [done|rewrite !Exists_app; tauto]|].
  right. exists ep'. rewrite !elem_of_app. tauto.
Qed.

Lemma endpoints_settled_later sv before tr : endpoints_settled sv tr -> endpoints_settled sv (before ++ tr).
Proof. rewrite <- (app_nil_r tr) at 2. apply endpoints_settled_within. Qed.

Section ensured_runs.
Context (sv : SharedVolume) (ownerRef : OwnerReference) (interval timeout : Z) (Hb : bounded_poll interval timeout).
Let nn : ObjectKey := Key (sv_Namespace sv) (ServiceName sv).

Lemma get_or_create_service_run : every_run (get_or_create_service sv ownerRef interval timeout) (ends (ensured nn)).
Proof.
  unfold get_or_create_service. apply every_run_bind, every_run_call. intros [svc|e]; cbn iota.
  { apply every_run_ret. split; [by repeat constructor|]. by left. }
  destruct (IsNotFound e); [|by apply every_run_ret].
  apply every_run_bind, every_run_call. intros [svc|e']; [|by apply every_run_ret]. cbn iota.
  eapply every_run_seq; [by apply waitForClusterIP_run| |by intros ? ? [_ []]].
  intros tr [[e'|] svc'] [Htr Hs]; cbn beta iota; [by apply every_run_ret|].
  run_steps. split.
  - simpl. repeat (constructor; [simpl; eauto|]). apply Forall_app. split; [exact Htr|by repeat constructor].
  - simpl. do 2 right. apply Exists_app. by left.
Qed.

Lemma repair_service_run svc tr :
  ensured nn tr svc -> every_run (repair_service sv svc) (ends (fun tr' => service_settled sv (tr ++ tr'))).
Proof.
  intros [Hg Hs]. unfold repair_service. run_steps; cbn [ends]; try done; unfold service_settled, ensured; rewrite Forall_app, Exists_app.
  - split; [split; [|right; by left]|].
    + split; [done|]. repeat constructor. simpl. eauto.
    + right. exists svc. apply elem_of_app. right. left.
  - split; [split; [split; [done|constructor]|by left]|]. left. by apply negb_false_iff.
Qed.

Lemma get_or_create_endpoints_run :
  every_run (get_or_create_endpoints sv interval timeout) (ends (fun tr ep =>
    Forall granted tr /\ (ep = zero_endpoints \/ Exists (ep_served nn ep) tr))).
Proof.
  unfold get_or_create_endpoints. apply every_run_bind, every_run_call. intros [ep|e].
  { apply every_run_ret. split; [by repeat constructor|]. right. by left. }
  cbn iota. destruct (IsNotFound e); [|by apply every_run_ret].
  apply every_run_bind, every_run_call. intros [ep|e']; [|by apply every_run_ret].
  eapply every_run_seq; [by apply waitForAvailable_run| |by intros ? ? [_ []]].
  intros tr [[e'|] ep'] [Htr Hep]; cbn beta iota; apply every_run_ret; [done|].
  simpl. rewrite app_nil_r. split; [repeat (constructor; [simpl; eauto|]); exact Htr|].
  destruct Hep as [?|Hep]; [by left|]. right. by do 2 right.
Qed.

Lemma repair_endpoints_run svc ep tr :
  ep = zero_endpoints \/ Exists (ep_served nn ep) tr ->
  every_run (repair_endpoints sv svc ep) (ends (fun tr' _ => Forall granted tr' /\ endpoints_settled sv (tr ++ tr'))).
Proof.
  intros Hep. unfold repair_endpoints. run_steps; simpl; try done.
  - split; [repeat constructor; simpl; eauto|]. exists ep. right. eexists. apply elem_of_app. right. left.
  - split; [constructor|]. exists ep. left. match goal with H : negb _ = false |- _ => apply negb_false_iff in H; rename H into Heq end.
    split; [done|]. apply Exists_app. left. destruct Hep as [->|?]; [|done].
    unfold EndpointsIsEqual in Heq. simpl in Heq. by destruct (negb _ || _).
Qed.

(** The address that is returned is that of a service the server returned. *)
Lemma ensureService_run :
  every_run (ensureService sv ownerRef interval timeout) (ends (fun tr ext =>
    exists svc, service_settled sv tr svc /\ endpoints_settled sv tr /\ ext = frontend (Some svc))).
Proof.
  unfold ensureService. eapply try_ends; [apply get_or_create_service_run|]. intros tr svc0 H0.
  eapply try_ends; [by apply repair_service_run|]. intros tr1 svc [[Hg Hs] Heq].
  eapply try_ends; [apply get_or_create_endpoints_run|]. intros tr2 ep [H2 Hep].
  eapply try_ends; [by apply (repair_endpoints_run svc ep tr2)|]. intros tr3 [] [H3 Hset].
  apply every_run_ret. exists svc. rewrite app_nil_r, !app_assoc. split_and!; [split| |done].
  - split; [by rewrite !Forall_app in *|]. rewrite <- app_assoc, Exists_app. by left.
  - destruct Heq as [?|[svc1 Hu]]; [by left|]. right. exists svc1. rewrite <- app_assoc, elem_of_app. by left.
  - rewrite <- app_assoc. by apply endpoints_settled_later.
Qed.
End ensured_runs.

(** Publishing an endpoint never panics. *)
Lemma SetExternalEndpoint_granted c ctx volID namespace endpoint :
  every_run (SetExternalEndpoint c ctx volID namespace endpoint) (fun tr o =>
    match o with Done None => Forall granted tr | Done (Some _) => True | Panicked _ => False end).
Proof.
  unfold SetExternalEndpoint, timed, getVolumeByID, getNamespace, observeErr.
  run_steps; intros; simpl; try done; repeat constructor; done.
Qed.

(** A pass for the volume as it is now, that ended at time [now]: its claim
    exists; every change that was made for it was accepted; its service and its
    endpoints, as the API server returned them, were as wanted, or the update
    of them was accepted; and its external endpoint is the address of that
    service. *)
Record verified_at (vol : SharedVolume) (now : Z) (tr : trace) : Prop := {
  va_claim : exists pvc, existT (K_GetPVC (Key (sv_Namespace vol) (PVCName vol))) (inl pvc) ∈ tr;
  va_service : exists svc, service_settled vol tr svc /\ ExternalEndpoint vol = frontend (Some svc);
  va_endpoints : endpoints_settled vol tr;
  va_time : exists before, tr = before ++ [existT Now now];
}.

(** Only the claim, the service and the endpoints matter. *)
Lemma verified_with_external vol ext now tr svc pvc before after :
  tr = before ++ after ++ [existT Now now] ->
  existT (K_GetPVC (Key (sv_Namespace vol) (PVCName vol))) (inl pvc) ∈ before ->
  service_settled vol tr svc -> endpoints_settled vol tr -> ext = frontend (Some svc) ->
  verified_at (with_external vol ext) now tr.
Proof.
  intros Htr Hpvc Hs He Hext. split; cbn.
  - exists pvc. rewrite Htr. apply elem_of_app. by left.
  - by exists svc.
  - exact He.
  - exists (before ++ after). by rewrite <- app_assoc.
Qed.

Lemma reconcile_volume_run r ctx volumes vol :
  bounded_poll (k8sCreatePollInterval r) (k8sCreateWaitDuration r) ->
  every_run (reconcile_volume r ctx volumes vol) (fun tr o => exists volumes', o = Done volumes' /\
    (volumes' = volumes \/
     exists ext now, volumes' = Set_ volumes (ID vol) (with_external vol ext) (cacheExpiryInterval r) now /\
       verified_at (with_external vol ext) now tr)).
Proof.
  intros Hb. unfold reconcile_volume. apply every_run_bind, every_run_call. intros now. cbn beta.
  destruct (up_to_date volumes vol now); [apply every_run_ret; eauto|].
  apply every_run_bind, every_run_call. intros [pvc|e]; [|apply every_run_ret; eauto].
  eapply every_run_seq; [by apply ensureService_run| |done].
  intros tr1 [ext|e] Hv; [|apply every_run_ret; eauto]. destruct Hv as (svc & Hs & Hep & Hext).
  set (reads := [existT Now now; existT (K_GetPVC (Key (sv_Namespace vol) (PVCName vol))) (inl pvc)] : trace).
  assert (Hreads : Forall granted reads) by by repeat constructor.
  assert (Hverified : forall after now', Forall granted after ->
    verified_at (with_external vol ext) now' (reads ++ tr1 ++ after ++ [existT Now now'])).
  { intros after now' Ha. apply (verified_with_external vol ext now' _ svc pvc reads (tr1 ++ after)).
    - by rewrite <- app_assoc.
    - right. left.
    - apply service_settled_within; [done| |done]. apply Forall_app. split; [done|by repeat constructor].
    - by apply endpoints_settled_within.
    - done. }
  case_bool_decide as Heq; cbn [negb].
  - apply every_run_bind, every_run_call. intros now'. apply every_run_ret. eexists. split; [done|]. right.
    exists ext, now'. split; [rewrite Heq; by destruct vol|]. apply (Hverified []). constructor.
  - eapply every_run_seq; [apply SetExternalEndpoint_granted| |done].
    intros tr2 [e|] Hp; [apply every_run_ret; eauto|].
    apply every_run_bind, every_run_call. intros now'. apply every_run_ret. eexists. split; [done|]. right.
    exists ext, now'. split; [done|]. by apply (Hverified tr2).
Qed.

(** ** The rounds of the loop *)

(** How long a volume stays cached; forever if it is not positive. *)
Definition lifetime (r : Reconciler) : Z :=
  if (cacheExpiryInterval r =? 0)%Z then defaultCacheExpiryInterval else cacheExpiryInterval r.

(** Every volume in the cache was verified, at the time its expiry counts from. *)
Definition backed (r : Reconciler) (tr : trace) (volumes : Cache SharedVolume) : Prop :=
  defaultExpiration volumes = defaultCacheExpiryInterval /\
  forall id it, items volumes !! id = Some it -> exists before pass after now,
    tr = before ++ pass ++ after /\ ID (i_Object it) = id /\ verified_at (i_Object it) now pass /\
    i_Expiration it = if (0 <? lifetime r)%Z then (now + lifetime r)%Z else 0%Z.

Lemma backed_later r tr tr' volumes : backed r tr volumes -> backed r (tr ++ tr') volumes.
Proof.
  intros [Hd H]. split; [done|]. intros id it Hit. destruct (H id it Hit) as (b & p & a & now & -> & Hv).
  exists b, p, (a ++ tr'), now. by rewrite <- !app_assoc.
Qed.

Lemma backed_set r tr pass volumes vol now :
  backed r tr volumes -> verified_at vol now pass ->
  backed r (tr ++ pass) (Set_ volumes (ID vol) vol (cacheExpiryInterval r) now).
Proof.
  intros Hb Hv. destruct (backed_later r tr pass volumes Hb) as [Hd H]. split; [done|]. intros id' it. cbn [items Set_].
  destruct (decide (id' = ID vol)) as [->|Hne]; [|rewrite lookup_insert_ne by done; apply H].
  rewrite lookup_insert_eq. intros [= <-]. exists tr, pass, [], now. rewrite app_nil_r. split_and!; [done..|].
  cbn [i_Expiration]. unfold lifetime. by rewrite Hd.
Qed.

Section rounds.
Context (r : Reconciler) (ctx : Ctx).
Hypothesis Hbounded : bounded_poll (k8sCreatePollInterval r) (k8sCreateWaitDuration r).

(** The program ends, and leaves a cache that is backed by all calls so far. *)
Definition keeps_backed (p : Cache SharedVolume -> prog (Cache SharedVolume)) : Prop :=
  forall past volumes, backed r past volumes ->
  every_run (p volumes) (fun tr o => exists volumes', o = Done volumes' /\ backed r (past ++ tr) volumes').

Lemma keeps_backed_bind p q :
  keeps_backed p -> keeps_backed q -> keeps_backed (fun v => v' ← p v; q v').
Proof.
  intros Hp Hq past v Hv. eapply every_run_seq; [by apply Hp| |by intros ? ? (? & [=] & _)].
  intros tr v' (? & [= <-] & Hv'). eapply every_run_mono; [by apply Hq|].
  intros tr' o. by rewrite app_assoc.
Qed.

Lemma reconcile_volume_backed vol : keeps_backed (fun v => reconcile_volume r ctx v vol).
Proof.
  intros past v Hv. eapply every_run_mono; [by apply reconcile_volume_run|].
  intros tr o (v' & -> & [->|(ext & now & -> & Hver)]); eexists; (split; [done|]);
    [by apply backed_later|]. by apply (backed_set r past tr v (with_external vol ext)).
Qed.

Lemma volumes_backed vols : keeps_backed (foldM (reconcile_volume r ctx) vols).
Proof.
  induction vols as [|vol vols IH]; [|by apply (keeps_backed_bind _ _ (reconcile_volume_backed vol))].
  intros past v Hv. apply every_run_ret. rewrite app_nil_r. eauto.
Qed.

(** After calls that do not touch the cache. *)
Lemma keeps_backed_after {A} (p : prog A) q :
  every_run p (fun _ o => exists a, o = Done a) -> (forall a, keeps_backed (q a)) ->
  keeps_backed (fun v => a ← p; q a v).
Proof.
  intros Hp Hq past v Hv. eapply every_run_seq; [exact Hp| |by intros ? ? (? & [=])].
  intros tr a _. eapply every_run_mono; [apply Hq, (backed_later r past tr v Hv)|].
  intros tr' o. by rewrite app_assoc.
Qed.

Lemma keeps_backed_ret : keeps_backed mret.
Proof. intros past v Hv. apply every_run_ret. rewrite app_nil_r. eauto. Qed.

Lemma Start_round_backed : keeps_backed (Start_round r ctx).
Proof.
  intros past v Hv. unfold Start_round.
  eapply every_run_seq; [apply (ListSharedVolumes_correct _ ctx [] (fun _ => []))| |by intros ? ? (? & ? & [=] & _)].
  intros tr [vols err] _. cbn beta iota. eapply every_run_mono.
  - apply (keeps_backed_after (match err with Some _ => Call SendAPIReset | None => mret tt end)
      (fun _ v => v' ← foldM (reconcile_volume r ctx) vols v; _ ← Call M_ObserveReconcile; mret v'));
      [destruct err; [apply every_run_call|apply every_run_ret]; eauto| |exact (backed_later r past tr v Hv)].
    intros _. apply (keeps_backed_bind _ _ (volumes_backed vols)).
    apply (keeps_backed_after (Call M_ObserveReconcile) (fun _ => mret)); [apply every_run_call; eauto|].
    intros _. apply keeps_backed_ret.
  - intros tr' o (v' & -> & Hb). exists v'. split; [done|]. by rewrite app_assoc.
Qed.

Lemma Start_loop_backed rounds : keeps_backed (Start_loop r ctx rounds).
Proof.
  induction rounds as [|rounds IH]; [apply keeps_backed_ret|].
  apply (keeps_backed_bind _ _ Start_round_backed).
  apply (keeps_backed_after (Call (Setup (Sleep (apiPollInterval r)))) (fun _ => Start_loop r ctx rounds));
    [apply every_run_call; eauto|done].
Qed.
End rounds.

(** C21. The loop of the shared volumes, for any number of rounds and whatever
    the API server and the control plane answer, if new objects are polled for
    with a positive interval (with another the ticker of the poll panics) and
    with a timeout (a timeout of 0 is none): it never panics and ends without an
    error, and a volume that it skips from then on was verified, as it is listed
    now: in an earlier pass, whose end is no longer ago than the expiry
    interval, the claim of the volume existed, every change that was made for it
    was accepted by the API server and by the control plane, its service and its
    endpoints (for the internal endpoint that the volume is listed with) were as
    wanted or the update of them was accepted, and the external endpoint that
    the volume is listed with was the address of that service. *)
Theorem Start_skips_verified api apiPoll cacheExpiry createPoll createWait ctx rounds :
  bounded_poll createPoll createWait ->
  let r := NewReconciler api apiPoll cacheExpiry createPoll createWait in
  every_run (Start r ctx rounds) (fun tr o => exists volumes, o = Done (volumes, None) /\
    forall vol t, up_to_date volumes vol t = true -> exists before pass after now,
      tr = before ++ pass ++ after /\ verified_at vol now pass /\
      ((0 < lifetime r)%Z -> (0 < now)%Z -> (t <= now + lifetime r)%Z)).
Proof.
  intros Hbp r. unfold Start. eapply every_run_seq; [apply (Start_loop_backed r ctx Hbp (S rounds) [])| |by intros ? ? (? & [=] & _)].
  { split; [done|]. intros id it. cbn. by rewrite lookup_empty. }
  intros tr v (? & [= <-] & _ & Hb). cbn [app] in Hb. apply every_run_ret. exists v. split; [done|]. rewrite app_nil_r.
  intros vol t. unfold up_to_date, Get. destruct (items v !! ID vol) as [it|] eqn:Hit; [|done].
  destruct (expired it t) eqn:Hx; [done|]. unfold IsEqual. rewrite !andb_true_iff, !bool_decide_eq_true.
  intros ((((HS & HP) & HN) & HI) & HE). destruct (Hb _ _ Hit) as (b & p & a & now & -> & HID & Hver & Hexp).
  assert (i_Object it = vol) as Hvol.
  { destruct (i_Object it), vol. simpl in *. congruence. }
  rewrite Hvol in Hver. exists b, p, a, now. split; [done|]. split; [done|].
  intros Hl Hn. unfold expired in Hx. rewrite Hexp, (proj2 (Z.ltb_lt _ _) Hl) in Hx.
  rewrite andb_false_iff, !Z.ltb_ge in Hx. lia.
Qed.

(** ** Convergence, in a store of services and endpoints

    What the reconciler relies on: reads are not stale, a service that is
    created gets a cluster address, an update stores what was sent (the server
    may set other metadata). *)

(** What the server keeps of an object it stores. *)
Definition svc_key (s : Service) : ObjectKey := meta_key (svc_meta s).
Definition ep_key (e : Endpoints) : ObjectKey := meta_key (eps_meta e).

Definition same_service (s s' : Service) : Prop :=
  svc_key s' = svc_key s /\ svc_Type s' = svc_Type s /\ svc_Ports s' = svc_Ports s.
Definition same_endpoints (e e' : Endpoints) : Prop :=
  ep_key e' = ep_key e /\ eps_Subsets e' = eps_Subsets e.

Class ServiceStore {W : Type} (h : handler W) := {
  services : W -> gmap ObjectKey Service;
  endpoints : W -> gmap ObjectKey Endpoints;
  svc_keyed : forall w k s, services w !! k = Some s -> svc_key s = k;
  svc_get_some : forall w k s, services w !! k = Some s -> h (K_GetService k) w = (inl s, w);
  svc_get_none : forall w k, services w !! k = None ->
    exists e, h (K_GetService k) w = (inr e, w) /\ IsNotFound e = true;
  svc_create : forall w s, services w !! svc_key s = None ->
    exists s' w', h (K_CreateService s) w = (inl s', w') /\ same_service s s' /\ svc_ClusterIP s' <> "" /\
      services w' = <[svc_key s := s']> (services w) /\ endpoints w' = endpoints w;
  svc_update : forall w s, is_Some (services w !! svc_key s) ->
    exists s' w', h (K_UpdateService s) w = (inl s', w') /\ same_service s s' /\ svc_ClusterIP s' = svc_ClusterIP s /\
      services w' = <[svc_key s := s']> (services w) /\ endpoints w' = endpoints w;
  ep_get_some : forall w k e, endpoints w !! k = Some e -> h (K_GetEndpoints k) w = (inl e, w);
  ep_get_none : forall w k, endpoints w !! k = None ->
    exists e, h (K_GetEndpoints k) w = (inr e, w) /\ IsNotFound e = true;
  ep_create : forall w e, endpoints w !! ep_key e = None ->
    exists e' w', h (K_CreateEndpoints e) w = (inl e', w') /\ same_endpoints e e' /\
      endpoints w' = <[ep_key e := e']> (endpoints w) /\ services w' = services w;
  ep_keyed : forall w k e, endpoints w !! k = Some e -> ep_key e = k;
  ep_update : forall w e, is_Some (endpoints w !! ep_key e) ->
    exists e' w', h (K_UpdateEndpoints e) w = (inl e', w') /\ same_endpoints e e' /\
      endpoints w' = <[ep_key e := e']> (endpoints w) /\ services w' = services w;
  svc_event : forall w s t r m, exists w', h (K_Event s t r m) w = (tt, w') /\
    services w' = services w /\ endpoints w' = endpoints w;
}.

Lemma ServiceIsEqual_same v s s' : same_service s s' -> ServiceIsEqual v (Some s') = ServiceIsEqual v (Some s).
Proof. intros ([= Hn Hm] & Ht & Hp). unfold ServiceIsEqual. by rewrite Hm, Hn, Ht, Hp. Qed.

Lemma EndpointsIsEqual_same v e e' : same_endpoints e e' -> EndpointsIsEqual v (Some e') = EndpointsIsEqual v (Some e).
Proof. intros ([= Hn Hm] & Hs). unfold EndpointsIsEqual. by rewrite Hm, Hn, Hs. Qed.

Lemma svc_key_update v s : svc_key (ServiceUpdate v s) = svc_key s.
Proof. unfold ServiceUpdate. by repeat cases. Qed.

Lemma svc_ip_update v s : svc_ClusterIP (ServiceUpdate v s) = svc_ClusterIP s.
Proof. unfold ServiceUpdate. by repeat cases. Qed.

Lemma ep_key_update v e : ep_key (EndpointsUpdate v e) = ep_key e.
Proof. unfold EndpointsUpdate. by repeat cases. Qed.

Section store.
Context {W : Type} (h : handler W) {HS : ServiceStore h}.
Context (sv : SharedVolume) (ownerRef : OwnerReference) (interval timeout : Z).

Local Abbreviation nn := (Key (sv_Namespace sv) (ServiceName sv)).

(** Polling works: it comes to an end by itself, and its ticks change nothing. *)
Definition polls : Prop :=
  bounded_poll interval timeout /\ forall w, exists ticks, h (PollTicks interval timeout) w = (ticks, w).

(** A condition that is met at the first try. *)
Lemma Poll_store {S} (condition : S -> prog ((bool + error) * S)) s s' w :
  polls -> runs_to h (condition s) w (inl true, s') w [] -> runs_to h (Poll interval timeout condition s) w (None, s') w [].
Proof.
  intros [[Hi Ht] Hticks] Hc. unfold Poll. destruct (Z.leb_spec interval 0); [lia|].
  rewrite (proj2 (Z.eqb_neq timeout 0) Ht). cbn [negb]. destruct (Hticks w) as [ticks Hw].
  eapply (runs_to_read h); [apply (runs_to_call h (PollTicks interval timeout)); exact Hw|].
  destruct ticks; cbn [WaitFor]; (eapply (runs_to_read h); [exact Hc|]; apply runs_to_ret).
Qed.

(** The first poll already finds the service with its address. *)
Lemma waitForClusterIP_store w s s0 :
  polls -> services w !! nn = Some s -> svc_ClusterIP s <> "" ->
  runs_to h (waitForClusterIP nn s0 interval timeout) w (None, s) w [].
Proof.
  intros Hp Hs Hip. apply Poll_store; [done|].
  eapply (runs_to_read h); [apply (runs_to_call h (K_GetService nn)), (svc_get_some _ _ s); done|].
  cbn iota beta. rewrite bool_decide_eq_false_2 by done. apply runs_to_ret.
Qed.

Lemma waitForAvailable_store w e e0 :
  polls -> endpoints w !! nn = Some e -> runs_to h (waitForAvailable nn e0 interval timeout) w (None, e) w [].
Proof.
  intros Hp He. apply Poll_store; [done|].
  eapply (runs_to_read h); [apply (runs_to_call h (K_GetEndpoints nn)), (ep_get_some _ _ e); done|]. apply runs_to_ret.
Qed.

(** The service there is, or a new one that is as wanted. *)
Lemma get_or_create_service_store w :
  is_Some (services w !! nn) \/ polls ->
  exists svc w' pl, runs_to h (get_or_create_service sv ownerRef interval timeout) w (inl svc) w' pl /\
    services w' !! nn = Some svc /\ endpoints w' = endpoints w /\
    match services w !! nn with
    | Some s => svc = s /\ w' = w /\ pl = []
    | None => ServiceIsEqual sv (Some svc) = true
    end.
Proof.
  intros Hpoll. destruct (services w !! nn) as [s|] eqn:Es.
  - exists s, w, []. split_and!; try done.
    eapply (runs_to_read h); [apply (runs_to_call h (K_GetService nn)), (svc_get_some _ _ s); done|]. apply runs_to_ret.
  - destruct Hpoll as [[? [=]]|Hp]. destruct (svc_get_none w nn Es) as (e & Hg & Hnf).
    destruct (svc_create w (Service_ sv ownerRef) Es) as (s & w1 & Hc & Hsame & Hip & Hs1 & He1).
    change (svc_key (Service_ sv ownerRef)) with nn in Hs1.
    assert (Hs : services w1 !! nn = Some s) by (rewrite Hs1; apply lookup_insert_eq).
    destruct (svc_event w1 s "Normal" "Created"
      ("Created service for shared volume " +:+ sv_Namespace sv +:+ "/" +:+ ServiceName sv)) as (w2 & Hev & Hs2 & He2).
    exists s, w2, ([K_CreateService (Service_ sv ownerRef)] ++ []). split_and!.
    + eapply (runs_to_read h); [apply (runs_to_call h (K_GetService nn)); exact Hg|].
      cbn iota beta. rewrite Hnf.
      eapply (runs_to_bind h); [exact (runs_to_call h (K_CreateService _) w _ w1 Hc)|]. cbn iota beta.
      eapply (runs_to_read h); [by apply (waitForClusterIP_store w1 s)|]. cbn iota beta.
      eapply (runs_to_read h); [exact (runs_to_call h (K_Event _ _ _ _) w1 _ w2 Hev)|]. apply runs_to_ret.
    + by rewrite Hs2.
    + congruence.
    + rewrite (ServiceIsEqual_same _ _ _ Hsame). apply desired_is_equal.
Qed.

Lemma repair_service_store w svc :
  services w !! nn = Some svc ->
  exists svc' w', runs_to h (repair_service sv svc) w (inl svc') w'
      (if ServiceIsEqual sv (Some svc) then [] else [K_UpdateService (ServiceUpdate sv svc)]) /\
    services w' !! nn = Some svc' /\ endpoints w' = endpoints w /\ svc_ClusterIP svc' = svc_ClusterIP svc /\
    if ServiceIsEqual sv (Some svc) then svc' = svc /\ w' = w else same_service (ServiceUpdate sv svc) svc'.
Proof.
  intros Hs. unfold repair_service. destruct (ServiceIsEqual sv (Some svc)) eqn:Eq; cbn [negb].
  - exists svc, w. split_and!; try done. apply runs_to_ret.
  - assert (Hk : svc_key (ServiceUpdate sv svc) = nn) by (rewrite svc_key_update; by eapply svc_keyed).
    destruct (svc_update w (ServiceUpdate sv svc)) as (s' & w' & Hu & Hsame & Hip & Hw & He); [rewrite Hk; eauto|].
    exists s', w'. split_and!; try done.
    + eapply (runs_to_bind h _ _ _ _ w' [_] _ _ []); [exact (runs_to_call h (K_UpdateService _) w _ w' Hu)|]. apply runs_to_ret.
    + rewrite Hw, Hk. apply lookup_insert_eq.
    + by rewrite Hip, svc_ip_update.
Qed.

Lemma get_or_create_endpoints_store w :
  is_Some (endpoints w !! nn) \/ polls ->
  exists ep w' pl, runs_to h (get_or_create_endpoints sv interval timeout) w (inl ep) w' pl /\
    endpoints w' !! nn = Some ep /\ services w' = services w /\
    match endpoints w !! nn with
    | Some e => ep = e /\ w' = w /\ pl = []
    | None => EndpointsIsEqual sv (Some ep) = true
    end.
Proof.
  intros Hpoll. destruct (endpoints w !! nn) as [e|] eqn:Ee.
  - exists e, w, []. split_and!; try done.
    eapply (runs_to_read h); [apply (runs_to_call h (K_GetEndpoints nn)), (ep_get_some _ _ e); done|]. apply runs_to_ret.
  - destruct Hpoll as [[? [=]]|Hp]. destruct (ep_get_none w nn Ee) as (err & Hg & Hnf).
    destruct (ep_create w (Endpoints_ sv) Ee) as (e & w1 & Hc & Hsame & He1 & Hs1).
    change (ep_key (Endpoints_ sv)) with nn in He1.
    assert (He : endpoints w1 !! nn = Some e) by (rewrite He1; apply lookup_insert_eq).
    exists e, w1, ([K_CreateEndpoints (Endpoints_ sv)] ++ []). split_and!; try done.
    + eapply (runs_to_read h); [apply (runs_to_call h (K_GetEndpoints nn)); exact Hg|].
      cbn iota beta. rewrite Hnf.
      eapply (runs_to_bind h); [exact (runs_to_call h (K_CreateEndpoints _) w _ w1 Hc)|]. cbn iota beta.
      eapply (runs_to_read h); [by apply (waitForAvailable_store w1 e)|]. apply runs_to_ret.
    + rewrite (EndpointsIsEqual_same _ _ _ Hsame). apply (desired_is_equal sv ownerRef).
Qed.

Lemma repair_endpoints_store w svc ep :
  endpoints w !! nn = Some ep ->
  exists ep' w', runs_to h (repair_endpoints sv svc ep) w (inl tt) w'
      (if EndpointsIsEqual sv (Some ep) then [] else [K_UpdateEndpoints (EndpointsUpdate sv ep)]) /\
    endpoints w' !! nn = Some ep' /\ services w' = services w /\
    if EndpointsIsEqual sv (Some ep) then ep' = ep /\ w' = w else same_endpoints (EndpointsUpdate sv ep) ep'.
Proof.
  intros He. unfold repair_endpoints. destruct (EndpointsIsEqual sv (Some ep)) eqn:Eq; cbn [negb].
  - exists ep, w. split_and!; try done. apply runs_to_ret.
  - assert (Hk : ep_key (EndpointsUpdate sv ep) = nn) by (rewrite ep_key_update; by eapply ep_keyed).
    destruct (ep_update w (EndpointsUpdate sv ep)) as (e' & w1 & Hu & Hsame & Hw & Hs); [rewrite Hk; eauto|].
    destruct (svc_event w1 svc "Warning" "Updated"
      ("Shared volume service target changed " +:+ sv_Namespace sv +:+ "/" +:+ ServiceName sv)) as (w2 & Hev & Hs2 & He2).
    exists e', w2. split_and!; try done; [|by rewrite He2, Hw, Hk, lookup_insert_eq|congruence].
    eapply (runs_to_bind h _ _ _ _ w1 [_] _ _ []); [exact (runs_to_call h (K_UpdateEndpoints _) w _ w1 Hu)|].
    cbn iota beta. eapply (runs_to_read h); [exact (runs_to_call h (K_Event _ _ _ _) w1 _ w2 Hev)|]. apply runs_to_ret.
Qed.

(** A pass over objects that are there: the updates it sends. *)
Lemma ensureService_present w svc ep :
  services w !! nn = Some svc -> endpoints w !! nn = Some ep ->
  exists svc' ep' w', runs_to h (ensureService sv ownerRef interval timeout) w (inl (frontend (Some svc'))) w'
      ((if ServiceIsEqual sv (Some svc) then [] else [K_UpdateService (ServiceUpdate sv svc)]) ++
       (if EndpointsIsEqual sv (Some ep) then [] else [K_UpdateEndpoints (EndpointsUpdate sv ep)])) /\
    services w' !! nn = Some svc' /\ endpoints w' !! nn = Some ep' /\
    (if ServiceIsEqual sv (Some svc) then svc' = svc else same_service (ServiceUpdate sv svc) svc') /\
    (if EndpointsIsEqual sv (Some ep) then ep' = ep else same_endpoints (EndpointsUpdate sv ep) ep') /\
    (ServiceIsEqual sv (Some svc) && EndpointsIsEqual sv (Some ep) = true -> w' = w).
Proof.
  intros Hs He.
  destruct (get_or_create_service_store w ltac:(eauto)) as (svc0 & w0 & pl0 & R0 & S0 & E0 & H0). rewrite Hs in H0.
  destruct H0 as (-> & -> & ->).
  destruct (repair_service_store w svc Hs) as (svc' & w1 & R1 & S1 & E1 & _ & H1).
  destruct (get_or_create_endpoints_store w1 ltac:(left; rewrite E1; eauto)) as (ep0 & w2 & pl2 & R2 & E2 & S2 & H2). rewrite E1, He in H2.
  destruct H2 as (-> & -> & ->).
  destruct (repair_endpoints_store w1 svc' ep ltac:(by rewrite E1)) as (ep' & w3 & R3 & E3 & S3 & H3).
  exists svc', ep', w3. split_and!.
  - apply (runs_to_bind h _ _ _ _ _ [] _ _ _ R0). apply (runs_to_bind h _ _ _ _ _ _ _ _ _ R1).
    apply (runs_to_bind h _ _ _ _ _ [] _ _ _ R2). rewrite <- (app_nil_r (if EndpointsIsEqual _ _ then _ else _)).
    apply (runs_to_bind h _ _ _ _ _ _ _ _ _ R3). apply (runs_to_ret h).
  - by rewrite S3.
  - done.
  - destruct (ServiceIsEqual sv (Some svc)); [by destruct H1|done].
  - destruct (EndpointsIsEqual sv (Some ep)); [by destruct H3|done].
  - intros [Ha Hb]%andb_true_iff. rewrite Ha in H1. rewrite Hb in H3. destruct H1, H3. congruence.
Qed.

Lemma frontend_equal svc :
  ServiceIsEqual sv (Some svc) = true -> frontend (Some svc) = svc_ClusterIP svc +:+ ":2049".
Proof.
  unfold ServiceIsEqual, frontend. destruct (negb _ || _ || _); [done|].
  destruct (svc_Ports svc) as [|p [|]]; [done| |done].
  intros [[[_ Hp%bool_decide_eq_true]%andb_true_iff _]%andb_true_iff _]%andb_true_iff. by rewrite Hp.
Qed.

Lemma repaired_service svc svc' :
  service_repairable sv svc \/ ServiceIsEqual sv (Some svc) = true ->
  (if ServiceIsEqual sv (Some svc) then svc' = svc else same_service (ServiceUpdate sv svc) svc') ->
  ServiceIsEqual sv (Some svc') = true.
Proof.
  destruct (ServiceIsEqual sv (Some svc)) eqn:E; intros Hr; [by intros ->|].
  destruct Hr as [Hr|]; [|done]. intros Hsame. rewrite (ServiceIsEqual_same _ _ _ Hsame).
  by apply ServiceUpdate_converges.
Qed.

Lemma repaired_endpoints ep ep' :
  endpoints_repairable sv ep \/ EndpointsIsEqual sv (Some ep) = true ->
  (if EndpointsIsEqual sv (Some ep) then ep' = ep else same_endpoints (EndpointsUpdate sv ep) ep') ->
  EndpointsIsEqual sv (Some ep') = true.
Proof.
  destruct (EndpointsIsEqual sv (Some ep)) eqn:E; intros Hr; [by intros ->|].
  destruct Hr as [Hr|]; [|done]. intros Hsame. rewrite (EndpointsIsEqual_same _ _ _ Hsame).
  by apply EndpointsUpdate_converges.
Qed.

(** C20. In a store of services and endpoints ([ServiceStore]: reads are not
    stale, a service that is created gets a cluster address, an update stores
    what was sent), one pass over a shared volume succeeds and leaves a service
    and endpoints that are as wanted, provided that an update can repair what is
    there and that new objects are polled for with a positive interval and a
    timeout.  An update can repair a service of type ClusterIP unless its one
    port has another name, number or protocol than the NFS port
    ([service_repairable]), and endpoints unless their one port has another name
    or protocol ([endpoints_repairable]): only the target port, and the first
    address and its port, are written.  The pass returns the address of the
    service with the NFS port; a service that was there keeps its address.  A
    second pass returns the same address and changes nothing. *)
Theorem ensureService_converges w :
  polls ->
  (forall svc, services w !! nn = Some svc -> service_repairable sv svc) ->
  (forall ep, endpoints w !! nn = Some ep -> endpoints_repairable sv ep) ->
  exists svc ep w' pl,
    runs_to h (ensureService sv ownerRef interval timeout) w (inl (svc_ClusterIP svc +:+ ":2049")) w' pl /\
    services w' !! nn = Some svc /\ ServiceIsEqual sv (Some svc) = true /\
    endpoints w' !! nn = Some ep /\ EndpointsIsEqual sv (Some ep) = true /\
    (forall svc0, services w !! nn = Some svc0 -> svc_ClusterIP svc = svc_ClusterIP svc0) /\
    runs_to h (ensureService sv ownerRef interval timeout) w' (inl (svc_ClusterIP svc +:+ ":2049")) w' [].
Proof.
  intros Hp Hrs Hre.
  destruct (get_or_create_service_store w (or_intror Hp)) as (svc0 & w0 & pl0 & R0 & S0 & E0 & H0).
  destruct (repair_service_store w0 svc0 S0) as (svc & w1 & R1 & S1 & E1 & Hip & H1).
  destruct (get_or_create_endpoints_store w1 (or_intror Hp)) as (ep0 & w2 & pl2 & R2 & E2 & S2 & H2).
  destruct (repair_endpoints_store w2 svc ep0 E2) as (ep & w3 & R3 & E3 & S3 & H3).
  assert (Hsvc : ServiceIsEqual sv (Some svc) = true).
  { apply (repaired_service svc0); [|by destruct (ServiceIsEqual sv (Some svc0)); [destruct H1|]].
    destruct (services w !! nn) as [s|]; [left; destruct H0 as [-> _]; by apply Hrs|by right]. }
  assert (Hep : EndpointsIsEqual sv (Some ep) = true).
  { apply (repaired_endpoints ep0); [|by destruct (EndpointsIsEqual sv (Some ep0)); [destruct H3|]].
    rewrite E1, E0 in H2. destruct (endpoints w !! nn) as [e|]; [left; destruct H2 as [-> _]; by apply Hre|by right]. }
  assert (HS3 : services w3 !! nn = Some svc) by (by rewrite S3, S2).
  assert (exists pl, runs_to h (ensureService sv ownerRef interval timeout) w (inl (frontend (Some svc))) w3 pl) as [pl R].
  { eexists. unfold ensureService, try. eapply (runs_to_bind h); [exact R0|]. eapply (runs_to_bind h); [exact R1|].
    eapply (runs_to_bind h); [exact R2|]. eapply (runs_to_bind h); [exact R3|]. apply (runs_to_ret h). }
  exists svc, ep, w3, pl. rewrite <- (frontend_equal svc Hsvc). split_and!; try done.
  - intros s Hs. rewrite Hs in H0. by destruct H0 as [-> _].
  - destruct (ensureService_present w3 svc ep HS3 E3) as (svc' & ep' & w4 & R4 & _ & _ & HA & HB & HC).
    rewrite Hsvc, Hep in *. rewrite (HC eq_refl), HA in R4. exact R4.
Qed.

(** Several passes. *)
Fixpoint passes (n : nat) : prog unit :=
  match n with
  | O => mret tt
  | S n' => _ ← ensureService sv ownerRef interval timeout; passes n'
  end.

(** What an update does not write stays wrong. *)
Lemma equal_repairable svc : ServiceIsEqual sv (Some svc) = true -> service_repairable sv svc.
Proof.
  unfold ServiceIsEqual, service_repairable.
  destruct (svc_Ports svc) as [|p [|p' ps]]; repeat (case_bool_decide; simpl); naive_solver.
Qed.

Lemma never_repairable svc svc' :
  same_service (ServiceUpdate sv svc) svc' -> service_repairable sv svc' -> service_repairable sv svc.
Proof.
  intros ([= Hn Hm] & Ht & Hp) (H1 & H2 & H3 & H4). unfold ServiceUpdate in *. unfold service_repairable.
  destruct (svc_Ports svc) as [|p [|p' ps]]; simpl in *; split_and!; try congruence; try naive_solver.
  intros q [= <-]. by destruct (H4 _ Hp) as (? & ? & ?).
Qed.

(** C39. A service whose type, port number, port name or protocol is wrong is
    never repaired: each pass over it sends an update that leaves it wrong, so
    [n] passes send [n] updates and the service is still not as wanted. *)
Theorem ensureService_diverges n w svc ep :
  services w !! nn = Some svc -> ~ service_repairable sv svc ->
  endpoints w !! nn = Some ep -> EndpointsIsEqual sv (Some ep) = true ->
  exists w' pl svc', runs_to h (passes n) w tt w' pl /\ length pl = n /\
    Forall (fun c => exists s, c = K_UpdateService s) pl /\
    services w' !! nn = Some svc' /\ ServiceIsEqual sv (Some svc') = false.
Proof.
  revert w svc ep. induction n as [|n IH]; intros w svc ep Hs Hr He Heq.
  - exists w, [], svc. split_and!; try done; [apply runs_to_ret|].
    apply not_true_is_false. intros H%equal_repairable. done.
  - destruct (ensureService_present w svc ep Hs He) as (svc' & ep' & w1 & R1 & S1 & E1 & H1 & H2 & _).
    rewrite Heq in R1, H2. subst ep'.
    destruct (ServiceIsEqual sv (Some svc)) eqn:E; [by apply equal_repairable in E|]. rewrite app_nil_r in R1.
    destruct (IH w1 svc' ep S1) as (w2 & pl & svc2 & R2 & Hl & Hf & S2 & Hne); [|done..|].
    { intros H'. by apply Hr, (never_repairable svc svc'). }
    exists w2, ([K_UpdateService (ServiceUpdate sv svc)] ++ pl), svc2. split_and!; try done.
    + by eapply (runs_to_bind h).
    + simpl. by rewrite Hl.
    + constructor; eauto.
Qed.
End store.

(** A store in memory: the address of a new service is constant, and objects
    are stored under their own key. *)
Definition memory : Type := list Service * list Endpoints.

Definition with_ip (s : Service) : Service :=
  {| svc_meta := svc_meta s; svc_Type := svc_Type s; svc_ClusterIP := "10.0.0.1"; svc_Ports := svc_Ports s |}.

Definition svc_map (m : memory) : gmap ObjectKey Service := list_to_map (map (fun s => (svc_key s, s)) m.1).
Definition ep_map (m : memory) : gmap ObjectKey Endpoints := list_to_map (map (fun e => (ep_key e, e)) m.2).

Definition not_found {A} : A + error := inr (K8sError StatusReasonNotFound "").
Definition conflict {A} : A + error := inr (K8sError StatusReasonOther "").

Definition memory_services : handler memory := fun c m =>
  match c return ret c * memory with
  | K_GetService k => (match svc_map m !! k with Some s => inl s | None => not_found end, m)
  | K_GetEndpoints k => (match ep_map m !! k with Some e => inl e | None => not_found end, m)
  | K_CreateService s => match svc_map m !! svc_key s with
      | None => (inl (with_ip s), (with_ip s :: m.1, m.2)) | Some _ => (conflict, m) end
  | K_CreateEndpoints e => match ep_map m !! ep_key e with
      | None => (inl e, (m.1, e :: m.2)) | Some _ => (conflict, m) end
  | K_UpdateService s => match svc_map m !! svc_key s with
      | Some _ => (inl s, (s :: m.1, m.2)) | None => (not_found, m) end
  | K_UpdateEndpoints e => match ep_map m !! ep_key e with
      | Some _ => (inl e, (m.1, e :: m.2)) | None => (not_found, m) end
  | c => (plain_answer c, m)
  end.

Lemma keyed_map {A} (key : A -> ObjectKey) (l : list A) k a :
  (list_to_map (map (fun x => (key x, x)) l) : gmap ObjectKey A) !! k = Some a -> key a = k.
Proof.
  intros H%elem_of_list_to_map_2. apply list_elem_of_In, in_map_iff in H as (x & [= <- <-] & _). done.
Qed.

#[export] Instance memory_service_store : ServiceStore memory_services.
Proof.
  refine {| services := svc_map; endpoints := ep_map |}; intros w.
  - intros k s. apply keyed_map.
  - intros k s Hs. simpl. by rewrite Hs.
  - intros k Hs. simpl. rewrite Hs. unfold not_found. eauto.
  - intros s Hs. simpl. rewrite Hs. eexists _, _. split; [done|]. by repeat split.
  - intros s [s' Hs]. simpl. rewrite Hs. eexists _, _. split; [done|]. by repeat split.
  - intros k e He. simpl. by rewrite He.
  - intros k He. simpl. rewrite He. unfold not_found. eauto.
  - intros e He. simpl. rewrite He. eexists _, _. split; [done|]. by repeat split.
  - intros k e. apply keyed_map.
  - intros e [e' He]. simpl. rewrite He. eexists _, _. split; [done|]. by repeat split.
  - intros s t r m. eexists. by split.
Defined.

Definition example_volume : SharedVolume :=
  NewSharedVolume "v1" "pvc-1" "claim" "default" "10.1.1.1:1111" "".

Definition example_owner : OwnerReference :=
  {| or_APIVersion := "v1"; or_Kind := "PersistentVolumeClaim"; or_Name := "claim"; or_UID := "u" |}.

(** A volume that has no objects yet. *)
Lemma ensureService_converges_witness :
  exists svc w pl,
    runs_to memory_services (ensureService example_volume example_owner 1 3) ([], []) (inl (svc_ClusterIP svc +:+ ":2049")) w pl /\
    ServiceIsEqual example_volume (Some svc) = true.
Proof.
  destruct (ensureService_converges memory_services example_volume example_owner 1 3 ([], []))
    as (svc & ep & w & pl & Hrun & _ & Heq & _).
  - split; [split; [reflexivity|discriminate]|]. intros w. by exists 0.
  - intros svc Hs. vm_compute in Hs. discriminate Hs.
  - intros ep He. vm_compute in He. discriminate He.
  - exists svc, w, pl. split; [exact Hrun|exact Heq].
Defined.

(** A service of the right name with another port number. *)
Definition wrong_port : Service :=
  set_ports (Service_ example_volume example_owner)
    [{| sp_Name := NFSPortName; sp_Port := 111; sp_Protocol := NFSProtocol; sp_TargetPort := FromInt 1111 |}].

Lemma ensureService_diverges_witness :
  exists w pl, runs_to memory_services (passes example_volume example_owner 1 3 5)
    ([wrong_port], [Endpoints_ example_volume]) tt w pl /\ length pl = 5.
Proof.
  destruct (ensureService_diverges memory_services example_volume example_owner 1 3 5
    ([wrong_port], [Endpoints_ example_volume]) wrong_port (Endpoints_ example_volume))
    as (w & pl & svc & Hrun & Hlen & _).
  - vm_compute. reflexivity.
  - intros (_ & _ & _ & Hp). destruct (Hp _ eq_refl) as (_ & Hp' & _). vm_compute in Hp'. discriminate Hp'.
  - vm_compute. reflexivity.
  - vm_compute. reflexivity.
  - exists w, pl. split; [exact Hrun|exact Hlen].
Defined.

(** Two rounds in a cluster with one shared volume, at time 100: its service and
    endpoints are created, and its external endpoint is published twice, since
    the volume is listed without it each time; the volume with its endpoint is
    then skipped until 60 time units have passed. *)
Definition listed : Volume := {|
  v_Id := "v1"; v_Name := "vol"; v_NamespaceID := "ns1";
  v_Labels := Some {[ LabelPVName := "pvc-1"; LabelPVCName := "claim"; LabelPVCNamespace := "default" ]};
  v_NfsServiceEndpoint := Some "10.1.1.1:1111"; v_MasterHealth := "online"; v_Version := "1" |}.

Definition shared_world : handler memory := fun c m =>
  match c return ret c * memory with
  | CP_ListNamespaces _ => (([{| ns_Id := "ns1"; ns_Name := "default"; ns_Labels := None; ns_Version := "1" |}], None, None), m)
  | CP_ListVolumes _ _ => (([listed], None, None), m)
  | CP_GetVolume _ _ _ => ((listed, None, None), m)
  | K_GetPVC _ => (inl {| pvc_meta := meta "claim" "default" None []; pvc_StorageClassName := None; pvc_VolumeName := "pvc-1" |}, m)
  | Now => (100%Z, m)
  | c => memory_services c m
  end.

Example Start_example :
  let r := NewReconciler example_client 5 60 1 3 in
  let run := exec_trace shared_world (Start r background 1) ([], []) in
  map (fun t => match exec_result shared_world (Start r background 1) ([], []) with
                | Done (volumes, None) => up_to_date volumes (with_external example_volume "10.0.0.1:2049") t
                | _ => false
                end) [150; 161]%Z = [true; false] /\
  length (mutations run) = 4.
Proof. vm_compute. by split. Qed.

(** In that run the volume with its endpoint was verified by time 150. *)
Lemma Start_skips_verified_witness :
  exists before pass after now,
    exec_trace shared_world (Start (NewReconciler example_client 5 60 1 3) background 1) ([], []) = before ++ pass ++ after /\
    verified_at (with_external example_volume "10.0.0.1:2049") now pass.
Proof.
  assert (Hb : bounded_poll 1 3) by (split; [reflexivity|discriminate]).
  pose proof (Start_skips_verified example_client 5 60 1 3 background 1 Hb) as Hall. cbv zeta in Hall.
  pose proof (every_run_exec shared_world _ ([], []) _ Hall) as Hrun. cbv beta in Hrun.
  destruct Hrun as (volumes & Hdone & Hskip).
  destruct (Hskip (with_external example_volume "10.0.0.1:2049") 150%Z) as (before & pass & after & now & Htr & Hv & _).
  - vm_compute in Hdone. injection Hdone as <-. vm_compute. reflexivity.
  - exists before, pass, after, now. split; [exact Htr|exact Hv].
Defined.
