(* ===== verification/Aes.v ===== *)
(** * AES ([crypto/aes] of Go's standard library)

    The block cipher that [internal/pkg/crypto] calls, as FIPS 197 defines it,
    for the three key sizes [aes.NewCipher] accepts, together with its inverse.
    A block is four columns of four bytes, so every operation is total.  The
    file ends with the interface [Block] of [crypto/cipher] and the proof that
    AES implements it. *)

From Stdlib Require Import NArith ZArith Lia Btauto.
From S2P Require Import Prelude GoLib Types.

(** ** Bytes *)

Definition byte_of_N (n : N) : byte := default x00 (Byte.of_N (n mod 256)).

Definition bxor (a b : byte) : byte :=
  let '(a0, (a1, (a2, (a3, (a4, (a5, (a6, a7))))))) := Byte.to_bits a in
  let '(b0, (b1, (b2, (b3, (b4, (b5, (b6, b7))))))) := Byte.to_bits b in
  Byte.of_bits (xorb a0 b0, (xorb a1 b1, (xorb a2 b2, (xorb a3 b3,
               (xorb a4 b4, (xorb a5 b5, (xorb a6 b6, xorb a7 b7))))))).

(** Multiplication by x in GF(256), modulo x^8 + x^4 + x^3 + x + 1; bits from
    the lowest. *)
Definition xtime (a : byte) : byte :=
  let '(a0, (a1, (a2, (a3, (a4, (a5, (a6, a7))))))) := Byte.to_bits a in
  Byte.of_bits (a7, (xorb a0 a7, (a1, (xorb a2 a7, (xorb a3 a7, (a4, (a5, a6))))))).

(** Go to the bits of the bytes of an equation. *)
Ltac on_bits a :=
  rewrite <- (Byte.of_bits_to_bits a);
  destruct (Byte.to_bits a) as (? & ? & ? & ? & ? & ? & ? & ?).
Ltac by_bits :=
  unfold bxor, xtime; rewrite ?Byte.to_bits_of_bits; apply (f_equal Byte.of_bits); repeat (apply f_equal2; [btauto|]); btauto.

Lemma bxor_comm a b : bxor a b = bxor b a.
Proof. on_bits a; on_bits b; by_bits. Qed.

Lemma bxor_assoc a b c : bxor (bxor a b) c = bxor a (bxor b c).
Proof. on_bits a; on_bits b; on_bits c; by_bits. Qed.

Lemma bxor_nilpotent a : bxor a a = x00.
Proof. by destruct a. Qed.

Lemma bxor_0_r a : bxor a x00 = a.
Proof. by destruct a. Qed.

Lemma bxor_cancel a b : bxor (bxor a b) b = a.
Proof. by rewrite bxor_assoc, bxor_nilpotent, bxor_0_r. Qed.

Lemma xtime_bxor a b : xtime (bxor a b) = bxor (xtime a) (xtime b).
Proof. on_bits a; on_bits b; by_bits. Qed.

(** ** The substitution box *)

Definition sbox_table : list byte :=
  [x63; x7c; x77; x7b; xf2; x6b; x6f; xc5; x30; x01; x67; x2b; xfe; xd7; xab; x76;
   xca; x82; xc9; x7d; xfa; x59; x47; xf0; xad; xd4; xa2; xaf; x9c; xa4; x72; xc0;
   xb7; xfd; x93; x26; x36; x3f; xf7; xcc; x34; xa5; xe5; xf1; x71; xd8; x31; x15;
   x04; xc7; x23; xc3; x18; x96; x05; x9a; x07; x12; x80; xe2; xeb; x27; xb2; x75;
   x09; x83; x2c; x1a; x1b; x6e; x5a; xa0; x52; x3b; xd6; xb3; x29; xe3; x2f; x84;
   x53; xd1; x00; xed; x20; xfc; xb1; x5b; x6a; xcb; xbe; x39; x4a; x4c; x58; xcf;
   xd0; xef; xaa; xfb; x43; x4d; x33; x85; x45; xf9; x02; x7f; x50; x3c; x9f; xa8;
   x51; xa3; x40; x8f; x92; x9d; x38; xf5; xbc; xb6; xda; x21; x10; xff; xf3; xd2;
   xcd; x0c; x13; xec; x5f; x97; x44; x17; xc4; xa7; x7e; x3d; x64; x5d; x19; x73;
   x60; x81; x4f; xdc; x22; x2a; x90; x88; x46; xee; xb8; x14; xde; x5e; x0b; xdb;
   xe0; x32; x3a; x0a; x49; x06; x24; x5c; xc2; xd3; xac; x62; x91; x95; xe4; x79;
   xe7; xc8; x37; x6d; x8d; xd5; x4e; xa9; x6c; x56; xf4; xea; x65; x7a; xae; x08;
   xba; x78; x25; x2e; x1c; xa6; xb4; xc6; xe8; xdd; x74; x1f; x4b; xbd; x8b; x8a;
   x70; x3e; xb5; x66; x48; x03; xf6; x0e; x61; x35; x57; xb9; x86; xc1; x1d; x9e;
   xe1; xf8; x98; x11; x69; xd9; x8e; x94; x9b; x1e; x87; xe9; xce; x55; x28; xdf;
   x8c; xa1; x89; x0d; xbf; xe6; x42; x68; x41; x99; x2d; x0f; xb0; x54; xbb; x16].

Definition inv_sbox_table : list byte :=
  [x52; x09; x6a; xd5; x30; x36; xa5; x38; xbf; x40; xa3; x9e; x81; xf3; xd7; xfb;
   x7c; xe3; x39; x82; x9b; x2f; xff; x87; x34; x8e; x43; x44; xc4; xde; xe9; xcb;
   x54; x7b; x94; x32; xa6; xc2; x23; x3d; xee; x4c; x95; x0b; x42; xfa; xc3; x4e;
   x08; x2e; xa1; x66; x28; xd9; x24; xb2; x76; x5b; xa2; x49; x6d; x8b; xd1; x25;
   x72; xf8; xf6; x64; x86; x68; x98; x16; xd4; xa4; x5c; xcc; x5d; x65; xb6; x92;
   x6c; x70; x48; x50; xfd; xed; xb9; xda; x5e; x15; x46; x57; xa7; x8d; x9d; x84;
   x90; xd8; xab; x00; x8c; xbc; xd3; x0a; xf7; xe4; x58; x05; xb8; xb3; x45; x06;
   xd0; x2c; x1e; x8f; xca; x3f; x0f; x02; xc1; xaf; xbd; x03; x01; x13; x8a; x6b;
   x3a; x91; x11; x41; x4f; x67; xdc; xea; x97; xf2; xcf; xce; xf0; xb4; xe6; x73;
   x96; xac; x74; x22; xe7; xad; x35; x85; xe2; xf9; x37; xe8; x1c; x75; xdf; x6e;
   x47; xf1; x1a; x71; x1d; x29; xc5; x89; x6f; xb7; x62; x0e; xaa; x18; xbe; x1b;
   xfc; x56; x3e; x4b; xc6; xd2; x79; x20; x9a; xdb; xc0; xfe; x78; xcd; x5a; xf4;
   x1f; xdd; xa8; x33; x88; x07; xc7; x31; xb1; x12; x10; x59; x27; x80; xec; x5f;
   x60; x51; x7f; xa9; x19; xb5; x4a; x0d; x2d; xe5; x7a; x9f; x93; xc9; x9c; xef;
   xa0; xe0; x3b; x4d; xae; x2a; xf5; xb0; xc8; xeb; xbb; x3c; x83; x53; x99; x61;
   x17; x2b; x04; x7e; xba; x77; xd6; x26; xe1; x69; x14; x63; x55; x21; x0c; x7d].

Definition sbox (b : byte) : byte := nth (N.to_nat (Byte.to_N b)) sbox_table x00.
Definition inv_sbox (b : byte) : byte := nth (N.to_nat (Byte.to_N b)) inv_sbox_table x00.

Lemma inv_sbox_sbox a : inv_sbox (sbox a) = a.
Proof. by destruct a. Qed.

(** Multiplication by a constant below 16, as in the matrices of MixColumns. *)
Definition gmul (k : N) (b : byte) : byte :=
  let part i x := if N.testbit k i then x else x00 in
  bxor (bxor (part 0%N b) (part 1%N (xtime b)))
       (bxor (part 2%N (xtime (xtime b))) (part 3%N (xtime (xtime (xtime b))))).

(** ** Columns and blocks *)

Record column := Col { c0 : byte; c1 : byte; c2 : byte; c3 : byte }.
Record block := Blk { b0 : column; b1 : column; b2 : column; b3 : column }.

Definition col_map (f : byte -> byte) (c : column) : column := Col (f (c0 c)) (f (c1 c)) (f (c2 c)) (f (c3 c)).
Definition blk_map (f : column -> column) (b : block) : block := Blk (f (b0 b)) (f (b1 b)) (f (b2 b)) (f (b3 b)).

Definition col_xor (c d : column) : column :=
  Col (bxor (c0 c) (c0 d)) (bxor (c1 c) (c1 d)) (bxor (c2 c) (c2 d)) (bxor (c3 c) (c3 d)).
Definition blk_xor (a b : block) : block :=
  Blk (col_xor (b0 a) (b0 b)) (col_xor (b1 a) (b1 b)) (col_xor (b2 a) (b2 b)) (col_xor (b3 a) (b3 b)).

Lemma col_xor_cancel c d : col_xor (col_xor c d) d = c.
Proof. destruct c, d. unfold col_xor; simpl. by rewrite !bxor_cancel. Qed.

Lemma blk_xor_cancel a b : blk_xor (blk_xor a b) b = a.
Proof. destruct a, b. unfold blk_xor; simpl. by rewrite !col_xor_cancel. Qed.

(** ** The transformations of a round *)

Definition SubBytes : block -> block := blk_map (col_map sbox).
Definition InvSubBytes : block -> block := blk_map (col_map inv_sbox).

Definition ShiftRows (b : block) : block :=
  let '(Blk x y z w) := b in
  Blk (Col (c0 x) (c1 y) (c2 z) (c3 w)) (Col (c0 y) (c1 z) (c2 w) (c3 x))
      (Col (c0 z) (c1 w) (c2 x) (c3 y)) (Col (c0 w) (c1 x) (c2 y) (c3 z)).
Definition InvShiftRows (b : block) : block :=
  let '(Blk x y z w) := b in
  Blk (Col (c0 x) (c1 w) (c2 z) (c3 y)) (Col (c0 y) (c1 x) (c2 w) (c3 z))
      (Col (c0 z) (c1 y) (c2 x) (c3 w)) (Col (c0 w) (c1 z) (c2 y) (c3 x)).

(** The product of a column by the circulant matrix whose first row is given. *)
Definition mix (m0 m1 m2 m3 : N) (c : column) : column :=
  let dot p q r s := bxor (bxor (gmul p (c0 c)) (gmul q (c1 c))) (bxor (gmul r (c2 c)) (gmul s (c3 c))) in
  Col (dot m0 m1 m2 m3) (dot m3 m0 m1 m2) (dot m2 m3 m0 m1) (dot m1 m2 m3 m0).

Definition MixColumns : block -> block := blk_map (mix 2 3 1 1).
Definition InvMixColumns : block -> block := blk_map (mix 14 11 13 9).

Lemma InvSubBytes_SubBytes b : InvSubBytes (SubBytes b) = b.
Proof. destruct b as [[] [] [] []]. unfold InvSubBytes, SubBytes, blk_map, col_map; simpl. by rewrite !inv_sbox_sbox. Qed.

Lemma InvShiftRows_ShiftRows b : InvShiftRows (ShiftRows b) = b.
Proof. by destruct b as [[] [] [] []]. Qed.

(** Mixing is linear, so its inverse is checked on columns with one byte. *)
Lemma bxor_interchange a b c d : bxor (bxor a b) (bxor c d) = bxor (bxor a c) (bxor b d).
Proof. rewrite !bxor_assoc. f_equal. by rewrite <- !bxor_assoc, (bxor_comm b c). Qed.

Lemma bxor_interchange4 a a' b b' c c' d d' :
  bxor (bxor (bxor a a') (bxor b b')) (bxor (bxor c c') (bxor d d')) =
  bxor (bxor (bxor a b) (bxor c d)) (bxor (bxor a' b') (bxor c' d')).
Proof. by rewrite (bxor_interchange a a'), (bxor_interchange c c'), bxor_interchange. Qed.

Lemma gmul_bxor k a b : gmul k (bxor a b) = bxor (gmul k a) (gmul k b).
Proof.
  unfold gmul. rewrite !xtime_bxor, <- bxor_interchange4.
  by destruct (N.testbit k 0), (N.testbit k 1), (N.testbit k 2), (N.testbit k 3).
Qed.

Lemma mix_xor m0 m1 m2 m3 c d :
  mix m0 m1 m2 m3 (col_xor c d) = col_xor (mix m0 m1 m2 m3 c) (mix m0 m1 m2 m3 d).
Proof. unfold mix, col_xor. cbn [c0 c1 c2 c3]. rewrite !gmul_bxor. f_equal; apply bxor_interchange4. Qed.

Lemma column_split c :
  c = col_xor (col_xor (Col (c0 c) x00 x00 x00) (Col x00 (c1 c) x00 x00))
              (col_xor (Col x00 x00 (c2 c) x00) (Col x00 x00 x00 (c3 c))).
Proof. destruct c. unfold col_xor. simpl. by rewrite ?(bxor_comm x00), ?bxor_0_r, ?(bxor_comm x00), ?bxor_0_r. Qed.

Lemma inv_mix c : mix 14 11 13 9 (mix 2 3 1 1 c) = c.
Proof.
  rewrite (column_split c). rewrite !mix_xor.
  assert (H0 : forall a, mix 14 11 13 9 (mix 2 3 1 1 (Col a x00 x00 x00)) = Col a x00 x00 x00) by (by intros []).
  assert (H1 : forall a, mix 14 11 13 9 (mix 2 3 1 1 (Col x00 a x00 x00)) = Col x00 a x00 x00) by (by intros []).
  assert (H2 : forall a, mix 14 11 13 9 (mix 2 3 1 1 (Col x00 x00 a x00)) = Col x00 x00 a x00) by (by intros []).
  assert (H3 : forall a, mix 14 11 13 9 (mix 2 3 1 1 (Col x00 x00 x00 a)) = Col x00 x00 x00 a) by (by intros []).
  by rewrite H0, H1, H2, H3.
Qed.

Lemma InvMixColumns_MixColumns b : InvMixColumns (MixColumns b) = b.
Proof. destruct b. unfold InvMixColumns, MixColumns, blk_map; simpl. by rewrite !inv_mix. Qed.

(** ** The rounds *)

(** The rounds after the first key addition, the last one without mixing. *)
Fixpoint rounds (ks : list block) (s : block) : block :=
  match ks with
  | [] => s
  | [k] => blk_xor (ShiftRows (SubBytes s)) k
  | k :: ks' => rounds ks' (blk_xor (MixColumns (ShiftRows (SubBytes s))) k)
  end.

Fixpoint inv_rounds (ks : list block) (s : block) : block :=
  match ks with
  | [] => s
  | [k] => InvSubBytes (InvShiftRows (blk_xor s k))
  | k :: ks' => InvSubBytes (InvShiftRows (InvMixColumns (blk_xor (inv_rounds ks' s) k)))
  end.

Lemma inv_rounds_rounds ks s : inv_rounds ks (rounds ks s) = s.
Proof.
  revert s. induction ks as [|k ks IH]; intros s; [done|]. destruct ks as [|k' ks].
  - cbn [rounds inv_rounds]. by rewrite blk_xor_cancel, InvShiftRows_ShiftRows, InvSubBytes_SubBytes.
  - cbn [rounds inv_rounds] in *. rewrite IH, blk_xor_cancel, InvMixColumns_MixColumns.
    by rewrite InvShiftRows_ShiftRows, InvSubBytes_SubBytes.
Qed.

(** ** The key schedule *)

Definition RotWord (c : column) : column := Col (c1 c) (c2 c) (c3 c) (c0 c).
Definition SubWord : column -> column := col_map sbox.

(** The word at position [i], from the earlier ones, the newest first. *)
Definition next_word (nk i : nat) (rcon : byte) (ws : list column) : column :=
  let temp := nth 0 ws (Col x00 x00 x00 x00) in
  let t := if Nat.eqb (Nat.modulo i nk) 0 then col_xor (SubWord (RotWord temp)) (Col rcon x00 x00 x00)
           else if Nat.ltb 6 nk && Nat.eqb (Nat.modulo i nk) 4 then SubWord temp else temp in
  col_xor (nth (nk - 1) ws (Col x00 x00 x00 x00)) t.

Fixpoint expand (nk n i : nat) (rcon : byte) (ws : list column) : list column :=
  match n with
  | O => rev ws
  | S n' => expand nk n' (S i) (if Nat.eqb (Nat.modulo i nk) 0 then xtime rcon else rcon)
              (next_word nk i rcon ws :: ws)
  end.

Fixpoint columns_of (l : list byte) : list column :=
  match l with
  | a :: b :: c :: d :: l' => Col a b c d :: columns_of l'
  | _ => []
  end.

Fixpoint blocks_of_columns (l : list column) : list block :=
  match l with
  | a :: b :: c :: d :: l' => Blk a b c d :: blocks_of_columns l'
  | _ => []
  end.

Definition round_keys (key : list byte) : list block :=
  let nk := Nat.div (length key) 4 in
  blocks_of_columns (expand nk (4 * (nk + 7) - nk) nk x01 (rev (columns_of key))).

(** ** [aes.NewCipher] and the interface of a block cipher *)

(** A key that [aes.NewCipher] accepted. *)
Record cipher := Cipher { cipher_keys : list block }.

Definition NewCipher (key : list byte) : cipher + string :=
  if bool_decide (length key ∈ [16; 24; 32]) then inl (Cipher (round_keys key))
  else inr ("crypto/aes: invalid key size " +:+ Itoa (Z.of_nat (length key))).

(** [cipher.Block]: what the modes of operation rely on. *)
Class BlockCipher (K : Type) := {
  EncryptBlock : K -> block -> block;
  DecryptBlock : K -> block -> block;
  Decrypt_Encrypt : forall k b, DecryptBlock k (EncryptBlock k b) = b;
}.

Definition aes_encrypt (c : cipher) (b : block) : block :=
  match cipher_keys c with [] => b | k :: ks => rounds ks (blk_xor b k) end.

Definition aes_decrypt (c : cipher) (b : block) : block :=
  match cipher_keys c with [] => b | k :: ks => blk_xor (inv_rounds ks b) k end.

Lemma aes_decrypt_encrypt c b : aes_decrypt c (aes_encrypt c b) = b.
Proof.
  unfold aes_decrypt, aes_encrypt. destruct (cipher_keys c) as [|k ks]; [done|].
  by rewrite inv_rounds_rounds, blk_xor_cancel.
Qed.

#[export] Instance aes : BlockCipher cipher :=
  {| EncryptBlock := aes_encrypt; DecryptBlock := aes_decrypt; Decrypt_Encrypt := aes_decrypt_encrypt |}.

(** ** Blocks and byte strings *)

Definition blocks_of (l : list byte) : list block := blocks_of_columns (columns_of l).

Definition col_bytes (c : column) : list byte := [c0 c; c1 c; c2 c; c3 c].
Definition blk_bytes (b : block) : list byte :=
  col_bytes (b0 b) ++ col_bytes (b1 b) ++ col_bytes (b2 b) ++ col_bytes (b3 b).
Definition bytes_of_blocks (bs : list block) : list byte := concat (map blk_bytes bs).

Lemma blocks_of_bytes bs : blocks_of (bytes_of_blocks bs) = bs.
Proof.
  unfold blocks_of, bytes_of_blocks. induction bs as [|[[] [] [] []] bs IH]; [done|]. simpl. by rewrite IH.
Qed.

Lemma length_bytes_of_blocks bs : length (bytes_of_blocks bs) = 16 * length bs.
Proof. unfold bytes_of_blocks. induction bs as [|b bs IH]; [done|]. simpl. rewrite IH. lia. Qed.

Lemma bytes_of_blocks_of n l : length l = 16 * n -> bytes_of_blocks (blocks_of l) = l /\ length (blocks_of l) = n.
Proof.
  revert l. induction n as [|n IH]; intros l Hl.
  { by destruct l. }
  do 16 (destruct l as [|? l]; [simpl in Hl; lia|]).
  destruct (IH l) as [H1 H2]; [simpl in Hl; lia|].
  unfold blocks_of, bytes_of_blocks in *. simpl. rewrite H2. split; [|done]. by rewrite H1.
Qed.

(** The example of FIPS 197, appendix C.3. *)
Example aes256_fips197 :
  let key := map (fun n => byte_of_N (N.of_nat n)) (seq 0 32) in
  let plain := map (fun n => byte_of_N (17 * N.of_nat n)) (seq 0 16) in
  match NewCipher key with
  | inl c => map (fun b => blk_bytes (aes_encrypt c b)) (blocks_of plain)
  | inr _ => []
  end = [[x8e; xa2; xb7; xca; x51; x67; x45; xbf; xea; xfc; x49; x90; x4b; x49; x60; x89]].
Proof. vm_compute. reflexivity. Qed.
