(* ===== verification/Sha256.v ===== *)
(** * SHA-256, HMAC and HKDF

    [crypto/sha256] and [crypto/hmac] of Go's standard library, on whole
    messages, and the vendored [golang.org/x/crypto/hkdf], whose reader is
    modelled with its counter, its previous block and its buffer. *)

From Stdlib Require Import NArith ZArith Lia.
From S2P Require Import Prelude GoLib Types Aes.

(** ** SHA-256 *)

(** 32-bit words, with wrap-around. *)
Definition w32 (n : N) : N := (n mod 2 ^ 32)%N.
Definition add32 (a b : N) : N := w32 (a + b).
Definition rotr (k n : N) : N := N.lor (N.shiftr n k) (w32 (N.shiftl n (32 - k))).
Definition not32 (n : N) : N := N.lxor n (2 ^ 32 - 1).

(** The constants come from the first primes: the first 32 bits of the
    fractional parts of their cube roots, and of the square roots of the first
    eight, as the standard defines them. *)
Definition is_prime (n : N) : bool :=
  forallb (fun d => negb (n mod N.of_nat d =? 0)%N) (seq 2 (N.to_nat n - 2)).

Definition first_primes (count bound : nat) : list N :=
  take count (List.filter is_prime (map N.of_nat (seq 2 bound))).

(** The integer cube root, bit by bit from bit [fuel]. *)
Fixpoint cube_root (fuel : nat) (n r : N) : N :=
  match fuel with
  | O => r
  | S fuel' =>
      let r' := (r + 2 ^ N.of_nat fuel')%N in
      cube_root fuel' n (if (r' * r' * r' <=? n)%N then r' else r)
  end.

Definition sha_K : list N :=
  Eval vm_compute in map (fun p => w32 (cube_root 36 (p * 2 ^ 96) 0)) (first_primes 64 320).

Definition sha_H : list N :=
  Eval vm_compute in map (fun p => w32 (N.sqrt (p * 2 ^ 64))) (first_primes 8 20).

Definition Ch (x y z : N) : N := N.lxor (N.land x y) (N.land (not32 x) z).
Definition Maj (x y z : N) : N := N.lxor (N.lxor (N.land x y) (N.land x z)) (N.land y z).
Definition Sigma0 (x : N) : N := N.lxor (N.lxor (rotr 2 x) (rotr 13 x)) (rotr 22 x).
Definition Sigma1 (x : N) : N := N.lxor (N.lxor (rotr 6 x) (rotr 11 x)) (rotr 25 x).
Definition sigma0 (x : N) : N := N.lxor (N.lxor (rotr 7 x) (rotr 18 x)) (N.shiftr x 3).
Definition sigma1 (x : N) : N := N.lxor (N.lxor (rotr 17 x) (rotr 19 x)) (N.shiftr x 10).

Definition word_of (c : column) : N :=
  N.lor (N.lor (N.shiftl (Byte.to_N (c0 c)) 24) (N.shiftl (Byte.to_N (c1 c)) 16))
        (N.lor (N.shiftl (Byte.to_N (c2 c)) 8) (Byte.to_N (c3 c))).

Definition word_bytes (n : N) : list byte :=
  [byte_of_N (N.shiftr n 24); byte_of_N (N.shiftr n 16); byte_of_N (N.shiftr n 8); byte_of_N n].

(** The message schedule, the newest word first. *)
Fixpoint schedule (n : nat) (ws : list N) : list N :=
  match n with
  | O => rev ws
  | S n' =>
      let w i := nth i ws 0%N in
      schedule n' (add32 (add32 (sigma1 (w 1)) (w 6)) (add32 (sigma0 (w 14)) (w 15)) :: ws)
  end.

(** The state: eight words. *)
Record sha_state := Sha { s_a : N; s_b : N; s_c : N; s_d : N; s_e : N; s_f : N; s_g : N; s_h : N }.

Definition sha_round (s : sha_state) (kw : N * N) : sha_state :=
  let t1 := add32 (add32 (s_h s) (Sigma1 (s_e s))) (add32 (Ch (s_e s) (s_f s) (s_g s)) (add32 kw.1 kw.2)) in
  let t2 := add32 (Sigma0 (s_a s)) (Maj (s_a s) (s_b s) (s_c s)) in
  Sha (add32 t1 t2) (s_a s) (s_b s) (s_c s) (add32 (s_d s) t1) (s_e s) (s_f s) (s_g s).

(** The compression of a block of sixteen words. *)
Definition compress (s : sha_state) (ws : list N) : sha_state :=
  let r := foldl sha_round s (combine sha_K (schedule 48 (rev ws))) in
  Sha (add32 (s_a s) (s_a r)) (add32 (s_b s) (s_b r)) (add32 (s_c s) (s_c r)) (add32 (s_d s) (s_d r))
      (add32 (s_e s) (s_e r)) (add32 (s_f s) (s_f r)) (add32 (s_g s) (s_g r)) (add32 (s_h s) (s_h r)).

Definition sha_init : sha_state :=
  let h i := nth i sha_H 0%N in
  Sha (h 0) (h 1) (h 2) (h 3) (h 4) (h 5) (h 6) (h 7).

(** Padding to blocks of 64 bytes: a one bit, zeros, the length in bits. *)
Definition sha_pad (m : list byte) : list byte :=
  let n := length m in
  let zeros := Nat.modulo (119 - Nat.modulo n 64) 64 in
  let bits := (8 * N.of_nat n)%N in
  m ++ [x80] ++ repeat x00 zeros ++ word_bytes (N.shiftr bits 32) ++ word_bytes bits.

(** Compress [n] blocks of sixteen words. *)
Fixpoint sha_blocks (n : nat) (s : sha_state) (ws : list N) : sha_state :=
  match n with
  | O => s
  | S n' => sha_blocks n' (compress s (take 16 ws)) (drop 16 ws)
  end.

Definition sha_bytes (s : sha_state) : list byte :=
  word_bytes (s_a s) ++ word_bytes (s_b s) ++ word_bytes (s_c s) ++ word_bytes (s_d s) ++
  word_bytes (s_e s) ++ word_bytes (s_f s) ++ word_bytes (s_g s) ++ word_bytes (s_h s).

Definition sha256 (m : list byte) : list byte :=
  let ws := map word_of (columns_of (sha_pad m)) in
  sha_bytes (sha_blocks (Nat.div (length ws) 16) sha_init ws).

(** [sha256.Size] and [sha256.BlockSize]. *)
Definition sha_Size : nat := 32.
Definition sha_BlockSize : nat := 64.

Lemma length_sha256 m : length (sha256 m) = sha_Size.
Proof. unfold sha256. by destruct (sha_blocks _ _ _). Qed.

(** ** HMAC *)

Definition hmac_key (key : list byte) : list byte :=
  let k := if Nat.ltb sha_BlockSize (length key) then sha256 key else key in
  k ++ repeat x00 (sha_BlockSize - length k).

Definition hmac (key message : list byte) : list byte :=
  let k := hmac_key key in
  sha256 (map (bxor x5c) k ++ sha256 (map (bxor x36) k ++ message)).

Lemma length_hmac key m : length (hmac key m) = sha_Size.
Proof. apply length_sha256. Qed.

(** ** HKDF *)

(** A nil salt is replaced by zeros. *)
Definition Extract (secret : list byte) (salt : option (list byte)) : list byte :=
  hmac (default (repeat x00 sha_Size) salt) secret.

(** The reader: the key of its expander, its counter, previous block and buffer. *)
Record hkdf := { expander : list byte; info : list byte; counter : N; prev : list byte; buf : list byte }.

Definition Expand (pseudorandomKey info : list byte) : hkdf :=
  {| expander := pseudorandomKey; info := info; counter := 1; prev := []; buf := [] |}.

Definition hkdf_New (secret : list byte) (salt : option (list byte)) (info : list byte) : hkdf :=
  Expand (Extract secret salt) info.

(** The loop of [Read]: [need] bytes are still wanted, [out] is filled; one
    iteration produces [sha_Size] bytes, so [need] iterations are enough. *)
Fixpoint hkdf_fill (fuel need : nat) (f : hkdf) (out : list byte) : list byte * hkdf :=
  match fuel with
  | O => (out, f)
  | S fuel' =>
      if Nat.eqb need 0 then (out, f)
      else
        let prev' := hmac (expander f) (prev f ++ info f ++ [byte_of_N (counter f)]) in
        let n := Nat.min need (length prev') in
        hkdf_fill fuel' (need - n)
          {| expander := expander f; info := info f; counter := ((counter f + 1) mod 256)%N; prev := prev'; buf := drop n prev' |}
          (out ++ take n prev')
  end.

(** [Read(p)] for a buffer of [need] bytes; the remaining entropy is computed
    on a byte. *)
Definition hkdf_Read (f : hkdf) (need : nat) : (list byte * hkdf) + string :=
  let remains := (N.of_nat (length (buf f)) + (256 + 255 - counter f + 1) mod 256 * N.of_nat sha_Size)%N in
  if (remains <? N.of_nat need)%N then inr "hkdf: entropy limit reached"
  else
    let n := Nat.min need (length (buf f)) in
    let f' := {| expander := expander f; info := info f; counter := counter f; prev := prev f; buf := drop n (buf f) |} in
    inl (hkdf_fill need (need - n) f' (take n (buf f))).

(** The loop fills the buffer exactly. *)
Lemma length_hkdf_fill fuel need f out :
  need <= fuel -> length (hkdf_fill fuel need f out).1 = length out + need.
Proof.
  revert need f out. induction fuel as [|fuel IH]; intros need f out Hf; cbn [hkdf_fill]; [simpl; lia|].
  destruct (Nat.eqb_spec need 0) as [->|Hn]; [simpl; lia|].
  rewrite IH by (rewrite length_hmac; unfold sha_Size; lia).
  rewrite length_app, length_take, length_hmac. unfold sha_Size. lia.
Qed.

Lemma length_hkdf_Read f need out f' : hkdf_Read f need = inl (out, f') -> length out = need.
Proof.
  unfold hkdf_Read. destruct (_ <? _)%N; [done|]. intros [= H].
  pose proof (length_hkdf_fill need (need - Nat.min need (length (buf f)))
    {| expander := expander f; info := info f; counter := counter f; prev := prev f;
       buf := drop (Nat.min need (length (buf f))) (buf f) |} (take (Nat.min need (length (buf f))) (buf f)) ltac:(lia)) as Hl.
  rewrite H in Hl. simpl in Hl. rewrite length_take in Hl. lia.
Qed.

(** Test vectors: FIPS 180-4 ("abc"), RFC 4231 (case 2), RFC 5869 (case 1). *)
Example sha256_abc :
  sha256 [x61; x62; x63] =
  [xba; x78; x16; xbf; x8f; x01; xcf; xea; x41; x41; x40; xde; x5d; xae; x22; x23;
   xb0; x03; x61; xa3; x96; x17; x7a; x9c; xb4; x10; xff; x61; xf2; x00; x15; xad].
Proof. vm_compute. reflexivity. Qed.

Example hmac_rfc4231 :
  hmac [x4a; x65; x66; x65]
    [x77; x68; x61; x74; x20; x64; x6f; x20; x79; x61; x20; x77; x61; x6e; x74; x20; x66; x6f; x72; x20;
     x6e; x6f; x74; x68; x69; x6e; x67; x3f] =
  [x5b; xdc; xc1; x46; xbf; x60; x75; x4e; x6a; x04; x24; x26; x08; x95; x75; xc7;
   x5a; x00; x3f; x08; x9d; x27; x39; x83; x9d; xec; x58; xb9; x64; xec; x38; x43].
Proof. vm_compute. reflexivity. Qed.

Example hkdf_rfc5869 :
  match hkdf_Read (hkdf_New (repeat x0b 22) (Some [x00; x01; x02; x03; x04; x05; x06; x07; x08; x09; x0a; x0b; x0c])
                    [xf0; xf1; xf2; xf3; xf4; xf5; xf6; xf7; xf8; xf9]) 42 with
  | inl (out, _) => out
  | inr _ => []
  end =
  [x3c; xb2; x5f; x25; xfa; xac; xd5; x7a; x90; x43; x4f; x64; xd0; x36; x2f; x2a;
   x2d; x2d; x0a; x90; xcf; x1a; x5a; x4c; x5d; xb0; x2d; x56; xec; xc4; xc5; xbf;
   x34; x00; x72; x08; xd5; xb8; x87; x18; x58; x65].
Proof. vm_compute. reflexivity. Qed.
