(* ===== verification/Crypto.v ===== *)
(** * Volume encryption ([internal/pkg/crypto])

    Random keys, the intermediate key by HKDF, AES in CBC mode and the HMAC of
    [crypto.go].  The mode of operation is proved against the interface of a
    block cipher, which AES implements. *)

From Stdlib Require Import ZArith Lia.
From S2P Require Import Prelude GoLib Json Errors Types Effects Aes Sha256.

#[export] Instance byte_eq_decision : EqDecision byte := Byte.byte_eq_dec.

(** ** [crypto/cipher]: cipher block chaining *)

Section cbc.
Context {K : Type} `{BlockCipher K}.

Fixpoint cbc_encrypt (k : K) (iv : block) (bs : list block) : list block :=
  match bs with
  | [] => []
  | b :: bs' => let e := EncryptBlock k (blk_xor b iv) in e :: cbc_encrypt k e bs'
  end.

Fixpoint cbc_decrypt (k : K) (iv : block) (bs : list block) : list block :=
  match bs with
  | [] => []
  | e :: bs' => blk_xor (DecryptBlock k e) iv :: cbc_decrypt k e bs'
  end.

Lemma cbc_decrypt_encrypt k iv bs : cbc_decrypt k iv (cbc_encrypt k iv bs) = bs.
Proof.
  revert iv. induction bs as [|b bs IH]; intros iv; [done|]. cbn [cbc_encrypt cbc_decrypt].
  by rewrite Decrypt_Encrypt, blk_xor_cancel, IH.
Qed.

Lemma length_cbc_encrypt k iv bs : length (cbc_encrypt k iv bs) = length bs.
Proof. revert iv. induction bs as [|b bs IH]; intros iv; simpl; auto. Qed.
End cbc.

(** ** crypto.go *)

Definition BlockSize : nat := 16.

(** Reading [n] random bytes into a buffer of [n] zeros. *)
Definition fill (n : nat) (bs : list byte) : list byte := take n (bs ++ repeat x00 n).

Definition GenerateRandomBytes (n : nat) : prog (list byte + error) :=
  r ← Call (RandRead n);
  match r with
  | inr e => mret (inr e)
  | inl bs => mret (inl (fill n bs))
  end.

Definition GenerateVMK : prog (list byte + error) := GenerateRandomBytes 64.
Definition GenerateIV : prog (list byte + error) := GenerateRandomBytes 32.
Definition GenerateUserKey : prog (list byte + error) := GenerateRandomBytes 32.

Definition CreateIK (userKey iv : list byte) : list byte + error :=
  match hkdf_Read (hkdf_New userKey (Some iv) []) 32 with
  | inl (key, _) => inl key
  | inr msg => inr (Text msg)
  end.

(** The ciphertext starts with the random initialisation vector of the mode. *)
Definition Encrypt (plaintext key : list byte) : prog (list byte + error) :=
  if negb (Nat.eqb (Nat.modulo (length plaintext) BlockSize) 0) then
    mret (inr (Text "plaintext is not a multiple of the block size"))
  else
    match NewCipher key with
    | inr msg => mret (inr (Text msg))
    | inl c =>
        r ← Call (RandRead BlockSize);
        match r with
        | inr e => mret (inr e)
        | inl bs =>
            let iv := fill BlockSize bs in
            mret (inl (iv ++ match blocks_of iv with
                             | ivb :: _ => bytes_of_blocks (cbc_encrypt c ivb (blocks_of plaintext))
                             | [] => []
                             end))
        end
    end.

Definition Decrypt (ciphertext key : list byte) : list byte + error :=
  match NewCipher key with
  | inr msg => inr (Text msg)
  | inl c =>
      if Nat.ltb (length ciphertext) BlockSize then inr (Text "ciphertext too short")
      else
        let iv := take BlockSize ciphertext in
        let rest := drop BlockSize ciphertext in
        if negb (Nat.eqb (Nat.modulo (length rest) BlockSize) 0) then
          inr (Text "ciphertext is not a multiple of the block size")
        else
          inl match blocks_of iv with
              | ivb :: _ => bytes_of_blocks (cbc_decrypt c ivb (blocks_of rest))
              | [] => []
              end
  end.

(** Writing to the hash never fails. *)
Definition CreateHMAC (message key : list byte) : list byte + error := inl (hmac key message).

Definition CheckHMAC (message messageMAC key : list byte) : bool + error :=
  match CreateHMAC message key with
  | inr e => inr e
  | inl expectedMAC => inl (bool_decide (messageMAC = expectedMAC))
  end.

(** ** Properties *)

Lemma length_fill n bs : length (fill n bs) = n.
Proof. unfold fill. rewrite length_take, length_app, repeat_length. lia. Qed.

Definition aes_key (key : list byte) : Prop := length key ∈ [16; 24; 32].

Lemma NewCipher_spec key :
  match NewCipher key with inl _ => aes_key key | inr _ => ~ aes_key key end.
Proof. unfold NewCipher, aes_key. by case_bool_decide. Qed.

(** The intermediate key always exists, and is a key for AES-256. *)
Lemma CreateIK_spec userKey iv : exists key, CreateIK userKey iv = inl key /\ length key = 32.
Proof.
  unfold CreateIK. destruct (hkdf_Read _ 32) as [[key f]|msg] eqn:E.
  - exists key. split; [done|]. by eapply length_hkdf_Read.
  - exfalso. unfold hkdf_Read in E. by destruct (_ <? _)%N eqn:H in E.
Qed.

Lemma multiple_blocks (l : list byte) : Nat.eqb (Nat.modulo (length l) BlockSize) 0 = true ->
  bytes_of_blocks (blocks_of l) = l.
Proof.
  intros Hm%Nat.eqb_eq. apply (bytes_of_blocks_of (Nat.div (length l) 16)).
  pose proof (Nat.div_mod (length l) 16 ltac:(lia)) as Hd. unfold BlockSize in Hm. lia.
Qed.

(** Decrypting what was encrypted from any initialisation vector. *)
Lemma Decrypt_cbc key c iv plaintext :
  NewCipher key = inl c -> length iv = BlockSize ->
  Nat.eqb (Nat.modulo (length plaintext) BlockSize) 0 = true ->
  exists ciphertext,
    iv ++ match blocks_of iv with
          | ivb :: _ => bytes_of_blocks (cbc_encrypt c ivb (blocks_of plaintext))
          | [] => []
          end = ciphertext /\
    Decrypt ciphertext key = inl plaintext /\ length ciphertext = BlockSize + length plaintext.
Proof.
  intros Hc Hiv Hp. eexists. split; [reflexivity|].
  destruct (bytes_of_blocks_of 1 iv ltac:(unfold BlockSize in Hiv; lia)) as [_ Hlen].
  destruct (blocks_of iv) as [|ivb [|]] eqn:Eiv; try done.
  assert (Hbytes : length (bytes_of_blocks (cbc_encrypt c ivb (blocks_of plaintext))) = length plaintext).
  { rewrite length_bytes_of_blocks, length_cbc_encrypt, <- length_bytes_of_blocks. by rewrite multiple_blocks. }
  split; [|rewrite length_app; lia].
  unfold Decrypt. rewrite Hc, length_app, Hbytes, Hiv.
  replace (Nat.ltb (BlockSize + length plaintext) BlockSize) with false by (symmetry; apply Nat.ltb_ge; lia).
  rewrite take_app_length', drop_app_length' by done.
  rewrite Hbytes, Hp, Eiv. simpl negb. cbn iota. rewrite blocks_of_bytes, cbc_decrypt_encrypt.
  by rewrite multiple_blocks.
Qed.

(** What a run of [Encrypt] does: it only reads the random source. *)
Lemma Encrypt_run plaintext key :
  every_run (Encrypt plaintext key) (fun tr o =>
    mutations tr = [] /\
    match o with
    | Done (inl ciphertext) =>
        Nat.modulo (length plaintext) BlockSize = 0 /\ aes_key key /\
        Decrypt ciphertext key = inl plaintext /\ length ciphertext = BlockSize + length plaintext
    | Done (inr _) =>
        Nat.modulo (length plaintext) BlockSize <> 0 \/ ~ aes_key key \/
        exists e, existT (RandRead BlockSize) (inr e) ∈ tr
    | Panicked _ => False
    end).
Proof.
  unfold Encrypt. destruct (Nat.eqb (Nat.modulo (length plaintext) BlockSize) 0) eqn:Hp; cbn [negb].
  2:{ split; [done|]. left. by apply Nat.eqb_neq. }
  pose proof (NewCipher_spec key) as Hk.
  destruct (NewCipher key) as [c|msg] eqn:Hc; [|split; [done|]; by right; left].
  run_steps; (split; [done|]).
  - destruct (Decrypt_cbc key c (fill BlockSize l) plaintext Hc (length_fill _ _) Hp) as (ct & -> & Hd & Hl).
    split; [by apply Nat.eqb_eq|done].
  - right; right. eexists. by left.
Qed.

(** C27. Encryption never panics.  It succeeds exactly when the plaintext is a
    whole number of blocks, the key has an AES length and the random source
    answers; then decrypting the ciphertext with the same key gives back the
    plaintext, whatever initialisation vector was drawn, and the ciphertext is
    one block longer than the plaintext. *)
Theorem Encrypt_Decrypt plaintext key :
  every_run (Encrypt plaintext key) (fun tr o =>
    match o with
    | Done (inl ciphertext) =>
        Nat.modulo (length plaintext) BlockSize = 0 /\ aes_key key /\
        Decrypt ciphertext key = inl plaintext /\ length ciphertext = BlockSize + length plaintext
    | Done (inr _) =>
        Nat.modulo (length plaintext) BlockSize <> 0 \/ ~ aes_key key \/
        exists e, existT (RandRead BlockSize) (inr e) ∈ tr
    | Panicked _ => False
    end).
Proof.
  eapply every_run_mono; [apply Encrypt_run|]. by intros tr o [_ H].
Qed.
