(* ===== verification/Keys.v ===== *)
(** * Encryption keys ([controllers/pvc-mutator/encryption/keys])

    The key manager of [manager.go]: a key per namespace and a key per volume,
    each in a Kubernetes secret, the volume key wrapped by the key of its
    namespace; with the part of [encoding/hex] it uses. *)

From Stdlib Require Import NArith ZArith Lia.
From S2P Require Import Prelude GoLib Json Errors Types Effects Aes Sha256 Crypto.

(** ** [encoding/hex] *)

Definition hex_char (n : N) : ascii := ascii_of_N (if (n <? 10)%N then 48 + n else 87 + n).

Definition EncodeToString (bs : list byte) : string :=
  of_bytes (concat (map (fun b => [hex_char (Byte.to_N b / 16); hex_char (Byte.to_N b mod 16)]) bs)).

Definition fromHexChar (c : ascii) : option N :=
  let n := N_of_ascii c in
  if (48 <=? n)%N && (n <=? 57)%N then Some (n - 48)%N
  else if (97 <=? n)%N && (n <=? 102)%N then Some (n - 97 + 10)%N
  else if (65 <=? n)%N && (n <=? 70)%N then Some (n - 65 + 10)%N
  else None.

(** Pairs are decoded first; a single character at the end is an error too. *)
Fixpoint hex_decode (l : list ascii) : list byte + error :=
  match l with
  | [] => inl []
  | a :: b :: l' =>
      match fromHexChar a, fromHexChar b with
      | Some x, Some y =>
          match hex_decode l' with
          | inl bs => inl (byte_of_N (16 * x + y) :: bs)
          | inr e => inr e
          end
      | _, _ => inr (Text "encoding/hex: invalid byte")
      end
  | [a] =>
      match fromHexChar a with
      | None => inr (Text "encoding/hex: invalid byte")
      | Some _ => inr (Text "encoding/hex: odd length hex string")
      end
  end.

Definition DecodeString (s : string) : list byte + error := hex_decode (bytes_of s).

Lemma DecodeString_EncodeToString bs : DecodeString (EncodeToString bs) = inl bs.
Proof.
  unfold DecodeString, EncodeToString. rewrite bytes_of_of_bytes. induction bs as [|b bs IH]; [done|].
  cbn [map concat app hex_decode].
  assert (Hb : exists x y, fromHexChar (hex_char (Byte.to_N b / 16)) = Some x /\
                           fromHexChar (hex_char (Byte.to_N b mod 16)) = Some y /\ byte_of_N (16 * x + y) = b).
  { destruct b; vm_compute; eauto. }
  destruct Hb as (x & y & -> & -> & Hxy). by rewrite IH, Hxy.
Qed.

(** ** manager.go *)

Definition keyFromSecret (secret : Secret) : string + error :=
  match sec_Data secret with
  | None => inr (Sentinel ErrNoKeyInSecret)
  | Some data =>
      match data !! "key" with
      | Some key => if bool_decide (0 < length key) then inl (EncodeToString key)
                    else inr (Sentinel ErrNoKeyInSecret)
      | None => inr (Sentinel ErrNoKeyInSecret)
      end
  end.

(** [secret]: no owner, so that keys outlive the manager. *)
Definition new_secret (key : ObjectKey) (data : gmap string (list byte)) (ls : gomap) : Secret :=
  {| sec_meta := meta (k_name key) (k_namespace key) ls []; sec_Data := Some data |}.

Definition ensureNamespaceKey (nsKeyRef : ObjectKey) (ls : gomap) : prog (string + error) :=
  r ← Call (K_GetSecret nsKeyRef);
  match r with
  | inl existing => mret (keyFromSecret existing)
  | inr e =>
      if negb (IsNotFound e) then mret (inr e)
      else
        try GenerateUserKey (fun key =>
        try (Call (K_CreateSecret (new_secret nsKeyRef {[ "key" := key ]} ls))) (fun secret =>
        mret (keyFromSecret secret)))
  end.

Definition volume_data (vmk iv vuk mac : list byte) : gmap string (list byte) :=
  <[ "key" := vmk ]> (<[ "iv" := iv ]> (<[ "vuk" := vuk ]> {[ "hmac" := mac ]})).

Definition createVolumeKey (volKeyRef : ObjectKey) (nsKey : string) (ls : gomap) : prog (Secret + error) :=
  try GenerateIV (fun iv =>
  try GenerateVMK (fun vmk =>
  try (mret (DecodeString nsKey)) (fun nskeyBytes =>
  try (mret (CreateIK nskeyBytes iv)) (fun ik =>
  try (Encrypt vmk ik) (fun vuk =>
  try (mret (CreateHMAC vmk iv)) (fun mac =>
  Call (K_CreateSecret (new_secret volKeyRef (volume_data vmk iv vuk mac) ls)))))))).

(** The error that is returned, if any. *)
Definition err_of {A} (r : A + error) : option error :=
  match r with inl _ => None | inr e => Some e end.

Definition Ensure (nsKeyRef volKeyRef : ObjectKey) (nsSecretLabels volSecretLabels : gomap) : prog (option error) :=
  r ← Call (K_GetSecret volKeyRef);
  match r with
  | inl _ => mret None
  | inr e =>
      if negb (IsNotFound e) then mret (Some e)
      else
        r ← try (ensureNamespaceKey nsKeyRef nsSecretLabels) (fun nsKey =>
              createVolumeKey volKeyRef nsKey volSecretLabels);
        mret (err_of r)
  end.

(** ** What is stored, in every environment *)

(** Nothing below computes a digest or a cipher. *)
#[local] Opaque hmac hkdf_Read NewCipher EncodeToString.

Definition secret_key (s : Secret) : ObjectKey := meta_key (sec_meta s).

(** The master key of a volume can be recovered from its secret and the key of
    the namespace, and its integrity can be checked. *)
Definition sealed (nskey : list byte) (s : Secret) : Prop :=
  exists vmk iv vuk mac ik,
    sec_Data s = Some (volume_data vmk iv vuk mac) /\ length vmk = 64 /\ length iv = 32 /\
    CreateIK nskey iv = inl ik /\ Decrypt vuk ik = inl vmk /\ CheckHMAC vmk mac iv = inl true.

(** The API server returned, for [key], a secret that holds [nskey]. *)
Definition returned_key (key : ObjectKey) (nskey : string) (e : event) : Prop :=
  match e with
  | existT c r =>
      match c return ret c -> Prop with
      | K_GetSecret k => fun r => k = key /\ exists s, r = inl s /\ keyFromSecret s = inl nskey
      | K_CreateSecret s0 => fun r => secret_key s0 = key /\ exists s, r = inl s /\ keyFromSecret s = inl nskey
      | _ => fun _ => False
      end r
  end.

(** The API server has a secret for [key]: it returned it or accepted it. *)
Definition has_secret (key : ObjectKey) (e : event) : Prop :=
  match e with
  | existT c r =>
      match c return ret c -> Prop with
      | K_GetSecret k => fun r => k = key /\ exists s, r = inl s
      | K_CreateSecret s0 => fun r => secret_key s0 = key /\ exists s, r = inl s
      | _ => fun _ => False
      end r
  end.

Lemma secret_key_new key data ls : secret_key (new_secret key data ls) = key.
Proof. by destruct key. Qed.

Lemma keyFromSecret_hex s nsKey : keyFromSecret s = inl nsKey -> exists nskey, DecodeString nsKey = inl nskey /\ EncodeToString nskey = nsKey.
Proof.
  unfold keyFromSecret. destruct (sec_Data s) as [data|]; [|done]. destruct (data !! "key") as [k|]; [|done].
  case_bool_decide; [|done]. intros [= <-]. exists k. by rewrite DecodeString_EncodeToString.
Qed.

(** A program that stops at the first error. *)
Lemma every_run_try {A B} (p : prog (A + error)) (k : A -> prog (B + error)) (P : trace -> outcome (A + error) -> Prop) Q :
  every_run p P ->
  (forall tr a, P tr (Done (inl a)) -> every_run (k a) (fun tr' o => Q (tr ++ tr') o)) ->
  (forall tr e, P tr (Done (inr e)) -> Q tr (Done (inr e))) ->
  (forall tr m, P tr (Panicked m) -> Q tr (Panicked m)) ->
  every_run (try p k) Q.
Proof.
  intros Hp Hk He Hm. unfold try. eapply every_run_seq; [exact Hp| |exact Hm].
  intros tr [a|e] HP; [by apply Hk|]. apply every_run_ret. rewrite app_nil_r. by apply He.
Qed.

Lemma GenerateRandomBytes_run n :
  every_run (GenerateRandomBytes n) (fun tr o =>
    mutations tr = [] /\ match o with Done (inl bs) => length bs = n | Done (inr _) => True | Panicked _ => False end).
Proof. unfold GenerateRandomBytes. run_steps; split; try done. apply length_fill. Qed.

Lemma try_ret {A B} (r : A + error) (k : A -> prog (B + error)) :
  try (mret r) k = match r with inl a => k a | inr e => mret (inr e) end.
Proof. done. Qed.

(** The volume secret is built, sealed, and only then created. *)
Lemma createVolumeKey_run volKeyRef nsKey ls :
  every_run (createVolumeKey volKeyRef nsKey ls) (fun tr o =>
    match o with
    | Panicked _ => False
    | Done r =>
        (mutations tr = [] /\ exists e, r = inr e) \/
        exists s nskey, DecodeString nsKey = inl nskey /\ mutations tr = [K_CreateSecret s] /\
          sec_meta s = meta (k_name volKeyRef) (k_namespace volKeyRef) ls [] /\ sealed nskey s /\
          existT (K_CreateSecret s) r ∈ tr
    end).
Proof.
  eapply every_run_try; [apply GenerateRandomBytes_run| |naive_solver..]. intros tr1 iv [M1 Liv]. cbn beta.
  eapply every_run_try; [apply GenerateRandomBytes_run| |intros tr2 e [M2 _]; rewrite mutations_app, M1, M2; eauto|by intros ? ? []].
  intros tr2 vmk [M2 Lvmk]. rewrite try_ret.
  destruct (DecodeString nsKey) as [nskey|e] eqn:Hns.
  2:{ apply every_run_ret. rewrite app_nil_r, mutations_app, M1, M2. eauto. }
  destruct (CreateIK_spec nskey iv) as (ik & Hik & Lik). rewrite try_ret, Hik.
  eapply every_run_try; [apply Encrypt_run| | |by intros ? ? []].
  - intros tr3 vuk (M3 & _ & _ & Hdec & _). rewrite try_ret. apply every_run_call. intros r. right.
    eexists _, nskey. rewrite !mutations_app, M1, M2, M3, !elem_of_app. split_and!; try done.
    + exists vmk, iv, vuk, (hmac iv vmk), ik. split_and!; try done. unfold CheckHMAC. simpl. by rewrite bool_decide_eq_true_2.
    + right; right; right. by left.
  - intros tr3 e [M3 _]. left. rewrite !mutations_app, M1, M2, M3. eauto.
Qed.

Lemma ensureNamespaceKey_run nsKeyRef ls :
  every_run (ensureNamespaceKey nsKeyRef ls) (fun tr o =>
    (mutations tr = [] \/
     exists key, length key = 32 /\ mutations tr = [K_CreateSecret (new_secret nsKeyRef {[ "key" := key ]} ls)]) /\
    match o with
    | Panicked _ => False
    | Done (inl nsKey) => Exists (returned_key nsKeyRef nsKey) tr /\ exists s, keyFromSecret s = inl nsKey
    | Done (inr _) => True
    end).
Proof.
  unfold ensureNamespaceKey. run_step. run_step. destruct r as [s|e]; cbn iota beta.
  { split; [by left|]. destruct (keyFromSecret s) as [nsKey|] eqn:E; [|done].
    split; [|eauto]. apply Exists_cons. left. simpl. eauto. }
  destruct (negb (IsNotFound e)); [run_steps; by split; [left|]|].
  eapply every_run_try; [apply GenerateRandomBytes_run| |intros ? ? []; split; [by left|done]|by intros ? ? []].
  intros tr key [M Lk]. cbn beta.
  eapply every_run_try with (P := fun tr o => exists r, o = Done r /\
    tr = [existT (K_CreateSecret (new_secret nsKeyRef {[ "key" := key ]} ls)) r]).
  - apply every_run_call. eauto.
  - intros ? s (r & [= <-] & ->). apply every_run_ret. rewrite app_nil_r.
    split; [right; exists key; split; [done|]; simpl; by rewrite mutations_cons, mutations_app, M|].
    destruct (keyFromSecret s) as [nsKey|] eqn:E; [|done]. split; [|eauto].
    simpl. apply Exists_cons. right. apply Exists_app. right. apply Exists_cons. left. simpl.
    rewrite secret_key_new. eauto.
  - intros ? e' (r & [= <-] & ->). split; [|done]. right. exists key. split; [done|].
    simpl. by rewrite mutations_cons, mutations_app, M.
  - intros ? ? (? & ? & _). done.
Qed.

(** The secrets [Ensure] may create, given everything that was answered. *)
Definition key_secret (nsKeyRef volKeyRef : ObjectKey) (nsLabels volLabels : gomap) (tr : trace) (c : call) : Prop :=
  (exists key, length key = 32 /\ c = K_CreateSecret (new_secret nsKeyRef {[ "key" := key ]} nsLabels)) \/
  (exists s nskey, c = K_CreateSecret s /\
     sec_meta s = meta (k_name volKeyRef) (k_namespace volKeyRef) volLabels [] /\
     Exists (returned_key nsKeyRef (EncodeToString nskey)) tr /\ sealed nskey s).

Lemma key_secret_more nsKeyRef volKeyRef nsLabels volLabels tr0 tr c :
  key_secret nsKeyRef volKeyRef nsLabels volLabels tr c ->
  key_secret nsKeyRef volKeyRef nsLabels volLabels (tr0 ++ tr) c.
Proof.
  intros [?|(s & nskey & ? & ? & Hex & ?)]; [by left|]. right. exists s, nskey. split_and!; try done.
  apply Exists_app. by right.
Qed.

Lemma key_secret_later nsKeyRef volKeyRef nsLabels volLabels tr tr1 c :
  key_secret nsKeyRef volKeyRef nsLabels volLabels tr c ->
  key_secret nsKeyRef volKeyRef nsLabels volLabels (tr ++ tr1) c.
Proof.
  intros [?|(s & nskey & ? & ? & Hex & ?)]; [by left|]. right. exists s, nskey. split_and!; try done.
  apply Exists_app. by left.
Qed.

(** Ensuring the keys of a volume only creates such secrets, and success is
    only reported when the API server has the volume secret. *)
Lemma Ensure_run nsKeyRef volKeyRef nsLabels volLabels :
  every_run (Ensure nsKeyRef volKeyRef nsLabels volLabels) (fun tr o =>
    Forall (key_secret nsKeyRef volKeyRef nsLabels volLabels tr) (mutations tr) /\
    match o with
    | Done None => Exists (has_secret volKeyRef) tr
    | Done (Some _) => True
    | Panicked _ => False
    end).
Proof.
  unfold Ensure. run_step. run_step. destruct r as [s|e]; cbn iota beta.
  { split; [constructor|]. apply Exists_cons. left. simpl. eauto. }
  destruct (negb (IsNotFound e)); [run_steps; by split; [constructor|]|].
  eapply every_run_seq with (P := fun tr o =>
    Forall (key_secret nsKeyRef volKeyRef nsLabels volLabels tr) (mutations tr) /\
    match o with Done (inl _) => Exists (has_secret volKeyRef) tr | Done (inr _) => True | Panicked _ => False end).
  - eapply every_run_try; [apply ensureNamespaceKey_run| | |].
    + intros tr1 nsKey (Hm1 & Hret & s & Hs). destruct (keyFromSecret_hex s nsKey Hs) as (nskey & Hdec & Henc).
      assert (H1 : forall tr2, Forall (key_secret nsKeyRef volKeyRef nsLabels volLabels (tr1 ++ tr2)) (mutations tr1)).
      { intros tr2. destruct Hm1 as [->|(k & Hk & ->)]; [constructor|]. apply Forall_singleton. left. eauto. }
      eapply every_run_mono; [apply createVolumeKey_run|]. intros tr2 [r|m]; [|done].
      rewrite mutations_app. intros [[-> [e' ->]]|(s' & nskey' & Hdec' & -> & Hmeta & Hsealed & Hin)].
      * rewrite app_nil_r. split; [apply H1|done].
      * assert (nskey' = nskey) as -> by congruence.
        split; [apply Forall_app; split; [apply H1|]; apply Forall_singleton; right; eexists _, nskey; rewrite Henc; split_and!; try done; apply Exists_app; by left|].
        destruct r as [s''|e']; [|done]. apply Exists_app. right. apply Exists_exists. eexists. split; [apply list_elem_of_In; exact Hin|].
        simpl. split; [|eauto]. unfold secret_key, meta_key. rewrite Hmeta. by destruct volKeyRef.
    + intros tr1 e1 [Hm1 _]. split; [|done]. destruct Hm1 as [->|(k & Hk & ->)]; [constructor|]. apply Forall_singleton. left. eauto.
    + by intros tr1 m [_ []].
  - intros tr r [Hf Ho]. apply every_run_ret. cbn beta. rewrite app_nil_r. cbn [app]. rewrite mutations_cons. simpl. split.
    + eapply Forall_impl; [|exact Hf]. intros c. by apply (key_secret_more _ _ _ _ [_]).
    + destruct r; simpl; [apply Exists_cons; by right|done].
  - by intros tr m [_ []].
Qed.

(** ** A store of secrets

    What the key manager relies on: reads are not stale, creating a secret
    stores it and fails when it exists, the random source answers. *)
Class SecretStore {W : Type} (h : handler W) := {
  secrets : W -> gmap ObjectKey Secret;
  store_get_some : forall k s w, secrets w !! k = Some s -> h (K_GetSecret k) w = (inl s, w);
  store_get_none : forall k w, secrets w !! k = None ->
    exists e, h (K_GetSecret k) w = (inr e, w) /\ IsNotFound e = true;
  store_create : forall s w, secrets w !! secret_key s = None ->
    exists w', h (K_CreateSecret s) w = (inl s, w') /\ secrets w' = <[secret_key s := s]> (secrets w);
  store_exists : forall s w, is_Some (secrets w !! secret_key s) ->
    exists e, h (K_CreateSecret s) w = (inr e, w);
  store_random : forall n w, exists bs w', h (RandRead n) w = (inl bs, w') /\ secrets w' = secrets w;
}.

Section store.
Context {W : Type} (h : handler W) {HS : SecretStore h}.

Lemma runs_to_try {A B} (p : prog (A + error)) (k : A -> prog (B + error)) w a w1 pl b w2 pl' :
  runs_to h p w (inl a) w1 pl -> runs_to h (k a) w1 b w2 pl' -> runs_to h (try p k) w b w2 (pl ++ pl').
Proof. intros Hp Hk. by eapply (runs_to_bind h). Qed.

(** What holds of every run holds of this one. *)
Lemma runs_to_every {A} (p : prog A) w r w' pl Q :
  runs_to h p w r w' pl -> every_run p Q -> exists tr, mutations tr = pl /\ Q tr (Done r).
Proof.
  intros (tr & He & Hm) HQ. exists tr. split; [done|].
  pose proof (every_run_exec h p w Q HQ) as H. unfold exec_trace, exec_result in H. by rewrite He in H.
Qed.

Lemma GenerateRandomBytes_store n w :
  exists bs w', runs_to h (GenerateRandomBytes n) w (inl bs) w' [] /\ secrets w' = secrets w /\ length bs = n.
Proof.
  destruct (store_random n w) as (bs & w' & Hr & Hw). exists (fill n bs), w'.
  split_and!; [|done|apply length_fill].
  eapply (runs_to_read h); [apply (runs_to_call h (RandRead n)); exact Hr|]. apply runs_to_ret.
Qed.

Lemma Encrypt_store plaintext key w :
  Nat.modulo (length plaintext) BlockSize = 0 -> aes_key key ->
  exists ct w', runs_to h (Encrypt plaintext key) w (inl ct) w' [] /\ secrets w' = secrets w /\
    Decrypt ct key = inl plaintext.
Proof.
  intros Hp Hk. destruct (store_random BlockSize w) as (bs & w' & Hr & Hw).
  assert (exists ct, runs_to h (Encrypt plaintext key) w (inl ct) w' []) as [ct Hct].
  { unfold Encrypt. apply Nat.eqb_eq in Hp. rewrite Hp. cbn [negb].
    pose proof (NewCipher_spec key) as Hc. destruct (NewCipher key); [|done]. eexists.
    eapply (runs_to_read h); [apply (runs_to_call h (RandRead BlockSize)); exact Hr|]. apply runs_to_ret. }
  exists ct, w'. split_and!; [done..|].
  destruct (runs_to_every _ _ _ _ _ _ Hct (Encrypt_run plaintext key)) as (tr & _ & _ & _ & _ & Hd & _). exact Hd.
Qed.

Lemma createVolumeKey_store volKeyRef nskey ls w :
  secrets w !! volKeyRef = None ->
  exists s w', runs_to h (createVolumeKey volKeyRef (EncodeToString nskey) ls) w (inl s) w' [K_CreateSecret s] /\
    secrets w' = <[volKeyRef := s]> (secrets w) /\
    sec_meta s = meta (k_name volKeyRef) (k_namespace volKeyRef) ls [] /\ sealed nskey s.
Proof.
  intros Hnone.
  destruct (GenerateRandomBytes_store 32 w) as (iv & w1 & R1 & S1 & L1).
  destruct (GenerateRandomBytes_store 64 w1) as (vmk & w2 & R2 & S2 & L2).
  destruct (CreateIK_spec nskey iv) as (ik & Hik & Lik).
  destruct (Encrypt_store vmk ik w2) as (vuk & w3 & R3 & S3 & Hdec).
  { by rewrite L2. }
  { unfold aes_key. rewrite Lik. set_solver. }
  set (s := new_secret volKeyRef (volume_data vmk iv vuk (hmac iv vmk)) ls).
  destruct (store_create s w3) as (w4 & R4 & S4); [unfold s; rewrite secret_key_new; congruence|].
  unfold s in S4. rewrite secret_key_new in S4. exists s, w4. split_and!.
  - eapply (runs_to_try _ _ w iv w1 []); [exact R1|]. eapply (runs_to_try _ _ w1 vmk w2 []); [exact R2|].
    rewrite try_ret, DecodeString_EncodeToString, try_ret, Hik.
    eapply (runs_to_try _ _ w2 vuk w3 []); [exact R3|]. rewrite try_ret. exact (runs_to_call h _ w3 _ w4 R4).
  - by rewrite S4, S3, S2, S1.
  - done.
  - exists vmk, iv, vuk, (hmac iv vmk), ik. split_and!; try done. unfold CheckHMAC. simpl. by rewrite bool_decide_eq_true_2.
Qed.

(** A namespace secret is usable when it holds a key that is not empty. *)
Definition usable (s : Secret) (nskey : list byte) : Prop :=
  nskey <> [] /\ exists data, sec_Data s = Some data /\ data !! "key" = Some nskey.

Lemma usable_key s nskey : usable s nskey -> keyFromSecret s = inl (EncodeToString nskey).
Proof.
  intros (Hne & data & Hd & Hk). unfold keyFromSecret. rewrite Hd, Hk.
  rewrite bool_decide_eq_true_2; [done|]. destruct nskey; [done|simpl; lia].
Qed.

Lemma unusable_key s : ~ (exists nskey, usable s nskey) -> keyFromSecret s = inr (Sentinel ErrNoKeyInSecret).
Proof.
  intros Hnot. unfold keyFromSecret. destruct (sec_Data s) as [data|] eqn:Ed; [|done].
  destruct (data !! "key") as [k|] eqn:Ek; [|done]. case_bool_decide as Hk; [|done].
  destruct Hnot. exists k. split; [by destruct k; [simpl in Hk; lia|]|eauto].
Qed.

(** The metadata of a secret that the key manager creates. *)
Definition owned (key : ObjectKey) (ls : gomap) (s : Secret) : Prop :=
  sec_meta s = meta (k_name key) (k_namespace key) ls [].

(** The namespace secret after [Ensure], and what was created for it: the one
    that was there, or a new one that holds 32 bytes. *)
Definition namespace_secret (nsKeyRef : ObjectKey) (ls : gomap) (before : gmap ObjectKey Secret)
    (s : Secret) (nskey : list byte) (created : list call) : Prop :=
  usable s nskey /\
  match before !! nsKeyRef with
  | Some s0 => s = s0 /\ created = []
  | None => owned nsKeyRef ls s /\ length nskey = 32 /\ created = [K_CreateSecret s]
  end.

Lemma ensureNamespaceKey_store nsKeyRef ls w :
  (forall s, secrets w !! nsKeyRef = Some s -> exists nskey, usable s nskey) ->
  exists s nskey w' pl, runs_to h (ensureNamespaceKey nsKeyRef ls) w (inl (EncodeToString nskey)) w' pl /\
    secrets w' = <[nsKeyRef := s]> (secrets w) /\ namespace_secret nsKeyRef ls (secrets w) s nskey pl.
Proof.
  intros Hus. unfold namespace_secret. destruct (secrets w !! nsKeyRef) as [s|] eqn:Es.
  - destruct (Hus s eq_refl) as [nskey Hu]. exists s, nskey, w, []. split_and!; try done; [|by rewrite insert_id].
    eapply (runs_to_read h); [apply (runs_to_call h (K_GetSecret nsKeyRef)), (store_get_some _ s); done|].
    cbn iota beta. rewrite (usable_key s nskey Hu). apply runs_to_ret.
  - destruct (store_get_none nsKeyRef w Es) as (e & Hg & Hnf).
    destruct (GenerateRandomBytes_store 32 w) as (key & w1 & R1 & S1 & L1).
    set (s := new_secret nsKeyRef {[ "key" := key ]} ls).
    assert (Hu : usable s key).
    { split; [by destruct key|]. eexists. split; [reflexivity|]. apply lookup_singleton_eq. }
    destruct (store_create s w1) as (w2 & R2 & S2); [unfold s; rewrite secret_key_new; congruence|].
    unfold s in S2. rewrite secret_key_new, S1 in S2. exists s, key, w2, [K_CreateSecret s]. split_and!; try done.
    eapply (runs_to_read h); [apply (runs_to_call h (K_GetSecret nsKeyRef)); exact Hg|].
    cbn iota beta. rewrite Hnf. cbn [negb].
    eapply (runs_to_try _ _ w key w1 []); [exact R1|].
    eapply (runs_to_try _ _ w1 s w2 [K_CreateSecret s] _ w2 []); [exact (runs_to_call h _ w1 _ w2 R2)|].
    rewrite (usable_key s key Hu). apply runs_to_ret.
Qed.

Lemma Ensure_present nsKeyRef volKeyRef nsLabels volLabels s w :
  secrets w !! volKeyRef = Some s -> runs_to h (Ensure nsKeyRef volKeyRef nsLabels volLabels) w None w [].
Proof.
  intros Hs. eapply (runs_to_read h); [apply (runs_to_call h (K_GetSecret volKeyRef)), (store_get_some _ s); done|].
  apply runs_to_ret.
Qed.

Lemma Ensure_unusable nsKeyRef volKeyRef nsLabels volLabels s w :
  secrets w !! volKeyRef = None -> secrets w !! nsKeyRef = Some s -> ~ (exists nskey, usable s nskey) ->
  runs_to h (Ensure nsKeyRef volKeyRef nsLabels volLabels) w (Some (Sentinel ErrNoKeyInSecret)) w [].
Proof.
  intros Hv Hs Hnot. destruct (store_get_none volKeyRef w Hv) as (e & Hg & Hnf).
  eapply (runs_to_read h); [apply (runs_to_call h (K_GetSecret volKeyRef)); exact Hg|]. cbn iota beta. rewrite Hnf. cbn [negb].
  apply (runs_to_bind h _ _ _ (inr (Sentinel ErrNoKeyInSecret)) w [] (Some (Sentinel ErrNoKeyInSecret)) w []); [|apply (runs_to_ret h)].
  apply (runs_to_bind h _ _ _ (inr (Sentinel ErrNoKeyInSecret)) w [] (inr (Sentinel ErrNoKeyInSecret)) w []); [|apply (runs_to_ret h)].
  eapply (runs_to_read h); [apply (runs_to_call h (K_GetSecret nsKeyRef)), (store_get_some _ s); done|].
  cbn iota beta. rewrite (unusable_key s Hnot). apply runs_to_ret.
Qed.

(** C15. In a store that answers every read truly, accepts a new secret and
    refuses one that exists, and with a random source that answers, ensuring
    the keys of a volume, whose secret is not the namespace's own, comes to one
    of three things.  A volume secret that is there is taken as it is,
    whatever it holds: success, and nothing changes.  Otherwise, an existing
    namespace secret without a usable (present and not empty) key makes it
    fail with [ErrNoKeyInSecret], and nothing changes.  Otherwise it succeeds:
    the store gets the volume secret, with its labels, sealed by the key of
    the namespace secret, which is the one that was there or is created first
    with its labels and 32 bytes of key; no other secret changes, and ensuring
    the keys again changes nothing. *)
Theorem Ensure_establishes nsKeyRef volKeyRef nsLabels volLabels w :
  nsKeyRef <> volKeyRef ->
  let ensure := Ensure nsKeyRef volKeyRef nsLabels volLabels in
  (forall vs, secrets w !! volKeyRef = Some vs -> runs_to h ensure w None w []) /\
  (forall ns, secrets w !! volKeyRef = None -> secrets w !! nsKeyRef = Some ns -> ~ (exists nskey, usable ns nskey) ->
     runs_to h ensure w (Some (Sentinel ErrNoKeyInSecret)) w []) /\
  (secrets w !! volKeyRef = None -> (forall ns, secrets w !! nsKeyRef = Some ns -> exists nskey, usable ns nskey) ->
     exists w' ns nskey created vs,
       runs_to h ensure w None w' (created ++ [K_CreateSecret vs]) /\
       secrets w' = <[volKeyRef := vs]> (<[nsKeyRef := ns]> (secrets w)) /\
       namespace_secret nsKeyRef nsLabels (secrets w) ns nskey created /\
       owned volKeyRef volLabels vs /\ sealed nskey vs /\
       runs_to h ensure w' None w' []).
Proof.
  intros Hne ensure. split_and!; [by eauto using Ensure_present|by eauto using Ensure_unusable|].
  intros Ev Hus. destruct (store_get_none volKeyRef w Ev) as (e & Hg & Hnf).
  destruct (ensureNamespaceKey_store nsKeyRef nsLabels w Hus) as (ns & nskey & w1 & created & R1 & S1 & Hns).
  destruct (createVolumeKey_store volKeyRef nskey volLabels w1) as (vs & w2 & R2 & S2 & Hvs & Hsealed).
  { by rewrite S1, lookup_insert_ne. }
  exists w2, ns, nskey, created, vs. rewrite S1 in S2. split_and!; try done.
  - eapply (runs_to_read h); [apply (runs_to_call h (K_GetSecret volKeyRef)); exact Hg|].
    cbn iota beta. rewrite Hnf. cbn [negb]. rewrite <- (app_nil_r (created ++ _)).
    apply (runs_to_bind h _ _ _ (inl vs) w2); [|apply (runs_to_ret h)]. eapply runs_to_try; [exact R1|exact R2].
  - apply (Ensure_present _ _ _ _ vs). rewrite S2. apply lookup_insert_eq.
Qed.
End store.

(** A store in memory, with a constant random source. *)
Definition memory_store : handler (gmap ObjectKey Secret) := fun c w =>
  match c return ret c * gmap ObjectKey Secret with
  | K_GetSecret k => (match w !! k with Some s => inl s | None => inr (K8sError StatusReasonNotFound "secret") end, w)
  | K_CreateSecret s =>
      match w !! secret_key s with
      | Some _ => (inr (K8sError StatusReasonOther "exists"), w)
      | None => (inl s, <[secret_key s := s]> w)
      end
  | RandRead n => (inl (repeat x2a n), w)
  | c => (plain_answer c, w)
  end.

#[export] Instance memory_secret_store : SecretStore memory_store.
Proof.
  refine {| secrets := fun w => w |}.
  - intros k s w Hk. unfold memory_store. by rewrite Hk.
  - intros k w Hk. unfold memory_store. rewrite Hk. eauto.
  - intros s w Hs. unfold memory_store. rewrite Hs. eauto.
  - intros s w [s' Hs]. unfold memory_store. rewrite Hs. eauto.
  - intros n w. unfold memory_store. eauto.
Defined.

Lemma Ensure_establishes_witness :
  exists w pl, runs_to memory_store (Ensure (Key "default" "storageos-namespace-key") (Key "default" "vol") None None) ∅ None w pl /\
    exists vs nskey, w !! Key "default" "vol" = Some vs /\ sealed nskey vs.
Proof.
  destruct (Ensure_establishes memory_store (Key "default" "storageos-namespace-key") (Key "default" "vol") None None ∅)
    as (_ & _ & Hnew); [discriminate|].
  destruct Hnew as (w & ns & nskey & created & vs & Hrun & Hw & _ & _ & Hsealed & _); [done| |].
  - intros s Hs. discriminate Hs.
  - exists w, (created ++ [K_CreateSecret vs]). split; [exact Hrun|]. exists vs, nskey. split; [|exact Hsealed].
    cbn [secrets memory_secret_store] in Hw. rewrite Hw. apply lookup_insert_eq.
Defined.
