(* ===== verification/Mutators.v ===== *)
(** * Admission webhooks ([controllers/pod-mutator], [controllers/pvc-mutator])

    The handler both webhooks share, and the mutators that [main.go] registers:
    the scheduler of pods, the encryption keys of claims and the storage class
    annotation of claims. *)

From Stdlib Require Import ZArith.
From S2P Require Import Prelude GoLib Json Errors Types Effects Labels Provisioner Crypto Keys.

(** ** The handler

    A mutator changes the object in place, also when it fails.  Decoding,
    encoding and the computation of the JSON patch are libraries'. *)
Section handle.
Context {Raw Obj : Type} (Marshal : Obj -> Raw + error).

Definition mutator : Type := Obj -> string -> prog (Obj * option error).

Inductive Response :=
  | Errored (code : Z) (err : error)
  | PatchResponseFromRaw (original current : Raw).

(** The loop over the mutators: the object, and the error that ended it. *)
Fixpoint run_mutators (ms : list mutator) (obj : Obj) (namespace : string) : prog (Obj * option error) :=
  match ms with
  | [] => mret (obj, None)
  | m :: ms' =>
      '(obj', err) ← m obj namespace;
      match err with
      | Some e => mret (obj', Some e)
      | None => run_mutators ms' obj' namespace
      end
  end.

Record Controller := { mutators : list mutator; decoder : Raw -> Obj + error }.

Definition NewController (decoder : Raw -> Obj + error) (mutators : list mutator) : Controller :=
  {| mutators := mutators; decoder := decoder |}.

Definition Handle (c : Controller) (raw : Raw) (namespace : string) : prog Response :=
  match decoder c raw with
  | inr e => mret (Errored 400 e)
  | inl obj =>
      '(obj', err) ← run_mutators (mutators c) obj namespace;
      match err with
      | Some e => mret (Errored 500 e)
      | None =>
          match Marshal obj' with
          | inr e => mret (Errored 500 e)
          | inl marshaled => mret (PatchResponseFromRaw raw marshaled)
          end
      end
  end.
End handle.
Arguments Errored {Raw} code err.
Arguments PatchResponseFromRaw {Raw} original current.
Arguments Controller : clear implicits.

(** ** The scheduler of pods *)

Definition PodSchedulerAnnotationKey : string := "storageos.com/scheduler".

Record PodSchedulerSetter := { Provisioners : list string; SchedulerName : string; SchedulerAnnotationKey : string }.

Definition NewPodSchedulerSetter (scheduler : string) : PodSchedulerSetter :=
  {| SchedulerName := scheduler; Provisioners := [DriverName]; SchedulerAnnotationKey := PodSchedulerAnnotationKey |}.

(** The mutation is skipped when the annotation says false. *)
Definition scheduler_disabled (p : PodSchedulerSetter) (pod : Pod) : bool :=
  match gm_lookup (om_Annotations (pod_meta pod)) (SchedulerAnnotationKey p) with
  | Some val => match ParseBool val with inl enabled => negb enabled | inr _ => false end
  | None => false
  end.

Definition set_scheduler (pod : Pod) (name : string) : Pod :=
  {| pod_meta := pod_meta pod; pod_NodeName := pod_NodeName pod; pod_SchedulerName := name;
     pod_Volumes := pod_Volumes pod |}.

(** The managed volumes, or the first error. *)
Fixpoint managed_volumes (vols : list PodVolume) (namespace : string) (acc : list PodVolume)
  : prog (list PodVolume + error) :=
  match vols with
  | [] => mret (inl acc)
  | vol :: vols' =>
      '(ok, err) ← IsStorageOSVolume vol namespace;
      match err with
      | Some e => mret (inr (Wrap e "failed to determine if the volume is managed"))
      | None => managed_volumes vols' namespace (if (ok : bool) then acc ++ [vol] else acc)
      end
  end.

Definition MutatePod (p : PodSchedulerSetter) (pod : Pod) (namespace : string) : prog (Pod * option error) :=
  if bool_decide (SchedulerName p = "") then mret (pod, None)
  else if scheduler_disabled p pod then mret (pod, None)
  else
    r ← managed_volumes (pod_Volumes pod) namespace [];
    match r with
    | inr e => mret (pod, Some e)
    | inl managedVols =>
        if bool_decide (length managedVols = 0) then mret (pod, None)
        else mret (set_scheduler pod (SchedulerName p), None)
    end.

(** ** The annotation that links a claim with its storage class *)
Module AnnotationSetter.
Definition MutatePVC (pvc : PersistentVolumeClaim) (namespace : string)
  : prog (PersistentVolumeClaim * option error) :=
  r ← StorageClassForPVC pvc;
  match r with
  | inr e => mret (pvc, Some (Wrap e "failed to check pvc provisioner"))
  | inl sc =>
      if negb (IsProvisionedStorageClass sc [DriverName]) then mret (pvc, None)
      else
        let a := gm_map (om_Annotations (pvc_meta pvc)) in
        mret (pvc_with_annotations pvc (Some (<[StorageClassUUIDAnnotationKey := om_UID (sc_meta sc)]> a)), None)
  end.
End AnnotationSetter.

(** ** The encryption keys of claims *)
Module KeySetter.
Definition SecretNameAnnotationKey : string := "storageos.com/encryption-secret-name".
Definition SecretNamespaceAnnotationKey : string := "storageos.com/encryption-secret-namespace".
Definition VolumeSecretNamePrefix : string := "storageos-volume-key".
Definition VolumeSecretPVCNameLabel : string := "storageos.com/pvc".
Definition NamespaceSecretName : string := "storageos-namespace-key".

(** The API client and the key manager, which has no state but its own client, are calls. *)
Record EncryptionKeySetter := {
  enabledLabel : string;
  secretNameAnnotationKey : string;
  secretNamespaceAnnotationKey : string;
  setter_labels : gomap;
}.

Definition NewKeySetter (ls : gomap) : EncryptionKeySetter := {|
  enabledLabel := ReservedLabelEncryption;
  secretNameAnnotationKey := SecretNameAnnotationKey;
  secretNamespaceAnnotationKey := SecretNamespaceAnnotationKey;
  setter_labels := ls;
|}.

(** The first of the maps that has the label decides. *)
Fixpoint isEnabled (s : EncryptionKeySetter) (hayStacks : list gomap) : bool + error :=
  match hayStacks with
  | [] => inl false
  | m :: ms =>
      match gm_lookup m (enabledLabel s) with
      | Some val => match ParseBool val with inl b => inl b | inr e => inr (NumErr e) end
      | None => isEnabled s ms
      end
  end.

(** The labels of the setter are copied, so they are not changed. *)
Definition VolumeSecretLabels `{GoRange} (s : EncryptionKeySetter) (pvcName : string) : labels :=
  let copied := copy_if (fun _ => true) (gm_range (setter_labels s)) ∅ in
  if bool_decide (pvcName = "") then copied else <[VolumeSecretPVCNameLabel := pvcName]> copied.

Definition NamespaceSecretKeyRef (pvcNamespace : string) : ObjectKey := Key pvcNamespace NamespaceSecretName.

Definition GenerateVolumeSecretName : prog string :=
  u ← uuid_New; mret (VolumeSecretNamePrefix +:+ "-" +:+ u).

Definition VolumeSecretKeyRef (s : EncryptionKeySetter) (pvc : PersistentVolumeClaim) (pvcNamespace : string) : prog ObjectKey :=
  let annotations := om_Annotations (pvc_meta pvc) in
  let given := gm_get annotations (secretNameAnnotationKey s) in
  name ← (if bool_decide (given = "") then GenerateVolumeSecretName else mret given);
  let ns := gm_get annotations (secretNamespaceAnnotationKey s) in
  mret (Key (if bool_decide (ns = "") then pvcNamespace else ns) name).

Definition cross_namespace (s : EncryptionKeySetter) (pvc : PersistentVolumeClaim) (namespace : string) : bool :=
  match gm_lookup (om_Annotations (pvc_meta pvc)) (secretNamespaceAnnotationKey s) with
  | Some requested => negb (bool_decide (requested = namespace))
  | None => false
  end.

Definition set_key_annotations (s : EncryptionKeySetter) (pvc : PersistentVolumeClaim) (ref : ObjectKey) : PersistentVolumeClaim :=
  let a := gm_map (om_Annotations (pvc_meta pvc)) in
  pvc_with_annotations pvc
    (Some (<[secretNamespaceAnnotationKey s := k_namespace ref]> (<[secretNameAnnotationKey s := k_name ref]> a))).

Definition MutatePVC `{GoRange} (s : EncryptionKeySetter) (pvc : PersistentVolumeClaim) (namespace : string)
  : prog (PersistentVolumeClaim * option error) :=
  r ← StorageClassForPVC pvc;
  match r with
  | inr e => mret (pvc, Some (Wrap e "failed to retrieve storageclass of pvc"))
  | inl sc =>
      if negb (IsProvisionedStorageClass sc [DriverName]) then mret (pvc, None)
      else
        match isEnabled s [om_Labels (pvc_meta pvc); sc_Parameters sc] with
        | inr e => mret (pvc, Some (Wrap e "failed to parse boolean value for encryption"))
        | inl enabled =>
            if negb enabled then mret (pvc, None)
            else if cross_namespace s pvc namespace then mret (pvc, Some (Sentinel ErrCrossNamespace))
            else
              volKeyRef ← VolumeSecretKeyRef s pvc namespace;
              err ← Keys.Ensure (NamespaceSecretKeyRef namespace) volKeyRef (setter_labels s)
                      (Some (VolumeSecretLabels s (om_Name (pvc_meta pvc))));
              match err with
              | Some e => mret (pvc, Some (Wrap e "failed to ensure encryption key present for pvc"))
              | None => mret (set_key_annotations s pvc volKeyRef, None)
              end
        end
  end.
End KeySetter.

(** The webhooks as [main.go] builds them. *)
Definition pod_webhook {Raw} (decoder : Raw -> Pod + error) (schedulerName : string) : Controller Raw Pod :=
  NewController decoder [MutatePod (NewPodSchedulerSetter schedulerName)].

Definition pvc_webhook `{GoRange} {Raw} (decoder : Raw -> PersistentVolumeClaim + error)
  : Controller Raw PersistentVolumeClaim :=
  NewController decoder [KeySetter.MutatePVC (KeySetter.NewKeySetter (Some Default)); AnnotationSetter.MutatePVC].

(** ** Properties *)

(** The class of a claim, as the API server answered. *)
Definition class_answer (pvc : PersistentVolumeClaim) (sc : StorageClass) (e : event) : Prop :=
  match e with
  | existT c r =>
      match c return ret c -> Prop with
      | K_GetStorageClass k => fun r =>
          PVCStorageClassName pvc <> "" /\ k = Key "" (PVCStorageClassName pvc) /\ r = inl sc
      | K_ListStorageClasses => fun r =>
          PVCStorageClassName pvc = "" /\ exists items, r = inl items /\ List.find is_default_class items = Some sc
      | _ => fun _ => False
      end r
  end.

Lemma StorageClassForPVC_run pvc :
  every_run (StorageClassForPVC pvc) (fun tr o =>
    mutations tr = [] /\
    match o with Done (inl sc) => Exists (class_answer pvc sc) tr | Done (inr _) => True | Panicked _ => False end).
Proof.
  unfold StorageClassForPVC, GetStorageClass, DefaultStorageClass.
  destruct (bool_decide_reflect (PVCStorageClassName pvc = "")) as [He|He];
    [|rewrite ?bool_decide_eq_false_2 by done]; run_steps; (split; [done|]); try done;
    apply Exists_cons; left; simpl; eauto.
Qed.

(** The setter of the webhook. *)
Definition claim_setter : KeySetter.EncryptionKeySetter := KeySetter.NewKeySetter (Some Default).

Section claims.
Context `{GoRange}.

(** The random source of the identifiers failed. *)
Definition uuid_failed (e : event) : Prop := exists err, e = existT NewUUID (inr err).

Lemma VolumeSecretKeyRef_run setter pvc ns :
  KeySetter.cross_namespace setter pvc ns = false ->
  every_run (KeySetter.VolumeSecretKeyRef setter pvc ns) (fun tr o =>
    mutations tr = [] /\
    match o with
    | Panicked _ => Exists uuid_failed tr
    | Done ref => exists name, ref = Key ns name /\ name <> "" /\
        forall given, gm_lookup (om_Annotations (pvc_meta pvc)) (KeySetter.secretNameAnnotationKey setter) = Some given ->
          given <> "" -> name = given
    end).
Proof.
  intros Hns. unfold KeySetter.VolumeSecretKeyRef, KeySetter.GenerateVolumeSecretName, gm_get.
  assert (Hn : (if bool_decide (default "" (gm_lookup (om_Annotations (pvc_meta pvc))
            (KeySetter.secretNamespaceAnnotationKey setter)) = "") then ns else
            default "" (gm_lookup (om_Annotations (pvc_meta pvc)) (KeySetter.secretNamespaceAnnotationKey setter))) = ns).
  { unfold KeySetter.cross_namespace in Hns. destruct (gm_lookup _ _) as [r|]; [|done].
    apply negb_false_iff, bool_decide_eq_true in Hns. subst. by case_bool_decide. }
  cbv zeta. rewrite Hn. clear Hn. destruct (gm_lookup _ (KeySetter.secretNameAnnotationKey setter)) as [g|]; cbn [default from_option id];
    [destruct (bool_decide_reflect (g = "")) as [->|Hg]|rewrite (bool_decide_eq_true_2 ("" = "")) by done]; unfold uuid_New; run_steps;
    (split; [done|]); try (apply Exists_cons; left; by eexists); eexists;
    (split; [done|]); (split; [done|]); intros given; try done; by intros [= <-].
Qed.

(** Whether a claim of the class asks for encryption. *)
Definition encrypted (setter : KeySetter.EncryptionKeySetter) (pvc : PersistentVolumeClaim) (sc : StorageClass) : bool :=
  IsProvisionedStorageClass sc [DriverName] &&
  match KeySetter.isEnabled setter [om_Labels (pvc_meta pvc); sc_Parameters sc] with inl b => b | inr _ => false end.

(** What giving a claim its keys may come to, after the trace [tr]. *)
Definition keys_given (setter : KeySetter.EncryptionKeySetter) (pvc : PersistentVolumeClaim) (ns : string) (tr : trace)
    (pvc' : PersistentVolumeClaim) (err : option error) : Prop :=
  exists name,
    Forall (key_secret (KeySetter.NamespaceSecretKeyRef ns) (Key ns name) (KeySetter.setter_labels setter)
              (Some (KeySetter.VolumeSecretLabels setter (om_Name (pvc_meta pvc)))) tr) (mutations tr) /\
    match err with
    | Some _ => pvc' = pvc
    | None =>
        exists sc, Exists (class_answer pvc sc) tr /\
          if encrypted setter pvc sc then
            pvc' = KeySetter.set_key_annotations setter pvc (Key ns name) /\ Exists (has_secret (Key ns name)) tr /\
            KeySetter.cross_namespace setter pvc ns = false /\ name <> "" /\
            forall given, gm_lookup (om_Annotations (pvc_meta pvc)) (KeySetter.secretNameAnnotationKey setter) = Some given ->
              given <> "" -> name = given
          else pvc' = pvc /\ mutations tr = []
    end.

Lemma keys_refused setter pvc ns tr e : mutations tr = [] -> keys_given setter pvc ns tr pvc (Some e).
Proof. intros M. exists "". rewrite M. by split; [constructor|]. Qed.

Lemma keys_skipped setter pvc ns tr sc :
  mutations tr = [] -> Exists (class_answer pvc sc) tr -> encrypted setter pvc sc = false -> keys_given setter pvc ns tr pvc None.
Proof. intros M Hsc He. exists "". rewrite M. split; [constructor|]. exists sc. by rewrite He. Qed.

(** Giving a claim its keys comes to that in every run, unless no identifier
    could be made for its secret: then it panics, with nothing changed. *)
Lemma KeySetter_run setter pvc ns :
  every_run (KeySetter.MutatePVC setter pvc ns) (fun tr o =>
    match o with
    | Panicked _ => mutations tr = [] /\ Exists uuid_failed tr
    | Done (pvc', err) => keys_given setter pvc ns tr pvc' err
    end).
Proof.
  unfold KeySetter.MutatePVC. eapply every_run_seq; [apply StorageClassForPVC_run| |by intros ? ? [_ []]].
  intros tr [sc|e] [M Hsc]; [|run_steps; rewrite app_nil_r; by apply keys_refused].
  assert (He : encrypted setter pvc sc = IsProvisionedStorageClass sc [DriverName] &&
    match KeySetter.isEnabled setter [om_Labels (pvc_meta pvc); sc_Parameters sc] with inl b => b | inr _ => false end) by done.
  destruct (IsProvisionedStorageClass sc [DriverName]); cbn [negb].
  2:{ run_steps. rewrite app_nil_r. by apply (keys_skipped _ _ _ _ sc). }
  destruct (KeySetter.isEnabled _ _) as [[]|e]; cbn [negb].
  2:{ run_steps. rewrite app_nil_r. by apply (keys_skipped _ _ _ _ sc). }
  2:{ run_steps. rewrite app_nil_r. by apply keys_refused. }
  destruct (KeySetter.cross_namespace setter pvc ns) eqn:Hns.
  { run_steps. rewrite app_nil_r. by apply keys_refused. }
  eapply every_run_seq; [by apply VolumeSecretKeyRef_run| |].
  2:{ intros tr1 m [M1 Hu]. rewrite mutations_app, M, M1. split; [done|]. apply Exists_app. by right. }
  intros tr1 ref (M1 & name & -> & Hname & Hgiven).
  eapply every_run_seq; [apply Ensure_run| |by intros ? ? [_ []]].
  intros tr2 err [Hf Ho]. run_steps; exists name; rewrite app_nil_r, !mutations_app, M, M1; cbn [app].
  - split; [|done]. eapply Forall_impl; [|exact Hf]. intros c Hc. by do 2 apply key_secret_more.
  - split; [eapply Forall_impl; [|exact Hf]; intros c Hc; by do 2 apply key_secret_more|].
    exists sc. split; [apply Exists_app; by left|]. rewrite He. split_and!; try done.
    apply Exists_app; right; apply Exists_app; by right.
Qed.
End claims.

(** The claim with the annotation of the class, if StorageOS provisions it. *)
Definition annotated (pvc : PersistentVolumeClaim) (sc : StorageClass) : PersistentVolumeClaim :=
  if IsProvisionedStorageClass sc [DriverName] then
    pvc_with_annotations pvc
      (Some (<[StorageClassUUIDAnnotationKey := om_UID (sc_meta sc)]> (gm_map (om_Annotations (pvc_meta pvc)))))
  else pvc.

Lemma AnnotationSetter_run pvc ns :
  every_run (AnnotationSetter.MutatePVC pvc ns) (fun tr o =>
    mutations tr = [] /\
    match o with
    | Panicked _ => False
    | Done (pvc', Some _) => pvc' = pvc
    | Done (pvc', None) => exists sc, Exists (class_answer pvc sc) tr /\ pvc' = annotated pvc sc
    end).
Proof.
  unfold AnnotationSetter.MutatePVC, annotated.
  eapply every_run_seq; [apply StorageClassForPVC_run| |by intros ? ? [_ []]].
  intros tr [sc|e] [M Hsc]; [|by run_steps; rewrite app_nil_r].
  destruct (IsProvisionedStorageClass sc [DriverName]) eqn:Hp; cbn [negb]; run_steps; rewrite app_nil_r;
    (split; [done|]); exists sc; (split; [done|]); by rewrite Hp.
Qed.

(** The annotation setter changes no object but the claim it is given; a
    claim whose class StorageOS provisions gets the UID of its class, and no
    other annotation changes.  From then on the check of the label controller
    accepts the claim with exactly the classes that have this UID, without
    asking the API server: a class deleted and created again is refused. *)
Theorem AnnotationSetter_links pvc ns :
  every_run (AnnotationSetter.MutatePVC pvc ns) (fun tr o =>
    mutations tr = [] /\
    match o with
    | Panicked _ => False
    | Done (pvc', Some _) => pvc' = pvc
    | Done (pvc', None) =>
        exists sc, Exists (class_answer pvc sc) tr /\
          if IsProvisionedStorageClass sc [DriverName] then
            (forall k, gm_lookup (om_Annotations (pvc_meta pvc')) k =
               if decide (k = StorageClassUUIDAnnotationKey) then Some (om_UID (sc_meta sc))
               else gm_lookup (om_Annotations (pvc_meta pvc)) k) /\
            (om_UID (sc_meta sc) <> "" -> forall sc',
               ValidateOrSetStorageClassUID (sc_meta sc') (pvc_meta pvc') =
               mret (bool_decide (om_UID (sc_meta sc') = om_UID (sc_meta sc)), None))
          else pvc' = pvc
    end).
Proof.
  eapply every_run_mono; [apply AnnotationSetter_run|]. intros tr [[pvc' [e|]]|m] [M Ho]; [by split..| |by split].
  split; [done|]. destruct Ho as (sc & Hsc & ->). exists sc. split; [done|]. unfold annotated.
  destruct (IsProvisionedStorageClass sc [DriverName]); [|done]. split.
  - intros k. rewrite !gm_lookup_map. simpl. destruct (decide (k = _)) as [->|Hk];
      [by rewrite lookup_insert_eq | by rewrite lookup_insert_ne].
  - intros Huid sc'. unfold ValidateOrSetStorageClassUID, gm_get, gm_lookup. simpl.
    rewrite lookup_insert_eq. simpl. by rewrite bool_decide_eq_false_2.
Qed.

(** ** Pods, in a cluster at rest *)

(** What the API server answers about claims and classes. *)
Record Claims := {
  cw_claim : ObjectKey -> k8s_res PersistentVolumeClaim;
  cw_class : ObjectKey -> k8s_res StorageClass;
  cw_classes : k8s_res (list StorageClass);
}.

Definition in_claims (w : Claims) : handler unit := fun c u =>
  match c return ret c * unit with
  | K_GetPVC k => (cw_claim w k, u)
  | K_GetStorageClass k => (cw_class w k, u)
  | K_ListStorageClasses => (cw_classes w, u)
  | c => (plain_answer c, u)
  end.

(** The class of a claim: the one it names, by its field or its annotation,
    else the default class; none if it cannot be found. *)
Definition claim_class (w : Claims) (pvc : PersistentVolumeClaim) : option StorageClass :=
  let name := PVCStorageClassName pvc in
  if bool_decide (name = "") then
    match cw_classes w with inl scs => List.find is_default_class scs | inr _ => None end
  else match cw_class w (Key "" name) with inl sc => Some sc | inr _ => None end.

(** The class of a pod volume that has a claim; [Some None] if unknown. *)
Definition volume_class (w : Claims) (ns : string) (vol : PodVolume) : option (option StorageClass) :=
  claimName ← vol_ClaimName vol;
  Some match cw_claim w (Key ns claimName) with inl pvc => claim_class w pvc | inr _ => None end.

Definition unknown (w : Claims) (ns : string) (vol : PodVolume) : bool :=
  match volume_class w ns vol with Some None => true | _ => false end.

Definition managed (w : Claims) (ns : string) (vol : PodVolume) : bool :=
  match volume_class w ns vol with Some (Some sc) => bool_decide (sc_Provisioner sc = DriverName) | _ => false end.

Section pods.
Context (w : Claims).
Local Abbreviation h := (in_claims w).

Lemma StorageClassForPVC_runs pvc :
  exists r, runs h (StorageClassForPVC pvc) r [] /\
    match r with inl sc => claim_class w pvc = Some sc | inr _ => claim_class w pvc = None end.
Proof.
  unfold StorageClassForPVC, GetStorageClass, DefaultStorageClass, claim_class.
  destruct (bool_decide_reflect (PVCStorageClassName pvc = "")) as [He|He];
    [|rewrite ?(bool_decide_eq_false_2 (PVCStorageClassName pvc = "")) by done].
  - destruct (cw_classes w) as [scs|e] eqn:E; [destruct (List.find is_default_class scs) as [sc|] eqn:Ef|];
      eexists; (split; [apply (runs_query h); [done|]; simpl; rewrite E, ?Ef; apply runs_ret|done]).
  - destruct (cw_class w _) as [sc|e] eqn:E;
      eexists; (split; [apply (runs_query h); [done|]; simpl; rewrite E; apply runs_ret|done]).
Qed.

Lemma IsStorageOSVolume_runs vol ns :
  exists err, runs h (IsStorageOSVolume vol ns) (managed w ns vol, err) [] /\
    (err = None <-> unknown w ns vol = false).
Proof.
  unfold IsStorageOSVolume, IsProvisionedVolume, IsProvisionedPVC, managed, unknown, volume_class.
  destruct (vol_ClaimName vol) as [claim|]; [|exists None; split; [apply runs_ret|done]]. simpl.
  destruct (cw_claim w (Key ns claim)) as [pvc|e] eqn:E.
  - destruct (StorageClassForPVC_runs pvc) as ([sc|e] & Hr & Hc); rewrite Hc;
      eexists; (split; [apply (runs_query h (K_GetPVC _)); [done|]; simpl; rewrite E;
        eapply (runs_read h); [exact Hr|]; simpl; rewrite ?orb_false_r; apply runs_ret|done]).
  - eexists. split; [apply (runs_query h (K_GetPVC _)); [done|]; simpl; rewrite E; apply runs_ret|done].
Qed.

Lemma managed_volumes_runs vols ns acc :
  exists r, runs h (managed_volumes vols ns acc) r [] /\
    match r with
    | inl vs => existsb (unknown w ns) vols = false /\ vs = acc ++ filter (fun v => managed w ns v = true) vols
    | inr _ => existsb (unknown w ns) vols = true
    end.
Proof.
  revert acc. induction vols as [|vol vols IH]; intros acc.
  { exists (inl acc). split; [apply runs_ret|]. by rewrite app_nil_r. }
  cbn [managed_volumes existsb]. destruct (IsStorageOSVolume_runs vol ns) as ([e|] & Hr & He).
  - eexists. split; [eapply (runs_read h); [exact Hr|]; apply runs_ret|]. simpl.
    destruct (unknown w ns vol); [done|]. by destruct He as [_ He]; specialize (He eq_refl).
  - destruct (IH (if managed w ns vol then acc ++ [vol] else acc)) as (r & Hr' & Hs).
    exists r. split; [eapply (runs_read h); [exact Hr|]; exact Hr'|].
    destruct He as [He _]. rewrite (He eq_refl), filter_bool_cons. simpl.
    destruct r as [vs|e]; [|done]. destruct Hs as [Hu ->]. split; [done|].
    destruct (managed w ns vol); [by rewrite <- app_assoc|done].
Qed.

Lemma filter_none {A} (P : A -> bool) (l : list A) :
  bool_decide (length (filter (fun x => P x = true) l) = 0) = negb (existsb P l).
Proof. induction l as [|x l IH]; [done|]. rewrite filter_bool_cons. simpl. by destruct (P x). Qed.

(** C26. In a cluster at rest, the pod webhook changes nothing in it and sets
    the scheduler of a pod exactly when a scheduler is configured, the pod
    does not opt out, the class of every claim of the pod is known and one of
    them is provisioned by StorageOS; nothing else of the pod changes.  It
    refuses the pod exactly when it had to look and a class is unknown. *)
Theorem MutatePod_correct p pod ns :
  let looks := negb (bool_decide (SchedulerName p = "")) && negb (scheduler_disabled p pod) in
  let lost := existsb (unknown w ns) (pod_Volumes pod) in
  exists err,
    runs h (MutatePod p pod ns)
      (if looks && negb lost && existsb (managed w ns) (pod_Volumes pod) then set_scheduler pod (SchedulerName p) else pod, err) [] /\
    (err = None <-> looks && lost = false).
Proof.
  unfold MutatePod. case_bool_decide; cbn [negb andb]; [exists None; split; [apply runs_ret|done]|].
  destruct (scheduler_disabled p pod); cbn [negb andb]; [exists None; split; [apply runs_ret|done]|].
  destruct (managed_volumes_runs (pod_Volumes pod) ns []) as ([vs|e] & Hr & Hs).
  - destruct Hs as [-> ->]. exists None. split; [|done]. eapply (runs_read h); [exact Hr|]. simpl app.
    cbn iota beta. rewrite filter_none. destruct (existsb (managed w ns) _); apply runs_ret.
  - rewrite Hs. eexists. split; [eapply (runs_read h); [exact Hr|]; apply runs_ret|done].
Qed.
End pods.

(** ** The whole claim webhook *)

Lemma keys_given_later `{GoRange} setter pvc ns tr tr1 pvc' err :
  mutations tr1 = [] -> keys_given setter pvc ns tr pvc' err -> keys_given setter pvc ns (tr ++ tr1) pvc' err.
Proof.
  intros M (name & Hf & Ho). exists name. rewrite mutations_app, M, app_nil_r. split.
  { eapply Forall_impl; [|exact Hf]. intros c. apply key_secret_later. }
  destruct err; [done|]. destruct Ho as (sc & Hsc & He). exists sc. split; [apply Exists_app; by left|].
  destruct (encrypted setter pvc sc); [|done]. destruct He as (? & ? & ?). split; [done|].
  split; [apply Exists_app; by left|done].
Qed.

(** The keys do not change which class a claim has. *)
Lemma keys_keep_class `{GoRange} ls pvc ns tr pvc' err :
  keys_given (KeySetter.NewKeySetter ls) pvc ns tr pvc' err -> PVCStorageClassName pvc' = PVCStorageClassName pvc.
Proof.
  intros (name & _ & Ho). destruct err; [by subst|]. destruct Ho as (sc & _ & Ho).
  destruct (encrypted _ pvc sc); [|by destruct Ho as [-> _]]. destruct Ho as (-> & _).
  unfold PVCStorageClassName, KeySetter.set_key_annotations. simpl. rewrite !gm_lookup_map. simpl.
  by rewrite !lookup_insert_ne.
Qed.

Section webhook.
Context `{GoRange} {Raw : Type}.
Context (Decode : Raw -> PersistentVolumeClaim + error) (Marshal : PersistentVolumeClaim -> Raw + error).

End webhook.
