(* ===== verification/Auth.v ===== *)
(** * Authentication ([internal/pkg/storageos/client.go], [internal/pkg/secret])

    The login with the credentials of a mounted secret, and the loop that
    keeps the access token of the client fresh. *)

From Stdlib Require Import NArith ZArith Lia.
From S2P Require Import Prelude GoLib Json Errors Types Effects Client.

(** ** [path/filepath], on Unix *)

(** The elements of a cleaned path, the last first: empty and dot elements are
    dropped, a dot-dot removes an element, or stays if there is none to remove
    and the path is not rooted. *)
Fixpoint clean_go (rooted : bool) (elems : list string) (acc : list string) : list string :=
  match elems with
  | [] => acc
  | e :: elems' =>
      if bool_decide (e = "") || bool_decide (e = ".") then clean_go rooted elems' acc
      else if bool_decide (e = "..") then
        match acc with
        | [] => clean_go rooted elems' (if rooted then [] else [".."])
        | p :: acc' => clean_go rooted elems' (if bool_decide (p = "..") then ".." :: acc else acc')
        end
      else clean_go rooted elems' (e :: acc)
  end.

Definition Clean (path : string) : string :=
  let rooted := HasPrefix path "/" in
  let body := Join (rev (clean_go rooted (Split path "/"%char) [])) "/" in
  if rooted then "/" +:+ body else if bool_decide (body = "") then "." else body.

(** [filepath.Join] of two elements: the empty ones are ignored. *)
Definition filepath_Join (a b : string) : string :=
  match List.filter (fun e => negb (bool_decide (e = ""))) [a; b] with
  | [] => ""
  | es => Clean (Join es "/")
  end.

(** ** [strings.TrimSpace] *)

(** The UTF-8 encodings of the white space of Unicode. *)
Definition white_space : list (list N) :=
  [[9]; [10]; [11]; [12]; [13]; [32]; [0xC2; 0x85]; [0xC2; 0xA0]; [0xE1; 0x9A; 0x80];
   [0xE2; 0x80; 0x80]; [0xE2; 0x80; 0x81]; [0xE2; 0x80; 0x82]; [0xE2; 0x80; 0x83]; [0xE2; 0x80; 0x84];
   [0xE2; 0x80; 0x85]; [0xE2; 0x80; 0x86]; [0xE2; 0x80; 0x87]; [0xE2; 0x80; 0x88]; [0xE2; 0x80; 0x89];
   [0xE2; 0x80; 0x8A]; [0xE2; 0x80; 0xA8]; [0xE2; 0x80; 0xA9]; [0xE2; 0x80; 0xAF]; [0xE2; 0x81; 0x9F];
   [0xE3; 0x80; 0x80]]%N.

(** The length of the space at the start, zero if there is none. *)
Definition leading_space (spaces : list (list ascii)) (l : list ascii) : nat :=
  match List.find (fun s => bool_decide (take (length s) l = s)) spaces with
  | Some s => length s
  | None => O
  end.

(** Every step removes a byte at least. *)
Fixpoint trim_left (fuel : nat) (spaces : list (list ascii)) (l : list ascii) : list ascii :=
  match fuel with
  | O => l
  | S fuel' =>
      match leading_space spaces l with
      | O => l
      | n => trim_left fuel' spaces (drop n l)
      end
  end.

Definition TrimSpace (s : string) : string :=
  let spaces := map (map ascii_of_N) white_space in
  let l := bytes_of s in
  let l1 := trim_left (length l) spaces l in
  of_bytes (rev (trim_left (length l1) (map (@rev ascii) spaces) (rev l1))).

(** ** [internal/pkg/secret] *)

Definition secret_Read (path : string) : prog (string + error) :=
  r ← Call (ReadFile path);
  match r with
  | inr e => mret (inr (Errorf ("unable to read secret: " +:+ path) e))
  | inl secretBytes => mret (inl (TrimSpace secretBytes))
  end.

(** ** client.go *)

Definition secretUsernameKey : string := "username".
Definition secretPasswordKey : string := "password".

Definition ReadCredsFromMountedSecret (path : string) : prog (string * string + error) :=
  try (secret_Read (filepath_Join path secretUsernameKey)) (fun username =>
  try (secret_Read (filepath_Join path secretPasswordKey)) (fun password =>
  mret (inl (username, password)))).

Definition index_out_of_range : string := "index out of range [1] with length 1".

(** The second word of the header; a header without a space panics. *)
Definition respAuthToken (resp : response) : prog string :=
  if bool_decide (Authorization resp = "") then mret ""
  else match Split (Authorization resp) " "%char with
       | _ :: token :: _ => mret token
       | _ => Panic index_out_of_range
       end.

(** The login common to [Authenticate] and [resetClient]: the new context. *)
Definition Authenticate (username password : string) : prog (Ctx + error) :=
  '(_, resp, err) ← Call (CP_AuthenticateUser background username password);
  match err with
  | Some e => mret (inr (map_api_error e resp))
  | None =>
      match resp with
      | None => Panic nil_pointer
      | Some resp =>
          token ← respAuthToken resp;
          if bool_decide (token = "") then mret (inr (Sentinel ErrNoAuthToken))
          else mret (inl {| access_token := Some token |})
      end
  end.

Definition resetClient (secretPath : string) : prog (Ctx + error) :=
  try (ReadCredsFromMountedSecret secretPath) (fun creds => Authenticate creds.1 creds.2).

Definition with_ctx (c : Client) (ctx : Ctx) : Client := {| c_ctx := ctx; c_traced := c_traced c |}.

(** The result counter, on a traced client only. *)
Definition count (c : Client) (name : string) (e : option error) : prog unit :=
  if c_traced c then Call (M_Increment name e) else mret tt.

(** A reset keeps the old context when it fails. *)
Definition reset (c : Client) (secretPath : string) : prog Client :=
  r ← resetClient secretPath;
  match r with
  | inr e => _ ← count c "reset_api" (Some e); mret c
  | inl newCtx => _ ← count c "reset_api" None; mret (with_ctx c newCtx)
  end.

Definition refresh_tick (c : Client) (secretPath : string) : prog Client :=
  '(_, resp, err) ← Call (CP_RefreshJwt (c_ctx c));
  match err with
  | Some e => _ ← count c "refresh_token" (MapAPIError (Some e) resp); reset c secretPath
  | None =>
      match resp with
      | None => Panic nil_pointer
      | Some resp =>
          token ← respAuthToken resp;
          if bool_decide (token = "") then _ ← count c "refresh_token" (Some (Sentinel ErrNoAuthToken)); mret c
          else _ ← count c "refresh_token" None; mret (with_ctx c {| access_token := Some token |})
      end
  end.

(** What wakes the loop up, until the context is cancelled. *)
Inductive wake := Interval | ResetRequested.

Fixpoint Refresh_loop (c : Client) (secretPath : string) (wakes : list wake) : prog Client :=
  match wakes with
  | [] => mret c
  | Interval :: wakes' => c' ← refresh_tick c secretPath; Refresh_loop c' secretPath wakes'
  | ResetRequested :: wakes' => c' ← reset c secretPath; Refresh_loop c' secretPath wakes'
  end.

(** The client is initialised when it has an API and a transport; a cancelled
    context ends the loop with the error of the context. *)
Definition Refresh (initialized : bool) (c : Client) (secretPath : string) (wakes : list wake) (ctxErr : error)
  : prog (Client * error) :=
  if negb initialized then mret (c, Sentinel ErrNotInitialized)
  else c' ← Refresh_loop c secretPath wakes; mret (c', ctxErr).

(** ** Properties *)

(** The fuel of the trimming loop is enough: no space is left at the start. *)
Lemma trim_left_done spaces fuel l :
  length l <= fuel -> leading_space spaces (trim_left fuel spaces l) = 0.
Proof.
  revert l. induction fuel as [|fuel IH]; intros l Hl; cbn [trim_left].
  - destruct l; [|simpl in Hl; lia]. unfold leading_space.
    destruct (List.find _ spaces) as [s|] eqn:E; [|done].
    apply List.find_some in E as [_ E%bool_decide_eq_true]. rewrite take_nil in E. by subst s.
  - destruct (leading_space spaces l) as [|n] eqn:E; [done|]. apply IH. rewrite length_drop. lia.
Qed.

Example TrimSpace_newline : TrimSpace (of_bytes (bytes_of " admin" ++ map ascii_of_N [0xC2; 0xA0; 10]%N)) = "admin".
Proof. vm_compute. reflexivity. Qed.

Example Join_paths : filepath_Join "/etc//storageos/../api/" secretUsernameKey = "/etc/api/username".
Proof. vm_compute. reflexivity. Qed.

(** The token in a response, if its header has a second word. *)
Definition header_token (resp : response) : option string :=
  match Split (Authorization resp) " "%char with
  | _ :: token :: _ => if bool_decide (token = "") then None else Some token
  | _ => None
  end.

(** What a call that may bring a token was answered. *)
Definition login_answer (e : event) : option (api_res unit) :=
  match e with
  | existT c r =>
      match c return ret c -> option (api_res unit) with
      | CP_RefreshJwt _ => Some
      | CP_AuthenticateUser _ _ _ => Some
      | _ => fun _ => None
      end r
  end.

(** The token an event brings: of a call without error, from its response. *)
Definition brings (e : event) : option string :=
  match login_answer e with
  | Some (_, Some resp, None) => header_token resp
  | _ => None
  end.

(** An answer without error that has no response, or whose header has one word. *)
Definition malformed (e : event) : Prop :=
  match login_answer e with
  | Some (_, None, None) => True
  | Some (_, Some resp, None) => Authorization resp <> "" /\ exists w, Split (Authorization resp) " "%char = [w]
  | _ => False
  end.

(** The token in use after a trace: the last one that was brought. *)
Definition in_use (t : option string) (tr : trace) : option string :=
  foldl (fun t e => match brings e with Some t' => Some t' | None => t end) t tr.

(** Every refresh is sent with the token in use at that time. *)
Fixpoint sends_token (t : option string) (tr : trace) : Prop :=
  match tr with
  | [] => True
  | e :: tr' =>
      match projT1 e with CP_RefreshJwt ctx => access_token ctx = t | _ => True end /\ sends_token (in_use t [e]) tr'
  end.

(** A login uses what the two files of the secret hold, trimmed. *)
Definition reads_file (path content : string) (e : event) : Prop :=
  match e with
  | existT c r => match c return ret c -> Prop with ReadFile p => fun r => p = path /\ r = inl content | _ => fun _ => False end r
  end.

Definition from_secret (secretPath : string) (tr : trace) (e : event) : Prop :=
  match projT1 e with
  | CP_AuthenticateUser _ username password =>
      exists u p, Exists (reads_file (filepath_Join secretPath secretUsernameKey) u) tr /\
        Exists (reads_file (filepath_Join secretPath secretPasswordKey) p) tr /\
        username = TrimSpace u /\ password = TrimSpace p
  | _ => True
  end.

Lemma in_use_app t tr1 tr2 : in_use t (tr1 ++ tr2) = in_use (in_use t tr1) tr2.
Proof. apply foldl_app. Qed.

Lemma sends_token_app t tr1 tr2 :
  sends_token t (tr1 ++ tr2) <-> sends_token t tr1 /\ sends_token (in_use t tr1) tr2.
Proof.
  revert t. induction tr1 as [|e tr1 IH]; intros t; [simpl; tauto|]. cbn [app sends_token].
  rewrite IH. change (in_use t (e :: tr1)) with (in_use (in_use t [e]) tr1). tauto.
Qed.

Lemma from_secret_app secretPath tr1 tr2 :
  Forall (from_secret secretPath tr1) tr1 -> Forall (from_secret secretPath tr2) tr2 ->
  Forall (from_secret secretPath (tr1 ++ tr2)) (tr1 ++ tr2).
Proof.
  intros H1 H2. apply Forall_app. split; (eapply Forall_impl; [|eassumption]); intros e; unfold from_secret;
    destruct (projT1 e); try done; intros (u & p & ? & ? & ? & ?); exists u, p; rewrite !Exists_app; auto.
Qed.

(** A part of the loop that starts with the token [t]: [f] gives the token at
    its end. *)
Definition keeps_token {A} (secretPath : string) (t : option string) (f : A -> option string) (tr : trace) (o : outcome A) : Prop :=
  sends_token t tr /\ Forall (from_secret secretPath tr) tr /\
  match o with Done a => f a = in_use t tr | Panicked _ => Exists malformed tr end.

Lemma keeps_token_seq {A B} secretPath t (p : prog A) (k : A -> prog B) f g :
  every_run p (keeps_token secretPath t f) ->
  (forall a, every_run (k a) (keeps_token secretPath (f a) g)) ->
  every_run (p ≫= k) (keeps_token secretPath t g).
Proof.
  intros Hp Hk. eapply every_run_seq; [exact Hp| |by intros tr m (? & ? & ?)].
  intros tr a (H1 & H2 & H3). eapply every_run_mono; [apply Hk|]. intros tr' o (H1' & H2' & H3').
  rewrite H3 in H1', H3'. split_and!; [by apply sends_token_app|by apply from_secret_app|].
  destruct o; [by rewrite in_use_app|]. apply Exists_app. by right.
Qed.

Lemma count_keeps secretPath c name e t : every_run (count c name e) (keeps_token secretPath t (fun _ => t)).
Proof. unfold count. run_steps; by repeat constructor. Qed.

(** Reading the token of a response. *)
Lemma respAuthToken_run resp :
  every_run (respAuthToken resp) (fun tr o => tr = [] /\
    match o with
    | Done token => header_token resp = (if bool_decide (token = "") then None else Some token)
    | Panicked _ => Authorization resp <> "" /\ exists w, Split (Authorization resp) " "%char = [w]
    end).
Proof.
  unfold respAuthToken, header_token. destruct (bool_decide_reflect (Authorization resp = "")) as [->|Hne]; [by run_steps|].
  destruct (Split (Authorization resp) " "%char) as [|w [|token ws]] eqn:E; run_steps; split; try done; [|eauto].
  exfalso. clear -E. unfold Split in E. revert E. generalize (@nil ascii).
  induction (bytes_of (Authorization resp)) as [|a l IH]; intros cur; simpl; [done|]. destruct (Ascii.eqb _ _); [done|apply IH].
Qed.

(** The file system is asked for the credentials, in this order. *)
Lemma ReadCreds_run secretPath :
  every_run (ReadCredsFromMountedSecret secretPath) (fun tr o =>
    Forall (fun e => login_answer e = None) tr /\
    match o with
    | Done (inl (username, password)) =>
        exists u p, Exists (reads_file (filepath_Join secretPath secretUsernameKey) u) tr /\
          Exists (reads_file (filepath_Join secretPath secretPasswordKey) p) tr /\
          username = TrimSpace u /\ password = TrimSpace p
    | Done (inr _) => True
    | Panicked _ => False
    end).
Proof.
  unfold ReadCredsFromMountedSecret, try, secret_Read. run_steps; (split; [repeat constructor|]); try done.
  eexists _, _. split_and!; [..|reflexivity|reflexivity].
  - apply Exists_cons. left. simpl. eauto.
  - apply Exists_cons. right. apply Exists_cons. left. simpl. eauto.
Qed.

(** Events that are no logins do not touch the token. *)
Lemma quiet_events t tr secretPath tr0 :
  Forall (fun e => login_answer e = None) tr ->
  in_use t tr = t /\ sends_token t tr /\ Forall (from_secret secretPath tr0) tr.
Proof.
  induction tr as [|[c r] tr IH]; [by repeat constructor|]. intros [Hc Htr]%Forall_cons_iff.
  destruct (IH Htr) as (H1 & H2 & H3). unfold in_use in *. cbn [foldl sends_token].
  unfold brings. rewrite Hc. split_and!; [done|by destruct c|by unfold in_use, brings; cbn [foldl]; rewrite Hc|].
  constructor; [|done]. by destruct c.
Qed.

Lemma resetClient_keeps secretPath t :
  every_run (resetClient secretPath) (keeps_token secretPath t
    (fun r => match r with inl ctx => access_token ctx | inr _ => t end)).
Proof.
  unfold resetClient, try. eapply every_run_seq; [apply ReadCreds_run| |by intros ? ? []].
  intros tr [[u p]|e] [Hq Hr].
  2:{ run_steps. rewrite app_nil_r. destruct (quiet_events t tr secretPath tr Hq) as (? & ? & ?). by split_and!. }
  assert (Hone : forall r, let e := existT (CP_AuthenticateUser background u p) r in
    sends_token t (tr ++ [e]) /\ Forall (from_secret secretPath (tr ++ [e])) (tr ++ [e]) /\
    in_use t (tr ++ [e]) = in_use t [e]).
  { intros r e. destruct (quiet_events t tr secretPath (tr ++ [e]) Hq) as (Hu & Hs & Hf). split_and!.
    - apply sends_token_app. by rewrite Hu.
    - apply Forall_app. split; [done|]. apply Forall_singleton. simpl.
      destruct Hr as (u' & p' & ? & ? & ? & ?). exists u', p'. rewrite !Exists_app. auto.
    - by rewrite in_use_app, Hu. }
  simpl fst. simpl snd. unfold Authenticate. run_step. run_step. destruct r as [[[] resp] err].
  specialize (Hone (tt, resp, err)) as (H1 & H2 & H3). unfold in_use, brings in H3. simpl foldl in H3. simpl login_answer in H3.
  destruct err as [e|]; [run_steps; split_and!; try done; by destruct resp|].
  destruct resp as [resp|].
  2:{ run_steps. split_and!; try done. apply Exists_app. right. by apply Exists_cons; left. }
  eapply every_run_seq; [apply respAuthToken_run| |].
  - intros ? token [-> Ht]. rewrite Ht in H3. destruct (bool_decide (token = "")); run_steps; by split_and!.
  - intros ? m [-> Hm]. split_and!; try done. apply Exists_app. right. apply Exists_cons. left. exact Hm.
Qed.

Lemma reset_keeps c secretPath :
  every_run (reset c secretPath) (keeps_token secretPath (access_token (c_ctx c)) (fun c' => access_token (c_ctx c'))).
Proof.
  unfold reset. eapply keeps_token_seq; [apply resetClient_keeps|]. intros [ctx|e];
    (eapply keeps_token_seq; [apply count_keeps|]); intros []; by run_steps.
Qed.

Lemma refresh_tick_keeps c secretPath :
  every_run (refresh_tick c secretPath) (keeps_token secretPath (access_token (c_ctx c)) (fun c' => access_token (c_ctx c'))).
Proof.
  set (t := access_token (c_ctx c)). unfold refresh_tick. run_step. run_step. destruct r as [[[] resp] err].
  assert (Hone : forall (k : prog Client), every_run k (keeps_token secretPath
      (in_use t [existT (CP_RefreshJwt (c_ctx c)) (tt, resp, err)]) (fun c' => access_token (c_ctx c'))) ->
    every_run k (fun tr o => keeps_token secretPath t (fun c' => access_token (c_ctx c'))
      ([existT (CP_RefreshJwt (c_ctx c)) (tt, resp, err)] ++ tr) o)).
  { intros k Hk. eapply every_run_mono; [exact Hk|]. intros tr o (H1 & H2 & H3). split_and!.
    - by apply sends_token_app.
    - by apply from_secret_app; [repeat constructor|].
    - destruct o; [by rewrite in_use_app|]. apply Exists_app. by right. }
  unfold in_use, brings in Hone. simpl foldl in Hone. simpl login_answer in Hone.
  destruct err as [e|].
  { destruct resp; apply Hone; (eapply keeps_token_seq; [apply count_keeps|]); intros []; exact (reset_keeps c secretPath). }
  destruct resp as [resp|].
  2:{ apply every_run_panic. split_and!; [done|by repeat constructor|]. apply (Exists_cons malformed). by left. }
  eapply every_run_seq; [apply respAuthToken_run| |].
  - intros ? token [-> Ht]. rewrite Ht in Hone. destruct (bool_decide (token = ""));
      (apply Hone; eapply keeps_token_seq; [apply count_keeps|]; intros []; by run_steps).
  - intros ? m [-> Hm]. split_and!; [done|by repeat constructor|]. apply (Exists_cons malformed). left. exact Hm.
Qed.

Lemma Refresh_loop_keeps c secretPath wakes :
  every_run (Refresh_loop c secretPath wakes)
    (keeps_token secretPath (access_token (c_ctx c)) (fun c' => access_token (c_ctx c'))).
Proof.
  revert c. induction wakes as [|[] wakes IH]; intros c; [apply every_run_ret; split_and!; [done|constructor|done]|..]; cbn [Refresh_loop];
    (eapply keeps_token_seq; [|intros c'; apply IH]); [apply refresh_tick_keeps|apply reset_keeps].
Qed.

(** C18. For every sequence of refresh intervals and reset requests and every
    answer of the control plane and the file system: each refresh is sent with
    the token in use, the last one the control plane brought; each login uses
    the two files of the mounted secret, trimmed; the client ends with the
    token in use, so a failed refresh or login never loses it; the loop only
    ends with the error of its context.  It panics only when an answer without
    error has no response or an authorization header of one word. *)
Theorem Refresh_token initialized c secretPath wakes ctxErr :
  every_run (Refresh initialized c secretPath wakes ctxErr) (fun tr o =>
    sends_token (access_token (c_ctx c)) tr /\
    Forall (from_secret secretPath tr) tr /\
    match o with
    | Done (c', e) => access_token (c_ctx c') = in_use (access_token (c_ctx c)) tr /\
        e = (if initialized then ctxErr else Sentinel ErrNotInitialized)
    | Panicked _ => Exists malformed tr
    end).
Proof.
  unfold Refresh. destruct initialized; cbn [negb]; [|by run_steps].
  eapply every_run_seq; [apply (Refresh_loop_keeps c secretPath wakes)| |by intros ? ? (? & ? & ?)].
  intros tr c' (H1 & H2 & H3). run_steps. rewrite app_nil_r. by split_and!.
Qed.
