(* ===== verification/Threads.v ===== *)
(** * The goroutines that share the client

    [main.go] starts the refresh loop of the client in a goroutine of its own.
    The shared volume loop and the node poller of the fencer ask it for a new
    login over a channel without buffer: a send blocks until the refresh loop
    is at its [select].  Here the programs run interleaved, one call at a time,
    with every answer the environment may give. *)

From stdpp Require Import relations.
From S2P Require Import Prelude GoLib Json Errors Types Effects Client Auth.

(** ** Configurations *)

Definition is_send (c : call) : bool := match c with SendAPIReset => true | _ => false end.

(** The refresh goroutine: at its [select], or in one of its branches. *)
Inductive refresher := Selecting | Busy (p : prog Client).

(** The other goroutines, the refresh goroutine, the client, and the calls the
    refresh goroutine made so far with their answers. *)
Record config := Config {
  threads : list (prog unit);
  refreshing : refresher;
  client : Client;
  history : trace;
}.

(** A program makes a call that is no send, and is answered. *)
Definition takes {A} (p : prog A) (e : event) (p' : prog A) : Prop :=
  match p with
  | Do c k => is_send c = false /\ exists r, e = existT c r /\ p' = k r
  | _ => False
  end.

Section interleaving.
Context (secretPath : string).

(** One step of one goroutine.  A thread that sends and the refresh goroutine
    at its [select] step together. *)
Inductive step : config -> config -> Prop :=
  | step_call i t e t' ts rf cl tr :
      ts !! i = Some t -> takes t e t' ->
      step (Config ts rf cl tr) (Config (<[i := t']> ts) rf cl tr)
  | step_send i k ts cl tr :
      ts !! i = Some (Do SendAPIReset k) ->
      step (Config ts Selecting cl tr) (Config (<[i := k tt]> ts) (Busy (reset cl secretPath)) cl tr)
  | step_interval ts cl tr :
      step (Config ts Selecting cl tr) (Config ts (Busy (refresh_tick cl secretPath)) cl tr)
  | step_work p e p' ts cl tr :
      takes p e p' -> step (Config ts (Busy p) cl tr) (Config ts (Busy p') cl (tr ++ [e]))
  | step_loop cl' ts cl tr :
      step (Config ts (Busy (Ret cl')) cl tr) (Config ts Selecting cl' tr).

(** The steps of the refresh goroutine alone. *)
Inductive work : config -> config -> Prop :=
  | work_call p e p' ts cl tr :
      takes p e p' -> work (Config ts (Busy p) cl tr) (Config ts (Busy p') cl (tr ++ [e]))
  | work_loop cl' ts cl tr :
      work (Config ts (Busy (Ret cl')) cl tr) (Config ts Selecting cl' tr).

Definition start (ts : list (prog unit)) (c : Client) : config := Config ts Selecting c [].

Definition reachable (ts : list (prog unit)) (c : Client) : config -> Prop := rtc step (start ts c).

(** Invariants hold of every reachable configuration. *)
Lemma reachable_invariant (I : config -> Prop) ts c cf :
  I (start ts c) -> (forall cf cf', I cf -> step cf cf' -> I cf') -> reachable ts c cf -> I cf.
Proof. intros H0 Hstep. revert cf. apply rtc_ind_r; eauto. Qed.

(** A Go panic ends the process. *)
Definition crashed (cf : config) : Prop := exists m, refreshing cf = Busy (Panic m).

(** ** The refresh goroutine never sends to itself *)

Fixpoint no_send {A} (p : prog A) : Prop :=
  match p with
  | Ret _ | Panic _ => True
  | Do c k => is_send c = false /\ forall r, no_send (k r)
  end.

Lemma no_send_bind {A B} (p : prog A) (f : A -> prog B) :
  no_send p -> (forall a, no_send (f a)) -> no_send (p ≫= f).
Proof.
  intros Hp Hf. induction p as [a|m|c k IH]; [apply Hf|done|]. destruct Hp as [Hc Hk].
  split; [done|]. intros r. by apply IH.
Qed.

Lemma no_send_takes {A} (p : prog A) e p' : takes p e p' -> no_send p -> no_send p'.
Proof. destruct p; [done..|]. intros (_ & r & _ & ->) [_ Hk]. apply Hk. Qed.

Lemma no_send_call c : is_send c = false -> no_send (Call c).
Proof. by split. Qed.

Ltac no_send_steps :=
  repeat (cbn beta iota;
    lazymatch goal with
    | |- no_send (mbind _ _) => apply no_send_bind; [|intros]
    | |- no_send (try _ _) => apply no_send_bind; [|intros]
    | |- no_send (mret _) => exact I
    | |- no_send (Ret _) => exact I
    | |- no_send (Panic _) => exact I
    | |- no_send (Call _) => by apply no_send_call
    | |- no_send (match ?x with _ => _ end) => destruct x
    | |- no_send (if ?x then _ else _) => destruct x
    end).

Lemma no_send_reset c : no_send (reset c secretPath).
Proof.
  unfold reset, resetClient, ReadCredsFromMountedSecret, secret_Read, Authenticate, respAuthToken, count. no_send_steps.
Qed.

Lemma no_send_refresh_tick c : no_send (refresh_tick c secretPath).
Proof.
  unfold refresh_tick, respAuthToken, count. no_send_steps; apply no_send_reset.
Qed.

Definition never_blocked (cf : config) : Prop :=
  match refreshing cf with Selecting => True | Busy p => no_send p end.

Lemma never_blocked_reachable ts c cf : reachable ts c cf -> never_blocked cf.
Proof.
  apply reachable_invariant; [done|]. clear. intros cf cf' IH Hs. unfold never_blocked in *.
  destruct Hs as [| | |p e p' ? ? ? Ht|]; cbn [refreshing] in *;
    auto using no_send_reset, no_send_refresh_tick. by eapply no_send_takes.
Qed.

(** ** A blocked sender is released *)

(** [inevitably P cf]: whatever is answered, the refresh goroutine by itself
    comes to a configuration that satisfies [P] in finitely many steps. *)
Inductive inevitably (P : config -> Prop) (cf : config) : Prop :=
  | inevitably_now : P cf -> inevitably P cf
  | inevitably_later :
      (exists cf', work cf cf') -> (forall cf', work cf cf' -> inevitably P cf') -> inevitably P cf.

Lemma inevitably_mono (P Q : config -> Prop) cf :
  (forall cf', P cf' -> Q cf') -> inevitably P cf -> inevitably Q cf.
Proof.
  intros HPQ H. induction H as [cf HP|cf Hex _ IH]; [by apply inevitably_now, HPQ|]. by apply inevitably_later.
Qed.

Lemma work_step cf cf' : work cf cf' -> step cf cf'.
Proof. destruct 1; econstructor; eauto. Qed.

(** At its [select], with nothing changed but its own client and history; or
    crashed. *)
Definition back_at_select (ts : list (prog unit)) (cf : config) : Prop :=
  threads cf = ts /\ (refreshing cf = Selecting \/ crashed cf).

Lemma busy_returns p ts cl tr :
  no_send p -> inevitably (back_at_select ts) (Config ts (Busy p) cl tr).
Proof.
  revert cl tr. induction p as [cl'|m|c k IH]; intros cl tr Hp.
  - apply inevitably_later; [eexists; apply work_loop|]. intros cf' Hw.
    inversion Hw as [? ? ? ? ? ? Ht|]; subst; [done|]. apply inevitably_now. by split; [|left].
  - apply inevitably_now. split; [done|]. right. by exists m.
  - destruct Hp as [Hc Hk]. apply inevitably_later.
    + exists (Config ts (Busy (k (plain_answer c))) cl (tr ++ [existT c (plain_answer c)])). apply work_call. simpl. eauto.
    + intros cf' Hw. inversion Hw as [? ? ? ? ? ? Ht|]; subst. destruct Ht as (_ & r & -> & ->). by apply IH.
Qed.

(** C16. Under every interleaving and every answer of the environment, a
    goroutine that asks for a new login is not blocked for ever: from every
    reachable configuration in which it waits, the refresh goroutine comes
    back to its [select] by itself, in finitely many steps, unless it panics;
    there the two step together, the goroutine goes on and a reset begins. *)
Theorem sender_released ts c cf i k :
  reachable ts c cf -> threads cf !! i = Some (Do SendAPIReset k) ->
  inevitably (fun cf' => crashed cf' \/
    exists cl tr, cf' = Config (threads cf) Selecting cl tr /\
      step cf' (Config (<[i := k tt]> (threads cf)) (Busy (reset cl secretPath)) cl tr)) cf.
Proof.
  intros Hr Hi. apply never_blocked_reachable in Hr. destruct cf as [ts' [|p] cl tr].
  - apply inevitably_now. right. exists cl, tr. split; [done|]. by apply step_send.
  - simpl in *. eapply inevitably_mono; [|by apply busy_returns].
    intros [ts0 rf cl0 tr0] [Ht [Hs|Hs]]; [right|by left]. simpl in *. subst.
    exists cl0, tr0. split; [done|]. by apply step_send.
Qed.

End interleaving.

(** One goroutine waits while the refresh goroutine is busy with a refresh. *)
Definition example_client : Client := {| c_ctx := {| access_token := Some "jwt" |}; c_traced := false |}.

Definition example_blocked : config :=
  Config [Call SendAPIReset] (Busy (refresh_tick example_client "/etc/api")) example_client [].

Lemma example_blocked_reachable : reachable "/etc/api" [Call SendAPIReset] example_client example_blocked.
Proof. apply rtc_once. apply step_interval. Defined.

Lemma sender_released_witness :
  inevitably (fun cf => crashed cf \/ exists cl tr, cf = Config [Call SendAPIReset] Selecting cl tr /\
    step "/etc/api" cf (Config [Ret tt] (Busy (reset cl "/etc/api")) cl tr)) example_blocked.
Proof.
  exact (sender_released "/etc/api" [Call SendAPIReset] example_client example_blocked 0 Ret
           example_blocked_reachable eq_refl).
Defined.
