(* ===== verification/Workqueue.v ===== *)
(** * The work queue of a controller ([k8s.io/client-go/util/workqueue])

    [queue.go]: the keys that wait, the keys that are dirty and the keys a
    worker holds.  The queue hands out a key to one worker at a time, and a key
    that is added while it is worked on is handed out again. *)

From S2P Require Import Prelude.

Section workqueue.
Context {K : Type} `{Countable K}.

Record workqueue := Queue {
  q_queue : list K; q_dirty : gset K; q_processing : gset K; q_shuttingDown : bool;
}.

Definition NewQueue : workqueue := Queue [] ∅ ∅ false.

Definition Add (q : workqueue) (item : K) : workqueue :=
  if q_shuttingDown q then q
  else if decide (item ∈ q_dirty q) then q
  else
    let dirty := {[item]} ∪ q_dirty q in
    if decide (item ∈ q_processing q) then Queue (q_queue q) dirty (q_processing q) (q_shuttingDown q)
    else Queue (q_queue q ++ [item]) dirty (q_processing q) (q_shuttingDown q).

(** What [Get] does when it wakes up; it waits otherwise. *)
Inductive get_result := GotItem (item : K) (q : workqueue) | GotShutdown | Waiting.

Definition Get (q : workqueue) : get_result :=
  match q_queue q with
  | [] => if q_shuttingDown q then GotShutdown else Waiting
  | item :: rest =>
      GotItem item (Queue rest (q_dirty q ∖ {[item]}) ({[item]} ∪ q_processing q) (q_shuttingDown q))
  end.

Definition Done (q : workqueue) (item : K) : workqueue :=
  let processing := q_processing q ∖ {[item]} in
  if decide (item ∈ q_dirty q) then Queue (q_queue q ++ [item]) (q_dirty q) processing (q_shuttingDown q)
  else Queue (q_queue q) (q_dirty q) processing (q_shuttingDown q).

Definition ShutDown (q : workqueue) : workqueue := Queue (q_queue q) (q_dirty q) (q_processing q) true.

(** What the comments of the type promise: a key waits at most once, and the
    keys that wait are those that are dirty and that no worker holds. *)
Definition queue_ok (q : workqueue) : Prop :=
  NoDup (q_queue q) /\ forall k, k ∈ q_queue q <-> k ∈ q_dirty q /\ k ∉ q_processing q.

(** ** What each operation keeps *)

Lemma NewQueue_ok : queue_ok NewQueue.
Proof. split; [constructor|]. set_solver. Qed.

Lemma Add_ok q item : queue_ok q -> queue_ok (Add q item).
Proof.
  intros [Hnd Hq]. unfold Add. destruct (q_shuttingDown q); [done|].
  destruct (decide (item ∈ q_dirty q)) as [|Hd]; [done|].
  destruct (decide (item ∈ q_processing q)) as [Hp|Hp]; split; cbn [q_queue q_dirty q_processing]; [done| | |].
  - set_solver.
  - apply list.NoDup_app. split_and!; [done|set_solver|apply NoDup_singleton].
  - set_solver.
Qed.

Lemma Get_ok q item q' :
  queue_ok q -> Get q = GotItem item q' ->
  queue_ok q' /\ item ∈ q_dirty q /\ item ∉ q_processing q /\
  q_dirty q' = q_dirty q ∖ {[item]} /\ q_processing q' = {[item]} ∪ q_processing q.
Proof.
  intros [Hnd Hq] Hg. unfold Get in Hg. destruct (q_queue q) as [|k rest] eqn:E; [by destruct (q_shuttingDown q)|].
  simplify_eq. apply list.NoDup_cons in Hnd as [Hk Hnd].
  assert (Hi := proj1 (Hq item) ltac:(left)). split_and!; [|apply Hi..|done|done].
  split; [done|]. cbn [q_queue q_dirty q_processing]. intros k. rewrite elem_of_difference, elem_of_union, elem_of_singleton.
  specialize (Hq k). rewrite elem_of_cons in Hq. destruct (decide (k = item)) as [->|]; [naive_solver|tauto].
Qed.

Lemma Done_ok q item : queue_ok q -> item ∈ q_processing q -> queue_ok (Done q item).
Proof.
  intros [Hnd Hq] Hp. unfold Done. destruct (decide (item ∈ q_dirty q)) as [Hd|Hd]; split; cbn [q_queue q_dirty q_processing].
  - apply list.NoDup_app. split_and!; [done| |apply NoDup_singleton].
    intros k Hk. rewrite list_elem_of_singleton. intros ->. by apply Hq in Hk as [].
  - intros k. rewrite elem_of_app, list_elem_of_singleton, elem_of_difference, elem_of_singleton, Hq.
    destruct (decide (k = item)) as [->|]; tauto.
  - done.
  - intros k. rewrite elem_of_difference, elem_of_singleton, Hq. destruct (decide (k = item)) as [->|]; tauto.
Qed.

Lemma ShutDown_ok q : queue_ok q -> queue_ok (ShutDown q).
Proof. done. Qed.

Lemma Add_dirty q item : q_shuttingDown q = false -> q_dirty (Add q item) = {[item]} ∪ q_dirty q.
Proof. intros Hs. unfold Add. rewrite Hs. repeat case_decide; simpl; set_solver. Qed.

Lemma Add_processing q item : q_processing (Add q item) = q_processing q.
Proof. unfold Add. destruct (q_shuttingDown q); [done|]. by repeat case_decide. Qed.

Lemma Add_shuttingDown q item : q_shuttingDown (Add q item) = q_shuttingDown q.
Proof. unfold Add. destruct (q_shuttingDown q) eqn:?; [done|]. by repeat case_decide. Qed.

Lemma Get_shuttingDown q item q' : Get q = GotItem item q' -> q_shuttingDown q' = q_shuttingDown q.
Proof. unfold Get. destruct (q_queue q); [by destruct (q_shuttingDown q)|]. by intros [= _ <-]. Qed.

Lemma Done_dirty q item : q_dirty (Done q item) = q_dirty q.
Proof. unfold Done. by case_decide. Qed.

Lemma Done_processing q item : q_processing (Done q item) = q_processing q ∖ {[item]}.
Proof. unfold Done. by case_decide. Qed.

Lemma Done_shuttingDown q item : q_shuttingDown (Done q item) = q_shuttingDown q.
Proof. unfold Done. by case_decide. Qed.
End workqueue.

Arguments workqueue K {_ _}.
Arguments get_result K {_ _}.
#[export] Hint Resolve NewQueue_ok Add_ok Done_ok ShutDown_ok : core.
#[export] Hint Rewrite @Add_processing @Add_shuttingDown @Done_dirty @Done_processing @Done_shuttingDown : golib.
