(* ===== verification/Workers.v ===== *)
(** * The workers of a controller

    [Start], [processNextWorkItem] and [reconcileHandler] of controller-runtime
    ([internal/controller/controller.go]): workers take keys from the work
    queue, run [Reconcile] on them one call at a time, interleaved with each
    other, and give them back; a key whose reconciliation failed is queued again
    later.  The reconciler and the environment that answers its calls are
    parameters; the fencer and the synchronising controllers instantiate them. *)

From stdpp Require Import relations.
From S2P Require Import Prelude Types Workqueue Effects.

Section workers.
Context {R : Type} (Reconcile : ObjectKey -> prog R) (failed : R -> bool).

(** ** The state *)

(** A worker: waiting for a key, in the middle of a reconciliation with the
    calls it has made, or about to give the key back. *)
Inductive worker :=
  | Idle
  | Running (k : ObjectKey) (p : prog R) (tr : trace)
  | Returning (k : ObjectKey).

(** A reconciliation that succeeded: its key, its calls and its result. *)
Record reconciled := { rc_key : ObjectKey; rc_calls : trace; rc_result : R }.

Record pool := Pool {
  p_queue : workqueue ObjectKey;
  p_delayed : gset ObjectKey;     (* the keys the rate limiter holds back *)
  p_workers : list worker;
  p_log : list reconciled;        (* the latest first *)
}.

Definition set_worker (w : pool) (i : nat) (x : worker) : pool :=
  Pool (p_queue w) (p_delayed w) (<[i := x]> (p_workers w)) (p_log w).

Definition with_queue (w : pool) (q : workqueue ObjectKey) : pool :=
  Pool q (p_delayed w) (p_workers w) (p_log w).

Definition with_delayed (w : pool) (d : gset ObjectKey) : pool :=
  Pool (p_queue w) d (p_workers w) (p_log w).

Definition with_log (w : pool) (l : list reconciled) : pool :=
  Pool (p_queue w) (p_delayed w) (p_workers w) l.

(** ** The steps *)

(** [MaxConcurrentReconciles] workers over a new queue. *)
Definition start_workers (n : nat) : pool := Pool NewQueue ∅ (replicate n Idle) [].

(** An event handler queues keys. *)
Definition enqueue (w : pool) (ks : list ObjectKey) : pool :=
  with_queue w (foldl Workqueue.Add (p_queue w) ks).

(** [reconcileHandler] after [Reconcile]: a failed key is queued again with a
    delay, otherwise the reconciliation is done. *)
Definition reconcileHandler (w : pool) (k : ObjectKey) (tr : trace) (r : R) : pool :=
  if failed r then with_delayed w ({[k]} ∪ p_delayed w)
  else with_log w ({| rc_key := k; rc_calls := tr; rc_result := r |} :: p_log w).

(** [answered tr e]: after the calls [tr], the environment may answer a call as
    in [e].  A key whose delay is over is queued; it stays among the delayed ones
    if it was delayed more than once. *)
Inductive pool_step (answered : trace -> event -> Prop) (w : pool) : pool -> Prop :=
  | step_get i k q :
      p_workers w !! i = Some Idle -> Workqueue.Get (p_queue w) = GotItem k q ->
      pool_step answered w (set_worker (with_queue w q) i (Running k (Reconcile k) []))
  | step_call i k p tr e p' :
      p_workers w !! i = Some (Running k p tr) -> makes p e p' -> answered tr e ->
      pool_step answered w (set_worker w i (Running k p' (tr ++ [e])))
  | step_finish i k r tr :
      p_workers w !! i = Some (Running k (Ret r) tr) ->
      pool_step answered w (set_worker (reconcileHandler w k tr r) i (Returning k))
  | step_done i k :
      p_workers w !! i = Some (Returning k) ->
      pool_step answered w (set_worker (with_queue w (Workqueue.Done (p_queue w) k)) i Idle)
  | step_requeue k d :
      k ∈ p_delayed w -> p_delayed w ∖ {[k]} ⊆ d -> d ⊆ p_delayed w ->
      pool_step answered w (with_queue (with_delayed w d) (Workqueue.Add (p_queue w) k)).

(** ** Who holds a key *)

Definition holds (x : worker) (k : ObjectKey) : Prop :=
  match x with Idle => False | Running k' _ _ | Returning k' => k' = k end.

Definition worker_ok (x : worker) : Prop :=
  match x with Running k p tr => ran (Reconcile k) tr p | _ => True end.

(** The log has complete, successful runs of [Reconcile]. *)
Definition logged (rc : reconciled) : Prop :=
  ran (Reconcile (rc_key rc)) (rc_calls rc) (Ret (rc_result rc)) /\ failed (rc_result rc) = false.

(** The queue keeps its promise, every held key is marked as processing, no two
    workers hold the same key, workers run [Reconcile], and so did those of the
    log. *)
Record exclusive (w : pool) : Prop := {
  ex_queue : queue_ok (p_queue w);
  ex_open : q_shuttingDown (p_queue w) = false;
  ex_processing : forall i x k, p_workers w !! i = Some x -> holds x k -> k ∈ q_processing (p_queue w);
  ex_unique : forall i j x y k, p_workers w !! i = Some x -> p_workers w !! j = Some y ->
    holds x k -> holds y k -> i = j;
  ex_worker : forall i x, p_workers w !! i = Some x -> worker_ok x;
  ex_log : Forall logged (p_log w);
}.

Lemma exclusive_start n : exclusive (start_workers n).
Proof.
  split; cbn [start_workers p_queue p_workers p_log]; [auto|done|..|constructor]; intros *; rewrite ?lookup_replicate;
    try (intros [-> ?]; done); by intros [-> _] [-> _].
Qed.

(** A worker goes on with the key it has. *)
Lemma exclusive_worker w i x x' :
  exclusive w -> p_workers w !! i = Some x -> (forall k, holds x' k -> holds x k) -> worker_ok x' ->
  exclusive (set_worker w i x').
Proof.
  intros [H1 H2 H3 H4 H5 H6] Hi Hk Hx. split; cbn [p_queue p_workers p_log set_worker]; [done|done|..|done].
  - intros j y k0 Hj Hh. apply list_lookup_insert_Some in Hj as [(-> & -> & _)|[_ Hj]]; eauto.
  - intros j1 j2 y1 y2 k0 Hj1 Hj2 Hh1 Hh2.
    apply list_lookup_insert_Some in Hj1 as [(-> & -> & _)|[? Hj1]], Hj2 as [(-> & -> & _)|[? Hj2]]; eauto.
  - intros j y Hj. apply list_lookup_insert_Some in Hj as [(-> & -> & _)|[_ Hj]]; eauto.
Qed.

(** A key that no worker holds is handed out, or given back. *)
Lemma exclusive_get w i k q :
  exclusive w -> p_workers w !! i = Some Idle -> Workqueue.Get (p_queue w) = GotItem k q ->
  exclusive (set_worker (with_queue w q) i (Running k (Reconcile k) [])).
Proof.
  intros [H1 H2 H3 H4 H5 H6] Hi Hg. destruct (Get_ok _ _ _ H1 Hg) as (Hq & Hd & Hp & _ & Hpr).
  split; cbn [p_queue p_workers p_log set_worker with_queue]; [done|by rewrite (Get_shuttingDown _ _ _ Hg)|..|done].
  - intros j x k0 Hj Hh. rewrite Hpr.
    apply list_lookup_insert_Some in Hj as [(-> & <- & _)|[_ Hj]]; [simpl in Hh; set_solver|].
    apply elem_of_union_r. eauto.
  - intros j1 j2 x1 x2 k0 Hj1 Hj2 Hh1 Hh2.
    apply list_lookup_insert_Some in Hj1 as [(-> & <- & _)|[? Hj1]], Hj2 as [(-> & <- & _)|[? Hj2]]; simpl in *;
      [done| | |eauto]; subst; exfalso; eauto.
  - intros j x Hj. apply list_lookup_insert_Some in Hj as [(-> & <- & _)|[_ Hj]]; [constructor|eauto].
Qed.

Lemma exclusive_done w i k :
  exclusive w -> p_workers w !! i = Some (Returning k) ->
  exclusive (set_worker (with_queue w (Workqueue.Done (p_queue w) k)) i Idle).
Proof.
  intros [H1 H2 H3 H4 H5 H6] Hi. assert (Hk : k ∈ q_processing (p_queue w)) by (eapply H3; [exact Hi|done]).
  split; cbn [p_queue p_workers p_log set_worker with_queue]; [auto|by autorewrite with golib|..|done].
  - intros j x k0 Hj Hh. apply list_lookup_insert_Some in Hj as [(_ & <- & _)|[Hne Hj]]; [done|].
    autorewrite with golib. apply elem_of_difference. split; [eauto|]. rewrite elem_of_singleton. intros ->.
    by apply Hne, (H4 i j _ _ k Hi Hj).
  - intros j1 j2 x1 x2 k0 Hj1 Hj2 Hh1 Hh2.
    apply list_lookup_insert_Some in Hj1 as [(_ & <- & _)|[? Hj1]], Hj2 as [(_ & <- & _)|[? Hj2]]; by eauto.
  - intros j x Hj. by apply list_lookup_insert_Some in Hj as [(_ & <- & _)|[_ Hj]]; eauto.
Qed.

(** More keys wait; the workers and the log stay. *)
Lemma exclusive_add w w' k :
  exclusive w -> p_workers w' = p_workers w -> p_log w' = p_log w -> p_queue w' = Workqueue.Add (p_queue w) k -> exclusive w'.
Proof.
  intros [H1 H2 H3 H4 H5 H6] Hw Hl Hq; split; rewrite ?Hw, ?Hq, ?Hl; autorewrite with golib; auto.
Qed.

Lemma exclusive_enqueue w ks : exclusive w -> exclusive (enqueue w ks).
Proof.
  unfold enqueue. revert w. induction ks as [|k ks IH]; intros w Hw; [by destruct w|]. simpl.
  apply (IH (with_queue w (Workqueue.Add (p_queue w) k))). by eapply exclusive_add.
Qed.

Lemma exclusive_handler w i k tr r :
  exclusive w -> p_workers w !! i = Some (Running k (Ret r) tr) -> exclusive (reconcileHandler w k tr r).
Proof.
  intros [H1 H2 H3 H4 H5 H6] Hi. unfold reconcileHandler. destruct (failed r) eqn:Hf; split; cbn; try done.
  constructor; [|done]. split; [|done]. exact (H5 _ _ Hi).
Qed.

Lemma reconcileHandler_workers w k tr r : p_workers (reconcileHandler w k tr r) = p_workers w.
Proof. unfold reconcileHandler. by destruct (failed r). Qed.

Lemma exclusive_step answered w w' : exclusive w -> pool_step answered w w' -> exclusive w'.
Proof.
  intros Hex [i k q Hi Hg|i k p tr e p' Hi Hm Ha|i k r tr Hi|i k Hi|k d Hk Hd1 Hd2].
  - by apply exclusive_get.
  - eapply exclusive_worker; [done|exact Hi|done|]. econstructor; [|exact Hm]. exact (ex_worker _ Hex _ _ Hi).
  - eapply exclusive_worker; [by eapply exclusive_handler|by rewrite reconcileHandler_workers|done|done].
  - by apply exclusive_done.
  - by eapply exclusive_add.
Qed.

(** ** Nothing is forgotten *)

(** The last reconciliation of a key that succeeded. *)
Definition last_of (w : pool) (k : ObjectKey) : option reconciled :=
  List.find (fun rc => bool_decide (rc_key rc = k)) (p_log w).

(** [fresh tr]: the calls [tr] agree with the present state of the world.
    What is still to be done about the key [k]: it is on its way to a worker,
    or with one that works on the present state; or the last reconciliation of
    the key worked on it and nobody is working on anything else. *)
Inductive tracked (w : pool) (k : ObjectKey) (fresh : trace -> Prop) : Prop :=
  | tracked_dirty : k ∈ q_dirty (p_queue w) -> tracked w k fresh
  | tracked_delayed : k ∈ p_delayed w -> tracked w k fresh
  | tracked_running i p tr :
      p_workers w !! i = Some (Running k p tr) -> fresh tr -> tracked w k fresh
  | tracked_settled rc :
      last_of w k = Some rc -> fresh (rc_calls rc) ->
      (forall i p tr, p_workers w !! i = Some (Running k p tr) -> fresh tr) -> tracked w k fresh.

(** A step that leaves the workers and the log alone keeps what is tracked. *)
Lemma tracked_mono w w' k (fresh fresh' : trace -> Prop) :
  p_workers w' = p_workers w -> p_log w' = p_log w -> (forall tr, fresh tr -> fresh' tr) ->
  (k ∈ q_dirty (p_queue w) -> tracked w' k fresh') ->
  (k ∈ p_delayed w -> tracked w' k fresh') ->
  tracked w k fresh -> tracked w' k fresh'.
Proof.
  intros Hw Hl Hf H2 H3 [?|?|i p tr Hi Hu|rc Hrc Hread Hall]; auto.
  - eapply tracked_running; [rewrite Hw; exact Hi|auto].
  - eapply tracked_settled; [unfold last_of; rewrite Hl; exact Hrc|auto|rewrite Hw; eauto].
Qed.

Lemma tracked_weaken w k (fresh fresh' : trace -> Prop) :
  (forall tr, fresh tr -> fresh' tr) -> tracked w k fresh -> tracked w k fresh'.
Proof. intros Hf. apply tracked_mono; [done..| |]; intros; [by apply tracked_dirty|by apply tracked_delayed]. Qed.

(** A key that is queued is tracked, and the others stay tracked. *)
Lemma enqueue_dirty w ks :
  q_shuttingDown (p_queue w) = false -> q_dirty (p_queue (enqueue w ks)) = q_dirty (p_queue w) ∪ list_to_set ks.
Proof.
  unfold enqueue, with_queue. cbn. generalize (p_queue w) as q. induction ks as [|k ks IH]; intros q Hq; simpl; [set_solver|].
  rewrite IH by (by autorewrite with golib). rewrite Add_dirty by done. set_solver.
Qed.

Lemma tracked_enqueue w ks k fresh :
  exclusive w -> k ∈ ks \/ tracked w k fresh -> tracked (enqueue w ks) k fresh.
Proof.
  intros Hex. pose proof (enqueue_dirty w ks (ex_open _ Hex)) as Hd.
  intros [Hk|Ht]; [apply tracked_dirty; set_solver|].
  revert Ht. apply tracked_mono; [done..| |]; intros; [apply tracked_dirty; set_solver|by apply tracked_delayed].
Qed.

Section tracking.
Context (answered : trace -> event -> Prop) (k : ObjectKey) (fresh : trace -> Prop).
Context (fresh_nil : fresh []).
Context (fresh_call : forall tr p e p',
  ran (Reconcile k) tr p -> makes p e p' -> answered tr e -> fresh tr -> fresh (tr ++ [e])).

(** Only the worker [i] changes: it keeps to [k] and stays fresh. *)
Lemma tracked_worker w i x x' :
  p_workers w !! i = Some x ->
  (forall p tr, x = Running k p tr -> fresh tr -> exists p' tr', x' = Running k p' tr' /\ fresh tr') ->
  (forall p tr, x' = Running k p tr ->
     fresh tr \/ exists p0 tr0, x = Running k p0 tr0 /\ (fresh tr0 -> fresh tr)) ->
  tracked w k fresh -> tracked (set_worker w i x') k fresh.
Proof.
  intros Hi Hold Hnew [?|?|j p tr Hj Hu|rc Hrc Hread Hall].
  - by apply tracked_dirty.
  - by apply tracked_delayed.
  - destruct (decide (j = i)) as [->|Hne].
    + rewrite Hi in Hj. simplify_eq. destruct (Hold _ _ eq_refl Hu) as (p' & tr' & -> & Hu').
      eapply (tracked_running _ _ _ i); [|done]. cbn. apply list_lookup_insert_eq. by eapply lookup_lt_Some.
    + eapply (tracked_running _ _ _ j); [|done]. cbn. by rewrite list_lookup_insert_ne.
  - eapply tracked_settled; [done..|]. intros j p tr Hj. cbn in Hj.
    apply list_lookup_insert_Some in Hj as [(_ & -> & _)|[_ Hj]]; [|by eauto].
    destruct (Hnew _ _ eq_refl) as [?|(p0 & tr0 & -> & Hf)]; [done|eauto].
Qed.

Lemma tracked_get w i k' q :
  exclusive w -> p_workers w !! i = Some Idle -> Workqueue.Get (p_queue w) = GotItem k' q ->
  tracked w k fresh -> tracked (set_worker (with_queue w q) i (Running k' (Reconcile k') [])) k fresh.
Proof.
  intros Hex Hi Hg Ht. destruct (Get_ok _ _ _ (ex_queue _ Hex) Hg) as (_ & _ & _ & Hd & _).
  destruct (decide (k = k')) as [Hk|Hk].
  - eapply (tracked_running _ _ _ i); [|exact fresh_nil]. cbn. rewrite Hk. apply list_lookup_insert_eq. by eapply lookup_lt_Some.
  - apply (tracked_worker (with_queue w q) i Idle); [done|done|by intros ? ? [= ? _ _]|].
    revert Ht. apply tracked_mono; [done..| |intros; by apply tracked_delayed].
    intros Hn. apply tracked_dirty. cbn. rewrite Hd. set_solver.
Qed.

Lemma tracked_call w i k' p tr e p' :
  exclusive w -> p_workers w !! i = Some (Running k' p tr) -> makes p e p' -> answered tr e ->
  tracked w k fresh -> tracked (set_worker w i (Running k' p' (tr ++ [e]))) k fresh.
Proof.
  intros Hex Hi Hm Ha. pose proof (ex_worker _ Hex _ _ Hi) as Hr. eapply tracked_worker; [exact Hi|..].
  - intros p0 tr0 [= -> -> ->] Hu. do 2 eexists. split; [done|]. by eapply fresh_call.
  - intros p0 tr0 [= -> -> <-]. right. do 2 eexists. split; [done|]. by eapply fresh_call.
Qed.

(** The end of a reconciliation: the key is delayed, or the log has it. *)
Lemma tracked_finish w i k' r tr :
  exclusive w -> p_workers w !! i = Some (Running k' (Ret r) tr) ->
  tracked w k fresh -> tracked (set_worker (reconcileHandler w k' tr r) i (Returning k')) k fresh.
Proof.
  intros Hex Hi Ht. destruct (decide (k' = k)) as [->|Hk].
  - unfold reconcileHandler. destruct (failed r); [apply tracked_delayed; cbn; set_solver|].
    assert (Hdone : fresh tr -> tracked (set_worker (with_log w ({| rc_key := k; rc_calls := tr; rc_result := r |} :: p_log w)) i (Returning k)) k fresh).
    { intros Hf. eapply (tracked_settled _ _ _ {| rc_key := k; rc_calls := tr; rc_result := r |}); [|exact Hf|].
      - unfold last_of. cbn. by rewrite bool_decide_eq_true_2.
      - intros j p0 tr0 Hj. cbn in Hj. apply list_lookup_insert_Some in Hj as [(_ & ? & _)|[Hne Hj]]; [done|].
        by destruct Hne; eapply (ex_unique _ Hex); [exact Hi|exact Hj|..]. }
    destruct Ht as [?|?|j p0 tr0 Hj Hu|rc Hrc Hread Hall];
      [by apply tracked_dirty|by apply tracked_delayed|..|by apply Hdone; eauto].
    assert (j = i) as -> by (eapply (ex_unique _ Hex); [exact Hj|exact Hi|done|done]). rewrite Hi in Hj. simplify_eq. auto.
  - apply (tracked_worker (reconcileHandler w k' tr r) i (Running k' (Ret r) tr)); [by rewrite reconcileHandler_workers|..].
    + intros; simplify_eq.
    + done.
    + unfold reconcileHandler. destruct Ht as [?|?|j p0 tr0 Hj Hu|rc Hrc Hread Hall]; destruct (failed r);
        try (by apply tracked_dirty); try (by apply tracked_delayed; cbn; set_solver);
        try (by eapply tracked_running).
      all: eapply tracked_settled; [|exact Hread|exact Hall]; unfold last_of; cbn; try done.
      by rewrite bool_decide_eq_false_2.
Qed.

(** No step of the workers loses a key. *)
Lemma tracked_step w w' :
  exclusive w -> pool_step answered w w' -> tracked w k fresh -> tracked w' k fresh.
Proof.
  intros Hex [i k' q Hi Hg|i k' p tr e p' Hi Hm Ha|i k' r tr Hi|i k' Hi|k' d Hk Hd1 Hd2].
  - by apply tracked_get.
  - by eapply tracked_call.
  - by apply tracked_finish.
  - intros Ht. apply (tracked_worker (with_queue w (Workqueue.Done (p_queue w) k')) i (Returning k')); [done..|].
    revert Ht. apply tracked_mono; [done..| |]; intros H; [|by apply tracked_delayed].
    apply tracked_dirty. cbn. by autorewrite with golib.
  - pose proof (Add_dirty (p_queue w) k' (ex_open _ Hex)) as Hd.
    apply tracked_mono; [done..| |]; intros H; [apply tracked_dirty; cbn; set_solver|].
    destruct (decide (k = k')); [apply tracked_dirty|apply tracked_delayed]; cbn; set_solver.
Qed.
End tracking.

(** Nothing is left to do: no key waits and no worker has one. *)
Definition quiet (w : pool) : Prop :=
  q_dirty (p_queue w) = ∅ /\ p_delayed w = ∅ /\ Forall (fun x => x = Idle) (p_workers w).

(** Then what is tracked was reconciled. *)
Lemma quiet_settled w k fresh :
  exclusive w -> quiet w -> tracked w k fresh ->
  exists rc, last_of w k = Some rc /\ rc_key rc = k /\ fresh (rc_calls rc) /\ logged rc.
Proof.
  intros Hex (Hd & Hdel & Hw) [H|H|i p tr Hi _|rc Hrc Hread _].
  - rewrite Hd in H. set_solver.
  - rewrite Hdel in H. set_solver.
  - by eapply Forall_lookup_1 in Hi; [|exact Hw].
  - exists rc. pose proof (List.find_some _ _ Hrc) as [Hin Hk]. apply bool_decide_eq_true in Hk.
    split_and!; [done..|]. by apply (proj1 (List.Forall_forall _ _) (ex_log _ Hex)).
Qed.

(** The keys that wait are distinct and held by no worker. *)
Lemma exclusive_waiting w i x k :
  exclusive w -> p_workers w !! i = Some x -> holds x k -> k ∉ q_queue (p_queue w).
Proof. intros [Hq _ Hp _ _ _] Hi Hh Hk. apply Hq in Hk as [_ Hk]. eauto. Qed.
End workers.

Arguments worker R : clear implicits.
Arguments reconciled R : clear implicits.
Arguments pool R : clear implicits.
Arguments Idle {R}.
Arguments Returning {R} k.
#[export] Hint Resolve exclusive_start exclusive_enqueue exclusive_step : core.
