(* ===== verification/Heap.v ===== *)
(** * The binary heap of Go ([container/heap])

    [up], [down], [Push], [Pop] and [Fix] as the standard library has them, on a
    list of elements ordered by a time.  [Swap] also records in each element its
    new position ([place]), as the priority queue of the delaying queue does. *)

From Stdlib Require Import ZArith.
From S2P Require Import Prelude.

(** The parent of a position; of the root, the root. *)
Definition parent (j : nat) : nat := (j - 1) / 2.

Lemma parent_child k : 0 < k -> k = 2 * parent k + 1 \/ k = 2 * parent k + 2.
Proof. intros Hk. unfold parent. pose proof (Nat.div_mod_eq (k - 1) 2). pose proof (Nat.mod_upper_bound (k - 1) 2). lia. Qed.

Lemma parent_of i k : k = 2 * i + 1 \/ k = 2 * i + 2 -> parent k = i.
Proof. intros Hk. pose proof (parent_child k ltac:(lia)). lia. Qed.

Section heap.
Context {A : Type} (time : A -> Z) (place : nat -> A -> A).

(** ** The operations; the positions they are given are those of the list *)

Definition Less (l : list A) (i j : nat) : bool :=
  match l !! i, l !! j with Some x, Some y => (time x <? time y)%Z | _, _ => false end.

Definition Swap (l : list A) (i j : nat) : list A :=
  match l !! i, l !! j with
  | Some x, Some y => <[j := place j x]> (<[i := place i y]> l)
  | _, _ => l
  end.

Fixpoint up (fuel : nat) (l : list A) (j : nat) : list A :=
  match fuel with
  | O => l
  | S fuel =>
      let i := parent j in
      if bool_decide (i = j) || negb (Less l j i) then l else up fuel (Swap l i j) i
  end.

(** The list, and the position where it stopped. *)
Fixpoint down (fuel : nat) (l : list A) (i n : nat) : list A * nat :=
  match fuel with
  | O => (l, i)
  | S fuel =>
      let j1 := 2 * i + 1 in
      if bool_decide (n <= j1) then (l, i)
      else
        let j2 := j1 + 1 in
        let j := if bool_decide (j2 < n) && Less l j2 j1 then j2 else j1 in
        if negb (Less l j i) then (l, i) else down fuel (Swap l i j) j n
  end.

Definition Push (l : list A) (x : A) : list A :=
  up (S (length l)) (l ++ [place (length l) x]) (length l).

Definition Pop (l : list A) : option (A * list A) :=
  let n := length l - 1 in
  let l' := (down n (Swap l 0 n) 0 n).1 in
  x ← l' !! n; Some (x, take n l').

Definition Fix (l : list A) (i : nat) : list A :=
  let '(l', i') := down (length l) l i (length l) in
  if bool_decide (i < i') then l' else up (S i) l' i.

(** ** The order *)

Hypothesis time_place : forall i x, time (place i x) = time x.

Definition at_ (l : list A) (i : nat) : Z := from_option time 0%Z (l !! i).

Definition swapped (a : nat -> Z) (i j k : nat) : Z :=
  if decide (k = i) then a j else if decide (k = j) then a i else a k.

Lemma length_Swap l i j : length (Swap l i j) = length l.
Proof. unfold Swap. destruct (l !! i), (l !! j); try done. by rewrite !length_insert. Qed.

Lemma at_Swap l i j k : i < length l -> j < length l -> i <> j -> at_ (Swap l i j) k = swapped (at_ l) i j k.
Proof.
  intros Hi Hj Hij. apply lookup_lt_is_Some in Hi as [x Hx], Hj as [y Hy].
  unfold Swap, swapped, at_. rewrite Hx, Hy. repeat case_decide; subst.
  - rewrite list_lookup_insert_ne by done.
    rewrite list_lookup_insert_eq by (by eapply lookup_lt_Some). simpl. by rewrite time_place.
  - rewrite list_lookup_insert_eq by (rewrite length_insert; by eapply lookup_lt_Some). simpl. by rewrite time_place.
  - by rewrite !list_lookup_insert_ne.
Qed.

Lemma Less_at l i j : i < length l -> j < length l -> Less l i j = (at_ l i <? at_ l j)%Z.
Proof.
  intros [x Hx]%lookup_lt_is_Some [y Hy]%lookup_lt_is_Some. unfold Less, at_. by rewrite Hx, Hy.
Qed.

(** No position below [n] is before its parent. *)
Definition ordered (a : nat -> Z) (n : nat) : Prop := forall k, 0 < k < n -> (a (parent k) <= a k)%Z.

(** The same but for [j] and its parent. *)
Definition ordered_up (a : nat -> Z) (n j : nat) : Prop :=
  (forall k, 0 < k < n -> k <> j -> (a (parent k) <= a k)%Z) /\
  (forall k, 0 < k < n -> parent k = j -> 0 < j -> (a (parent j) <= a k)%Z).

(** The same but for [i] and its children. *)
Definition ordered_down (a : nat -> Z) (n i : nat) : Prop :=
  (forall k, 0 < k < n -> parent k <> i -> (a (parent k) <= a k)%Z) /\
  (forall k, 0 < k < n -> parent k = i -> 0 < i -> (a (parent i) <= a k)%Z).

Lemma up_step a n j :
  0 < j < n -> ordered_up a n j -> (a j < a (parent j))%Z -> ordered_up (swapped a (parent j) j) n (parent j).
Proof.
  intros Hj [H1 H2] Hlt. pose proof (parent_child j ltac:(lia)) as Hp.
  split; intros k Hk; unfold swapped.
  - intros Hne. pose proof (parent_child k ltac:(lia)). pose proof (H1 k Hk). pose proof (H2 k Hk).
    repeat case_decide; try lia; subst; try lia.
    all: repeat match goal with H : parent _ = _ |- _ => rewrite H in * end; lia.
  - intros Hpk Hi. pose proof (parent_child (parent j) Hi). pose proof (H1 (parent j) ltac:(lia) ltac:(lia)).
    pose proof (H1 k Hk) as Hk1. rewrite Hpk in Hk1. repeat case_decide; subst; try lia.
Qed.

Lemma down_step a n i j :
  0 < j < n -> parent j = i -> ordered_down a n i -> (a j < a i)%Z ->
  (forall k, 0 < k < n -> parent k = i -> (a j <= a k)%Z) -> ordered_down (swapped a i j) n j.
Proof.
  intros Hj Hp [H1 H2] Hlt Hmin. pose proof (parent_child j ltac:(lia)) as Hpj. rewrite Hp in Hpj.
  split; intros k Hk; unfold swapped.
  - intros Hne. pose proof (parent_child k ltac:(lia)). pose proof (H1 k Hk). pose proof (Hmin k Hk).
    repeat case_decide; subst; try lia.
    specialize (H2 j Hj eq_refl). lia.
  - intros Hpk _. pose proof (parent_child k ltac:(lia)). specialize (H1 k Hk ltac:(lia)). rewrite Hpk in H1.
    repeat case_decide; subst; try lia.
Qed.

Lemma ordered_ext a a' n : (forall k, k < n -> a' k = a k) -> ordered a n -> ordered a' n.
Proof. intros Ha Ho k Hk. pose proof (parent_child k). rewrite !Ha by lia. by apply Ho. Qed.

Lemma ordered_up_ext a a' n j : (forall k, a' k = a k) -> ordered_up a n j -> ordered_up a' n j.
Proof. intros Ha [H1 H2]. split; intros; rewrite !Ha; auto. Qed.

Lemma ordered_down_ext a a' n i : (forall k, a' k = a k) -> ordered_down a n i -> ordered_down a' n i.
Proof. intros Ha [H1 H2]. split; intros; rewrite !Ha; auto. Qed.

(** The root is the least. *)
Lemma ordered_root a n k : ordered a n -> k < n -> (a 0%nat <= a k)%Z.
Proof.
  intros Ho. induction (lt_wf k) as [k _ IH]. intros Hk. destruct (decide (k = 0)) as [->|]; [done|].
  pose proof (parent_child k ltac:(lia)). specialize (Ho k ltac:(lia)). specialize (IH (parent k) ltac:(lia) ltac:(lia)). lia.
Qed.

Lemma up_ordered fuel l j :
  j < fuel -> j < length l -> ordered_up (at_ l) (length l) j ->
  ordered (at_ (up fuel l j)) (length l) /\ length (up fuel l j) = length l.
Proof.
  revert l j. induction fuel as [|fuel IH]; intros l j Hf Hj Ho; [lia|]. cbn [up].
  destruct (decide (j = 0)) as [->|Hne].
  { rewrite bool_decide_eq_true_2 by done. split; [|done]. intros k Hk. apply (proj1 Ho); lia. }
  pose proof (parent_child j ltac:(lia)) as Hp.
  rewrite (bool_decide_eq_false_2 (parent j = j)) by lia. rewrite Less_at by lia. simpl.
  destruct (Z.ltb_spec (at_ l j) (at_ l (parent j))) as [Hlt|Hge]; simpl.
  - rewrite <- (length_Swap l (parent j) j). apply IH; rewrite ?length_Swap; [lia..|].
    eapply ordered_up_ext; [intros k; apply at_Swap; lia|]. apply up_step; [lia|done|done].
  - split; [|done]. intros k Hk. destruct (decide (k = j)) as [->|]; [lia|]. by apply (proj1 Ho).
Qed.

(** The child that comes first. *)
Lemma first_child l i n j :
  n <= length l -> 2 * i + 1 < n ->
  j = (if bool_decide (2 * i + 1 + 1 < n) && Less l (2 * i + 1 + 1) (2 * i + 1) then 2 * i + 1 + 1 else 2 * i + 1) ->
  0 < j < n /\ parent j = i /\ forall k, 0 < k < n -> parent k = i -> (at_ l j <= at_ l k)%Z.
Proof.
  intros Hn Hi Hj. case_bool_decide as H2; cbn [andb] in Hj.
  - rewrite Less_at in Hj by lia. destruct (Z.ltb_spec (at_ l (2 * i + 1 + 1)) (at_ l (2 * i + 1))) as [Hlt|Hge]; subst j;
      (split; [lia|]); (split; [apply parent_of; lia|]); intros k Hk Hp;
      (destruct (parent_child k ltac:(lia)) as [E|E]; rewrite Hp in E; [replace k with (2 * i + 1) by lia|replace k with (2 * i + 1 + 1) by lia]; lia).
  - subst j. split; [lia|]. split; [apply parent_of; lia|]. intros k Hk Hp.
    destruct (parent_child k ltac:(lia)) as [E|E]; rewrite Hp in E; subst k; lia.
Qed.

Lemma down_ordered fuel l i n :
  n <= fuel + i -> n <= length l -> ordered_down (at_ l) n i ->
  ordered (at_ (down fuel l i n).1) n /\ length (down fuel l i n).1 = length l /\
  (forall k, n <= k -> (down fuel l i n).1 !! k = l !! k).
Proof.
  revert l i. induction fuel as [|fuel IH]; intros l i Hf Hn Ho.
  { split; [|done]. intros k Hk. pose proof (parent_child k ltac:(lia)). apply (proj1 Ho); simpl in *; lia. }
  cbn [down]. case_bool_decide as Hj1.
  { split; [|done]. intros k Hk. pose proof (parent_child k ltac:(lia)). apply (proj1 Ho); simpl in *; lia. }
  remember (if bool_decide (2 * i + 1 + 1 < n) && Less l (2 * i + 1 + 1) (2 * i + 1) then 2 * i + 1 + 1 else 2 * i + 1) as j eqn:Ej.
  destruct (first_child l i n j Hn ltac:(lia) Ej) as (Hj & Hp & Hmin). clear Ej.
  pose proof (parent_child j ltac:(lia)) as Hpj.
  rewrite Less_at by lia. destruct (Z.ltb_spec (at_ l j) (at_ l i)) as [Hlt|Hge]; simpl.
  - destruct (IH (Swap l i j) j) as (H1 & H2 & H3); [lia|by rewrite length_Swap| |].
    + eapply ordered_down_ext; [intros k; apply at_Swap; lia|]. by apply (down_step _ _ i).
    + split; [done|]. rewrite H2, length_Swap. split; [done|]. intros k Hk. rewrite H3 by done.
      unfold Swap. destruct (l !! i), (l !! j); try done. rewrite !list_lookup_insert_ne; [done|lia..].
  - split; [|done]. intros k Hk. destruct (decide (parent k = i)) as [Hk'|]; [|by apply (proj1 Ho)].
    specialize (Hmin k Hk Hk'). simpl. rewrite Hk'. lia.
Qed.

(** ** The elements *)

Context {B : Type} (value : A -> B).
Hypothesis value_place : forall i x, value (place i x) = value x.

Lemma Swap_values l i j : value <$> Swap l i j ≡ₚ value <$> l.
Proof.
  unfold Swap. destruct (l !! i) as [x|] eqn:Hx, (l !! j) as [y|] eqn:Hy; try done.
  rewrite !list_fmap_insert, !value_place. apply Permutation_insert_swap; by rewrite list_lookup_fmap, ?Hx, ?Hy.
Qed.

Lemma up_values fuel l j : value <$> up fuel l j ≡ₚ value <$> l.
Proof.
  revert l j. induction fuel as [|fuel IH]; intros l j; [done|]. cbn [up]. destruct (_ || _); [done|].
  by rewrite IH, Swap_values.
Qed.

Lemma down_values fuel l i n : value <$> (down fuel l i n).1 ≡ₚ value <$> l.
Proof.
  revert l i. induction fuel as [|fuel IH]; intros l i; [done|]. cbn [down]. case_bool_decide; [done|].
  destruct (negb _); [done|]. by rewrite IH, Swap_values.
Qed.

(** ** The positions *)

Context (index : A -> nat).
Hypothesis index_place : forall i x, index (place i x) = i.

(** Every element knows its position. *)
Definition placed (l : list A) : Prop := forall i x, l !! i = Some x -> index x = i.

Lemma Swap_placed l i j : placed l -> placed (Swap l i j).
Proof.
  intros Hl. unfold Swap. destruct (l !! i) as [x|] eqn:Hx, (l !! j) as [y|] eqn:Hy; try done.
  intros k z Hz. apply list_lookup_insert_Some in Hz as [(-> & <- & _)|[_ Hz]]; [done|].
  apply list_lookup_insert_Some in Hz as [(-> & <- & _)|[_ Hz]]; [done|]. by apply Hl.
Qed.

Lemma up_placed fuel l j : placed l -> placed (up fuel l j).
Proof.
  revert l j. induction fuel as [|fuel IH]; intros l j Hl; [done|]. cbn [up]. destruct (_ || _); [done|].
  by apply IH, Swap_placed.
Qed.

Lemma down_placed fuel l i n : placed l -> placed (down fuel l i n).1.
Proof.
  revert l i. induction fuel as [|fuel IH]; intros l i Hl; [done|]. cbn [down]. case_bool_decide; [done|].
  destruct (negb _); [done|]. by apply IH, Swap_placed.
Qed.

(** ** What the operations promise *)

Record heap (l : list A) : Prop := { heap_ordered : ordered (at_ l) (length l); heap_placed : placed l }.

Lemma heap_nil : heap [].
Proof. split; [intros k Hk; simpl in Hk; lia|done]. Qed.

(** The first element is the least. *)
Lemma heap_root l x y : heap l -> l !! 0 = Some x -> y ∈ l -> (time x <= time y)%Z.
Proof.
  intros [Ho _] Hx [k Hk]%list_elem_of_lookup. pose proof (ordered_root _ _ k Ho (lookup_lt_Some _ _ _ Hk)) as Hle.
  unfold at_ in Hle. by rewrite Hx, Hk in Hle.
Qed.

Lemma Push_heap l x : heap l -> heap (Push l x) /\ value <$> Push l x ≡ₚ value x :: (value <$> l).
Proof.
  intros [Ho Hp]. unfold Push. set (l' := l ++ [place (length l) x]).
  assert (Hl' : length l' = S (length l)) by (unfold l'; rewrite length_app; simpl; lia).
  assert (Hat : forall k, k < length l -> at_ l' k = at_ l k) by (intros; unfold at_, l'; by rewrite lookup_app_l).
  destruct (up_ordered (S (length l)) l' (length l)) as [H1 H2]; [lia|lia| |].
  { split; intros k Hk Hne; pose proof (parent_child k ltac:(lia)); [|lia]. rewrite !Hat by lia. apply Ho. lia. }
  split.
  - split; [by rewrite H2|]. apply up_placed. intros k y [Hy|[Hk Hy]]%lookup_app_Some; [by apply Hp|].
    apply list_lookup_singleton_Some in Hy as [Hk' <-]. rewrite index_place. lia.
  - rewrite up_values. unfold l'. rewrite fmap_app. simpl. rewrite value_place. by rewrite Permutation_app_comm.
Qed.

Lemma Pop_heap l x0 :
  heap l -> l !! 0 = Some x0 ->
  exists x l', Pop l = Some (x, l') /\ value x = value x0 /\ heap l' /\ value <$> l ≡ₚ value x :: (value <$> l').
Proof.
  intros [Ho Hp] Hx0. pose proof (lookup_lt_Some _ _ _ Hx0) as Hlen. set (n := length l - 1).
  destruct (lookup_lt_is_Some_2 l n ltac:(lia)) as [y Hy].
  assert (Hn : exists x, Swap l 0 n !! n = Some x /\ value x = value x0).
  { unfold Swap. rewrite Hx0, Hy. exists (place n x0).
    rewrite list_lookup_insert_eq by (rewrite length_insert; lia). by rewrite value_place. }
  destruct Hn as (x & Hn & Hv).
  destruct (down_ordered n (Swap l 0 n) 0 n) as (H1 & H2 & H3); [lia|rewrite length_Swap; lia| |].
  { split; [|lia]. intros k Hk Hpk. destruct (decide (n = 0)) as [|Hn0]; [lia|]. pose proof (parent_child k ltac:(lia)).
    rewrite !at_Swap by lia. unfold swapped. repeat case_decide; try lia. apply Ho. lia. }
  set (l2 := (down n (Swap l 0 n) 0 n).1) in *. rewrite length_Swap in H2.
  assert (Hl2 : l2 !! n = Some x) by (by rewrite H3).
  exists x, (take n l2). split_and!; [|done|split|].
  - unfold Pop. fold n. fold l2. by rewrite Hl2.
  - rewrite length_take, Nat.min_l by lia. eapply ordered_ext; [|exact H1].
    intros k Hk. unfold at_. by rewrite lookup_take_lt.
  - intros k z Hz. apply lookup_take_Some in Hz as [Hz _].
    by apply (down_placed n (Swap l 0 n) 0 n (Swap_placed l 0 n Hp)).
  - rewrite <- (Swap_values l 0 n), <- (down_values n _ 0 n). fold l2.
    rewrite <- (take_drop_middle l2 n x Hl2) at 1. rewrite drop_ge by lia.
    rewrite fmap_app. simpl. by rewrite Permutation_app_comm.
Qed.

(** After the element at [i] was moved forward. *)
Lemma Fix_heap l i :
  i < length l -> ordered_up (at_ l) (length l) i -> placed l ->
  heap (Fix l i) /\ value <$> Fix l i ≡ₚ value <$> l.
Proof.
  intros Hi Ho Hp. assert (Hdown : down (length l) l i (length l) = (l, i)).
  { destruct (length l) as [|n] eqn:Hn; [done|]. cbn [down]. case_bool_decide as Hj; [done|].
    destruct (first_child l i (S n) _ ltac:(lia) ltac:(lia) eq_refl) as (Hj1 & Hp1 & _).
    set (j := if _ : bool then _ else _) in *. pose proof (parent_child j ltac:(lia)).
    pose proof (proj1 Ho j ltac:(lia) ltac:(lia)) as Hle. rewrite Hp1 in Hle.
    rewrite Less_at by lia. by rewrite (proj2 (Z.ltb_ge _ _)). }
  unfold Fix. rewrite Hdown, bool_decide_eq_false_2 by lia.
  destruct (up_ordered (S i) l i) as [H1 H2]; [lia|done|done|]. split; [split; [by rewrite H2|by apply up_placed]|apply up_values].
Qed.
End heap.
