(* ===== verification/RateLimit.v ===== *)
(** * How long a failed key is held back

    The rate limiters of [client-go] ([default_rate_limiters.go]) that a
    controller's queue has by default: an exponential delay for every key, and a
    bucket for all of them, whose delays are a parameter ([golang.org/x/time/rate]
    computes them); the longer delay counts.  Durations are nanoseconds. *)

From Stdlib Require Import ZArith.
From S2P Require Import Prelude.

Local Open Scope Z_scope.

Definition Millisecond : Z := 1000000.
Definition Second : Z := 1000 * Millisecond.

(** [time.Duration] is an [int64]. *)
Definition MaxInt64 : Z := 2 ^ 63 - 1.

(** The limiter interface: what [When], [Forget] and [NumRequeues] do to the
    state [L] of a limiter. *)
Class RateLimiter (K L : Type) := {
  When : L -> K -> Z * L;
  Forget : L -> K -> L;
  NumRequeues : L -> K -> Z;
}.

Section limiters.
Context {K : Type} `{Countable K}.

Record ItemExponentialFailureRateLimiter := ExponentialLimiter {
  failures : gmap K Z; baseDelay : Z; maxDelay : Z;
}.

Definition NewItemExponentialFailureRateLimiter (base max : Z) : ItemExponentialFailureRateLimiter :=
  ExponentialLimiter ∅ base max.

Definition failures_of (r : ItemExponentialFailureRateLimiter) (item : K) : Z := default 0 (failures r !! item).

Definition set_failures (r : ItemExponentialFailureRateLimiter) (m : gmap K Z) : ItemExponentialFailureRateLimiter :=
  ExponentialLimiter m (baseDelay r) (maxDelay r).

(** The [float64] product is exact: a base delay below 2^53 ns is scaled by a
    power of two; past the range it is +Inf, which is more than the limit too.
    The limit, [math.MaxInt64] as a [float64], is 2^63. *)
Definition backoff (r : ItemExponentialFailureRateLimiter) (exp : Z) : Z := baseDelay r * 2 ^ exp.

Definition exponential_When (r : ItemExponentialFailureRateLimiter) (item : K) : Z * ItemExponentialFailureRateLimiter :=
  let exp := failures_of r item in
  let r' := set_failures r (<[item := exp + 1]> (failures r)) in
  let b := backoff r exp in
  if 2 ^ 63 <? b then (maxDelay r, r')
  else if maxDelay r <? b then (maxDelay r, r')
  else (b, r').

Definition exponential_Forget (r : ItemExponentialFailureRateLimiter) (item : K) : ItemExponentialFailureRateLimiter :=
  set_failures r (delete item (failures r)).

#[export] Instance exponential_limiter : RateLimiter K ItemExponentialFailureRateLimiter :=
  {| When := exponential_When; Forget := exponential_Forget; NumRequeues := failures_of |}.

(** The bucket: a state and the delay of the next reservation. *)
Context {B : Type} (reserve : B -> Z * B).

Record BucketRateLimiter := Bucket { bucket : B }.

Definition bucket_When (r : BucketRateLimiter) (item : K) : Z * BucketRateLimiter :=
  let '(d, b) := reserve (bucket r) in (d, Bucket b).

Definition bucket_Forget (r : BucketRateLimiter) (item : K) : BucketRateLimiter := r.

Definition bucket_NumRequeues (r : BucketRateLimiter) (item : K) : Z := 0.

#[export] Instance bucket_limiter : RateLimiter K BucketRateLimiter :=
  {| When := bucket_When; Forget := bucket_Forget; NumRequeues := bucket_NumRequeues |}.

(** The limiters of a slice of the interface type. *)
Inductive limiter :=
  | Exponential (r : ItemExponentialFailureRateLimiter)
  | TokenBucket (r : BucketRateLimiter).

#[export] Instance any_limiter : RateLimiter K limiter :=
  {| When := fun l item =>
       match l with
       | Exponential r => let '(d, r') := When r item in (d, Exponential r')
       | TokenBucket r => let '(d, r') := When r item in (d, TokenBucket r')
       end;
     Forget := fun l item =>
       match l with
       | Exponential r => Exponential (Forget r item)
       | TokenBucket r => TokenBucket (Forget r item)
       end;
     NumRequeues := fun l item =>
       match l with
       | Exponential r => NumRequeues r item
       | TokenBucket r => NumRequeues r item
       end |}.

Record MaxOfRateLimiter := MaxOf { limiters : list limiter }.

Definition longer (ret curr : Z) : Z := if ret <? curr then curr else ret.

(** The loop of [When], from the longest delay so far. *)
Fixpoint max_When_loop (ret : Z) (ls : list limiter) (item : K) : Z * list limiter :=
  match ls with
  | [] => (ret, [])
  | l :: ls =>
      let '(curr, l') := When l item in
      let '(ret', ls') := max_When_loop (longer ret curr) ls item in
      (ret', l' :: ls')
  end.

Definition max_When (r : MaxOfRateLimiter) (item : K) : Z * MaxOfRateLimiter :=
  let '(d, ls) := max_When_loop 0 (limiters r) item in (d, MaxOf ls).

Definition max_Forget (r : MaxOfRateLimiter) (item : K) : MaxOfRateLimiter :=
  MaxOf (map (fun l => Forget l item) (limiters r)).

Definition max_NumRequeues (r : MaxOfRateLimiter) (item : K) : Z :=
  foldl (fun ret l => longer ret (NumRequeues l item)) 0 (limiters r).

#[export] Instance max_limiter : RateLimiter K MaxOfRateLimiter :=
  {| When := max_When; Forget := max_Forget; NumRequeues := max_NumRequeues |}.

Definition NewMaxOfRateLimiter (ls : list limiter) : MaxOfRateLimiter := MaxOf ls.

Definition DefaultControllerRateLimiter (b : B) : MaxOfRateLimiter :=
  NewMaxOfRateLimiter
    [Exponential (NewItemExponentialFailureRateLimiter (5 * Millisecond) (1000 * Second)); TokenBucket (Bucket b)].

(** ** The default limiter after any use of it *)

Inductive use := UseWhen (item : K) | UseForget (item : K).

Definition used {L} `{RateLimiter K L} (l : L) (u : use) : L :=
  match u with UseWhen item => (When l item).2 | UseForget item => Forget l item end.

(** How often a key has failed since it was last forgotten. *)
Definition failed_by (item : K) (n : Z) (u : use) : Z :=
  match u with
  | UseWhen k => if decide (k = item) then n + 1 else n
  | UseForget k => if decide (k = item) then 0 else n
  end.

(** What the bucket has come to. *)
Definition reserved_by (b : B) (u : use) : B := match u with UseWhen _ => (reserve b).2 | UseForget _ => b end.

Lemma exponential_When_eq r item :
  exponential_When r item =
  (if 2 ^ 63 <? backoff r (failures_of r item) then maxDelay r
   else if maxDelay r <? backoff r (failures_of r item) then maxDelay r else backoff r (failures_of r item),
   set_failures r (<[item := failures_of r item + 1]> (failures r))).
Proof. unfold exponential_When. cbn zeta. by repeat destruct (_ <? _). Qed.

Lemma failures_used r item u : failures_of (used r u) item = failed_by item (failures_of r item) u.
Proof.
  destruct u as [k|k]; simpl; [rewrite exponential_When_eq|]; unfold failures_of; simpl; destruct (decide (k = item)) as [->|].
  - by rewrite lookup_insert_eq.
  - by rewrite lookup_insert_ne.
  - by rewrite lookup_delete_eq.
  - by rewrite lookup_delete_ne.
Qed.

Lemma delays_used r u : baseDelay (used r u) = baseDelay r /\ maxDelay (used r u) = maxDelay r.
Proof. destruct u; simpl; [by rewrite exponential_When_eq|done]. Qed.

Lemma used_pair r b u :
  used (MaxOf [Exponential r; TokenBucket (Bucket b)]) u =
  MaxOf [Exponential (used r u); TokenBucket (Bucket (reserved_by b u))].
Proof. destruct u; [|done]. cbn. unfold max_When, bucket_When. cbn. rewrite exponential_When_eq. unfold bucket_When. cbn. by destruct (reserve b). Qed.

Lemma used_all r b us :
  foldl used (MaxOf [Exponential r; TokenBucket (Bucket b)]) us =
  MaxOf [Exponential (foldl used r us); TokenBucket (Bucket (foldl reserved_by b us))].
Proof. revert r b. induction us as [|u us IH]; intros r b; [done|]. cbn [foldl]. by rewrite used_pair, IH. Qed.

Lemma exponential_all r us item :
  failures_of (foldl used r us) item = foldl (failed_by item) (failures_of r item) us /\
  baseDelay (foldl used r us) = baseDelay r /\ maxDelay (foldl used r us) = maxDelay r.
Proof.
  revert r. induction us as [|u us IH]; intros r; [done|]. cbn [foldl].
  destruct (IH (used r u)) as (-> & -> & ->). destruct (delays_used r u) as [-> ->]. by rewrite failures_used.
Qed.

Lemma failed_nonneg item n us : 0 <= n -> 0 <= foldl (failed_by item) n us.
Proof.
  revert n. induction us as [|u us IH]; intros n Hn; [done|]. cbn [foldl]. apply IH.
  destruct u; simpl; case_decide; lia.
Qed.

Lemma default_limiter_delay (b : B) (us : list use) (item : K) :
  let r := foldl used (DefaultControllerRateLimiter b) us in
  let n := foldl (failed_by item) 0 us in
  let d := Z.min (5 * Millisecond * 2 ^ n) (1000 * Second) in
  0 < d /\
  (When r item).1 = Z.max d (reserve (foldl reserved_by b us)).1 /\
  NumRequeues r item = n /\
  ~ (MaxInt64 < 5 * Millisecond * 2 ^ n <= 2 ^ 63).
Proof.
  intros r n d. unfold DefaultControllerRateLimiter, NewMaxOfRateLimiter in r.
  pose proof (used_all (NewItemExponentialFailureRateLimiter (5 * Millisecond) (1000 * Second)) b us) as Hr.
  fold r in Hr. rewrite Hr. clear Hr r.
  destruct (exponential_all (NewItemExponentialFailureRateLimiter (5 * Millisecond) (1000 * Second)) us item) as (Hf & Hb & Hm).
  set (e := foldl used _ us) in *. assert (Hn : failures_of e item = n) by done.
  assert (H0 : 0 <= n) by (by apply failed_nonneg). assert (Hp : 0 < 2 ^ n) by (by apply Z.pow_pos_nonneg).
  assert (Hd : 0 < d) by (unfold d, Second, Millisecond; lia).
  split; [done|]. split_and!.
  - cbn. unfold max_When. cbn. rewrite exponential_When_eq. unfold bucket_When. cbn. destruct (reserve _) as [dr b']. cbn. rewrite Hn.
    replace (if 2 ^ 63 <? _ then _ else _) with d; [unfold longer; repeat case_match; lia|].
    unfold backoff. rewrite Hb, Hm. cbn [baseDelay maxDelay NewItemExponentialFailureRateLimiter].
    unfold d, Second, Millisecond. destruct (Z.ltb_spec (2 ^ 63) (5 * 1000000 * 2 ^ n)); [lia|].
    destruct (Z.ltb_spec (1000 * (1000 * 1000000)) (5 * 1000000 * 2 ^ n)); lia.
  - cbn. unfold max_NumRequeues. cbn. rewrite Hn. unfold longer, bucket_NumRequeues. repeat case_match; lia.
  - unfold MaxInt64, Millisecond. change (2 ^ 63) with 9223372036854775808. lia.
Qed.

(** C35. The delays of the default rate limiter after any sequence of uses: a key
    that has failed [n] times since it was last forgotten waits 5 ms * 2^n, at
    most 1000 s, or what the bucket says if that is longer; so a failed key
    always waits, and the conversion of the [float64] to a duration is only
    reached in the range of an [int64]. *)
Theorem DefaultControllerRateLimiter_delay (b : B) (us : list use) (item : K) :
  let r := foldl used (DefaultControllerRateLimiter b) us in
  let n := foldl (failed_by item) 0 us in
  let d := Z.min (5 * Millisecond * 2 ^ n) (1000 * Second) in
  0 < d /\
  (When r item).1 = Z.max d (reserve (foldl reserved_by b us)).1 /\
  NumRequeues r item = n /\
  ~ (MaxInt64 < 5 * Millisecond * 2 ^ n <= 2 ^ 63).
Proof. apply default_limiter_delay. Qed.
End limiters.
