(* ===== verification/DelayingQueue.v ===== *)
(** * The keys that wait for their time

    The data of the waiting loop of [client-go]'s delaying queue
    ([delaying_queue.go]): a heap of entries by time, one entry for a key, and
    the map of the known entries.  [insert] and the loop that takes out the
    entries whose time has come are a map from keys to times. *)

From Stdlib Require Import ZArith Sorted.
From S2P Require Import Prelude Heap.

(** ** The waiting keys *)

Section waiting.
Context {K : Type} `{Countable K}.

Record waitFor := WaitFor { w_data : K; w_readyAt : Z; w_index : nat }.

Definition set_index (i : nat) (e : waitFor) : waitFor := WaitFor (w_data e) (w_readyAt e) i.
Definition set_readyAt (t : Z) (e : waitFor) : waitFor := WaitFor (w_data e) t (w_index e).

(** The heap, and the keys of the map of known entries: the map leads from a key
    to the entry of the heap with that key, which it shares. *)
Record waiting := Waits { waitingForQueue : list waitFor; waitingEntryByData : gset K }.

Definition no_waits : waiting := Waits [] ∅.

(** The entry of the map, in the heap. *)
Definition knownEntry (w : waiting) (data : K) : option waitFor :=
  if decide (data ∈ waitingEntryByData w)
  then List.find (fun e => bool_decide (w_data e = data)) (waitingForQueue w)
  else None.

Definition insert_entry (w : waiting) (entry : waitFor) : waiting :=
  match knownEntry w (w_data entry) with
  | Some existing =>
      if (w_readyAt entry <? w_readyAt existing)%Z then
        let changed := map (fun e => if decide (w_data e = w_data entry) then set_readyAt (w_readyAt entry) e else e)
                         (waitingForQueue w) in
        Waits (Fix w_readyAt set_index changed (w_index existing)) (waitingEntryByData w)
      else w
  | None => Waits (Push w_readyAt set_index (waitingForQueue w) entry) ({[w_data entry]} ∪ waitingEntryByData w)
  end.

(** The loop that adds the ready entries; the keys are returned in the order in
    which they are added. *)
Fixpoint ready_entries (fuel : nat) (now : Z) (w : waiting) : list K * waiting :=
  match fuel with
  | O => ([], w)
  | S fuel =>
      match waitingForQueue w !! 0 with
      | None => ([], w)
      | Some entry =>
          if (now <? w_readyAt entry)%Z then ([], w)
          else match Pop w_readyAt set_index (waitingForQueue w) with
               | None => ([], w)
               | Some (entry, rest) =>
                   let '(ks, w') := ready_entries fuel now (Waits rest (waitingEntryByData w ∖ {[w_data entry]})) in
                   (w_data entry :: ks, w')
               end
      end
  end.

(** ** What waits, as a map from keys to times *)

Definition entry_of (e : waitFor) : K * Z := (w_data e, w_readyAt e).

Definition times (w : waiting) : gmap K Z := list_to_map (entry_of <$> waitingForQueue w).

Record waiting_ok (w : waiting) : Prop := {
  wo_heap : heap w_readyAt w_index (waitingForQueue w);
  wo_nodup : NoDup (w_data <$> waitingForQueue w);
  wo_known : forall k, k ∈ waitingEntryByData w <-> k ∈ w_data <$> waitingForQueue w;
}.

Lemma no_waits_ok : waiting_ok no_waits.
Proof. split; [apply heap_nil|constructor|set_solver]. Qed.

Lemma entries_data l : (entry_of <$> l).*1 = w_data <$> l.
Proof. by rewrite <- list_fmap_compose. Qed.

Lemma times_Some w k t : waiting_ok w -> times w !! k = Some t <-> exists e, e ∈ waitingForQueue w /\ entry_of e = (k, t).
Proof.
  intros [_ Hnd _]. unfold times. rewrite <- elem_of_list_to_map by (by rewrite entries_data).
  rewrite list_elem_of_fmap. naive_solver.
Qed.

Lemma times_perm w w' : waiting_ok w -> entry_of <$> waitingForQueue w ≡ₚ entry_of <$> waitingForQueue w' -> times w = times w'.
Proof. intros [_ Hnd _] Hp. apply list_to_map_proper; [by rewrite entries_data|done]. Qed.

(** An entry is found exactly if the key waits. *)
Lemma knownEntry_Some w k e :
  waiting_ok w -> knownEntry w k = Some e -> e ∈ waitingForQueue w /\ w_data e = k /\ times w !! k = Some (w_readyAt e).
Proof.
  intros Hw He. unfold knownEntry in He. case_decide; [|done]. apply List.find_some in He as [He%list_elem_of_In Hk%bool_decide_eq_true].
  split_and!; [done..|]. apply times_Some; [done|]. exists e. split; [done|]. unfold entry_of. by rewrite Hk.
Qed.

Lemma knownEntry_None w k : waiting_ok w -> knownEntry w k = None -> times w !! k = None /\ k ∉ w_data <$> waitingForQueue w.
Proof.
  intros Hw He. assert (Hk : k ∉ w_data <$> waitingForQueue w).
  { intros Hin. unfold knownEntry in He. rewrite decide_True in He by (by apply wo_known).
    apply list_elem_of_fmap in Hin as (e & -> & Hin). apply list_elem_of_In in Hin.
    pose proof (List.find_none _ _ He _ Hin) as Hf. by apply bool_decide_eq_false in Hf. }
  split; [|done]. apply not_elem_of_list_to_map_1. by rewrite entries_data.
Qed.

(** ** [insert]: the earlier of two times *)

Lemma placed_lookup w e : waiting_ok w -> e ∈ waitingForQueue w -> waitingForQueue w !! w_index e = Some e.
Proof. intros Hw [i Hi]%list_elem_of_lookup. by rewrite (heap_placed _ _ _ (wo_heap w Hw) i e Hi). Qed.

(** The one entry of a key is changed. *)
Lemma changed_insert l i e t :
  NoDup (w_data <$> l) -> l !! i = Some e ->
  map (fun x => if decide (w_data x = w_data e) then set_readyAt t x else x) l = <[i := set_readyAt t e]> l.
Proof.
  intros Hnd Hi. apply list_eq. intros j. change (map ?f l) with (f <$> l). rewrite list_lookup_fmap.
  destruct (decide (j = i)) as [->|Hne].
  - rewrite Hi, list_lookup_insert_eq by (by eapply lookup_lt_Some). simpl. by rewrite decide_True.
  - rewrite list_lookup_insert_ne by done. destruct (l !! j) as [x|] eqn:Hj; [|done]. simpl. rewrite decide_False; [done|].
    intros Heq. apply Hne. eapply (NoDup_lookup _ j i (w_data x) Hnd); rewrite list_lookup_fmap, ?Hi, ?Hj; simpl; congruence.
Qed.

Lemma times_changed w i e t :
  waiting_ok w -> waitingForQueue w !! i = Some e ->
  list_to_map (entry_of <$> <[i := set_readyAt t e]> (waitingForQueue w)) = <[w_data e := t]> (times w).
Proof.
  intros [_ Hnd _] Hi. unfold times. rewrite list_fmap_insert.
  assert (Hl : (entry_of <$> waitingForQueue w) !! i = Some (entry_of e)) by (by rewrite list_lookup_fmap, Hi).
  rewrite <- entries_data in Hnd. generalize dependent (entry_of <$> waitingForQueue w). clear. intros l Hnd Hl.
  rewrite insert_take_drop by (by eapply lookup_lt_Some). rewrite <- (take_drop_middle l i _ Hl) in Hnd.
  rewrite <- (take_drop_middle l i _ Hl) at 3. generalize dependent (take i l). generalize (drop (S i) l). clear.
  intros l2 l1 Hnd. rewrite fmap_app in Hnd. simpl in Hnd.
  rewrite (list_to_map_proper (l1 ++ entry_of e :: l2) ((w_data e, w_readyAt e) :: l1 ++ l2));
    [|by rewrite fmap_app|by rewrite Permutation_middle].
  rewrite (list_to_map_proper (l1 ++ _ :: l2) ((w_data e, t) :: l1 ++ l2));
    [|by rewrite fmap_app|by rewrite Permutation_middle].
  simpl. by rewrite insert_insert_eq.
Qed.

Lemma at_insert (l : list waitFor) i x k :
  i < length l -> at_ w_readyAt (<[i := x]> l) k = if decide (k = i) then w_readyAt x else at_ w_readyAt l k.
Proof.
  intros Hi. unfold at_. case_decide as Hk; [subst; by rewrite list_lookup_insert_eq|by rewrite list_lookup_insert_ne].
Qed.

(** An entry that moves forward is only out of order with its parent. *)
Lemma lowered_ordered l i e t :
  heap w_readyAt w_index l -> l !! i = Some e -> (t < w_readyAt e)%Z ->
  ordered_up (at_ w_readyAt (<[i := set_readyAt t e]> l)) (length (<[i := set_readyAt t e]> l)) i.
Proof.
  intros [Ho _] Hi Ht. pose proof (lookup_lt_Some _ _ _ Hi) as Hlt. rewrite length_insert.
  assert (Hat : at_ w_readyAt l i = w_readyAt e) by (unfold at_; by rewrite Hi).
  split; intros k Hk; rewrite !at_insert by done; simpl; pose proof (parent_child k ltac:(lia)); pose proof (Ho k Hk) as Hok.
  - intros Hne. repeat case_decide; subst; try lia.
  - intros Hp Hi0. pose proof (parent_child i Hi0). pose proof (Ho i ltac:(lia)). rewrite Hp in Hok. repeat case_decide; lia.
Qed.

(** The heap holds the entries of [l]. *)
Lemma waiting_perm q l known m :
  heap w_readyAt w_index q -> entry_of <$> q ≡ₚ entry_of <$> l -> NoDup (w_data <$> l) ->
  (forall k, k ∈ known <-> k ∈ w_data <$> l) -> list_to_map (entry_of <$> l) = m ->
  waiting_ok (Waits q known) /\ times (Waits q known) = m.
Proof.
  intros Hh Hp Hnd Hk <-. assert (Hd : w_data <$> q ≡ₚ w_data <$> l).
  { rewrite <- (entries_data q), <- (entries_data l). by apply fmap_Permutation. }
  assert (Hw : waiting_ok (Waits q known)).
  { split; simpl; [done|by rewrite Hd|]. intros k. by rewrite Hd. }
  split; [done|]. apply list_to_map_proper; [|done]. rewrite entries_data. by destruct Hw.
Qed.

Lemma insert_entry_ok w e :
  waiting_ok w ->
  waiting_ok (insert_entry w e) /\
  times (insert_entry w e) =
    <[w_data e := from_option (Z.min (w_readyAt e)) (w_readyAt e) (times w !! w_data e)]> (times w).
Proof.
  intros Hw. unfold insert_entry. destruct (knownEntry w (w_data e)) as [x|] eqn:Hx.
  - apply knownEntry_Some in Hx as (Hin & Hd & Ht); [|done]. rewrite Ht. simpl.
    destruct (Z.ltb_spec (w_readyAt e) (w_readyAt x)) as [Hlt|Hge].
    + rewrite Z.min_l by lia. rewrite <- Hd in *. pose proof (placed_lookup w x Hw Hin) as Hi.
      rewrite (changed_insert _ (w_index x) x (w_readyAt e)) by (by destruct Hw).
      set (l := <[w_index x := set_readyAt (w_readyAt e) x]> (waitingForQueue w)).
      destruct (Fix_heap w_readyAt set_index (fun _ _ => eq_refl) entry_of (fun _ _ => eq_refl) w_index (fun _ _ => eq_refl)
        l (w_index x)) as [Hh Hp].
      { unfold l. rewrite length_insert. by eapply lookup_lt_Some. }
      { by apply lowered_ordered; [apply wo_heap|..]. }
      { intros j y Hj. unfold l in Hj. apply list_lookup_insert_Some in Hj as [(<- & <- & _)|[_ Hj]]; [done|].
        by apply (heap_placed _ _ _ (wo_heap w Hw)). }
      assert (Hdata : w_data <$> l = w_data <$> waitingForQueue w).
      { unfold l. rewrite list_fmap_insert. apply list_insert_id. by rewrite list_lookup_fmap, Hi. }
      apply (waiting_perm _ l); [done|done|by rewrite Hdata; destruct Hw|intros k; rewrite Hdata; by apply wo_known|].
      by apply times_changed.
    + split; [done|]. rewrite Z.min_r by lia. by rewrite insert_id.
  - apply knownEntry_None in Hx as [Ht Hd]; [|done]. rewrite Ht. simpl.
    destruct (Push_heap w_readyAt set_index (fun _ _ => eq_refl) entry_of (fun _ _ => eq_refl) w_index (fun _ _ => eq_refl)
      (waitingForQueue w) e (wo_heap w Hw)) as [Hh Hp].
    change (entry_of e :: (entry_of <$> waitingForQueue w)) with (entry_of <$> e :: waitingForQueue w) in Hp.
    apply (waiting_perm _ _ _ _ Hh Hp); [|intros k|done].
    + simpl. apply list.NoDup_cons. split; [done|by destruct Hw].
    + rewrite elem_of_union, elem_of_singleton. simpl. rewrite elem_of_cons. by rewrite (wo_known w Hw).
Qed.

(** ** The ready entries *)

(** Taking the first entry. *)
Lemma pop_ok w x0 :
  waiting_ok w -> waitingForQueue w !! 0 = Some x0 ->
  exists x rest, Pop w_readyAt set_index (waitingForQueue w) = Some (x, rest) /\ entry_of x = entry_of x0 /\
    length (waitingForQueue w) = S (length rest) /\
    waiting_ok (Waits rest (waitingEntryByData w ∖ {[w_data x]})) /\
    times (Waits rest (waitingEntryByData w ∖ {[w_data x]})) = delete (w_data x) (times w) /\
    times w !! w_data x = Some (w_readyAt x).
Proof.
  intros Hw Hx0.
  destruct (Pop_heap w_readyAt set_index (fun _ _ => eq_refl) entry_of (fun _ _ => eq_refl) w_index (fun _ _ => eq_refl)
    (waitingForQueue w) x0 (wo_heap w Hw) Hx0) as (x & rest & Hpop & Hv & Hh & Hp).
  exists x, rest. split; [done|]. split; [done|].
  split. { apply Permutation_length in Hp. simpl in Hp. by rewrite !length_fmap in Hp. }
  pose proof (times_perm w (Waits (x :: rest) (waitingEntryByData w)) Hw Hp) as Ht. unfold times in Ht at 2. simpl in Ht.
  assert (Hd : w_data <$> waitingForQueue w ≡ₚ w_data x :: (w_data <$> rest)).
  { rewrite <- (entries_data (waitingForQueue w)), <- (entries_data rest). by rewrite Hp. }
  pose proof (wo_nodup w Hw) as Hnd. rewrite Hd in Hnd. apply list.NoDup_cons in Hnd as [Hx Hnd].
  rewrite Ht, lookup_insert_eq, delete_insert_id by (apply not_elem_of_list_to_map_1; by rewrite entries_data).
  destruct (waiting_perm rest rest (waitingEntryByData w ∖ {[w_data x]}) (list_to_map (entry_of <$> rest))) as [Hok Hti]; [done..| |done|done].
  intros k. rewrite elem_of_difference, elem_of_singleton, (wo_known w Hw), Hd, elem_of_cons.
  split; [tauto|]. intros Hk. split; [auto|]. by intros ->.
Qed.

(** The keys whose time has come leave, in the order of their times. *)
Record released (now : Z) (m m' : gmap K Z) (ks : list K) : Prop := {
  rl_nodup : NoDup ks;
  rl_stay : forall k t, m' !! k = Some t <-> m !! k = Some t /\ (now < t)%Z;
  rl_leave : forall k, k ∈ ks <-> exists t, m !! k = Some t /\ (t <= now)%Z;
  rl_sorted : exists ts, Forall2 (fun k t => m !! k = Some t) ks ts /\ StronglySorted Z.le ts;
}.

Lemma released_none now m : (forall k t, m !! k = Some t -> (now < t)%Z) -> released now m m [].
Proof.
  intros Hm. split; [constructor|..|by exists []; repeat constructor].
  - intros k t. split; [|by intros []]. intros Ht. split; [done|by eapply Hm].
  - intros k. split; [by intros ?%elem_of_nil|]. intros (t & Ht & Hle). specialize (Hm _ _ Ht). lia.
Qed.

Lemma released_cons now m m' k0 t0 ks :
  m !! k0 = Some t0 -> (t0 <= now)%Z -> (forall k t, m !! k = Some t -> (t0 <= t)%Z) ->
  released now (delete k0 m) m' ks -> released now m m' (k0 :: ks).
Proof.
  intros H0 Hle Hmin [H1 H2 H3 (ts & H4 & H5)]. split.
  - apply list.NoDup_cons. split; [|done]. intros (t & Hk & _)%H3. by rewrite lookup_delete_eq in Hk.
  - intros k t. rewrite H2, lookup_delete_Some. split; [tauto|]. intros [Hk Hlt]. split_and!; [|done..].
    intros <-. simplify_eq. lia.
  - intros k. rewrite elem_of_cons, H3. split.
    + intros [->|(t & [_ Hk]%lookup_delete_Some & Ht)]; eauto.
    + intros (t & Hk & Ht). destruct (decide (k = k0)) as [->|]; [by left|]. right. exists t. by rewrite lookup_delete_ne.
  - assert (H4' : Forall2 (fun k t => m !! k = Some t) ks ts).
    { eapply Forall2_impl; [|exact H4]. by intros k t [_ ?]%lookup_delete_Some. }
    exists (t0 :: ts). split; [by constructor|]. constructor; [done|]. apply Forall_forall. intros t [i Hi]%list_elem_of_In%list_elem_of_lookup.
    destruct (Forall2_lookup_r _ _ _ _ _ H4' Hi) as (k & _ & Hk). eauto.
Qed.

Lemma ready_entries_ok fuel now w ks w' :
  waiting_ok w -> length (waitingForQueue w) <= fuel -> ready_entries fuel now w = (ks, w') ->
  waiting_ok w' /\ released now (times w) (times w') ks.
Proof.
  revert w ks. induction fuel as [|fuel IH]; intros w ks Hw Hf; cbn [ready_entries].
  { intros [= <- <-]. split; [done|]. apply released_none. destruct w as [[|] known]; [done|simpl in Hf; lia]. }
  destruct (waitingForQueue w !! 0) as [x0|] eqn:Hx0.
  2: { intros [= <- <-]. split; [done|]. apply released_none. apply lookup_ge_None in Hx0.
       destruct w as [[|] known]; [done|simpl in Hx0; lia]. }
  assert (Hmin : forall k t, times w !! k = Some t -> (w_readyAt x0 <= t)%Z).
  { intros k t (e & He & [= _ <-])%times_Some; [|done]. by apply (heap_root w_readyAt w_index _ _ _ (wo_heap w Hw) Hx0). }
  destruct (Z.ltb_spec now (w_readyAt x0)) as [Hlt|Hge].
  { intros [= <- <-]. split; [done|]. apply released_none. intros k t Ht. specialize (Hmin _ _ Ht). lia. }
  destruct (pop_ok w x0 Hw Hx0) as (x & rest & -> & Hv & Hlen & Hok & Ht' & Hx). injection Hv as Hv1 Hv2.
  destruct (ready_entries fuel now _) as [ks1 w1] eqn:Hr. intros [= <- <-].
  destruct (IH _ _ Hok ltac:(simpl; lia) Hr) as [H1 H2]. split; [done|]. rewrite Ht' in H2.
  apply (released_cons now _ _ _ (w_readyAt x)); [done|lia|by rewrite Hv2|done].
Qed.
End waiting.

Arguments waitFor K : clear implicits.
Arguments waiting K {_ _}.
