(* ===== verification/DelayingLoop.v ===== *)
(** * The queue that holds keys back

    [delaying_queue.go] and [rate_limiting_queue.go] of [client-go], at work:
    [AddAfter] sends a key and its time to the waiting loop over a channel; the
    loop keeps the keys that wait and adds a key to the work queue when its time
    has come.  The loop, the clients and the clock interleave.  No key is added
    early, and none is lost; and the queue is one that holds a set of keys back
    and releases them one by one, as the workers of a controller assume. *)

From Stdlib Require Import ZArith.
From stdpp Require Import relations.
From S2P Require Import Prelude Types Workqueue Effects Workers Heap RateLimit DelayingQueue.

Section delaying.
Context {K : Type} `{Countable K}.

(** ** The state *)

(** Where the loop is; at the [select] with its timer, if it has one. *)
Inductive loop_pc := AtTop | AtSelect (nextReadyAt : option Z) | Draining | Stopped.

(** What happened, for the statements: a key was to be added at a time; a key was
    added at a time. *)
Inductive dq_event := Asked (k : K) (t : Z) | Queued (k : K) (t : Z).

Record delaying := Delaying {
  d_queue : workqueue K;
  d_stopCh : bool;                      (* closed *)
  d_waitingForAddCh : list (waitFor K);
  d_wait : waiting K;
  d_pc : loop_pc;
  d_now : Z;                            (* the clock *)
  d_log : list dq_event;                (* the latest first *)
}.

Definition newDelayingQueue (now : Z) : delaying := Delaying NewQueue false [] no_waits AtTop now [].

Definition with_loop (s : delaying) (w : waiting K) (pc : loop_pc) : delaying :=
  Delaying (d_queue s) (d_stopCh s) (d_waitingForAddCh s) w pc (d_now s) (d_log s).

Definition with_chan (s : delaying) (c : list (waitFor K)) : delaying :=
  Delaying (d_queue s) (d_stopCh s) c (d_wait s) (d_pc s) (d_now s) (d_log s).

Definition with_dqueue (s : delaying) (q : workqueue K) : delaying :=
  Delaying q (d_stopCh s) (d_waitingForAddCh s) (d_wait s) (d_pc s) (d_now s) (d_log s).

Definition with_now (s : delaying) (t : Z) : delaying :=
  Delaying (d_queue s) (d_stopCh s) (d_waitingForAddCh s) (d_wait s) (d_pc s) t (d_log s).

Definition note (s : delaying) (e : dq_event) : delaying :=
  Delaying (d_queue s) (d_stopCh s) (d_waitingForAddCh s) (d_wait s) (d_pc s) (d_now s) (e :: d_log s).

Definition shutting (s : delaying) : bool := q_shuttingDown (d_queue s).

(** [q.Add]; the queue drops the key if it is shutting down. *)
Definition add_key (s : delaying) (k : K) : delaying :=
  if shutting s then s else note (with_dqueue s (Workqueue.Add (d_queue s) k)) (Queued k (d_now s)).

(** ** The operations *)

Definition DQ_ShutDown (s : delaying) : delaying :=
  if d_stopCh s then s
  else Delaying (Workqueue.ShutDown (d_queue s)) true (d_waitingForAddCh s) (d_wait s) (d_pc s) (d_now s) (d_log s).

(** The capacity of the channel. *)
Definition waitingForAddCh_cap : nat := 1000.

(** [now] is when the caller read the clock.  [None]: the caller waits for room
    in the channel. *)
Definition AddAfter (s : delaying) (now : Z) (item : K) (duration : Z) : option delaying :=
  if shutting s then Some s
  else if (duration <=? 0)%Z then Some (add_key (note s (Asked item (d_now s))) item)
  else if decide (length (d_waitingForAddCh s) < waitingForAddCh_cap) then
    let readyAt := (now + duration)%Z in
    Some (with_chan (note s (Asked item readyAt)) (d_waitingForAddCh s ++ [WaitFor item readyAt 0]))
  else None.

(** An entry from the channel. *)
Definition receive (s : delaying) (e : waitFor K) : delaying :=
  if (d_now s <? w_readyAt e)%Z then with_loop s (insert_entry (d_wait s) e) (d_pc s) else add_key s (w_data e).

(** The top of the loop, up to the [select]. *)
Definition pass (s : delaying) : delaying :=
  let '(ks, w) := ready_entries (length (waitingForQueue (d_wait s))) (d_now s) (d_wait s) in
  with_loop (foldl add_key s ks) w (AtSelect (w_readyAt <$> waitingForQueue w !! 0)).

Inductive loop_step (s : delaying) : delaying -> Prop :=
  | top_stops : d_pc s = AtTop -> shutting s = true -> loop_step s (with_loop s (d_wait s) Stopped)
  | top_passes : d_pc s = AtTop -> shutting s = false -> loop_step s (pass s)
  | select_stops tm : d_pc s = AtSelect tm -> d_stopCh s = true -> loop_step s (with_loop s (d_wait s) Stopped)
  | select_heartbeat tm : d_pc s = AtSelect tm -> loop_step s (with_loop s (d_wait s) AtTop)
  | select_timer t : d_pc s = AtSelect (Some t) -> (t <= d_now s)%Z -> loop_step s (with_loop s (d_wait s) AtTop)
  | select_receives tm e c : d_pc s = AtSelect tm -> d_waitingForAddCh s = e :: c ->
      loop_step s (with_loop (receive (with_chan s c) e) (d_wait (receive (with_chan s c) e)) Draining)
  | drain_receives e c : d_pc s = Draining -> d_waitingForAddCh s = e :: c -> loop_step s (receive (with_chan s c) e)
  | drained : d_pc s = Draining -> d_waitingForAddCh s = [] -> loop_step s (with_loop s (d_wait s) AtTop).

(** The clients of the queue, its workers and the clock. *)
Inductive client_step (s : delaying) : delaying -> Prop :=
  | client_after now item duration s' :
      (now <= d_now s)%Z -> AddAfter s now item duration = Some s' -> client_step s s'
  | client_add item : client_step s (with_dqueue s (Workqueue.Add (d_queue s) item))
  | client_get item q : Workqueue.Get (d_queue s) = GotItem item q -> client_step s (with_dqueue s q)
  | client_done item : client_step s (with_dqueue s (Workqueue.Done (d_queue s) item))
  | client_shutdown : client_step s (DQ_ShutDown s)
  | clock t : (d_now s <= t)%Z -> client_step s (with_now s t).

Definition dq_step (s s' : delaying) : Prop := loop_step s s' \/ client_step s s'.

(** [AddRateLimited] of the queue with a rate limiter. *)
Definition AddRateLimited {L} `{RateLimiter K L} (s : delaying) (now : Z) (l : L) (item : K) : option delaying * L :=
  let '(d, l') := When l item in (AddAfter s now item d, l').

(** ** The books: who asked for what, what was added, what still waits *)

Definition early_ok (log : list dq_event) : Prop :=
  forall l1 k t l2, log = l1 ++ Queued k t :: l2 -> exists r, (r <= t)%Z /\ Asked k r ∈ l2.

Definition kept (log : list dq_event) (P : K -> Z -> Prop) : Prop :=
  forall l1 k t l2, log = l1 ++ Asked k t :: l2 ->
    (exists t', Queued k t' ∈ l1) \/ exists t', (t' <= t)%Z /\ P k t'.

Record book (log : list dq_event) (P : K -> Z -> Prop) : Prop := {
  bk_asked : forall k t, P k t -> Asked k t ∈ log;
  bk_early : early_ok log;
  bk_kept : kept log P;
}.

Lemma book_nil P : (forall k t, ~ P k t) -> book [] P.
Proof. intros HP. split; [naive_solver|..]; intros l1 k t l2 E; by destruct l1. Qed.

Lemma book_mono log (P P' : K -> Z -> Prop) :
  (forall k t, P k t -> exists t', (t' <= t)%Z /\ P' k t') -> (forall k t, P' k t -> P k t) -> book log P -> book log P'.
Proof.
  intros H1 H2 [B1 B2 B3]. split; [auto|done|]. intros l1 k t l2 E.
  destruct (B3 _ _ _ _ E) as [?|(t' & Ht & HP)]; [by left|]. right. destruct (H1 _ _ HP) as (t'' & ? & ?). exists t''. split; [lia|done].
Qed.

Lemma book_ask log P k t : book log P -> book (Asked k t :: log) (fun k0 t0 => P k0 t0 \/ (k0 = k /\ t0 = t)).
Proof.
  intros [B1 B2 B3]. split.
  - intros k0 t0 [HP|[-> ->]]; [right; auto|left].
  - intros [|e l1] k0 t0 l2 E; simplify_eq/=. by eapply B2.
  - intros [|e l1] k0 t0 l2 E; simplify_eq/=; [right; exists t0; split; [lia|auto]|].
    destruct (B3 l1 _ _ l2 eq_refl) as [(t' & Ht)|(t' & Ht & HP)]; [left; exists t'; by right|right; eauto].
Qed.

Lemma book_queue log (P P' : K -> Z -> Prop) k now :
  (exists r, (r <= now)%Z /\ Asked k r ∈ log) ->
  (forall k0 t, k0 <> k -> P k0 t -> exists t', (t' <= t)%Z /\ P' k0 t') -> (forall k0 t, P' k0 t -> P k0 t) ->
  book log P -> book (Queued k now :: log) P'.
Proof.
  intros Hr H1 H2 [B1 B2 B3]. split.
  - intros k0 t HP. right. auto.
  - intros [|e l1] k0 t0 l2 E; simplify_eq/=; [done|by eapply B2].
  - intros [|e l1] k0 t0 l2 E; simplify_eq/=. destruct (decide (k0 = k)) as [->|Hne]; [left; exists now; left|].
    destruct (B3 l1 _ _ l2 eq_refl) as [(t' & Ht)|(t' & Ht & HP)]; [left; exists t'; by right|].
    right. destruct (H1 _ _ Hne HP) as (t'' & ? & ?). exists t''. split; [lia|done].
Qed.

(** ** The invariant *)

(** The key waits for the time, in the channel or in the heap. *)
Definition pending (s : delaying) (k : K) (t : Z) : Prop :=
  (k, t) ∈ entry_of <$> d_waitingForAddCh s \/ times (d_wait s) !! k = Some t.

Record delaying_ok (s : delaying) : Prop := {
  do_wait : waiting_ok (d_wait s);
  do_timer : forall tm, d_pc s = AtSelect tm -> tm = w_readyAt <$> waitingForQueue (d_wait s) !! 0;
  do_stopCh : d_stopCh s = true -> shutting s = true;
  do_running : d_pc s = Stopped -> shutting s = true;
  do_book : shutting s = false -> book (d_log s) (pending s);
}.

Lemma newDelayingQueue_ok now : delaying_ok (newDelayingQueue now).
Proof.
  split; try done; [apply no_waits_ok|]. intros _. apply book_nil. intros k t [Hk|Hk]; [by apply elem_of_nil in Hk|].
  change (times _) with (∅ : gmap K Z) in Hk. by rewrite lookup_empty in Hk.
Qed.

Lemma shutting_with_loop s w pc : shutting (with_loop s w pc) = shutting s.
Proof. done. Qed.

(** What [add_key] leaves alone. *)
Lemma add_key_same s k :
  d_wait (add_key s k) = d_wait s /\ d_waitingForAddCh (add_key s k) = d_waitingForAddCh s /\
  d_pc (add_key s k) = d_pc s /\ d_now (add_key s k) = d_now s /\ d_stopCh (add_key s k) = d_stopCh s /\
  shutting (add_key s k) = shutting s.
Proof. unfold add_key. destruct (shutting s) eqn:Hs; [done|]. split_and!; try done. unfold shutting in *. simpl. by rewrite Add_shuttingDown. Qed.

Lemma add_keys_same s ks :
  d_wait (foldl add_key s ks) = d_wait s /\ d_waitingForAddCh (foldl add_key s ks) = d_waitingForAddCh s /\
  d_pc (foldl add_key s ks) = d_pc s /\ d_now (foldl add_key s ks) = d_now s /\ d_stopCh (foldl add_key s ks) = d_stopCh s /\
  shutting (foldl add_key s ks) = shutting s.
Proof.
  revert s. induction ks as [|k ks IH]; intros s; [done|]. cbn [foldl].
  destruct (IH (add_key s k)) as (-> & -> & -> & -> & -> & ->). apply add_key_same.
Qed.

Lemma add_key_log s k : shutting s = false -> d_log (add_key s k) = Queued k (d_now s) :: d_log s.
Proof. unfold add_key. by intros ->. Qed.

Lemma add_keys_log s ks :
  shutting s = false ->
  d_log (foldl add_key s ks) = reverse ((fun k => Queued k (d_now s)) <$> ks) ++ d_log s /\
  d_queue (foldl add_key s ks) = foldl Workqueue.Add (d_queue s) ks.
Proof.
  revert s. induction ks as [|k ks IH]; intros s Hs; [done|]. cbn [foldl].
  pose proof (add_key_same s k) as (_ & _ & _ & Hn & _ & Hs'). rewrite Hs in Hs'.
  destruct (IH _ Hs') as [-> ->]. rewrite Hn, add_key_log by done. cbn [fmap list_fmap]. rewrite reverse_cons, <- (assoc_L (++)).
  split; [done|]. unfold add_key. by rewrite Hs.
Qed.

Lemma book_queue_all log (P P' : K -> Z -> Prop) now ks :
  (forall k, k ∈ ks -> exists r, (r <= now)%Z /\ Asked k r ∈ log) ->
  (forall k t, k ∉ ks -> P k t -> exists t', (t' <= t)%Z /\ P' k t') -> (forall k t, P' k t -> P k t) ->
  book log P -> book (reverse ((fun k => Queued k now) <$> ks) ++ log) P'.
Proof.
  revert log P. induction ks as [|k ks IH]; intros log P Hr H1 H2 HB; simpl.
  - eapply book_mono; [|exact H2|done]. intros. apply H1; [set_solver|done].
  - rewrite reverse_cons, <- (assoc_L (++)). apply (IH _ (fun k0 t => P k0 t /\ (k0 = k -> P' k0 t))); simpl.
    + intros k0 Hk0. destruct (Hr k0) as (r & ? & ?); [by right|]. exists r. split; [done|by right].
    + intros k0 t Hk0 [HP Hk]. destruct (decide (k0 = k)) as [E|Hne]; [exists t; split; [lia|auto]|].
      apply H1; [set_solver|done].
    + auto.
    + eapply book_queue; [apply Hr; left|..|exact HB]; [|by intros ? ? [? _]].
      intros k0 t Hne HP. exists t. split; [lia|]. by split.
Qed.

(** ** Every step keeps it *)

Lemma pass_ok s : delaying_ok s -> shutting s = false -> delaying_ok (pass s).
Proof.
  intros [H1 H2 H3 H4 H5] Hs. unfold pass. destruct (ready_entries _ _ _) as [ks w] eqn:Hr.
  destruct (ready_entries_ok _ _ _ _ _ H1 (le_n _) Hr) as [Hw [Hnd Hstay Hleave _]].
  destruct (add_keys_same s ks) as (Hsw & Hsc & Hsp & Hsn & Hst & Hss). destruct (add_keys_log s ks Hs) as [Hlog _].
  split; simpl; [done|by intros tm [= <-]|by rewrite shutting_with_loop, Hst, Hss|done|].
  intros _. rewrite Hlog. apply (book_queue_all _ (pending s)); [..|by apply H5].
  - intros k (t & Ht & Hle)%Hleave. exists t. split; [done|]. apply (bk_asked _ _ (H5 Hs)). by right.
  - intros k t Hk [Hc|Ht]; exists t; (split; [lia|]); unfold pending; simpl; rewrite Hsc; [by left|right]. apply Hstay. split; [done|].
    destruct (decide (t <= d_now s)%Z) as [Hle|]; [|lia]. destruct Hk. apply Hleave. eauto.
  - intros k t. unfold pending. simpl. rewrite Hsc. intros [?|[? _]%Hstay]; auto.
Qed.

Lemma receive_ok s e c :
  delaying_ok s -> d_waitingForAddCh s = e :: c -> forall pc, (forall tm, pc <> AtSelect tm) -> pc <> Stopped ->
  let s' := receive (with_chan s c) e in delaying_ok (with_loop s' (d_wait s') pc).
Proof.
  intros [H1 H2 H3 H4 H5] Hc pc Hpc1 Hpc2. unfold receive. simpl.
  destruct (Z.ltb_spec (d_now s) (w_readyAt e)) as [Hlt|Hge]; simpl.
  - destruct (insert_entry_ok (d_wait s) e H1) as [Hw Ht]. split; simpl; [done|by intros tm ?%Hpc1|done|done|].
    intros Hs. eapply book_mono; [..|by apply H5].
    + intros k t. unfold pending. simpl. rewrite Hc, Ht. cbn [fmap list_fmap]. rewrite elem_of_cons.
      intros [[[= -> ->]|Hk]|Hk].
      * exists (from_option (Z.min (w_readyAt e)) (w_readyAt e) (times (d_wait s) !! w_data e)).
        split; [destruct (times (d_wait s) !! w_data e); simpl; lia|]. right. apply lookup_insert_eq.
      * exists t. split; [lia|by left].
      * destruct (decide (k = w_data e)) as [->|].
        -- exists (Z.min (w_readyAt e) t). split; [lia|]. right. by rewrite lookup_insert_eq, Hk.
        -- exists t. split; [lia|]. right. by rewrite lookup_insert_ne.
    + intros k t. unfold pending. simpl. rewrite Hc, Ht. cbn [fmap list_fmap]. rewrite elem_of_cons.
      intros [Hk|[[<- <-]|[_ Hk]]%lookup_insert_Some]; [auto| |auto].
      destruct (times (d_wait s) !! w_data e) as [t0|] eqn:Ht0; simpl; [|by left; left].
      destruct (Z.min_spec (w_readyAt e) t0) as [[_ ->]|[_ ->]]; auto.
  - destruct (add_key_same (with_chan s c) (w_data e)) as (Hsw & Hsc & Hsp & Hsn & Hst & Hss).
    split; simpl; rewrite ?Hsw; [done|by intros tm ?%Hpc1| |done|].
    + by rewrite shutting_with_loop, Hst, Hss.
    + rewrite shutting_with_loop, Hss. intros Hs.
      rewrite add_key_log by done. assert (He : pending s (w_data e) (w_readyAt e)) by (left; rewrite Hc; left).
      apply (book_queue _ (pending s)); [..|by apply H5].
      * exists (w_readyAt e). split; [done|]. by apply (bk_asked _ _ (H5 Hs)).
      * intros k t Hne. unfold pending. simpl. rewrite Hc, Hsc. cbn [fmap list_fmap]. rewrite elem_of_cons.
        intros [[[= -> ->]|Hk]|Hk]; [done|exists t; split; [lia|auto]..].
      * intros k t. unfold pending. simpl. rewrite Hc, Hsc. cbn [fmap list_fmap]. rewrite elem_of_cons. tauto.
Qed.

Lemma with_loop_id s pc : d_pc s = pc -> with_loop s (d_wait s) pc = s.
Proof. by intros <-; destruct s. Qed.

Lemma receive_pc s e : d_pc (receive s e) = d_pc s.
Proof. unfold receive. destruct (_ <? _)%Z; [done|]. apply add_key_same. Qed.

Lemma loop_step_ok s s' : delaying_ok s -> loop_step s s' -> delaying_ok s'.
Proof.
  intros Hok Hstep. destruct Hstep as [Hp Hs|Hp Hs|tm Hp Hs|tm Hp|t Hp Ht|tm e c Hp Hc|e c Hp Hc|Hp Hc].
  2: by apply pass_ok.
  5: by apply receive_ok.
  5: { rewrite <- (with_loop_id (receive (with_chan s c) e) Draining) by (by rewrite receive_pc). by apply receive_ok. }
  all: destruct Hok as [H1 H2 H3 H4 H5]; split; simpl; try done; rewrite ?shutting_with_loop; auto.
Qed.

(** A change of the queue that keeps it open, or closed. *)
Lemma with_dqueue_ok s q : delaying_ok s -> q_shuttingDown q = shutting s -> delaying_ok (with_dqueue s q).
Proof.
  intros [H1 H2 H3 H4 H5] Hq. assert (Hs : shutting (with_dqueue s q) = shutting s) by done.
  by split; rewrite ?Hs; simpl.
Qed.

Lemma AddAfter_ok s now item duration s' :
  delaying_ok s -> AddAfter s now item duration = Some s' -> delaying_ok s'.
Proof.
  intros Hok. unfold AddAfter. destruct (shutting s) eqn:Hs; [by intros [= <-]|]. destruct Hok as [H1 H2 H3 H4 H5].
  destruct (Z.leb_spec duration 0) as [Hd|Hd].
  - intros [= <-]. set (s1 := note s (Asked item (d_now s))).
    destruct (add_key_same s1 item) as (Hsw & Hsc & Hsp & Hsn & Hst & Hss).
    assert (Hs1 : shutting s1 = false) by done.
    split; rewrite ?Hsw, ?Hsp, ?Hst, ?Hss, ?Hs1; [done|done|by intros ?%H3; congruence|by intros ?%H4; congruence|].
    intros _. rewrite add_key_log by done.
    eapply book_queue; [..|apply book_ask, H5, Hs]; unfold pending; rewrite ?Hsw, ?Hsc; simpl.
    + exists (d_now s). split; [lia|left].
    + intros k t Hne [Hk|[-> _]]; [|done]. exists t. split; [lia|done].
    + auto.
  - destruct (decide _) as [Hl|]; [|done]. intros [= <-].
    split; simpl; [done|done|by intros ?%H3; congruence|by intros ?%H4; congruence|]. intros _.
    assert (Hp : forall k t, pending (with_chan (note s (Asked item (now + duration))) (d_waitingForAddCh s ++ [WaitFor item (now + duration) 0])) k t <->
              pending s k t \/ (k = item /\ t = (now + duration)%Z)).
    { intros k t. unfold pending. simpl. rewrite fmap_app, elem_of_app. cbn [fmap list_fmap]. rewrite list_elem_of_singleton.
      unfold entry_of. simpl. naive_solver. }
    eapply book_mono; [..|apply (book_ask _ (pending s) item (now + duration)), H5, Hs]; intros k t Hk; [|by apply Hp].
    exists t. split; [lia|by apply Hp].
Qed.

Lemma client_step_ok s s' : delaying_ok s -> client_step s s' -> delaying_ok s'.
Proof.
  intros Hok Hstep. destruct Hstep as [now item duration s' _ Ha|item|item q Hg|item| |t Ht].
  - by eapply AddAfter_ok.
  - apply with_dqueue_ok; [done|apply Add_shuttingDown].
  - apply with_dqueue_ok; [done|by eapply Get_shuttingDown].
  - apply with_dqueue_ok; [done|apply Done_shuttingDown].
  - unfold DQ_ShutDown. destruct (d_stopCh s); [done|]. by destruct Hok; split.
  - by destruct Hok; split.
Qed.

Lemma reachable_ok now s : rtc dq_step (newDelayingQueue now) s -> delaying_ok s.
Proof.
  intros Hr. remember (newDelayingQueue now) as s0 eqn:E. pose proof (newDelayingQueue_ok now) as H0. rewrite <- E in H0. clear E.
  induction Hr as [|s0 s1 s2 [Hl|Hc] _ IH]; [done| |]; apply IH; [by eapply loop_step_ok|by eapply client_step_ok].
Qed.

(** ** A key whose time has come is delivered *)

Definition due (s : delaying) (k : K) : Prop := exists t, (t <= d_now s)%Z /\ pending s k t.

(** The loop gets to add the key, on its own. *)
Definition delivered (s : delaying) (k : K) : Prop :=
  exists s' l, rtc loop_step s s' /\ d_log s' = l ++ d_log s /\ Queued k (d_now s) ∈ l.

(** The loop adds the key in a step, or still has it. *)
Definition follows (s s' : delaying) (k : K) : Prop :=
  d_now s' = d_now s /\ shutting s' = false /\
  exists l, d_log s' = l ++ d_log s /\ (Queued k (d_now s) ∈ l \/ due s' k).

Lemma follows_delivered s s' k : loop_step s s' -> follows s s' k -> (due s' k -> delivered s' k) -> delivered s k.
Proof.
  intros Hstep (Hn & _ & l & Hl & [Hq|Hd]) Hk.
  - exists s', l. split; [by apply rtc_once|done].
  - destruct (Hk Hd) as (s2 & l2 & Hr & Hl2 & Hq). exists s2, (l2 ++ l). split; [by eapply rtc_l|].
    rewrite Hl2, Hl, (assoc_L (++)), elem_of_app, <- Hn. auto.
Qed.

Lemma pass_follows s k :
  delaying_ok s -> shutting s = false -> due s k ->
  follows s (pass s) k /\ (d_waitingForAddCh s = [] -> delivered (with_loop s (d_wait s) AtTop) k) /\
  d_waitingForAddCh (pass s) = d_waitingForAddCh s.
Proof.
  intros Hok Hs (t & Ht & Hp). unfold delivered, pass at 1 2. destruct (ready_entries _ _ _) as [ks w] eqn:Hr.
  destruct (ready_entries_ok _ _ _ _ _ (do_wait _ Hok) (le_n _) Hr) as [Hw [_ Hstay Hleave _]].
  destruct (add_keys_same s ks) as (Hsw & Hsc & Hsp & Hsn & Hst & Hss). destruct (add_keys_log s ks Hs) as [Hlog _].
  assert (Hin : times (d_wait s) !! k = Some t -> Queued k (d_now s) ∈ reverse ((fun k => Queued k (d_now s)) <$> ks)).
  { intros Hk. rewrite elem_of_reverse. apply (list_elem_of_fmap_2 (fun k => Queued k (d_now s))), Hleave. eauto. }
  split_and!.
  - split; [done|]. split; [by rewrite shutting_with_loop, Hss|]. simpl. rewrite Hlog. eexists. split; [done|].
    destruct Hp as [Hc|Hk]; [right|left; auto]. exists t. simpl. rewrite Hsn. split; [done|]. left. simpl. by rewrite Hsc.
  - intros Hc. destruct Hp as [Hp|Hk]; [rewrite Hc in Hp; by apply elem_of_nil in Hp|].
    exists (pass (with_loop s (d_wait s) AtTop)), (reverse ((fun k => Queued k (d_now s)) <$> ks)).
    split; [by apply rtc_once; constructor|]. split; [|by apply Hin]. unfold pass. simpl. rewrite Hr. simpl.
    by destruct (add_keys_log (with_loop s (d_wait s) AtTop) ks Hs) as [-> _].
  - done.
Qed.

Lemma receive_follows s e c k pc :
  delaying_ok s -> shutting s = false -> d_waitingForAddCh s = e :: c -> due s k ->
  let s' := receive (with_chan s c) e in
  follows s (with_loop s' (d_wait s') pc) k /\ d_waitingForAddCh s' = c.
Proof.
  intros Hok Hs Hc (t & Ht & Hp). unfold receive. simpl.
  assert (Hp' : (k, t) = entry_of e \/ (k, t) ∈ entry_of <$> c \/ times (d_wait s) !! k = Some t).
  { unfold pending in Hp. rewrite Hc in Hp. cbn [fmap list_fmap] in Hp. rewrite elem_of_cons in Hp. tauto. }
  clear Hp. destruct (Z.ltb_spec (d_now s) (w_readyAt e)) as [Hlt|Hge].
  - split; [|done]. split; [done|]. split; [done|]. exists []. split; [done|]. right.
    destruct Hp' as [[= _ ->]|[Hp|Hp]]; [lia|by exists t; split; [|left]|].
    destruct (insert_entry_ok (d_wait s) e (do_wait _ Hok)) as [_ Hti].
    destruct (decide (k = w_data e)) as [->|].
    + exists (Z.min (w_readyAt e) t). simpl. split; [lia|]. right. simpl. by rewrite Hti, lookup_insert_eq, Hp.
    + exists t. split; [done|]. right. simpl. by rewrite Hti, lookup_insert_ne.
  - destruct (add_key_same (with_chan s c) (w_data e)) as (Hsw & Hsc & Hsp & Hsn & Hst & Hss).
    split; [|done]. split; [done|]. split; [by rewrite shutting_with_loop, Hss|]. simpl.
    rewrite add_key_log by done. exists [Queued (w_data e) (d_now s)]. split; [done|].
    destruct Hp' as [[= -> _]|Hp]; [left; left|]. right. exists t. simpl. rewrite Hsn. split; [done|].
    unfold pending. simpl. by rewrite Hsc, Hsw.
Qed.

Lemma deliver_top_empty s k :
  delaying_ok s -> shutting s = false -> due s k -> d_pc s = AtTop -> d_waitingForAddCh s = [] -> delivered s k.
Proof.
  intros Hok Hs Hd Hp Hc. destruct (pass_follows s k Hok Hs Hd) as (_ & Hdel & _).
  rewrite <- (with_loop_id s AtTop Hp). by apply Hdel.
Qed.

Lemma deliver_draining c s k :
  delaying_ok s -> shutting s = false -> due s k -> d_pc s = Draining -> d_waitingForAddCh s = c -> delivered s k.
Proof.
  revert s. induction c as [|e c IH]; intros s Hok Hs Hd Hp Hc.
  - assert (Hstep : loop_step s (with_loop s (d_wait s) AtTop)) by (by apply drained).
    apply (follows_delivered s _ k Hstep); [split_and!; [done..|by exists []; auto]|]. intros Hd'.
    apply deliver_top_empty; try done. by eapply loop_step_ok.
  - pose proof (drain_receives s e c Hp Hc) as Hstep. pose proof (loop_step_ok _ _ Hok Hstep) as Hok'.
    destruct (receive_follows s e c k Draining Hok Hs Hc Hd) as [Hf Hc'].
    rewrite with_loop_id in Hf by (by rewrite receive_pc). pose proof Hf as (_ & Hs' & _).
    apply (follows_delivered s _ k Hstep Hf). intros Hd'. apply IH; [done..|by rewrite receive_pc|done].
Qed.

Lemma deliver_select s k tm :
  delaying_ok s -> shutting s = false -> due s k -> d_pc s = AtSelect tm -> delivered s k.
Proof.
  intros Hok Hs Hd Hp. destruct (d_waitingForAddCh s) as [|e c] eqn:Hc.
  - pose proof (select_heartbeat s tm Hp) as Hstep.
    apply (follows_delivered s _ k Hstep); [split_and!; [done..|by exists []; auto]|]. intros Hd'.
    apply deliver_top_empty; try done. by eapply loop_step_ok.
  - pose proof (select_receives s tm e c Hp Hc) as Hstep. pose proof (loop_step_ok _ _ Hok Hstep) as Hok'.
    destruct (receive_follows s e c k Draining Hok Hs Hc Hd) as [Hf Hc']. pose proof Hf as (_ & Hs' & _).
    apply (follows_delivered s _ k Hstep Hf). intros Hd'. by apply (deliver_draining c).
Qed.

Lemma deliver s k : delaying_ok s -> shutting s = false -> due s k -> delivered s k.
Proof.
  intros Hok Hs Hd. destruct (d_pc s) as [|tm| |] eqn:Hp.
  - pose proof (top_passes s Hp Hs) as Hstep. pose proof (loop_step_ok _ _ Hok Hstep) as Hok'.
    destruct (pass_follows s k Hok Hs Hd) as (Hf & _ & _). pose proof Hf as (_ & Hs' & _).
    apply (follows_delivered s _ k Hstep Hf). intros Hd'.
    assert (exists tm, d_pc (pass s) = AtSelect tm) as [tm Htm] by (unfold pass; destruct (ready_entries _ _ _); by eexists).
    by eapply deliver_select.
  - by eapply deliver_select.
  - by eapply deliver_draining.
  - by rewrite (do_running _ Hok Hp) in Hs.
Qed.

(** C12. Held back, not lost, for every interleaving of the waiting loop, its
    clients and the clock: a key is added to the work queue only when the time of
    an earlier request for it has come; for every request the key was added
    since, or still waits for a time that is no later; and the loop gets to add
    a key whose time has come, whatever it was doing. *)
Theorem delayed_keys_kept now s :
  rtc dq_step (newDelayingQueue now) s -> shutting s = false ->
  (forall l1 k t l2, d_log s = l1 ++ Queued k t :: l2 -> exists r, (r <= t)%Z /\ Asked k r ∈ l2) /\
  (forall l1 k t l2, d_log s = l1 ++ Asked k t :: l2 ->
     (exists t', Queued k t' ∈ l1) \/ exists t', (t' <= t)%Z /\ pending s k t') /\
  (forall k t, pending s k t -> (t <= d_now s)%Z ->
     exists s' l, rtc loop_step s s' /\ d_log s' = l ++ d_log s /\ Queued k (d_now s) ∈ l).
Proof.
  intros Hr%reachable_ok Hs. destruct (do_book s Hr Hs) as [_ H1 H2]. split_and!; [done..|].
  intros k t Hp Ht. apply deliver; [done..|]. by exists t.
Qed.
End delaying.

(** ** What the workers assume of the queue *)

(** The keys that wait. *)
Definition delayed {K} `{Countable K} (s : delaying (K := K)) : gset K :=
  list_to_set (w_data <$> d_waitingForAddCh s) ∪ dom (times (d_wait s)).

Lemma elem_of_delayed {K} `{Countable K} (s : delaying (K := K)) k : k ∈ delayed s <-> exists t, pending s k t.
Proof.
  unfold delayed, pending. rewrite elem_of_union, elem_of_list_to_set, elem_of_dom, <- entries_data, list_elem_of_fmap.
  split.
  - intros [([k' t] & -> & Hk)|[t Ht]]; exists t; auto.
  - intros [t [Hk|Ht]]; [left; by exists (k, t)|right; by exists t].
Qed.

Section workers_queue.
Context {R : Type} (Reconcile : ObjectKey -> prog R) (failed : R -> bool) (answered : trace -> event -> Prop).
Context {B : Type} (reserve : B -> Z * B).

(** The pool releases keys one after the other. *)
Lemma requeue_all ks w d :
  (forall k, k ∈ ks -> k ∈ p_delayed w) -> p_delayed w ∖ list_to_set ks ⊆ d -> d ⊆ p_delayed w ->
  rtc (pool_step Reconcile failed answered) w (with_queue (with_delayed w d) (foldl Workqueue.Add (p_queue w) ks)).
Proof.
  revert w. induction ks as [|k ks IH]; intros w Hk H1 H2.
  - assert (d = p_delayed w) as -> by (apply set_eq; set_solver). destruct w. apply rtc_refl.
  - eapply rtc_l; [apply (step_requeue _ _ _ w k (d ∪ list_to_set ks ∪ (p_delayed w ∖ {[k]}))); set_solver|].
    apply (IH (with_queue (with_delayed w (d ∪ list_to_set ks ∪ (p_delayed w ∖ {[k]}))) (Workqueue.Add (p_queue w) k)));
      cbn [p_delayed with_queue with_delayed]; set_solver.
Qed.

Lemma pass_simulated s w :
  delaying_ok s -> shutting s = false -> p_queue w = d_queue s -> p_delayed w = delayed s ->
  rtc (pool_step Reconcile failed answered) w (with_queue (with_delayed w (delayed (pass s))) (d_queue (pass s))).
Proof.
  intros Hok Hs Hq Hd. unfold pass. destruct (ready_entries _ _ _) as [ks wt] eqn:Hr.
  destruct (ready_entries_ok _ _ _ _ _ (do_wait _ Hok) (le_n _) Hr) as [_ [_ Hstay Hleave _]].
  destruct (add_keys_same s ks) as (_ & Hsc & _). destruct (add_keys_log s ks Hs) as [_ Haq].
  cbn [d_queue with_loop]. rewrite Haq, <- Hq. apply requeue_all; rewrite Hd.
  - intros k (t & Ht & _)%Hleave. apply elem_of_delayed. exists t. by right.
  - intros k [[t Hp]%elem_of_delayed Hk%not_elem_of_list_to_set]%elem_of_difference. apply elem_of_delayed. exists t.
    destruct Hp as [Hp|Hp]; [left; cbn; by rewrite Hsc|right; cbn]. apply Hstay. split; [done|].
    destruct (decide (t <= d_now s)%Z); [|lia]. destruct Hk. apply Hleave. eauto.
  - intros k [t [Hp|Hp]]%elem_of_delayed; apply elem_of_delayed; exists t; cbn in Hp; [left; by rewrite Hsc in Hp|right].
    by apply Hstay in Hp as [].
Qed.

Lemma receive_simulated s e c pc w :
  delaying_ok s -> shutting s = false -> d_waitingForAddCh s = e :: c -> p_queue w = d_queue s -> p_delayed w = delayed s ->
  let s' := receive (with_chan s c) e in
  rtc (pool_step Reconcile failed answered) w
    (with_queue (with_delayed w (delayed (with_loop s' (d_wait s') pc))) (d_queue s')).
Proof.
  intros Hok Hs Hc Hq Hd. unfold receive. simpl.
  assert (He : w_data e ∈ delayed s) by (unfold delayed; rewrite Hc; cbn; set_solver).
  destruct (_ <? _)%Z.
  - destruct (insert_entry_ok (d_wait s) e (do_wait _ Hok)) as [_ Ht]. cbn [d_queue d_wait with_loop with_chan].
    rewrite <- Hq. apply (requeue_all []); [by intros k ?%elem_of_nil|..]; rewrite Hd; unfold delayed; cbn; rewrite Ht, Hc, dom_insert_L; cbn; set_solver.
  - unfold add_key. change (shutting (with_chan s c)) with (shutting s). rewrite Hs. cbn [d_queue note with_dqueue with_loop with_chan].
    rewrite <- Hq. apply (requeue_all [w_data e]); rewrite Hd; unfold delayed in *; cbn in *; rewrite Hc in *; cbn in *; set_solver.
Qed.

(** C13. The queue of a controller refines what its workers are modelled with, a
    work queue and a set of keys that are held back: in any state that the
    delaying queue gets to, a step of its waiting loop is a number of releases
    of keys of the set; and [AddRateLimited], with the default rate limiter after
    any use of it, puts a failed key into the set. *)
Theorem delaying_queue_refines now s w :
  rtc dq_step (newDelayingQueue now) s -> shutting s = false -> p_queue w = d_queue s -> p_delayed w = delayed s ->
  (forall s', loop_step s s' ->
     rtc (pool_step Reconcile failed answered) w (with_queue (with_delayed w (delayed s')) (d_queue s'))) /\
  (forall t b us k tr r s' l, failed r = true ->
     AddRateLimited (H0 := max_limiter reserve) s t (foldl (used (H0 := max_limiter reserve)) (DefaultControllerRateLimiter b) us) k = (Some s', l) ->
     reconcileHandler failed w k tr r = with_queue (with_delayed w (delayed s')) (d_queue s')).
Proof.
  intros Hok%reachable_ok Hs Hq Hd. split.
  - intros s' Hstep.
    assert (Hsame : forall pc, rtc (pool_step Reconcile failed answered) w
      (with_queue (with_delayed w (delayed (with_loop s (d_wait s) pc))) (d_queue s))).
    { intros pc. change (delayed (with_loop s (d_wait s) pc)) with (delayed s). rewrite <- Hq, <- Hd. destruct w. apply rtc_refl. }
    destruct Hstep as [Hp Hs'|Hp Hs'|tm Hp Hs'|tm Hp|t Hp Ht|tm e c Hp Hc|e c Hp Hc|Hp Hc]; try apply Hsame.
    + by apply pass_simulated.
    + by apply receive_simulated.
    + rewrite <- (with_loop_id (receive (with_chan s c) e) Draining) by (by rewrite receive_pc). by apply receive_simulated.
  - intros t b us k tr r s' l Hf. unfold AddRateLimited.
    pose proof (default_limiter_delay reserve b us k) as (Hpos & Hwhen & _).
    destruct (When _ k) as [dl l'] eqn:HW. cbn [fst] in Hwhen. intros [= Ha _]. unfold AddAfter in Ha. rewrite Hs in Ha.
    rewrite (proj2 (Z.leb_gt dl 0)) in Ha by lia. destruct (decide _); [|done]. injection Ha as <-.
    unfold reconcileHandler. rewrite Hf. change (d_queue (with_chan _ _)) with (d_queue s). rewrite <- Hq, Hd.
    assert (delayed (with_chan (note s (Asked k (t + dl))) (d_waitingForAddCh s ++ [WaitFor k (t + dl) 0])) = {[k]} ∪ delayed s) as ->.
    { unfold delayed. cbn. rewrite fmap_app, list_to_set_app_L. cbn. set_solver. }
    by destruct w.
Qed.
End workers_queue.

(** ** A key that is held back for five units of time *)

Definition example_key : ObjectKey := Key "default" "pvc-1".

Definition example_entry : waitFor ObjectKey := WaitFor example_key 5 0.

(** Asked for at the time 0; received by the loop; its time has come. *)
Definition example_asked : delaying (K := ObjectKey) :=
  with_chan (note (newDelayingQueue 0) (Asked example_key 5)) [example_entry].

Definition example_waiting : delaying (K := ObjectKey) :=
  let s := receive (with_chan (pass example_asked) []) example_entry in
  with_loop s (d_wait s) Draining.

Definition example_due : delaying (K := ObjectKey) := with_now (pass (with_loop example_waiting (d_wait example_waiting) AtTop)) 5.

Lemma example_asked_reached : rtc dq_step (newDelayingQueue 0) example_asked.
Proof. apply rtc_once. right. by apply (client_after _ 0 example_key 5). Qed.

Lemma example_due_reached : rtc dq_step (newDelayingQueue 0) example_due.
Proof.
  etrans; [apply example_asked_reached|].
  eapply rtc_l; [left; by apply top_passes|].
  eapply rtc_l; [left; by eapply (select_receives _ _ example_entry [])|].
  eapply rtc_l; [left; by apply drained|].
  eapply rtc_l; [left; by apply top_passes|].
  apply rtc_once. right. by apply clock.
Qed.

Lemma delayed_keys_kept_witness :
  exists s' l, rtc loop_step example_due s' /\ d_log s' = l ++ d_log example_due /\ Queued example_key 5 ∈ l.
Proof.
  destruct (delayed_keys_kept 0 example_due example_due_reached eq_refl) as (_ & _ & Hd).
  apply (Hd example_key 5%Z); [right; vm_compute; reflexivity|vm_compute; discriminate].
Defined.

Lemma delaying_queue_refines_witness :
  let w := with_delayed (start_workers (R := bool) 1) {[ example_key ]} in
  rtc (pool_step (fun _ => Ret false) negb (fun _ _ => True)) w
    (with_queue (with_delayed w (delayed (pass example_asked))) (d_queue (pass example_asked))) /\
  exists s', reconcileHandler negb w (Key "default" "pvc-2") [] false = with_queue (with_delayed w (delayed s')) (d_queue s') /\
    Key "default" "pvc-2" ∈ delayed s'.
Proof.
  intros w.
  destruct (delaying_queue_refines (fun _ => Ret false) negb (fun _ _ => True) (fun b : nat => (0%Z, b)) 0 example_asked w
    example_asked_reached eq_refl eq_refl) as [H1 H2]; [vm_compute; reflexivity|].
  split; [apply H1; by apply top_passes|].
  eexists. split; [eapply (H2 0%Z O [] (Key "default" "pvc-2") [] false); [reflexivity|vm_compute; reflexivity]|].
  vm_compute. reflexivity.
Defined.
