(* ===== verification/FencerLoop.v ===== *)
(** * The fencer at work

    [SetupWithManager] of [controllers/fencer/reconciler.go] joins the poller,
    the cache, the event handler of the toolkit, the work queue and the
    workers of the controller.  Here they run interleaved: the cache is updated
    and the key is queued in two steps, a worker makes one call at a time, the
    clock advances, cached nodes expire, failed keys are queued again later. *)

From Stdlib Require Import ZArith Lia.
From stdpp Require Import relations.
From S2P Require Import Prelude GoLib Json Errors Types Labels Cache Workqueue Effects Client StatelessAction Fencer Workers.

(** ** The state *)

(** The actions a reconciliation starts, and its error. *)
Definition result : Type := list (fenceActionManager * NodeCR) * option error.

Record sys := Sys {
  s_cache : Cache NodeCR;
  s_clock : Z;
  s_pending : option ObjectKey;   (* the cache has missed, the key is not queued yet *)
  s_pool : pool result;
}.

Definition node_key (n : NodeCR) : ObjectKey := meta_key (cr_meta n).

(** The node under a cache key, at this time. *)
Definition cached (s : sys) (key : string) : option NodeCR := Cache.Get (s_cache s) key (s_clock s).

(** [Reconcile] returned an error. *)
Definition erred (r : result) : bool := match r.2 with Some _ => true | None => false end.

(** The answer of the cache is the cached node; other answers are arbitrary. *)
Definition answered (s : sys) (tr : trace) (e : event) : Prop :=
  match e with
  | existT c r =>
      match c return ret c -> Prop with
      | CacheGetNode key => fun r => r = cached s key
      | _ => fun _ => True
      end r
  end.

(** ** The steps *)

(** The event handler receives a node: [CacheMiss]. *)
Definition report (s : sys) (n : NodeCR) (now' : Z) : sys :=
  let '(miss, c) := CacheMiss (s_cache s) (key_string (node_key n)) n (s_clock s) now' in
  Sys c now' (if miss then Some (node_key n) else None) (s_pool s).

(** It queues the key after a miss. *)
Definition queue_miss (s : sys) (k : ObjectKey) : sys :=
  Sys (s_cache s) (s_clock s) None (enqueue (s_pool s) [k]).

Definition with_pool (s : sys) (w : pool result) : sys :=
  Sys (s_cache s) (s_clock s) (s_pending s) w.

Definition with_time (s : sys) (c : Cache NodeCR) (t : Z) : sys := Sys c t (s_pending s) (s_pool s).

Section running.
Context (ctrlr : Controller).

Inductive step (s : sys) : sys -> Prop :=
  | step_report n now' :
      s_pending s = None -> (s_clock s <= now')%Z -> step s (report s n now')
  | step_enqueue k :
      s_pending s = Some k -> step s (queue_miss s k)
  | step_pool w :
      pool_step (Reconcile ctrlr) erred (answered s) (s_pool s) w -> step s (with_pool s w)
  | step_janitor :
      step s (with_time s (DeleteExpired (s_cache s) (s_clock s)) (s_clock s))
  | step_clock t :
      (s_clock s <= t)%Z -> step s (with_time s (s_cache s) t).

(** [SetupWithManager]: an empty cache, [workers] workers. *)
Definition start (expiryInterval now : Z) (workers : nat) : sys :=
  Sys (NewCache expiryInterval) now None (start_workers workers).

Definition reachable (expiryInterval now : Z) (workers : nat) : sys -> Prop :=
  rtc step (start expiryInterval now workers).

(** ** What a reconciliation decides *)

(** The answer of the cache, if this is a call to it. *)
Definition cache_answer (e : event) : option NodeCR :=
  match e with
  | existT c r =>
      match c return ret c -> option NodeCR with
      | CacheGetNode _ => fun r => r
      | _ => fun _ => None
      end r
  end.

(** The node a reconciliation works on: its first call reads the cache. *)
Definition read (tr : trace) : option NodeCR := match tr with e :: _ => cache_answer e | [] => None end.

(** The actions that follow from the node that was read: one, on that node, if
    it is offline and Kubernetes has it, and none otherwise. *)
Definition decided (n : NodeCR) (tr : trace) (acts : list (fenceActionManager * NodeCR)) : Prop :=
  match acts with
  | [] => ~ offline n \/
      exists e, existT (K_GetNode (Key "" (node_name n))) (inr e) ∈ tr /\ IsNotFound e = true
  | _ :: _ => acts = [(manager (api ctrlr) n, n)] /\ offline n /\
      exists kn, existT (K_GetNode (Key "" (node_name n))) (inl kn) ∈ tr
  end.

Definition concluded (tr : trace) (o : outcome result) : Prop :=
  match o with
  | Done (act, None) => exists n, read tr = Some n /\ decided n tr act
  | Done (_, Some _) => True
  | Panicked _ => False
  end.

Lemma Reconcile_concluded k : every_run (Reconcile ctrlr k) concluded.
Proof.
  unfold Reconcile, fence_controller, ctl_GetObject, ctl_RequireAction, GetObject, RequireAction, concluded. run_steps; cbn [read cache_answer]; try done;
    repeat match goal with H : (if ?b then None else Some _) = None |- _ => destruct b eqn:?; [|done] end;
    (eexists; split; [reflexivity|]); unfold decided, offline;
    repeat match goal with
    | H : bool_decide _ = true |- _ => apply bool_decide_eq_true in H
    | H : bool_decide _ = false |- _ => apply bool_decide_eq_false in H
    end; try (by left).
  all: try (split_and!; [done|done|]; eexists; right; right; left).
  right. eexists. split; [|eassumption]. right. right. left.
Qed.

(** ** No update of the cache is lost *)

(** A reconciliation has not read the cache yet, or has read [n]. *)
Definition up_to_date (n : NodeCR) (tr : trace) : Prop := tr = [] \/ read tr = Some n.

(** The first call reads the cached node. *)
Lemma up_to_date_call s n tr p e p' :
  cached s (key_string (node_key n)) = Some n -> ran (Reconcile ctrlr (node_key n)) tr p -> makes p e p' ->
  answered s tr e -> up_to_date n tr -> up_to_date n (tr ++ [e]).
Proof.
  intros Hc Hr Hm Ha [->|Hu]; right; [|by destruct tr]. apply ran_none in Hr as ->.
  destruct Hm as (r & -> & _). simpl in Ha |- *. by subst.
Qed.

(** The key of the cached node [n] is about to be queued, or is tracked. *)
Definition node_tracked (s : sys) (n : NodeCR) : Prop :=
  s_pending s = Some (node_key n) \/ tracked (s_pool s) (node_key n) (up_to_date n).

Definition all_tracked (s : sys) : Prop :=
  forall key n, cached s key = Some n -> key = key_string (node_key n) /\ node_tracked s n.

(** The cached nodes are among those of an earlier time. *)
Lemma cached_later (c : Cache NodeCR) key t t' n :
  (t <= t')%Z -> Cache.Get c key t' = Some n -> Cache.Get c key t = Some n.
Proof.
  intros Ht. unfold Cache.Get. destruct (items c !! key) as [it|]; [|done]. unfold expired.
  destruct (0 <? i_Expiration it)%Z eqn:?, (i_Expiration it <? t')%Z eqn:?, (i_Expiration it <? t)%Z eqn:?; simpl; try done.
  rewrite Z.ltb_ge, Z.ltb_lt in *. lia.
Qed.

Lemma all_tracked_report s n now' :
  s_pending s = None -> (s_clock s <= now')%Z -> all_tracked s -> all_tracked (report s n now').
Proof.
  intros Hp Hc Hall key n0 Hk.
  assert (Hold : cached s key = Some n0 -> forall s', s_pool s' = s_pool s ->
    key = key_string (node_key n0) /\ node_tracked s' n0).
  { intros Hk0 s' Hw. destruct (Hall _ _ Hk0) as [-> [Ht|Ht]]; [by rewrite Hp in Ht|]. split; [done|right]. by rewrite Hw. }
  unfold report in *. destruct (CacheMiss _ _ _ _ _) as [[] c] eqn:Hm.
  - assert (c = Set_ (s_cache s) (key_string (node_key n)) n 0 now') as ->.
    { pose proof (CacheMiss_true (s_cache s) (key_string (node_key n)) n (s_clock s) now') as H. rewrite Hm in H. auto. }
    unfold cached in Hk. cbn [s_cache s_clock] in Hk. destruct (decide (key = key_string (node_key n))) as [->|Hne].
    + rewrite Get_Set in Hk. simpl in Hk. destruct (_ && _); [done|]. simplify_eq. split; [done|by left].
    + apply Hold; [|done]. apply (cached_later _ _ _ now'); [done|]. unfold Cache.Get, Set_ in Hk |- *.
      cbn [items] in Hk. by rewrite lookup_insert_ne in Hk.
  - assert (c = s_cache s) as -> by (unfold CacheMiss in Hm; repeat case_match; by simplify_eq).
    apply Hold; [|done]. by apply (cached_later _ _ _ now').
Qed.

Lemma all_tracked_step s s' : exclusive (Reconcile ctrlr) erred (s_pool s) -> all_tracked s -> step s s' -> all_tracked s'.
Proof.
  intros Hex Hall [n now' Hp Hc|k Hp|w Hw| |t Ht].
  - by apply all_tracked_report.
  - intros key n Hn. destruct (Hall _ _ Hn) as [-> Htr]. split; [done|right]. apply (tracked_enqueue _ _ _ _ _ _ Hex).
    destruct Htr as [Hpn|Htr]; [left|by right]. rewrite Hp in Hpn. simplify_eq. left.
  - intros key n Hn. destruct (Hall _ _ Hn) as [-> Htr]. split; [done|]. destruct Htr as [?|Htr]; [by left|right].
    eapply tracked_step; [by left| |exact Hex|exact Hw|exact Htr]. intros. by eapply up_to_date_call.
  - intros key n Hn. apply (Hall key n). rewrite <- Hn. symmetry.
    exact (Get_elsewhere (s_cache s) key (s_clock s) (OpJanitor (s_clock s)) (Z.le_refl _)).
  - intros key n Hn. exact (Hall key n (cached_later _ _ _ _ _ Ht Hn)).
Qed.

Lemma reachable_invariants e now n s :
  reachable e now n s -> exclusive (Reconcile ctrlr) erred (s_pool s) /\ all_tracked s.
Proof.
  intros Hr. pattern s. revert s Hr. apply rtc_ind_r.
  - split; [apply exclusive_start|]. intros key node. unfold cached, start, Cache.Get. cbn. by rewrite lookup_empty.
  - intros s s' _ Hs (H1 & H2). split; [|by eapply all_tracked_step].
    destruct Hs as [m now' Hp Hc|k Hp|w Hw| |t Ht]; cbn; eauto. unfold report. by destruct (CacheMiss _ _ _ _ _).
Qed.

(** ** The theorems *)

(** C10. No change of the health of a node is lost, under every interleaving
    of the event handler, the workers, the janitor and the clock, and for every
    answer of Kubernetes: as long as a node is cached, its key waits for a
    worker, or a worker is working on that version of it, or the last
    reconciliation of its key worked on that version; so when nothing is left
    to do, every cached node was reconciled in its cached version, and an
    action was started for it if it is offline and Kubernetes has it. *)
Theorem fencer_no_lost_update e now n s :
  reachable e now n s ->
  (forall key node, cached s key = Some node -> key = key_string (node_key node) /\ node_tracked s node) /\
  (s_pending s = None -> quiet (s_pool s) -> forall key node, cached s key = Some node ->
     exists rc acts, last_of (s_pool s) (node_key node) = Some rc /\ rc_result rc = (acts, None) /\
       read (rc_calls rc) = Some node /\ decided node (rc_calls rc) acts).
Proof.
  intros (Hex & Hall)%reachable_invariants. split; [exact Hall|].
  intros Hp Hq key node Hk. destruct (Hall _ _ Hk) as [_ [H|H]]; [by rewrite Hp in H|].
  destruct (quiet_settled _ _ _ _ _ Hex Hq H) as (rc & Hrc & Hkey & Hup & Hran & Hok).
  pose proof (ran_done _ _ _ _ Hran (Reconcile_concluded _)) as Hcon. destruct (rc_result rc) as [act [err|]] eqn:Hres; [done|].
  destruct Hcon as (n' & Hread & Hdec). destruct Hup as [Hnil|Hup]; [by rewrite Hnil in Hread|].
  rewrite Hup in Hread. simplify_eq. eauto 10.
Qed.

(** C11. The reconciliations of one node never overlap, however many workers
    there are: the keys that wait are distinct and held by no worker, and two
    workers never hold the same key. *)
Theorem fencer_exclusive e now n s :
  reachable e now n s ->
  queue_ok (p_queue (s_pool s)) /\
  (forall i x k, p_workers (s_pool s) !! i = Some x -> holds x k -> k ∉ q_queue (p_queue (s_pool s))) /\
  (forall i j x y k, p_workers (s_pool s) !! i = Some x -> p_workers (s_pool s) !! j = Some y ->
     holds x k -> holds y k -> i = j).
Proof.
  intros (Hex & _)%reachable_invariants. split_and!; [apply Hex| |apply Hex].
  intros i x k. by apply (exclusive_waiting _ _ _ _ _ _ Hex).
Qed.

End running.

(** ** An offline node is reported and reconciled *)

Definition example_controller : Controller := NewController example_client.

Definition example_answers : trace :=
  [existT (CacheGetNode "/n1") (Some example_cached); existT SchemeConvert None;
   existT (K_GetNode (Key "" "n1")) (inl {| kn_meta := meta "n1" "" None [] |})].

Definition example_end : sys :=
  Sys (Set_ (NewCache 60) "/n1" example_cached 0 100) 100 None
    (Pool NewQueue ∅ [Idle]
      [{| rc_key := Key "" "n1"; rc_calls := example_answers; rc_result := ([(manager example_client example_cached, example_cached)], None) |}]).

(** The worker has taken the key and made no call yet. *)
Definition example_taken : sys :=
  Sys (Set_ (NewCache 60) "/n1" example_cached 0 100) 100 None
    (Pool (Queue [] ∅ {[Key "" "n1"]} false) ∅ [Running (Key "" "n1") (Reconcile example_controller (Key "" "n1")) []] []).

Lemma example_taken_reachable : reachable example_controller 60 100 1 example_taken.
Proof.
  unfold reachable. eapply rtc_l; [apply (step_report _ _ example_cached 100); [done|vm_compute; discriminate]|].
  eapply rtc_l; [by apply (step_enqueue _ _ (Key "" "n1"))|].
  eapply rtc_l; [apply step_pool; by apply (step_get _ _ _ _ 0 (Key "" "n1") (Queue [] ∅ {[Key "" "n1"]} false))|].
  apply rtc_refl.
Defined.

(** One call of the worker, or another step of it. *)
Ltac worker_call e :=
  eapply rtc_l; [apply step_pool; eapply (step_call _ _ _ _ 0 _ _ _ e); [reflexivity|eexists; split; reflexivity|first [exact I|vm_compute; reflexivity]]|].

Lemma example_end_reachable : reachable example_controller 60 100 1 example_end.
Proof.
  eapply (@transitivity _ (rtc (step example_controller)) _); [exact example_taken_reachable|].
  worker_call (existT (CacheGetNode "/n1") (Some example_cached) : event).
  worker_call (existT SchemeConvert None : event).
  worker_call (existT (K_GetNode (Key "" "n1")) (inl {| kn_meta := meta "n1" "" None [] |}) : event).
  eapply rtc_l; [apply step_pool; eapply (step_finish _ _ _ _ 0 (Key "" "n1") ([(manager example_client example_cached, example_cached)], None)); reflexivity|].
  eapply rtc_l; [apply step_pool; apply (step_done _ _ _ _ 0 (Key "" "n1")); reflexivity|].
  apply rtc_refl.
Defined.

Lemma fencer_no_lost_update_witness :
  cached example_end "/n1" = Some example_cached /\
  exists rc acts, last_of (s_pool example_end) (Key "" "n1") = Some rc /\ rc_result rc = (acts, None) /\
    read (rc_calls rc) = Some example_cached /\ decided example_controller example_cached (rc_calls rc) acts.
Proof.
  split; [vm_compute; reflexivity|].
  refine (proj2 (fencer_no_lost_update example_controller 60 100 1 example_end example_end_reachable) _ _ "/n1" example_cached _).
  - reflexivity.
  - repeat split; by repeat constructor.
  - vm_compute. reflexivity.
Defined.

Lemma fencer_exclusive_witness : Key "" "n1" ∉ q_queue (p_queue (s_pool example_taken)).
Proof.
  apply (proj1 (proj2 (fencer_exclusive example_controller 60 100 1 example_taken example_taken_reachable)) 0
    (Running (Key "" "n1") (Reconcile example_controller (Key "" "n1")) [])); reflexivity.
Defined.
