(* ===== verification/Predicates.v ===== *)
(** * Which events reach a controller ([internal/pkg/predicate])

    [ignore.go]: predicates that ignore every event unless a method is
    overridden; the predicates of the four controllers that embed them; and the
    way of an event of the API server through the predicate into the work
    queue, as the event handlers of controller-runtime do it. *)

From S2P Require Import Prelude GoLib Json Errors Types Effects Labels Client LabelSync NodeLabels VolumeLabels Toolkit Provisioner DeleteControllers LabelControllers Workqueue.

(** ** Events *)

Inductive watch_event :=
  | CreateEvent (object : ObjectMeta)
  | UpdateEvent (objectOld objectNew : ObjectMeta)
  | DeleteEvent (object : ObjectMeta)
  | GenericEvent (object : ObjectMeta).

(** The interface of controller-runtime: an event passes if the method of its
    kind returns true. *)
Class Predicate (P : Type) := {
  Create : P -> ObjectMeta -> bool;
  Delete : P -> ObjectMeta -> bool;
  Update : P -> ObjectMeta -> ObjectMeta -> bool;
  Generic : P -> ObjectMeta -> bool;
}.

(** ** [IgnoreFuncs] *)

Record IgnoreFuncs := {
  CreateFunc : option (ObjectMeta -> bool);
  DeleteFunc : option (ObjectMeta -> bool);
  UpdateFunc : option (ObjectMeta -> ObjectMeta -> bool);
  GenericFunc : option (ObjectMeta -> bool);
}.

Definition IgnoreFuncs_Create (p : IgnoreFuncs) (e : ObjectMeta) : bool :=
  match CreateFunc p with Some f => f e | None => false end.

Definition IgnoreFuncs_Delete (p : IgnoreFuncs) (e : ObjectMeta) : bool :=
  match DeleteFunc p with Some f => f e | None => false end.

Definition IgnoreFuncs_Update (p : IgnoreFuncs) (objectOld objectNew : ObjectMeta) : bool :=
  match UpdateFunc p with Some f => f objectOld objectNew | None => false end.

Definition IgnoreFuncs_Generic (p : IgnoreFuncs) (e : ObjectMeta) : bool :=
  match GenericFunc p with Some f => f e | None => false end.

#[export] Instance ignore_funcs : Predicate IgnoreFuncs := {|
  Create := IgnoreFuncs_Create;
  Delete := IgnoreFuncs_Delete;
  Update := IgnoreFuncs_Update;
  Generic := IgnoreFuncs_Generic;
|}.

Definition zero_funcs : IgnoreFuncs := Build_IgnoreFuncs None None None None.

(** ** The predicates of the controllers embed the zero value *)

Record nodedelete_predicate := NodeDeletePredicate { nd_funcs : IgnoreFuncs }.
Record nsdelete_predicate := NsDeletePredicate { nsd_funcs : IgnoreFuncs }.
Record nodelabel_predicate := NodeLabelPredicate { nl_funcs : IgnoreFuncs }.
Record pvclabel_predicate := PVCLabelPredicate { pl_funcs : IgnoreFuncs }.

#[export] Instance nodedelete_is_predicate : Predicate nodedelete_predicate := {|
  Create p := Create (nd_funcs p);
  Delete _ o := NodeDelete.Predicate_Delete o;
  Update p := Update (nd_funcs p);
  Generic p := Generic (nd_funcs p);
|}.

#[export] Instance nsdelete_is_predicate : Predicate nsdelete_predicate := {|
  Create p := Create (nsd_funcs p);
  Delete _ o := true;
  Update p := Update (nsd_funcs p);
  Generic p := Generic (nsd_funcs p);
|}.

#[export] Instance nodelabel_is_predicate : Predicate nodelabel_predicate := {|
  Create p := Create (nl_funcs p);
  Delete p := Delete (nl_funcs p);
  Update _ o n := NodeLabel.Predicate_Update o n;
  Generic p := Generic (nl_funcs p);
|}.

#[export] Instance pvclabel_is_predicate : Predicate pvclabel_predicate := {|
  Create p := Create (pl_funcs p);
  Delete p := Delete (pl_funcs p);
  Update _ o n := PVCLabel.Predicate_Update o n;
  Generic p := Generic (pl_funcs p);
|}.

(** ** From the event to the queue *)

Definition passes {P} `{Predicate P} (p : P) (e : watch_event) : bool :=
  match e with
  | CreateEvent o => Create p o
  | UpdateEvent o n => Update p o n
  | DeleteEvent o => Delete p o
  | GenericEvent o => Generic p o
  end.

(** [EnqueueRequestForObject]: an update queues both keys. *)
Definition event_keys (e : watch_event) : list ObjectKey :=
  match e with
  | CreateEvent o | DeleteEvent o | GenericEvent o => [meta_key o]
  | UpdateEvent o n => [meta_key o; meta_key n]
  end.

(** [OnAdd], [OnUpdate], [OnDelete] with one predicate. *)
Definition on_event {P} `{Predicate P} (p : P) (q : workqueue ObjectKey) (e : watch_event) : workqueue ObjectKey :=
  if passes p e then foldl Workqueue.Add q (event_keys e) else q.

(** ** Properties *)

Lemma Adds_dirty (q : workqueue ObjectKey) ks :
  q_shuttingDown q = false ->
  q_shuttingDown (foldl Workqueue.Add q ks) = false /\ q_dirty (foldl Workqueue.Add q ks) = q_dirty q ∪ list_to_set ks.
Proof.
  revert q. induction ks as [|k ks IH]; intros q Hq; simpl; [split; [done|set_solver]|].
  destruct (IH (Workqueue.Add q k)) as [H1 H2]; [by rewrite Add_shuttingDown|]. split; [done|].
  rewrite H2, Add_dirty by done. set_solver.
Qed.

Lemma on_event_dirty {P} `{Predicate P} (p : P) q e :
  q_shuttingDown q = false ->
  q_shuttingDown (on_event p q e) = false /\
  q_dirty (on_event p q e) = q_dirty q ∪ (if passes p e then list_to_set (event_keys e) else ∅).
Proof. intros Hq. unfold on_event. destruct (passes p e); [by apply Adds_dirty|]. split; [done|set_solver]. Qed.

(** Which events a controller gets to see: the node deleter, deletions of
    StorageOS nodes; the namespace deleter, all deletions; the node labeller,
    updates of a StorageOS node that was none before or whose labels changed;
    the claim labeller, updates of a StorageOS claim whose labels changed; and
    nothing else. *)
Theorem controller_events e :
  (passes (NodeDeletePredicate zero_funcs) e = true <-> exists o, e = DeleteEvent o /\ (IsStorageOSNode o).1 = true) /\
  (passes (NsDeletePredicate zero_funcs) e = true <-> exists o, e = DeleteEvent o) /\
  (passes (NodeLabelPredicate zero_funcs) e = true <-> exists o n, e = UpdateEvent o n /\
     (IsStorageOSNode n).1 = true /\ ((IsStorageOSNode o).1 = true -> om_Labels o <> om_Labels n)) /\
  (passes (PVCLabelPredicate zero_funcs) e = true <-> exists o n, e = UpdateEvent o n /\
     HasStorageOSAnnotation n = true /\ om_Labels o <> om_Labels n).
Proof.
  assert (Hdeep : forall o n : ObjectMeta, negb (deep_equal (om_Labels o) (om_Labels n)) = true <-> om_Labels o <> om_Labels n).
  { intros. unfold deep_equal. case_bool_decide; simpl; split; congruence. }
  split_and!; destruct e; simpl; try (split; [done|naive_solver]).
  - unfold NodeDelete.Predicate_Delete. naive_solver.
  - split; [eauto|done].
  - unfold NodeLabel.Predicate_Update. specialize (Hdeep objectOld objectNew).
    destruct (IsStorageOSNode objectNew).1 eqn:E1; simpl; [|naive_solver congruence].
    destruct (IsStorageOSNode objectOld).1 eqn:E2; simpl; [|naive_solver congruence].
    destruct (negb (deep_equal _ _)); naive_solver congruence.
  - unfold PVCLabel.Predicate_Update. specialize (Hdeep objectOld objectNew).
    destruct (HasStorageOSAnnotation objectNew) eqn:E1; simpl; [|naive_solver congruence].
    destruct (negb (deep_equal _ _)); naive_solver congruence.
Qed.

(** The update events of an object that goes through the versions [l]. *)
Fixpoint updates (o : ObjectMeta) (l : list ObjectMeta) : list watch_event :=
  match l with [] => [] | n :: l' => UpdateEvent o n :: updates n l' end.

Lemma dirty_mono {P} `{Predicate P} (p : P) q es k :
  q_shuttingDown q = false -> k ∈ q_dirty q -> k ∈ q_dirty (foldl (on_event p) q es).
Proof.
  revert q. induction es as [|e es IH]; intros q Hq Hk; [done|]. simpl.
  destruct (on_event_dirty p q e Hq) as [Hq' Hd]. apply IH; [done|]. rewrite Hd. set_solver.
Qed.

(** No change of the labels of a StorageOS node is missed, however many
    updates it takes: if its labels end up different from what they were, its
    key is in the queue. *)
Theorem label_change_queued q k o l :
  q_shuttingDown q = false ->
  Forall (fun m => meta_key m = k /\ (IsStorageOSNode m).1 = true) (o :: l) ->
  om_Labels (List.last l o) <> om_Labels o ->
  k ∈ q_dirty (foldl (on_event (NodeLabelPredicate zero_funcs)) q (updates o l)).
Proof.
  revert q o. induction l as [|m l IH]; intros q o Hq Hall Hne; [done|]. cbn [updates foldl].
  apply Forall_cons_iff in Hall as [[Hk Ho] Hall].
  destruct (on_event_dirty (NodeLabelPredicate zero_funcs) q (UpdateEvent o m) Hq) as [Hq' Hd].
  destruct (passes (NodeLabelPredicate zero_funcs) (UpdateEvent o m)) eqn:Hp.
  - apply dirty_mono; [done|]. rewrite Hd. simpl. set_solver.
  - assert (Hlab : om_Labels o = om_Labels m).
    { apply Forall_cons_iff in Hall as [[_ Hm] _]. cbn in Hp. unfold NodeLabel.Predicate_Update in Hp. rewrite Ho, Hm in Hp. cbn [negb] in Hp.
      unfold deep_equal in Hp. by case_bool_decide. }
    assert (Hl : List.last (m :: l) o = List.last l m).
    { destruct l as [|m' l]; [done|]. cbn [List.last]. clear. revert m'. induction l as [|a l IH]; intros m'; [done|]. apply IH. }
    apply IH; [done|done|congruence].
Qed.

(** A StorageOS node that gets a label in two updates. *)
Definition example_node (ls : gomap) : ObjectMeta :=
  set_annotations (meta "n1" "" ls [])
    (Some {["csi.volume.kubernetes.io/nodeid" := of_bytes (map ascii_of_N [123;34;99;115;105;46;115;116;111;114;97;103;101;111;115;46;99;111;109;34;58;34;120;34;125]%N)]}).

Lemma label_change_queued_witness :
  Key "" "n1" ∈ q_dirty (foldl (on_event (NodeLabelPredicate zero_funcs)) NewQueue
    (updates (example_node None) [example_node None; example_node (Some {["a" := "b"]})])).
Proof.
  apply (label_change_queued NewQueue (Key "" "n1") (example_node None) [example_node None; example_node (Some {["a" := "b"]})]).
  - reflexivity.
  - repeat (constructor; [split; vm_compute; reflexivity|]). constructor.
  - simpl. discriminate.
Defined.
