(* ===== verification/SyncLoop.v ===== *)
(** * The synchronising controllers at work

    [SetupWithManager] of the node and namespace deleters and of the node and
    claim labellers ([controllers/*/reconciler.go]) joins an informer, a
    predicate, the work queue and the workers that run the toolkit's
    [Reconcile].  Here they run interleaved: the informer's store changes and
    the event is handed over in two steps, and a worker makes one call at a
    time.  No deletion and no change of labels is lost. *)

From stdpp Require Import relations.
From S2P Require Import Prelude GoLib Json Errors Types Labels Workqueue Effects Client LabelSync NodeLabels Toolkit Provisioner DeleteControllers LabelControllers Predicates Workers.

(** ** What a reconciler reads *)

(** The state of an object that the answer of the client shows: the object, or
    that there is none. *)
Definition seen (e : event) : option (ObjectKey * option ObjectMeta) :=
  let '(existT c r) := e in
  let shows {A} (k : ObjectKey) (m : A -> ObjectMeta) (r : A + error) :=
    match r with
    | inl x => Some (k, Some (m x))
    | inr err => if IsNotFound err then Some (k, None) else None
    end in
  match c return ret c -> option (ObjectKey * option ObjectMeta) with
  | K_GetNode k => shows k kn_meta
  | K_GetNamespace k => shows k kns_meta
  | K_GetPVC k => shows k pvc_meta
  | _ => fun _ => None
  end r.

(** What the workers rely on: the client's [Get] of a kind is one call, whose
    answer shows the object with the key that was asked for. *)
Class Reads (proto : Prototype) := {
  get_call : ObjectKey -> call;
  got : forall k, ret (get_call k) -> client_object + error;
  client_Get_call : forall k, client_Get proto k = Do (get_call k) (fun r => Ret (got k r));
  seen_got : forall k r, seen (existT (get_call k) r) =
    match got k r with
    | inl obj => Some (k, Some (obj_meta obj))
    | inr err => if IsNotFound err then Some (k, None) else None
    end;
}.

#[export] Instance nodes_read : Reads NodeDelete.prototype.
Proof.
  refine {| get_call := K_GetNode; got k r := match r with inl n => inl (ONode n) | inr e => inr e end |};
    [done|by intros k [n|e]].
Defined.

#[export] Instance namespaces_read : Reads NamespaceDelete.prototype.
Proof.
  refine {| get_call := K_GetNamespace; got k r := match r with inl n => inl (ONamespace n) | inr e => inr e end |};
    [done|by intros k [n|e]].
Defined.

#[export] Instance claims_read : Reads PVCLabel.prototype.
Proof.
  refine {| get_call := K_GetPVC; got k r := match r with inl p => inl (OPVC p) | inr e => inr e end |};
    [done|by intros k [n|e]].
Defined.

(** ** The informer *)

Notation store := (gmap ObjectKey ObjectMeta).

(** An event tells of a change of the store it starts from. *)
Definition tells (m : store) (e : watch_event) : Prop :=
  match e with
  | CreateEvent o => m !! meta_key o = None
  | UpdateEvent o n => m !! meta_key o = Some o /\ meta_key n = meta_key o
  | DeleteEvent o => m !! meta_key o = Some o
  | GenericEvent _ => False
  end.

Definition changed (m : store) (e : watch_event) : store :=
  match e with
  | CreateEvent o | UpdateEvent _ o => <[meta_key o := o]> m
  | DeleteEvent o => delete (meta_key o) m
  | GenericEvent _ => m
  end.

(** The key an event is about. *)
Definition event_key (e : watch_event) : ObjectKey :=
  match e with CreateEvent o | UpdateEvent _ o | DeleteEvent o | GenericEvent o => meta_key o end.

Lemma tells_keys m e k : tells m e -> (k ∈ event_keys e <-> event_key e = k).
Proof. destruct e as [o|o n|o|o]; simpl; [set_solver| |set_solver..]. intros [_ ->]. set_solver. Qed.

Lemma changed_other m e k : event_key e <> k -> changed m e !! k = m !! k.
Proof.
  destruct e; cbn [changed event_key]; intros;
    [by rewrite lookup_insert_ne|by rewrite lookup_insert_ne|by rewrite lookup_delete_ne|done].
Qed.

(** ** The controller *)

(** The first call of a reconciliation is answered from the store, unless it
    fails; other answers are arbitrary. *)
Definition answered (m : store) (tr : trace) (e : event) : Prop :=
  tr = [] -> forall k o, seen e = Some (k, o) -> m !! k = o.

(** [Reconcile] asks for another run. *)
Definition retried (r : Result * option error) : bool :=
  match r.2 with Some _ => true | None => Requeue r.1 end.

Record sys := Sys {
  s_store : store;
  s_history : list watch_event;   (* the changes so far, the latest first *)
  s_notify : list watch_event;    (* the events that are not handled yet, the oldest first *)
  s_pool : pool (Result * option error);
}.

Definition observe (s : sys) (e : watch_event) : sys :=
  Sys (changed (s_store s) e) (e :: s_history s) (s_notify s ++ [e]) (s_pool s).

Section controller.
Context {P : Type} `{Predicate P} (p : P).
Context (proto : Prototype) `{Reads proto} (ctl : SyncController) (ctx : Ctx).

(** [OnAdd], [OnUpdate], [OnDelete]: the event passes the predicate or is dropped. *)
Definition notify (s : sys) (e : watch_event) (es : list watch_event) : sys :=
  Sys (s_store s) (s_history s) es (with_queue (s_pool s) (on_event p (p_queue (s_pool s)) e)).

Definition with_pool (s : sys) (w : pool (Result * option error)) : sys :=
  Sys (s_store s) (s_history s) (s_notify s) w.

Inductive step (s : sys) : sys -> Prop :=
  | step_observe e : tells (s_store s) e -> step s (observe s e)
  | step_notify e es : s_notify s = e :: es -> step s (notify s e es)
  | step_pool w :
      pool_step (Reconcile proto ctl ctx) retried (answered (s_store s)) (s_pool s) w -> step s (with_pool s w).

(** [SetupWithManager]: nothing is known yet, [workers] workers. *)
Definition start (workers : nat) : sys := Sys ∅ [] [] (start_workers workers).

Definition reachable (workers : nat) : sys -> Prop := rtc step (start workers).

(** ** What a reconciliation does *)

(** After the read, the rest of the run is [Ensure] on the object that was
    read, or [Delete] when there was none. *)
Definition handled (k : ObjectKey) (tr : trace) (o : option ObjectMeta) : Prop :=
  exists e tr', tr = e :: tr' /\ seen e = Some (k, o) /\
  match o with
  | Some m => exists obj, obj_meta obj = m /\ ran (Toolkit.Ensure ctl ctx obj) tr' (Ret None)
  | None => ran (Toolkit.Delete ctl ctx (new_instance proto k)) tr' (Ret None)
  end.

Lemma Reconcile_handled k tr r :
  ran (Reconcile proto ctl ctx k) tr (Ret r) -> retried r = false -> exists o, handled k tr o.
Proof.
  unfold Reconcile. rewrite client_Get_call. intros Hr Hok. destruct tr as [|e tr].
  { by apply ran_none in Hr. }
  apply ran_head in Hr as (q & (a & -> & ->) & Hr). simpl in Hr.
  pose proof (seen_got k a) as Hs. destruct (got k a) as [obj|err].
  - apply ran_bind in Hr as (tr1 & x & tr2 & -> & Hens & Hr).
    exists (Some (obj_meta obj)). do 2 eexists. split; [done|]. split; [exact Hs|]. exists obj. split; [done|].
    destruct x as [e|]; apply ran_ret in Hr as [-> <-]; [done|]. by rewrite app_nil_r.
  - destruct (IsNotFound err).
    + apply ran_bind in Hr as (tr1 & x & tr2 & -> & Hdel & Hr).
      exists None. do 2 eexists. split; [done|]. split; [exact Hs|].
      destruct x as [e|]; apply ran_ret in Hr as [-> <-]; [done|]. by rewrite app_nil_r.
    + by apply ran_ret in Hr as [-> <-].
Qed.

(** ** Nothing is lost

    [view] is the part of an object's state that the controller is about. *)
Context {V : Type} `{EqDecision V} (view : option ObjectMeta -> V).

(** A reconciliation has not read yet, or has read a state with this view. *)
Definition fresh (o : option ObjectMeta) (tr : trace) : Prop :=
  match tr with
  | [] => True
  | e :: _ => forall k' o', seen e = Some (k', o') -> view o' = view o
  end.

Lemma fresh_call m k tr q e q' :
  ran (Reconcile proto ctl ctx k) tr q -> makes q e q' -> answered m tr e ->
  fresh (m !! k) tr -> fresh (m !! k) (tr ++ [e]).
Proof.
  intros Hr Hm Ha Hf. destruct tr as [|e0 tr]; [|done]. simpl. intros k' o' Hs.
  apply ran_none in Hr as ->. unfold Reconcile in Hm. rewrite client_Get_call in Hm. destruct Hm as (a & -> & _).
  rewrite <- (Ha eq_refl _ _ Hs). rewrite seen_got in Hs. destruct (got k a) as [obj|err]; [by simplify_eq|].
  destruct (IsNotFound err); by simplify_eq.
Qed.

(** The controller owes a reconciliation of [k]: an event about it passed the
    predicate, and the later ones left the view alone. *)
Definition keeps (e : watch_event) : bool :=
  match e with UpdateEvent o n => bool_decide (view (Some o) = view (Some n)) | _ => false end.

Fixpoint due (h : list watch_event) (k : ObjectKey) : bool :=
  match h with
  | [] => false
  | e :: h' => if bool_decide (event_key e = k) then passes p e || (keeps e && due h' k) else due h' k
  end.

(** An event that passes is not handled yet, or the key is tracked. *)
Definition key_tracked (s : sys) (k : ObjectKey) : Prop :=
  (exists e, e ∈ s_notify s /\ passes p e = true /\ k ∈ event_keys e) \/
  tracked (s_pool s) k (fresh (s_store s !! k)).

Lemma notify_pool s e es :
  s_pool (notify s e es) = enqueue (s_pool s) (if passes p e then event_keys e else []).
Proof. unfold notify, enqueue, on_event. by destruct (passes p e). Qed.

Definition all_tracked (s : sys) : Prop := forall k, due (s_history s) k = true -> key_tracked s k.

Lemma all_tracked_observe s e : tells (s_store s) e -> all_tracked s -> all_tracked (observe s e).
Proof.
  intros Htell Hall k. cbn [observe s_history due]. case_bool_decide as Hk.
  - destruct (passes p e) eqn:Hp; simpl.
    { intros _. left. exists e. split_and!; [set_solver|done|by eapply tells_keys]. }
    intros [Hv Hd]%andb_true_iff. destruct e as [o|o n|o|o]; try done. simpl in Hk, Hv, Htell. apply bool_decide_eq_true in Hv.
    destruct Htell as [Ho Hkey]. destruct (Hall k Hd) as [(e & He & ?)|Ht]; [left; exists e; set_solver|right].
    revert Ht. apply tracked_weaken. intros [|e tr]; [done|]. cbn [observe s_store changed]. simpl. rewrite Hk, lookup_insert_eq, <- Hv.
    rewrite <- Hkey, Hk in Ho. by rewrite Ho.
  - intros Hd. destruct (Hall k Hd) as [(e' & He & ?)|Ht]; [left; exists e'; set_solver|right].
    cbn [observe s_store s_pool]. by rewrite changed_other.
Qed.

Lemma sync_tracked_step s s' :
  exclusive (Reconcile proto ctl ctx) retried (s_pool s) -> all_tracked s -> step s s' -> all_tracked s'.
Proof.
  intros Hex Hall [e He|e es Hn|w Hw].
  - by apply all_tracked_observe.
  - intros k Hd. destruct (Hall k Hd) as [(e' & He' & Hp & Hk)|Ht].
    + rewrite Hn in He'. apply elem_of_cons in He' as [->|He']; [right|left; exists e'; set_solver].
      rewrite notify_pool, Hp. apply (tracked_enqueue _ _ _ _ _ _ Hex). by left.
    + right. rewrite notify_pool. apply (tracked_enqueue _ _ _ _ _ _ Hex). by right.
  - intros k Hd. destruct (Hall k Hd) as [?|Ht]; [by left|right].
    eapply tracked_step; [done| |exact Hex|exact Hw|exact Ht]. intros. by eapply fresh_call.
Qed.

Lemma sync_invariants n s :
  reachable n s -> exclusive (Reconcile proto ctl ctx) retried (s_pool s) /\ all_tracked s.
Proof.
  intros Hr. pattern s. revert s Hr. apply rtc_ind_r; [split; [apply exclusive_start|done]|].
  intros s s' _ Hs (H1 & H2). split; [|by eapply sync_tracked_step].
  destruct Hs as [e He|e es Hn|w Hw]; cbn [observe with_pool s_pool]; [done|rewrite notify_pool; auto|eauto].
Qed.

(** When nothing is left to do, a key that was due has been reconciled, with
    success, in a state that looks like the present one. *)
Lemma due_handled n s k :
  reachable n s -> s_notify s = [] -> quiet (s_pool s) -> due (s_history s) k = true ->
  exists rc o, last_of (s_pool s) k = Some rc /\ handled k (rc_calls rc) o /\ view o = view (s_store s !! k).
Proof.
  intros (Hex & Hall)%sync_invariants Hn Hq Hd. destruct (Hall k Hd) as [(e & He & _)|Ht].
  { rewrite Hn in He. by apply elem_of_nil in He. }
  destruct (quiet_settled _ _ _ _ _ Hex Hq Ht) as (rc & Hrc & <- & Hf & Hran & Hok).
  destruct (Reconcile_handled _ _ _ Hran Hok) as (o & Hh). exists rc, o. split_and!; [done..|].
  destruct Hh as (e & tr' & Htr & Hs & _). rewrite Htr in Hf. by eapply Hf.
Qed.
End controller.

(** ** Deletions *)

Section deletions.
Context (c : Client) (ctx : Ctx).

Definition present (o : option ObjectMeta) : bool := if o then true else false.

(** The last event about a key. *)
Definition last_event (h : list watch_event) (k : ObjectKey) : option watch_event :=
  List.find (fun e => bool_decide (event_key e = k)) h.

(** What becomes of a key without an object in the store. *)
Lemma deletion_due {P} `{Predicate P} (p : P) h k o :
  last_event h k = Some (DeleteEvent o) -> passes p (DeleteEvent o) = true -> due p present h k = true.
Proof.
  intros Hl Hp. induction h as [|e h IH]; [done|]. unfold last_event in Hl. cbn [due List.find] in *.
  case_bool_decide; [|auto]. by simplify_eq; rewrite Hp.
Qed.

Lemma deletion_absent {P} `{Predicate P} (p : P) proto ctl n s k o :
  reachable p proto ctl ctx n s -> last_event (s_history s) k = Some (DeleteEvent o) -> s_store s !! k = None.
Proof.
  intros Hr. pattern s. revert s Hr. apply rtc_ind_r; [done|]. intros s s' _ [e He|e es Hn|w Hw] IH; cbn; [|done..].
  unfold last_event. cbn [List.find]. case_bool_decide as Hk; [|intros; rewrite changed_other; auto].
  intros [= ->]. cbn in *. by rewrite Hk, lookup_delete_eq.
Qed.

(** A deletion that was accepted, or that came too late. *)
Definition removed (e : event) : Prop :=
  let '(existT cl r) := e in
  match cl return ret cl -> Prop with
  | CP_DeleteNode _ _ _ | CP_DeleteNamespace _ _ _ =>
      fun r => r.2 = None \/ exists resp, r.1.2 = Some resp /\ StatusCode resp = 404%Z
  | _ => fun _ => False
  end r.

(** A listing did not have the name, or the object with that name was deleted. *)
Definition gone {A} (name_of : A -> string) (lists : event -> list A -> Prop) (del : A -> call)
    (name : string) (tr : trace) : Prop :=
  exists e l, e ∈ tr /\ lists e l /\
  match find_by_name name_of l name with
  | None => True
  | Some x => exists e', e' ∈ tr /\ projT1 e' = del x /\ removed e'
  end.

Definition node_gone : string -> trace -> Prop :=
  gone n_Name lists_nodes (fun x => CP_DeleteNode (AddToken c ctx) (n_Id x) (n_Version x)).

Definition namespace_gone : string -> trace -> Prop :=
  gone ns_Name lists_namespaces (fun x => CP_DeleteNamespace (AddToken c ctx) (ns_Id x) (ns_Version x)).

Lemma foreign_not_sentinel e resp x : foreign_error e -> err_is (map_api_error e resp) x = false.
Proof. intros H%(foreign_map_api_error _ resp). by destruct (map_api_error e resp). Qed.

(** Close a leaf of a delete run that returned no error. *)
Ltac gone_leaf :=
  rewrite ?Forall_cons_iff; intros Hf Ho; destruct_and?; simplify_eq; unfold foreign in *; simpl in *;
  try (by rewrite foreign_not_sentinel in * by done);
  do 2 eexists; (split; [left|]); (split; [by eexists _, _|]);
  match goal with H : find_by_name _ _ _ = _ |- _ => rewrite H end; try done;
  eexists; (split; [right; left|]); (split; [done|]); simpl; auto;
  right; eexists; (split; [done|]);
  match goal with H : err_is _ _ = true |- _ => revert H end;
  unfold node_delete_error, namespace_delete_error; repeat (case_match; try done);
  rewrite ?Z.eqb_eq in *; try done; by rewrite foreign_not_sentinel.

Lemma NodeDelete_Delete_gone obj :
  every_run (NodeDelete.Delete c ctx obj) (fun tr o =>
    Forall foreign tr -> o = Done None -> node_gone (om_Name (obj_meta obj)) tr).
Proof. unfold NodeDelete.Delete, DeleteNode, timed, getNodeByKey, observeErr. run_steps; simpl; gone_leaf. Qed.

Lemma NamespaceDelete_Delete_gone obj :
  every_run (NamespaceDelete.Delete c ctx obj) (fun tr o =>
    Forall foreign tr -> o = Done None -> namespace_gone (om_Name (obj_meta obj)) tr).
Proof. unfold NamespaceDelete.Delete, DeleteNamespace, timed, getNamespace, observeErr. run_steps; simpl; gone_leaf. Qed.

(** The last successful reconciliation of a deleted object was after it was
    gone, and consisted of [Delete]. *)
Lemma deletion_handled {P} `{Predicate P} (p : P) proto `{Reads proto} ctl n s k o Q :
  reachable p proto ctl ctx n s -> s_notify s = [] -> quiet (s_pool s) ->
  last_event (s_history s) k = Some (DeleteEvent o) -> passes p (DeleteEvent o) = true ->
  every_run (Toolkit.Delete ctl ctx (new_instance proto k)) (fun tr o => Forall foreign tr -> o = Done None -> Q tr) ->
  exists rc e tr, last_of (s_pool s) k = Some rc /\ rc_calls rc = e :: tr /\ seen e = Some (k, None) /\
    (Forall foreign tr -> Q tr).
Proof.
  intros Hr Hn Hq Hl Ho HQ. pose proof (deletion_absent _ _ _ _ _ _ _ Hr Hl) as Habs.
  destruct (due_handled _ _ _ _ present _ _ k Hr Hn Hq (deletion_due _ _ _ _ Hl Ho)) as (rc & o' & Hrc & Hh & Hv).
  rewrite Habs in Hv. destruct o' as [?|]; [done|]. destruct Hh as (e & tr & Htr & Hs & Hran).
  exists rc, e, tr. split_and!; [done..|]. intros Hf. exact (ran_done _ _ _ _ Hran HQ Hf eq_refl).
Qed.

(** C5. No deletion of a node is lost, under every interleaving of the
    informer, the event handler and the workers, and for every answer of the
    control plane: when no event and no key waits and no worker is busy, every
    StorageOS node whose last event was its deletion has been reconciled after
    it was gone, with success, and the node of that name is gone from
    StorageOS. *)
Theorem node_deletion_not_lost n s k o :
  reachable (NodeDeletePredicate zero_funcs) NodeDelete.prototype (NodeDelete.controller c) ctx n s ->
  s_notify s = [] -> quiet (s_pool s) ->
  last_event (s_history s) k = Some (DeleteEvent o) -> (IsStorageOSNode o).1 = true ->
  exists rc e tr, last_of (s_pool s) k = Some rc /\ rc_calls rc = e :: tr /\ seen e = Some (k, None) /\
    (Forall foreign tr -> node_gone (k_name k) tr).
Proof.
  intros Hr Hn Hq Hl Ho. apply (deletion_handled _ _ _ n s k o _ Hr Hn Hq Hl Ho). apply NodeDelete_Delete_gone.
Qed.

(** The same of the deletion of any namespace. *)
Theorem namespace_deletion_not_lost n s k o :
  reachable (NsDeletePredicate zero_funcs) NamespaceDelete.prototype (NamespaceDelete.controller c) ctx n s ->
  s_notify s = [] -> quiet (s_pool s) -> last_event (s_history s) k = Some (DeleteEvent o) ->
  exists rc e tr, last_of (s_pool s) k = Some rc /\ rc_calls rc = e :: tr /\ seen e = Some (k, None) /\
    (Forall foreign tr -> namespace_gone (k_name k) tr).
Proof.
  intros Hr Hn Hq Hl. apply (deletion_handled _ _ _ n s k o _ Hr Hn Hq Hl eq_refl). apply NamespaceDelete_Delete_gone.
Qed.
End deletions.

(** ** Labels *)

Section labels.
Context {P : Type} `{Predicate P} (p : P) (relevant : ObjectMeta -> bool).
Context (quick : forall o n, passes p (UpdateEvent o n) = false ->
  relevant o = true -> relevant n = true -> om_Labels o = om_Labels n).

(** What a label controller is about: the key, whether the object is one of
    StorageOS, and its labels. *)
Definition labelled (o : option ObjectMeta) : option (ObjectKey * bool * gomap) :=
  match o with Some m => Some (meta_key m, relevant m, om_Labels m) | None => None end.

(** The version in which the object became one of StorageOS. *)
Fixpoint baseline (h : list watch_event) (k : ObjectKey) : option ObjectMeta :=
  match h with
  | [] => None
  | e :: h' =>
      if bool_decide (event_key e = k) then
        match e with
        | CreateEvent o => if relevant o then Some o else None
        | UpdateEvent o n => if relevant n then (if relevant o then baseline h' k else Some n) else None
        | _ => None
        end
      else baseline h' k
  end.

(** An object of StorageOS is due, or has the labels it started with. *)
Definition labels_known (s : sys) : Prop :=
  forall k m, s_store s !! k = Some m -> meta_key m = k /\
    (relevant m = true -> exists b, baseline (s_history s) k = Some b /\
       (due p labelled (s_history s) k = true \/ om_Labels b = om_Labels m)).

Lemma labels_known_observe s e : tells (s_store s) e -> labels_known s -> labels_known (observe s e).
Proof.
  intros Htell Hall k m Hm. cbn [observe s_store s_history baseline due] in *.
  case_bool_decide as Hk; [|rewrite changed_other in Hm by done; auto].
  destruct e as [o|o n|o|o]; cbn [event_key changed tells] in *; subst k; [..|done].
  - rewrite lookup_insert_eq in Hm. simplify_eq. split; [done|]. intros ->. eauto.
  - rewrite lookup_insert_eq in Hm. simplify_eq. destruct Htell as [Ho Hkey]. split; [done|]. intros Hrel. rewrite Hrel.
    destruct (relevant o) eqn:Hrel'; [|eauto]. rewrite <- Hkey in Ho.
    destruct (Hall _ _ Ho) as [_ (b & Hb & Hd)]; [done|]. exists b. split; [done|].
    destruct (passes p (UpdateEvent o m)) eqn:Hp; [by left|]. pose proof (quick _ _ Hp Hrel' Hrel) as Hlab. simpl.
    destruct Hd as [Hd|Hd]; [left|right; congruence]. rewrite Hd, andb_true_r. apply bool_decide_eq_true.
    by rewrite Hrel, Hrel', Hlab, Hkey.
  - by rewrite lookup_delete_eq in Hm.
Qed.

Context (proto : Prototype) `{Reads proto} (ctl : SyncController) (ctx : Ctx).

Lemma reachable_labels n s : reachable p proto ctl ctx n s -> labels_known s.
Proof.
  intros Hr. pattern s. revert s Hr. apply rtc_ind_r; [intros k m; cbn [start s_store]; by rewrite lookup_empty|].
  intros s s' _ [e He|e es Hn|w Hw] IH; [by apply labels_known_observe|done..].
Qed.

(** When nothing is left to do, an object whose labels have changed was
    reconciled with the labels it has. *)
Lemma labels_handled n s k m b :
  reachable p proto ctl ctx n s -> s_notify s = [] -> quiet (s_pool s) ->
  s_store s !! k = Some m -> relevant m = true ->
  baseline (s_history s) k = Some b -> om_Labels b <> om_Labels m ->
  exists rc e tr obj, last_of (s_pool s) k = Some rc /\ rc_calls rc = e :: tr /\
    obj_key obj = k /\ om_Labels (obj_meta obj) = om_Labels m /\ seen e = Some (k, Some (obj_meta obj)) /\
    ran (Toolkit.Ensure ctl ctx obj) tr (Ret None).
Proof.
  intros Hr Hn Hq Hm Hrel Hb Hne. destruct (reachable_labels _ _ Hr _ _ Hm) as (Hkey & Hdue).
  destruct (Hdue Hrel) as (b' & Hb' & [Hd|Hl]); [|congruence].
  destruct (due_handled p proto ctl ctx labelled _ _ k Hr Hn Hq Hd) as (rc & o & Hrc & Hh & Hv).
  rewrite Hm in Hv. destruct o as [m'|]; [|done]. destruct Hh as (e & tr & Htr & Hs & obj & <- & Hran).
  simpl in Hv. simplify_eq. exists rc, e, tr, obj. split_and!; [done|done| |congruence|done|done]. unfold obj_key, meta_key. congruence.
Qed.
End labels.

Lemma nodelabel_quick o n :
  passes (NodeLabelPredicate zero_funcs) (UpdateEvent o n) = false ->
  (IsStorageOSNode o).1 = true -> (IsStorageOSNode n).1 = true -> om_Labels o = om_Labels n.
Proof.
  simpl. unfold NodeLabel.Predicate_Update. intros Hp Ho Hn. rewrite Ho, Hn in Hp. simpl in Hp. unfold deep_equal in Hp.
  by case_bool_decide.
Qed.

Lemma pvclabel_quick o n :
  passes (PVCLabelPredicate zero_funcs) (UpdateEvent o n) = false ->
  HasStorageOSAnnotation o = true -> HasStorageOSAnnotation n = true -> om_Labels o = om_Labels n.
Proof.
  simpl. unfold PVCLabel.Predicate_Update. intros Hp Ho Hn. rewrite Hn in Hp. simpl in Hp. unfold deep_equal in Hp.
  by case_bool_decide.
Qed.

Section label_controllers.
Context `{GoRange} (c : Client) (ctx : Ctx).

(** C24. No change of the labels of a node is lost, under every interleaving of
    the informer, the event handler and the workers: when no event and no key
    waits and no worker is busy, a StorageOS node whose labels differ from those
    it had when it became one was last reconciled with the labels it has now,
    and that reconciliation reported success.  So it read the node with these
    labels, and then, in two parts, each with its own listing of the nodes,
    made the compute-only change and the label update that bring the node that
    part found to these labels, in the version that part read (none if it found
    none).  If no error of the control plane is a sentinel or a collection of
    this program, no label was in error and the control plane accepted every
    change it made. *)
Theorem node_label_change_not_lost n s k m b :
  reachable (NodeLabelPredicate zero_funcs) NodeDelete.prototype (NodeLabel.controller c) ctx n s ->
  s_notify s = [] -> quiet (s_pool s) ->
  s_store s !! k = Some m -> (IsStorageOSNode m).1 = true ->
  baseline (fun o => (IsStorageOSNode o).1) (s_history s) k = Some b -> om_Labels b <> om_Labels m ->
  exists rc e tr m', last_of (s_pool s) k = Some rc /\ rc_calls rc = e :: tr /\
    seen e = Some (k, Some m') /\ om_Labels m' = om_Labels m /\
    node_sync_run (AddToken c ctx) k (gm_map (om_Labels m)) tr None /\
    (Forall foreign tr -> node_labels_valid (gm_map (om_Labels m)) /\ Forall succeeded tr).
Proof.
  intros Hr Hn Hq Hm Hrel Hb Hne.
  destruct (labels_handled _ _ nodelabel_quick _ _ _ n s k m b Hr Hn Hq Hm Hrel Hb Hne)
    as (rc & e & tr & obj & Hrc & Htr & Hkey & Hlab & Hs & Hran).
  destruct (ran_done _ _ _ _ Hran (EnsureNodeLabels_run c ctx (obj_key obj) (om_Labels (obj_meta obj)))) as (r & [= <-] & Hdid).
  rewrite Hkey, Hlab in Hdid. exists rc, e, tr, (obj_meta obj). split_and!; [done..|].
  intros Hf. destruct Hdid as (tr1 & tr2 & x1 & x2 & _ & _ & _ & Hres). destruct (Hres Hf) as [[Hv (_ & _ & Hok)] _]; done.
Qed.

(** The same of claims: the last reconciliation of a claim whose labels have
    changed since it carries the annotation of StorageOS was a successful
    [Ensure] of the claim with the labels it has now. *)
Theorem claim_label_change_not_lost n s k m b :
  reachable (PVCLabelPredicate zero_funcs) PVCLabel.prototype (PVCLabel.controller c) ctx n s ->
  s_notify s = [] -> quiet (s_pool s) ->
  s_store s !! k = Some m -> HasStorageOSAnnotation m = true ->
  baseline HasStorageOSAnnotation (s_history s) k = Some b -> om_Labels b <> om_Labels m ->
  exists rc e tr obj, last_of (s_pool s) k = Some rc /\ rc_calls rc = e :: tr /\
    obj_key obj = k /\ om_Labels (obj_meta obj) = om_Labels m /\
    ran (PVCLabel.Ensure c ctx (PVCLabel.claim_of obj)) tr (Ret None).
Proof.
  intros Hr Hn Hq Hm Hrel Hb Hne.
  destruct (labels_handled _ _ pvclabel_quick _ _ _ n s k m b Hr Hn Hq Hm Hrel Hb Hne)
    as (rc & e & tr & obj & Hrc & Htr & Hkey & Hlab & _ & Hran). eauto 10.
Qed.
End label_controllers.

(** ** Witnesses *)

(** A worker makes the calls of a run. *)
Lemma worker_runs {P} `{Predicate P} (p : P) proto ctl ctx s i k q0 tr q :
  p_workers (s_pool s) !! i = Some (Running k q0 []) -> ran q0 tr q ->
  (forall e, head tr = Some e -> answered (s_store s) [] e) ->
  rtc (step p proto ctl ctx) s (with_pool s (set_worker (s_pool s) i (Running k q tr))).
Proof.
  intros Hi Hr Ha. induction Hr as [|tr q e q' Hr IH Hm].
  - unfold set_worker. rewrite list_insert_id by done. by destruct s as [? ? ? []].
  - eapply rtc_r; [apply IH; destruct tr; [done|exact Ha]|].
    pose proof (step_pool p proto ctl ctx (with_pool s (set_worker (s_pool s) i (Running k q tr)))) as Hstep.
    unfold with_pool in *. cbn [s_store s_history s_notify s_pool] in *.
    eapply eq_ind; [eapply Hstep, (step_call _ _ _ _ i k q tr e q'); [|done|]|].
    + cbn. apply list_lookup_insert_eq. by eapply lookup_lt_Some.
    + intros ->. apply Ha; [by simpl|done].
    + unfold set_worker. cbn. by rewrite list_insert_insert_eq.
Qed.

(** The only worker takes the only key and finishes. *)
Lemma worker_completes {P} `{Predicate P} (p : P) proto `{Reads proto} ctl ctx (h : handler unit) s k r :
  s_pool s = Pool (Queue [k] {[k]} ∅ false) ∅ [Idle] [] ->
  exec_result h (Reconcile proto ctl ctx k) tt = Done r -> retried r = false ->
  answered (s_store s) [] (existT (get_call k) (h (get_call k) tt).1) ->
  rtc (step p proto ctl ctx) s (with_pool s (Pool NewQueue ∅ [Idle]
    [{| rc_key := k; rc_calls := exec_trace h (Reconcile proto ctl ctx k) tt; rc_result := r |}])).
Proof.
  intros Hs Hr Hok Hans.
  assert (Ha : forall e, head (exec_trace h (Reconcile proto ctl ctx k) tt) = Some e -> answered (s_store s) [] e).
  { intros e. unfold Reconcile, exec_trace. rewrite client_Get_call. cbn. destruct (h (get_call k) tt) as [r' w'].
    destruct (exec _ _ w') as [[? ?] ?]. by intros [= <-]. }
  destruct s as [m hist es w]. cbn in Hs, Ha. subst w. unfold with_pool. cbn [s_store s_history s_notify].
  assert (Hq : {[k]} ∖ {[k]} =@{gset ObjectKey} ∅) by set_solver.
  eapply rtc_l. { apply step_pool, (step_get _ _ _ _ 0 k (Queue [] ∅ {[k]} false)); [done|]. cbn. by rewrite Hq, (right_id_L ∅ (∪)). }
  eapply (@transitivity _ (rtc _) _). { eapply (worker_runs p proto ctl ctx _ 0); [done|by apply (ran_exec h)|exact Ha]. }
  eapply rtc_l. { apply step_pool, (step_finish _ _ _ _ 0). reflexivity. }
  eapply rtc_l. { apply step_pool, (step_done _ _ _ _ 0). unfold reconcileHandler. by rewrite Hok. }
  unfold reconcileHandler, with_pool. rewrite Hok. cbn. unfold Workqueue.Done. cbn. rewrite decide_False by set_solver.
  rewrite Hq. apply rtc_refl.
Qed.

(** A node called [node1], in the versions of the example. *)
Definition node1 (ls : gomap) : ObjectMeta := set_key (example_node ls) (Key "" "node1").

(** Kubernetes has the node with these labels, or none; StorageOS has it. *)
Definition k8s_handler (o : option ObjectMeta) : handler unit := fun cl w =>
  (match cl return ret cl with
   | K_GetNode _ => match o with Some m => inl {| kn_meta := m |} | None => inr (K8sError StatusReasonNotFound "node1") end
   | CP_ListNodes _ => ([NodeLabels.example_node], None, None)
   | cl' => plain_answer cl'
   end, w).

(** The node is created and labelled, and the event is handled. *)
Definition example_changed (e : watch_event) (m : store) : sys :=
  Sys m [e; CreateEvent (node1 None)] [] (Pool (Queue [Key "" "node1"] {[Key "" "node1"]} ∅ false) ∅ [Idle] []).

Lemma example_changed_reachable {P} `{Predicate P} (p : P) proto ctl e :
  tells {[Key "" "node1" := node1 None]} e -> event_keys e = [Key "" "node1"] \/ event_keys e = [Key "" "node1"; Key "" "node1"] ->
  passes p (CreateEvent (node1 None)) = false -> passes p e = true ->
  reachable p proto ctl background 1 (example_changed e (changed {[Key "" "node1" := node1 None]} e)).
Proof.
  intros Ht Hk Hc Hp. unfold reachable.
  assert (Hq : on_event p NewQueue e = Queue [Key "" "node1"] {[Key "" "node1"]} ∅ false).
  { unfold on_event. rewrite Hp. destruct Hk as [-> | ->]; vm_compute; reflexivity. }
  eapply rtc_l; [apply (step_observe _ _ _ _ _ (CreateEvent (node1 None))); apply lookup_empty|].
  eapply rtc_l; [by eapply step_notify|]. unfold notify at 1, on_event. rewrite Hc.
  eapply rtc_l; [apply (step_observe _ _ _ _ _ e); exact Ht|].
  eapply rtc_l; [by eapply step_notify|]. unfold notify. cbn [s_pool p_queue observe start start_workers with_queue]. rewrite Hq.
  apply rtc_refl.
Qed.

(** The witness of the deletion: the worker finds no node and deletes it in
    StorageOS. *)
Lemma node_deletion_not_lost_witness :
  exists tr, node_gone example_client background "node1" tr.
Proof.
  pose proof (example_changed_reachable (NodeDeletePredicate zero_funcs) NodeDelete.prototype
    (NodeDelete.controller example_client) (DeleteEvent (node1 None))) as Hr.
  assert (Hdone : reachable (NodeDeletePredicate zero_funcs) NodeDelete.prototype (NodeDelete.controller example_client) background 1
    (with_pool (example_changed (DeleteEvent (node1 None)) ∅) (Pool NewQueue ∅ [Idle]
      [{| rc_key := Key "" "node1"; rc_result := ({| Requeue := false |}, None);
          rc_calls := exec_trace (k8s_handler None)
            (Reconcile NodeDelete.prototype (NodeDelete.controller example_client) background (Key "" "node1")) tt |}]))).
  { eapply (@transitivity _ (rtc _) _); [apply Hr; try (vm_compute; reflexivity); left; reflexivity|].
    apply (worker_completes _ _ _ _ (k8s_handler None)); [reflexivity..|]. intros _ k o [= <- <-]. reflexivity. }
  destruct (node_deletion_not_lost example_client background 1 _ (Key "" "node1") (node1 None) Hdone)
    as (rc & e & tr & [= <-] & [= <- <-] & _ & Hgone); [reflexivity| |reflexivity|vm_compute; reflexivity|].
  - repeat split; by repeat constructor.
  - eexists. apply Hgone. repeat constructor.
Defined.

(** The witness of the change of a label. *)
Definition relabelled : gomap := Some {[ ReservedLabelComputeOnly := "0"; "zone" := "b" ]}.

Lemma node_label_change_not_lost_witness :
  exists tr, length (mutations tr) = 2 /\ node_sync_run (AddToken example_client background) (Key "" "node1") (gm_map relabelled) tr None /\
    Forall succeeded tr.
Proof.
  pose proof (example_changed_reachable (NodeLabelPredicate zero_funcs) NodeDelete.prototype
    (NodeLabel.controller (H := range_default) example_client) (UpdateEvent (node1 None) (node1 relabelled))) as Hr.
  assert (Hdone : reachable (NodeLabelPredicate zero_funcs) NodeDelete.prototype (NodeLabel.controller (H := range_default) example_client) background 1
    (with_pool (example_changed (UpdateEvent (node1 None) (node1 relabelled)) {[Key "" "node1" := node1 relabelled]}) (Pool NewQueue ∅ [Idle]
      [{| rc_key := Key "" "node1"; rc_result := ({| Requeue := false |}, None);
          rc_calls := exec_trace (k8s_handler (Some (node1 relabelled)))
            (Reconcile NodeDelete.prototype (NodeLabel.controller (H := range_default) example_client) background (Key "" "node1")) tt |}]))).
  { eapply (@transitivity _ (rtc _) _).
    - apply Hr; [by split; [apply lookup_singleton_eq|]|right; reflexivity|reflexivity|vm_compute; reflexivity].
    - apply (worker_completes _ _ _ _ (k8s_handler (Some (node1 relabelled)))); [reflexivity|vm_compute; reflexivity|reflexivity|]. intros _ k o [= <- <-]. reflexivity. }
  destruct (node_label_change_not_lost (H := range_default) example_client background 1 _ (Key "" "node1") (node1 relabelled) (node1 None) Hdone)
    as (rc & e & tr & m' & [= <-] & Htr & _ & _ & Hdid & Hok);
    [reflexivity| |reflexivity|vm_compute; reflexivity|vm_compute; reflexivity|vm_compute; discriminate|].
  - repeat split; by repeat constructor.
  - vm_compute in Htr. injection Htr as _ <-. eexists. split; [|split; [exact Hdid|apply Hok; repeat constructor]]. vm_compute. reflexivity.
Defined.
