(* ===== verification/Url.v ===== *)
(** * Endpoints and constructors of the client ([client.go])

    [url.Parse] of [net/url] (Go 1.16) as far as the client uses its result,
    and the functions that build a client from an endpoint: [New],
    [NewTracedClient], [newAuthenticatedClient]. *)

From Stdlib Require Import NArith ZArith Lia.
From S2P Require Import Prelude GoLib Json Errors Types Effects Client Auth.

(** ** Bytes *)

Definition byte_in (lo hi : ascii) (c : ascii) : bool := ((N_of_ascii lo <=? N_of_ascii c) && (N_of_ascii c <=? N_of_ascii hi))%N.

Definition is_letter (c : ascii) : bool := byte_in "a" "z" c || byte_in "A" "Z" c.
Definition is_digit (c : ascii) : bool := byte_in "0" "9" c.
Definition one_of (s : string) (c : ascii) : bool := has_byte (bytes_of s) c.

Definition to_lower (c : ascii) : ascii := if byte_in "A" "Z" c then ascii_of_N (N_of_ascii c + 32) else c.

(** The value of a hexadecimal digit. *)
Definition unhex (c : ascii) : option N :=
  let n := N_of_ascii c in
  if is_digit c then Some (n - 48)%N
  else if byte_in "a" "f" c then Some (n - 97 + 10)%N
  else if byte_in "A" "F" c then Some (n - 65 + 10)%N
  else None.

(** [split(s, sep, true)]: what is before and after the first separator. *)
Definition cut (l : list ascii) (sep : ascii) : list ascii * list ascii :=
  match index_byte l sep with Some i => (take i l, drop (S i) l) | None => (l, []) end.

(** [strings.Index]. *)
Fixpoint index_of (l sub : list ascii) : option nat :=
  if bool_decide (take (length sub) l = sub) then Some O
  else match l with [] => None | _ :: l' => S <$> index_of l' sub end.

(** ** Percent encoding *)

Inductive encoding := encodePath | encodeHost | encodeZone | encodeUserPassword | encodeFragment.

Definition in_host (mode : encoding) : bool := match mode with encodeHost | encodeZone => true | _ => false end.

(** [shouldEscape] for a byte of a host or a zone. *)
Definition shouldEscape_host (c : ascii) : bool :=
  negb (is_letter c || is_digit c || one_of "!$&'()*+,;=:[]<>" c || bool_decide (N_of_ascii c = 34%N) || one_of "-_.~" c).

(** Whether the escape of the byte [v], written with the digits [a] and [b],
    may occur: in a host only bytes above 127 and the percent sign. *)
Definition escape_allowed (mode : encoding) (a b : ascii) (hi lo : N) : bool :=
  let percent := Ascii.eqb a "2" && Ascii.eqb b "5" in
  let v := ascii_of_N (hi * 16 + lo) in
  match mode with
  | encodeHost => negb (hi <? 8)%N || percent
  | encodeZone => percent || Ascii.eqb v " " || negb (shouldEscape_host v)
  | _ => true
  end.

Definition EscapeError (l : list ascii) : error := Text ("invalid URL escape " +:+ of_bytes (take 3 l)).
Definition InvalidHostError (c : ascii) : error := Text ("invalid character " +:+ of_bytes [c] +:+ " in host name").

Fixpoint unescape (mode : encoding) (l : list ascii) : list ascii + error :=
  match l with
  | [] => inl []
  | c :: l' =>
      if Ascii.eqb c "%" then
        match l' with
        | a :: b :: l'' =>
            match unhex a, unhex b with
            | Some hi, Some lo =>
                if escape_allowed mode a b hi lo then
                  match unescape mode l'' with inl r => inl (ascii_of_N (hi * 16 + lo) :: r) | inr e => inr e end
                else inr (EscapeError l)
            | _, _ => inr (EscapeError l)
            end
        | _ => inr (EscapeError l)
        end
      else if in_host mode && (N_of_ascii c <? 128)%N && shouldEscape_host c then inr (InvalidHostError c)
      else match unescape mode l' with inl r => inl (c :: r) | inr e => inr e end
  end.

(** ** [url.Parse] *)

(** The fields the client reads. *)
Record URL := { u_Scheme : string; u_Host : string }.

(** The scheme and the rest; no scheme when another byte comes first. *)
Fixpoint getscheme_go (l acc : list ascii) : option (list ascii * list ascii) + error :=
  match l with
  | [] => inl None
  | c :: l' =>
      if is_letter c then getscheme_go l' (c :: acc)
      else if is_digit c || one_of "+-." c then
        match acc with [] => inl None | _ => getscheme_go l' (c :: acc) end
      else if Ascii.eqb c ":" then
        match acc with [] => inr (Text "missing protocol scheme") | _ => inl (Some (rev acc, l')) end
      else inl None
  end.

Definition getscheme (l : list ascii) : (list ascii * list ascii) + error :=
  match getscheme_go l [] with
  | inr e => inr e
  | inl None => inl ([], l)
  | inl (Some p) => inl p
  end.

Definition validOptionalPort (port : list ascii) : bool :=
  match port with
  | [] => true
  | c :: digits => Ascii.eqb c ":" && forallb is_digit digits
  end.

Definition validUserinfo (l : list ascii) : bool :=
  forallb (fun c => is_letter c || is_digit c || one_of "-._:~!$&'()*+,;=%@" c) l.

Definition bad_port (port : list ascii) : error := Text ("invalid port " +:+ of_bytes port +:+ " after host").

Definition parseHost (host : list ascii) : list ascii + error :=
  match host with
  | "["%char :: _ =>
      match last_byte host "]" with
      | None => inr (Text "missing ']' in host")
      | Some i =>
          let colonPort := drop (S i) host in
          if negb (validOptionalPort colonPort) then inr (bad_port colonPort)
          else match index_of (take i host) (bytes_of "%25") with
               | Some zone =>
                   match unescape encodeHost (take zone host), unescape encodeZone (drop zone (take i host)),
                         unescape encodeHost (drop i host) with
                   | inl host1, inl host2, inl host3 => inl (host1 ++ host2 ++ host3)
                   | inr e, _, _ | _, inr e, _ | _, _, inr e => inr e
                   end
               | None => unescape encodeHost host
               end
      end
  | _ =>
      match last_byte host ":" with
      | Some i =>
          let colonPort := drop i host in
          if negb (validOptionalPort colonPort) then inr (bad_port colonPort) else unescape encodeHost host
      | None => unescape encodeHost host
      end
  end.

(** The user is checked and left out. *)
Definition parseAuthority (authority : list ascii) : list ascii + error :=
  match last_byte authority "@" with
  | None => parseHost authority
  | Some i =>
      match parseHost (drop (S i) authority) with
      | inr e => inr e
      | inl host =>
          let userinfo := take i authority in
          if negb (validUserinfo userinfo) then inr (Text "net/url: invalid userinfo")
          else
            let '(username, password) := cut userinfo ":" in
            match unescape encodeUserPassword username, unescape encodeUserPassword password with
            | inl _, inl _ => inl host
            | inr e, _ | _, inr e => inr e
            end
      end
  end.

Definition is_ctl (c : ascii) : bool := (N_of_ascii c <? 32)%N || (N_of_ascii c =? 127)%N.

(** What is left of the rest without its query. *)
Definition strip_query (rest : list ascii) : list ascii := (cut rest "?").1.

(** Two slashes at the start, but not three unless there is a scheme. *)
Definition has_authority (scheme rest : list ascii) : bool :=
  (bool_decide (scheme <> []) || negb (bool_decide (take 3 rest = bytes_of "///"))) && bool_decide (take 2 rest = bytes_of "//").

Definition colon_first (rest : list ascii) : bool :=
  match index_byte rest ":" with
  | None => false
  | Some colon => match index_byte rest "/" with None => true | Some slash => bool_decide (colon < slash) end
  end.

Definition parse (rawurl : list ascii) : URL + error :=
  if existsb is_ctl rawurl then inr (Text "net/url: invalid control character in URL")
  else if bool_decide (rawurl = bytes_of "*") then inl {| u_Scheme := ""; u_Host := "" |}
  else
    match getscheme rawurl with
    | inr e => inr e
    | inl (scheme0, rest0) =>
        let scheme := map to_lower scheme0 in
        let rest := strip_query rest0 in
        let rooted := bool_decide (take 1 rest = bytes_of "/") in
        if negb rooted && bool_decide (scheme <> []) then inl {| u_Scheme := of_bytes scheme; u_Host := "" |}
        else if negb rooted && colon_first rest then inr (Text "first path segment in URL cannot contain colon")
        else
          let '(authority, path) :=
            if has_authority scheme rest then
              match index_byte (drop 2 rest) "/" with
              | Some i => (Some (take i (drop 2 rest)), drop i (drop 2 rest))
              | None => (Some (drop 2 rest), [])
              end
            else (None, rest) in
          match match authority with Some a => parseAuthority a | None => inl [] end with
          | inr e => inr e
          | inl host =>
              match unescape encodePath path with
              | inr e => inr e
              | inl _ => inl {| u_Scheme := of_bytes scheme; u_Host := of_bytes host |}
              end
          end
    end.

(** The error is a [*url.Error], which keeps its cause. *)
Definition url_Parse (rawurl : string) : URL + error :=
  let '(u, frag) := cut (bytes_of rawurl) "#" in
  match parse u with
  | inr e => inr (Wrap e ("parse " +:+ of_bytes u))
  | inl url =>
      match unescape encodeFragment frag with
      | inr e => inr (Wrap e ("parse " +:+ rawurl))
      | inl _ => inl url
      end
  end.

(** ** client.go *)

Definition DefaultPort : Z := 5705.
Definition DefaultScheme : string := "http".

(** The part of the [api.Configuration] that is set from the endpoint. *)
Record Configuration := { cfg_Scheme : string; cfg_Host : string }.

Definition endpoint_config (endpoint : string) : Configuration + error :=
  let endpoint := if Contains endpoint "://" then endpoint else DefaultScheme +:+ "://" +:+ endpoint in
  match url_Parse endpoint with
  | inr e => inr e
  | inl u =>
      inl {| cfg_Scheme := u_Scheme u;
             cfg_Host := if Contains (u_Host u) ":" then u_Host u else u_Host u +:+ ":" +:+ Itoa DefaultPort |}
  end.

Definition newAuthenticatedClient (username password endpoint : string) : prog (Ctx * Configuration + error) :=
  match endpoint_config endpoint with
  | inr e => mret (inr e)
  | inl config => try (Authenticate username password) (fun ctx => mret (inl (ctx, config)))
  end.

(** The client and the server its requests go to. *)
Definition New (username password endpoint : string) : prog (Client * Configuration + error) :=
  try (newAuthenticatedClient username password endpoint) (fun r =>
  mret (inl ({| c_ctx := r.1; c_traced := false |}, r.2))).

(** ** Endpoints that are a host, with or without a scheme and a port *)

(** The bytes of host names, addresses and ports. *)
Definition authority_char (c : ascii) : bool := is_letter c || is_digit c || one_of "-_.~:[]" c.
Definition host_char (c : ascii) : bool := is_letter c || is_digit c || one_of "-_.~" c.

Lemma host_authority c : host_char c = true -> authority_char c = true.
Proof.
  unfold host_char, authority_char. rewrite !orb_true_iff. intros [H|H]; [by left|right].
  by destruct c as [[] [] [] [] [] [] [] []].
Qed.

(** A byte that is not of a class does not occur among bytes of the class. *)
Lemma index_byte_none (P : ascii -> bool) l b :
  P b = false -> Forall (fun c => P c = true) l -> index_byte l b = None.
Proof.
  intros Hb. induction 1 as [|c l Hc _ IH]; [done|]. simpl. destruct (Ascii.eqb_spec c b) as [->|]; [congruence|by rewrite IH].
Qed.

Lemma last_byte_none (P : ascii -> bool) l b :
  P b = false -> Forall (fun c => P c = true) l -> last_byte l b = None.
Proof.
  intros Hb. induction 1 as [|c l Hc _ IH]; [done|]. simpl. rewrite IH.
  destruct (Ascii.eqb_spec c b) as [->|]; [congruence|done].
Qed.

Lemma last_byte_here l1 l2 b : last_byte l2 b = None -> last_byte (l1 ++ b :: l2) b = Some (length l1).
Proof.
  intros Hl. induction l1 as [|c l1 IH]; simpl; [by rewrite Hl, Ascii.eqb_refl|by rewrite IH].
Qed.

Lemma prefix_in (sub s : list ascii) c : String.prefix (of_bytes sub) (of_bytes s) = true -> c ∈ sub -> c ∈ s.
Proof.
  revert s. induction sub as [|a sub IH]; intros [|b s]; cbn; try done; try (intros _ Hc; by apply not_elem_of_nil in Hc).
  destruct (ascii_dec a b) as [->|]; [|done]. rewrite !elem_of_cons. intros Hp [->|Hc]; [by left|right; eauto].
Qed.

Lemma Contains_in (l : list ascii) (sub : string) c :
  Contains (of_bytes l) sub = true -> c ∈ bytes_of sub -> c ∈ l.
Proof.
  intros Hc Hin. induction l as [|a l IH]; cbn [of_bytes String.string_of_list_ascii Contains] in Hc.
  - rewrite orb_false_r in Hc. apply (prefix_in (bytes_of sub) [] c); [by rewrite of_bytes_bytes_of|done].
  - apply orb_true_iff in Hc as [Hc|Hc].
    + apply (prefix_in (bytes_of sub) (a :: l) c); [by rewrite of_bytes_bytes_of|done].
    + right. auto.
Qed.

Lemma Contains_none (P : ascii -> bool) l sub b :
  P b = false -> Forall (fun c => P c = true) l -> b ∈ bytes_of sub -> Contains (of_bytes l) sub = false.
Proof.
  intros Hb Hl Hin. destruct (Contains (of_bytes l) sub) eqn:E; [|done].
  apply (Contains_in _ _ b) in E; [|done]. apply list_elem_of_In in E.
  rewrite List.Forall_forall in Hl. rewrite (Hl _ E) in Hb. done.
Qed.

Lemma Contains_byte l1 l2 (b : ascii) : Contains (of_bytes (l1 ++ b :: l2)) (String b "") = true.
Proof.
  induction l1 as [|c l1 IH]; cbn [app of_bytes String.string_of_list_ascii Contains].
  - apply orb_true_iff. left. cbn. destruct (ascii_dec b b); [by destruct l2|done].
  - apply orb_true_iff. right. exact IH.
Qed.

Lemma Contains_app s1 s2 sub : String.prefix sub s2 = true -> Contains (s1 +:+ s2) sub = true.
Proof.
  intros Hp. induction s1 as [|c s1 IH].
  - change ("" +:+ s2) with s2. destruct s2; cbn [Contains]; by rewrite Hp.
  - change (String c s1 +:+ s2) with (String c (s1 +:+ s2)). cbn [Contains]. by rewrite IH, orb_true_r.
Qed.

(** Nothing of an authority is escaped. *)
Lemma authority_char_plain c :
  authority_char c = true -> Ascii.eqb c "%" = false /\ shouldEscape_host c = false /\ is_ctl c = false.
Proof. destruct c as [[] [] [] [] [] [] [] []]; by vm_compute. Qed.

Lemma unescape_plain l : Forall (fun c => authority_char c = true) l -> unescape encodeHost l = inl l.
Proof.
  induction 1 as [|c l Hc _ IH]; [done|]. destruct (authority_char_plain c Hc) as (H1 & H2 & _).
  cbn [unescape]. by rewrite H1, H2, andb_false_r, IH.
Qed.

Lemma no_ctl l : Forall (fun c => authority_char c = true) l -> existsb is_ctl l = false.
Proof.
  induction 1 as [|c l Hc _ IH]; [done|]. simpl. destruct (authority_char_plain c Hc) as (_ & _ & H). by rewrite H, IH.
Qed.

Definition plain_scheme (scheme : string) : Prop := scheme = "http" \/ scheme = "https".

(** The URL of a plain authority: only the host is left to parse. *)
Lemma url_Parse_plain scheme l :
  plain_scheme scheme -> Forall (fun c => authority_char c = true) l ->
  url_Parse (scheme +:+ "://" +:+ of_bytes l) =
  match parseHost l with
  | inl host => inl {| u_Scheme := scheme; u_Host := of_bytes host |}
  | inr e => inr (Wrap e ("parse " +:+ scheme +:+ "://" +:+ of_bytes l))
  end.
Proof.
  intros Hs Hl. unfold url_Parse. rewrite !bytes_of_app, bytes_of_of_bytes.
  assert (Hno : forall b, authority_char b = false -> index_byte l b = None) by (intros; by eapply index_byte_none).
  assert (Hp : parse (bytes_of scheme ++ bytes_of "://" ++ l) =
    match parseHost l with inl host => inl {| u_Scheme := scheme; u_Host := of_bytes host |} | inr e => inr e end).
  { unfold parse. rewrite existsb_app. rewrite existsb_app. rewrite (no_ctl l Hl).
    assert (Hrest : strip_query ("/"%char :: "/"%char :: l) = "/"%char :: "/"%char :: l)
      by (unfold strip_query, cut; simpl; by rewrite (Hno "?"%char)).
    assert (Ha : parseAuthority l = parseHost l).
    { unfold parseAuthority. by rewrite (last_byte_none authority_char _ "@"%char eq_refl Hl). }
    destruct Hs as [-> | ->]; simpl; rewrite Hrest; simpl; rewrite drop_0, (Hno "/"%char eq_refl); simpl; rewrite Ha;
      by destruct (parseHost l). }
  assert (Hcut : cut (bytes_of scheme ++ bytes_of "://" ++ l) "#" = (bytes_of scheme ++ bytes_of "://" ++ l, [])).
  { unfold cut. destruct Hs as [-> | ->]; simpl; by rewrite (Hno "#"%char eq_refl). }
  rewrite Hcut, Hp. destruct (parseHost l); [done|]. f_equal. f_equal. f_equal.
  rewrite <- (of_bytes_bytes_of (scheme +:+ "://" +:+ of_bytes l)). by rewrite !bytes_of_app, bytes_of_of_bytes.
Qed.

(** A port: nothing, or a colon and digits. *)
Definition port_suffix (l : list ascii) : Prop := l = [] \/ exists ds, l = ":"%char :: ds /\ Forall (fun c => is_digit c = true) ds.

(** A scheme in front of the authority: nothing, or one of the two. *)
Definition scheme_prefix (prefix scheme : string) : Prop :=
  prefix = "" /\ scheme = DefaultScheme \/ plain_scheme scheme /\ prefix = scheme +:+ "://".

Lemma digit_host c : is_digit c = true -> host_char c = true.
Proof. unfold host_char. intros ->. by rewrite orb_true_r. Qed.

(** The endpoint is completed with the default scheme exactly when it has none. *)
Lemma endpoint_config_plain prefix scheme l host :
  scheme_prefix prefix scheme -> Forall (fun c => authority_char c = true) l -> parseHost l = inl host ->
  endpoint_config (prefix +:+ of_bytes l) =
  inl {| cfg_Scheme := scheme;
         cfg_Host := if Contains (of_bytes host) ":" then of_bytes host else of_bytes host +:+ ":" +:+ Itoa DefaultPort |}.
Proof.
  intros Hp Hl Hh. unfold endpoint_config.
  replace (if Contains (prefix +:+ of_bytes l) "://" then prefix +:+ of_bytes l
           else DefaultScheme +:+ "://" +:+ prefix +:+ of_bytes l) with (scheme +:+ "://" +:+ of_bytes l).
  - rewrite url_Parse_plain, Hh; [done|destruct Hp as [[_ ->]|[? _]]; [by left|done]|done].
  - destruct Hp as [[-> ->]|[Hs ->]].
    + change ("" +:+ of_bytes l) with (of_bytes l).
      rewrite (Contains_none authority_char l "://" "/"%char); [done|done|done|by right; left].
    + replace ((scheme +:+ "://") +:+ of_bytes l) with (scheme +:+ "://" +:+ of_bytes l) by (by destruct Hs as [-> | ->]).
      rewrite Contains_app; [done|]. cbn. by destruct (of_bytes l).
Qed.

Lemma parseHost_name h p :
  Forall (fun c => host_char c = true) h -> port_suffix p -> parseHost (h ++ p) = inl (h ++ p).
Proof.
  intros Hh Hp.
  assert (Hd : forall ds, Forall (fun c => is_digit c = true) ds -> Forall (fun c => host_char c = true) ds).
  { intros ds Hds. eapply Forall_impl; [|exact Hds]. apply digit_host. }
  assert (Ha : Forall (fun c => authority_char c = true) (h ++ p)).
  { apply Forall_app. split; [eapply Forall_impl; [|exact Hh]; apply host_authority|].
    destruct Hp as [->|(ds & -> & Hds)]; [constructor|]. constructor; [done|].
    eapply Forall_impl; [|apply (Hd _ Hds)]. apply host_authority. }
  assert (Hb : forall l', h ++ p <> "["%char :: l').
  { intros l' He. destruct h as [|c h].
    - destruct Hp as [->|(ds & -> & _)]; simplify_eq/=.
    - apply Forall_cons_iff in Hh as [Hc _]. simplify_eq/=. }
  unfold parseHost. pose proof (unescape_plain _ Ha) as Hu.
  assert (Hmain : match last_byte (h ++ p) ":" with
    | Some i => if negb (validOptionalPort (drop i (h ++ p))) then inr (bad_port (drop i (h ++ p))) else unescape encodeHost (h ++ p)
    | None => unescape encodeHost (h ++ p) end = inl (h ++ p)).
  { destruct Hp as [->|(ds & -> & Hds)].
    - rewrite app_nil_r in *. by rewrite (last_byte_none host_char _ ":"%char eq_refl Hh).
    - rewrite last_byte_here by (apply (last_byte_none host_char); [done|by apply Hd]).
      rewrite drop_app_length. cbn [validOptionalPort]. rewrite Ascii.eqb_refl.
      rewrite (proj2 (List.forallb_forall _ _)); [done|]. by apply List.Forall_forall. }
  destruct (h ++ p) as [|c l] eqn:E; [done|].
  destruct (Ascii.eqb_spec c "[") as [->|Hne]; [by destruct (Hb l)|].
  clear -Hmain Hne. destruct c as [[] [] [] [] [] [] [] []]; try exact Hmain. by destruct Hne.
Qed.

(** The authority of a literal of version 6: brackets around hexadecimal digits,
    dots and colons. *)
Definition v6_char (c : ascii) : bool := is_digit c || byte_in "a" "f" c || byte_in "A" "F" c || one_of ":." c.

Lemma v6_authority c : v6_char c = true -> authority_char c = true.
Proof. destruct c as [[] [] [] [] [] [] [] []]; by vm_compute. Qed.

Lemma index_of_none l c sub : c ∉ l -> index_of l (c :: sub) = None.
Proof.
  induction l as [|a l IH]; intros Hc; [done|]. apply not_elem_of_cons in Hc as [Hne Hc]. cbn [index_of length take].
  rewrite bool_decide_eq_false_2 by congruence. by rewrite IH.
Qed.

Lemma parseHost_v6 l : Forall (fun c => v6_char c = true) l ->
  parseHost ("["%char :: l ++ ["]"%char]) = inl ("["%char :: l ++ ["]"%char]).
Proof.
  intros Hl. assert (Ha : Forall (fun c => authority_char c = true) ("["%char :: l ++ ["]"%char])).
  { constructor; [done|]. apply Forall_app. split; [|by constructor]. eapply Forall_impl; [|exact Hl]. apply v6_authority. }
  unfold parseHost. rewrite (last_byte_here ("["%char :: l) [] "]"%char eq_refl : last_byte ("["%char :: l ++ ["]"%char]) "]" = _).
  rewrite drop_ge by (simpl; rewrite length_app; simpl; lia). cbn [validOptionalPort negb].
  change (bytes_of "%25") with ("%"%char :: bytes_of "25"). rewrite index_of_none; [by apply unescape_plain|].
  intros Hin%list_elem_of_In. eapply (proj1 (List.Forall_forall _ _)) in Hin; [|apply Forall_take, Ha]. discriminate Hin.
Qed.

(** The server a client talks to: an endpoint that is a host name or an
    IPv4 address, with or without a scheme and with or without a port, is
    configured with its own scheme and port, and with [http] and port 5705
    where it has none. *)
Theorem endpoint_config_host prefix scheme h p :
  scheme_prefix prefix scheme -> Forall (fun c => host_char c = true) (bytes_of h) -> port_suffix (bytes_of p) ->
  endpoint_config (prefix +:+ h +:+ p) =
  inl {| cfg_Scheme := scheme; cfg_Host := h +:+ (if bool_decide (p = "") then ":5705" else p) |}.
Proof.
  intros Hs Hh Hp. assert (Ha : Forall (fun c => authority_char c = true) (bytes_of h ++ bytes_of p)).
  { apply Forall_app. split; [eapply Forall_impl; [|exact Hh]; apply host_authority|].
    destruct Hp as [->|(ds & -> & Hds)]; [constructor|]. constructor; [done|].
    eapply Forall_impl; [|exact Hds]. intros c Hc. by apply host_authority, digit_host. }
  pose proof (endpoint_config_plain prefix scheme _ _ Hs Ha (parseHost_name _ _ Hh Hp)) as H.
  rewrite <- bytes_of_app, of_bytes_bytes_of in H. rewrite H. f_equal. f_equal. destruct Hp as [Hp|(ds & Hp & Hds)].
  - assert (p = "") as -> by (rewrite <- (of_bytes_bytes_of p), Hp; done).
    rewrite bool_decide_eq_true_2 by done.
    assert (He : h +:+ "" = h) by (rewrite <- (of_bytes_bytes_of (h +:+ "")), bytes_of_app, app_nil_r; apply of_bytes_bytes_of).
    assert (HC : Contains h ":" = false).
    { rewrite <- (of_bytes_bytes_of h). apply (Contains_none host_char _ _ ":"%char); [done|done|by left]. }
    rewrite He, HC. reflexivity.
  - rewrite bool_decide_eq_false_2 by (intros ->; done).
    assert (HC : Contains (h +:+ p) ":" = true).
    { rewrite <- (of_bytes_bytes_of (h +:+ p)), bytes_of_app, Hp. apply Contains_byte. }
    by rewrite HC.
Qed.

Lemma endpoint_config_host_witness :
  endpoint_config ("https://" +:+ "storageos.kube-system" +:+ ":443") =
  inl {| cfg_Scheme := "https"; cfg_Host := "storageos.kube-system:443" |}.
Proof.
  rewrite (endpoint_config_host "https://" "https" "storageos.kube-system" ":443"); [reflexivity|..].
  - right. split; [by right|reflexivity].
  - repeat constructor.
  - right. exists (bytes_of "443"). split; [reflexivity|]. repeat constructor.
Defined.

(** An endpoint that is an IPv6 literal without a port is configured
    without the default port: the colons of the address are taken for one. *)
Theorem endpoint_config_v6 prefix scheme l :
  scheme_prefix prefix scheme -> Forall (fun c => v6_char c = true) (bytes_of l) -> Contains l ":" = true ->
  endpoint_config (prefix +:+ "[" +:+ l +:+ "]") = inl {| cfg_Scheme := scheme; cfg_Host := "[" +:+ l +:+ "]" |}.
Proof.
  intros Hs Hl Hc. assert (Ha : Forall (fun c => authority_char c = true) (bytes_of ("[" +:+ l +:+ "]"))).
  { rewrite !bytes_of_app. constructor; [done|]. apply Forall_app. split; [|by constructor].
    eapply Forall_impl; [|exact Hl]. apply v6_authority. }
  pose proof (parseHost_v6 _ Hl) as Hh. change ("["%char :: bytes_of l ++ ["]"%char]) with (bytes_of "[" ++ bytes_of l ++ bytes_of "]") in Hh.
  rewrite <- !bytes_of_app in Hh. pose proof (endpoint_config_plain prefix scheme _ _ Hs Ha Hh) as H.
  rewrite of_bytes_bytes_of in H. rewrite H. f_equal. f_equal.
  assert (Hin : ":"%char ∈ bytes_of l) by (apply (Contains_in _ ":"); [by rewrite of_bytes_bytes_of|by left]).
  apply list_elem_of_split in Hin as (l1 & l2 & Hsplit).
  assert (HC : Contains ("[" +:+ l +:+ "]") ":" = true); [|by rewrite HC].
  rewrite <- (of_bytes_bytes_of ("[" +:+ l +:+ "]")), !bytes_of_app, Hsplit.
  replace (bytes_of "[" ++ (l1 ++ ":"%char :: l2) ++ bytes_of "]") with ((bytes_of "[" ++ l1) ++ ":"%char :: l2 ++ bytes_of "]")
    by (by rewrite <- !app_assoc).
  apply Contains_byte.
Qed.

Lemma endpoint_config_v6_witness :
  endpoint_config "http://[fd00::1]" = inl {| cfg_Scheme := "http"; cfg_Host := "[fd00::1]" |}.
Proof.
  apply (endpoint_config_v6 "http://" "http" "fd00::1"); [right; split; [by left|reflexivity]|repeat constructor|reflexivity].
Defined.
