(* ===== verification/Metrics.v ===== *)
(** * The metrics of the client ([internal/pkg/storageos/metrics])

    [metrics.go]: the two vectors the API helpers update, through the adapters
    of the interfaces [LatencyMetric] and [ResultMetric].  [transport.go]: the
    collectors of the instrumented HTTP transport and their registration.
    Then: what each helper of the client reports of itself. *)

From Stdlib Require Import NArith ZArith Lia.
From S2P Require Import Prelude GoLib Json Errors Types Effects Labels Client LabelSync NodeLabels VolumeLabels SharedVolume.

(** ** The registry *)

(** A collector is identified by the order of its creation; the registry knows
    the collectors by the name of their metric.  Each [sync.Once] is a flag. *)
Record registry := Registry {
  registered : gmap string nat;
  next_collector : nat;
  registerMetricsOnce : bool;
  registerTransportMetrics : bool;
  registerSharedVolumeMetrics : bool;   (* [registerMetricsOnce] of the shared volume reconciler *)
}.

Definition helper_latency_name : string := "storageos_api_helper_duration_seconds".
Definition helper_result_name : string := "storageos_api_helper_total".
Definition in_flight_name : string := "storageos_api_in_flight_requests".
Definition requests_name : string := "storageos_api_requests_total".
Definition request_duration_name : string := "storageos_api_request_duration_seconds".
Definition reconcile_duration_name : string := "storageos_shared_volume_reconcile_duration_seconds".

(** The package variables are created when the program starts. *)
Definition helperLatencyHistogram : nat := 0.
Definition helperResultCounter : nat := 1.
Definition reconcileLatencyHistogram : nat := 2.
Definition initial_registry : registry := Registry ∅ 3 false false false.

(** A second registration of a name panics. *)
Definition MustRegister (g : registry) (name : string) (collector : nat) : prog registry :=
  match registered g !! name with
  | Some _ => Panic "duplicate metrics collector registration attempted"
  | None => mret (Registry (<[name := collector]> (registered g)) (next_collector g)
                    (registerMetricsOnce g) (registerTransportMetrics g) (registerSharedVolumeMetrics g))
  end.

Definition RegisterMetrics (g : registry) : prog registry :=
  if registerMetricsOnce g then mret g
  else
    g ← MustRegister g helper_latency_name helperLatencyHistogram;
    g ← MustRegister g helper_result_name helperResultCounter;
    mret (Registry (registered g) (next_collector g) true (registerTransportMetrics g) (registerSharedVolumeMetrics g)).

(** [RegisterMetrics] of the shared volume reconciler. *)
Definition SharedVolume_RegisterMetrics (g : registry) : prog registry :=
  if registerSharedVolumeMetrics g then mret g
  else
    g ← MustRegister g reconcile_duration_name reconcileLatencyHistogram;
    mret (Registry (registered g) (next_collector g) (registerMetricsOnce g) (registerTransportMetrics g) true).

(** The collectors a transport updates. *)
Record transport := { t_inFlight : nat; t_counter : nat; t_duration : nat }.

(** New collectors on every call, registered on the first one only. *)
Definition InstrumentedTransport (g : registry) : prog (registry * transport) :=
  let n := next_collector g in
  let t := {| t_inFlight := n; t_counter := n + 1; t_duration := n + 2 |} in
  let g := Registry (registered g) (n + 3) (registerMetricsOnce g) (registerTransportMetrics g) (registerSharedVolumeMetrics g) in
  if registerTransportMetrics g then mret (g, t)
  else
    g ← MustRegister g requests_name (t_counter t);
    g ← MustRegister g request_duration_name (t_duration t);
    g ← MustRegister g in_flight_name (t_inFlight t);
    mret (Registry (registered g) (next_collector g) (registerMetricsOnce g) true (registerSharedVolumeMetrics g), t).

(** The requests of a transport show up in what is scraped. *)
Definition exported (g : registry) (t : transport) : Prop :=
  registered g !! requests_name = Some (t_counter t) /\
  registered g !! request_duration_name = Some (t_duration t) /\
  registered g !! in_flight_name = Some (t_inFlight t).

(** ** The adapters *)

(** The two vectors, counts by label values, and the histogram of the rounds of
    the shared volume reconciler. *)
Record vectors := Vectors { latencies : gmap string N; results : gmap (string * string) N; rounds : N }.

Definition bump {K} `{Countable K} (k : K) (m : gmap K N) : gmap K N := <[k := (default 0 (m !! k) + 1)%N]> m.

Section adapters.
(** The [Error] method of error values. *)
Context (Error : error -> string).

(** The observed duration only decides on the bucket. *)
Definition Observe (v : vectors) (function : string) : vectors := Vectors (bump function (latencies v)) (results v) (rounds v).

Definition Increment (v : vectors) (function : string) (err : option error) : vectors :=
  Vectors (latencies v) (bump (function, match err with None => "" | Some e => Error e end) (results v)) (rounds v).

(** [Observe] of the shared volume reconciler. *)
Definition SharedVolume_Observe (v : vectors) : vectors := Vectors (latencies v) (results v) (rounds v + 1).

(** The vectors after a run. *)
Definition record (v : vectors) (e : event) : vectors :=
  match projT1 e with
  | M_Increment function err => Increment v function err
  | M_Observe function => Observe v function
  | M_ObserveReconcile => SharedVolume_Observe v
  | _ => v
  end.

Definition collected (tr : trace) : vectors := foldl record (Vectors ∅ ∅ 0) tr.
End adapters.

(** ** What a run reports of one helper *)

Definition increment_of (name : string) (c : call) : option (option error) :=
  match c with M_Increment f e => if bool_decide (f = name) then Some e else None | _ => None end.

Definition increments (name : string) (tr : trace) : list (option error) := omap (increment_of name) (map projT1 tr).

Definition is_observation (name : string) (c : call) : bool :=
  match c with M_Observe f => bool_decide (f = name) | _ => false end.

Definition observations (name : string) (tr : trace) : nat := length (List.filter (is_observation name) (map projT1 tr)).

Lemma increments_app name tr1 tr2 : increments name (tr1 ++ tr2) = increments name tr1 ++ increments name tr2.
Proof. unfold increments. by rewrite map_app, omap_app. Qed.

Lemma observations_app name tr1 tr2 : observations name (tr1 ++ tr2) = observations name tr1 + observations name tr2.
Proof. unfold observations. by rewrite map_app, List.filter_app, length_app. Qed.

Lemma lookup_bump {K} `{Countable K} (k k' : K) (m : gmap K N) :
  default 0%N (bump k m !! k') = (default 0 (m !! k') + (if bool_decide (k = k') then 1 else 0))%N.
Proof.
  unfold bump. case_bool_decide as Hk; [subst; by rewrite lookup_insert_eq|]. rewrite lookup_insert_ne by done. lia.
Qed.

(** The vectors are the numbers of reports: by function, and by function and
    error text. *)
Lemma collected_counts Error tr name text :
  default 0%N (latencies (collected Error tr) !! name) = N.of_nat (observations name tr) /\
  default 0%N (results (collected Error tr) !! (name, text)) =
    N.of_nat (length (List.filter (fun e => bool_decide (match e with None => "" | Some e => Error e end = text)) (increments name tr))).
Proof.
  unfold collected. induction tr as [|e tr [IH1 IH2]] using rev_ind; [done|].
  rewrite foldl_app, observations_app, increments_app, List.filter_app, length_app. cbn [foldl].
  set (v := foldl (record Error) (Vectors ∅ ∅ 0) tr) in *. destruct e as [c r]. unfold observations at 2, increments at 2.
  cbn [map projT1 List.filter omap list_omap]. unfold record. cbn [projT1]. destruct c; cbn [is_observation increment_of length List.filter latencies results Increment Observe SharedVolume_Observe];
    try (rewrite IH1, IH2; split; lia).
  - rewrite lookup_bump, IH1, IH2. split; [lia|]. case_bool_decide as Hf.
    + simplify_eq. rewrite bool_decide_eq_true_2 by done. cbn [List.filter]. rewrite bool_decide_eq_true_2 by done. simpl length. lia.
    + case_bool_decide; [|simpl length; lia]. cbn [List.filter]. case_bool_decide; [|simpl length; lia]. destruct Hf. congruence.
  - rewrite lookup_bump, IH1, IH2. split; [|lia]. case_bool_decide; simpl length; lia.
Qed.

(** ** The helpers of the client *)

(** A helper with the error of its result.  Some helpers return failures
    without counting them. *)
Record helper := Helper {
  h_name : string; h_type : Type; h_body : prog h_type; h_error : h_type -> option error; h_skips : bool;
}.

Definition sum_error {A} (r : A + error) : option error := match r with inl _ => None | inr e => Some e end.

Section helpers.
Context `{GoRange} (c : Client) (ctx : Ctx).

Definition helpers (key : ObjectKey) (ls : gomap) (enabled : bool) (n : Z) (vol ns s : string) : list helper :=
  [Helper "list_namespaces" _ (ListNamespaces c ctx) sum_error false;
   Helper "delete_namespace" _ (DeleteNamespace c ctx key) id false;
   Helper "node_objects" _ (NodeObjects c ctx) sum_error false;
   Helper "list_nodes" _ (ListNodes c ctx) sum_error false;
   Helper "delete_node" _ (DeleteNode c ctx key) id true;
   Helper "volume_objects" _ (VolumeObjects c ctx) sum_error false;
   Helper "list_volumes" _ (ListVolumes c ctx) sum_error false;
   Helper "get_volume" _ (GetVolume c ctx key) sum_error false;
   Helper "ensure_compute_only" _ (EnsureComputeOnly c ctx key enabled) id true;
   Helper "ensure_unreserved_node_labels" _ (EnsureUnreservedNodeLabels c ctx key ls) id false;
   Helper "ensure_unreserved_volume_labels" _ (EnsureUnreservedVolumeLabels c ctx key ls) id false;
   Helper "ensure_replicas" _ (EnsureReplicas c ctx key n) id true;
   Helper "ensure_failure_mode" _ (EnsureFailureMode c ctx key s) id false;
   Helper "list_shared_volumes" _ (ListSharedVolumes c ctx) snd false;
   Helper "set_external_endpoint" _ (SetExternalEndpoint c ctx vol ns s) id false].
End helpers.

(** What is counted of a result: nothing, or the result once, as a failure
    exactly when it is one.  A failure that is not counted is one that the
    helper skips. *)
Definition counts (skips : bool) (counted : list (option error)) (result : option error) : Prop :=
  match counted with
  | [] => result = None \/ skips = true
  | [e] => e = None <-> result = None
  | _ => False
  end.

Definition measured (h : helper) : Prop :=
  every_run (h_body h) (fun tr o =>
    observations (h_name h) tr = 1 /\
    (exists tr' e, tr = tr' ++ [e] /\ projT1 e = M_Observe (h_name h)) /\
    match o with
    | Done a => Forall foreign tr -> counts (h_skips h) (increments (h_name h) tr) (h_error h a)
    | Panicked _ => True
    end).

(** A part of a helper that reports nothing of it. *)
Definition silent (name : string) {A} (p : prog A) : Prop :=
  every_run p (fun tr _ => observations name tr = 0 /\ increments name tr = []).

Lemma silent_bind name {A B} (p : prog A) (f : A -> prog B) :
  silent name p -> (forall a, silent name (f a)) -> silent name (p ≫= f).
Proof.
  intros Hp Hf. eapply every_run_seq; [exact Hp| |done]. intros tr a [H1 H2]. eapply every_run_mono; [apply Hf|].
  intros tr' o [H1' H2']. by rewrite observations_app, increments_app, H1, H2, H1', H2'.
Qed.

Lemma silent_foldM name {A B} (f : B -> A -> prog B) l b :
  (forall b a, silent name (f b a)) -> silent name (foldM f l b).
Proof. intros Hf. revert b. induction l as [|a l IH]; intros b; [done|]. by apply silent_bind. Qed.

(** The body of a helper: one count at most, and no observation of its own. *)
Definition counted_body {A} (name : string) (skips : bool) (err : A -> option error) (p : prog A) : Prop :=
  every_run p (fun tr o => observations name tr = 0 /\
    match o with Done a => Forall foreign tr -> counts skips (increments name tr) (err a) | Panicked _ => True end).

Lemma counted_after name skips {A B} (err : B -> option error) (p : prog A) (f : A -> prog B) :
  silent name p -> (forall a, counted_body name skips err (f a)) -> counted_body name skips err (p ≫= f).
Proof.
  intros Hp Hf. eapply every_run_seq; [exact Hp| |by intros tr m [? _]]. intros tr a [H1 H2]. eapply every_run_mono; [apply Hf|].
  intros tr' o [H1' H2']. rewrite observations_app, increments_app, H1, H2, H1'. split; [done|].
  destruct o; [|done]. intros [_ Hf']%Forall_app. auto.
Qed.

Lemma timed_measured h name (body : prog (h_type h)) :
  h_name h = name -> h_body h = timed name body -> counted_body name (h_skips h) (h_error h) body -> measured h.
Proof.
  intros Hn Hb Hbody. unfold measured. rewrite Hb, Hn. apply every_run_defer. eapply every_run_mono; [exact Hbody|].
  intros tr o [H1 H2] r. assert (Ho : forall e, projT1 e = M_Observe name -> observations name [e] = 1).
  { intros e He. unfold observations. simpl. rewrite He. simpl. by rewrite bool_decide_eq_true_2. }
  rewrite observations_app, increments_app, H1, Ho by done. split_and!; [done|by exists tr, (existT (M_Observe name) r)|].
  destruct o; [|done]. intros [Hf _]%Forall_app. unfold increments at 2. simpl. rewrite app_nil_r. auto.
Qed.

(** Follow a body to its ends; string comparisons are evaluated there. *)
Ltac counted_leaf :=
  repeat match goal with |- context [map_api_error ?e ?resp] => generalize (map_api_error e resp); intros ? end;
  split; [vm_compute; reflexivity|]; try done; intros _; vm_compute; try done;
  first [by left|by right|by split|idtac].
Ltac counted := unfold counted_body; run_steps; counted_leaf.

Lemma getVolumes_silent c ctx name : name <> "list_namespaces" -> silent name (getVolumes c ctx).
Proof.
  intros Hn. assert (Hn' : "list_namespaces" <> name) by congruence. apply silent_bind.
  - unfold ListNamespaces, timed, failed. apply every_run_defer. run_steps; unfold observations, increments; simpl;
      by rewrite !bool_decide_eq_false_2.
  - intros [nss|e]; [|done]. apply silent_foldM. intros [vols|e] ns; unfold silent; by run_steps.
Qed.

Lemma list_shared_counted ctx nss acc :
  counted_body "list_shared_volumes" false snd (list_shared ctx nss acc).
Proof.
  revert acc. induction nss as [|ns nss IH]; intros acc; cbn [list_shared]; [counted|].
  unfold counted_body. run_step. run_step. destruct r as [[vols resp] [e|]].
  - run_steps. split; [vm_compute; reflexivity|]. intros [He _]%Forall_cons_iff.
    apply (foreign_map_api_error _ resp) in He. clear IH. cbn [app snd].
    change (counts false [Some (map_api_error e resp)] (ErrorOrNil (Append [] (map_api_error e resp)))).
    by destruct (map_api_error e resp).
  - eapply every_run_mono; [apply IH|]. intros tr o [H1 H2]. split; [exact H1|].
    destruct o; [|done]. intros [_ Hf]%Forall_cons_iff. exact (H2 Hf).
Qed.

(** What the fifteen helpers of the client report, in every run: the
    latency exactly once and last, also when the helper panics; the result at
    most once under the name of the helper, as a failure exactly when it is
    one; and every failure is counted, except by the three helpers that skip
    some. *)
Theorem helpers_measured `{GoRange} c ctx key ls enabled n vol ns s :
  Forall measured (helpers c ctx key ls enabled n vol ns s).
Proof.
  unfold helpers. repeat apply Forall_cons; try apply Forall_nil; repeat split.
  all: eapply timed_measured; [reflexivity|reflexivity|]; cbn [h_name h_type h_body h_error h_skips].
  all: try (unfold getNamespace, getNodeByKey, getVolume, getVolumeByID, getNamespace, failed, observeErr; by counted).
  - apply counted_after; [by apply getVolumes_silent|]. unfold failed. intros [vols|e]; by counted.
  - apply counted_after; [by apply getVolumes_silent|]. unfold failed. intros [vols|e]; by counted.
  - apply counted_after; [by unfold silent; run_steps|]. intros [[nss resp] [e|]]; [by counted|apply list_shared_counted].
Qed.

(** A refused deletion of a node is a failure that is not counted. *)
Definition refusing_answer (node : Node) (c : call) : ret c :=
  match c return ret c with
  | CP_ListNodes _ => ([node], None, None)
  | CP_DeleteNode _ _ _ => (tt, Some (Response 409 ""), Some (openAPIError "in use"))
  | c => plain_answer c
  end.

Lemma delete_node_uncounted c ctx node :
  let h : handler unit := fun c u => (refusing_answer node c, u) in
  let p := DeleteNode c ctx (Key "" (n_Name node)) in
  exec_result h p tt = Done (Some (Sentinel ErrNodeInUse)) /\ increments "delete_node" (exec_trace h p tt) = [].
Proof.
  unfold exec_result, exec_trace, DeleteNode, timed, getNodeByKey, find_by_name. simpl.
  rewrite bool_decide_eq_true_2 by done. done.
Qed.

(** ** Registration never panics *)

(** What is not registered yet is free, and all collectors are old. *)
Definition registry_ok (g : registry) : Prop :=
  (forall name n, registered g !! name = Some n -> n < next_collector g) /\
  2 < next_collector g /\
  (registerMetricsOnce g = false -> registered g !! helper_latency_name = None /\ registered g !! helper_result_name = None) /\
  (registerTransportMetrics g = false -> registered g !! requests_name = None /\
     registered g !! request_duration_name = None /\ registered g !! in_flight_name = None) /\
  (registerSharedVolumeMetrics g = false -> registered g !! reconcile_duration_name = None).

Lemma initial_registry_ok : registry_ok initial_registry.
Proof. split_and!; [|simpl; lia|done|done|done]. intros name n Hn. cbn in Hn. by rewrite lookup_empty in Hn. Qed.

Lemma RegisterMetrics_ok g :
  registry_ok g ->
  exists g', RegisterMetrics g = Ret g' /\ registry_ok g' /\
    next_collector g' = next_collector g /\ registerTransportMetrics g' = registerTransportMetrics g /\
    (forall name, name <> helper_latency_name -> name <> helper_result_name -> registered g' !! name = registered g !! name).
Proof.
  intros (H1 & H2 & H3 & H4 & H5). unfold RegisterMetrics. destruct (registerMetricsOnce g) eqn:E.
  { exists g. split_and!; try done. split_and!; [done|done|by rewrite E|done|done]. }
  destruct (H3 eq_refl) as [Ha Hb]. unfold MustRegister. rewrite Ha. cbn. rewrite lookup_insert_ne, Hb by done. cbn. eexists. split; [reflexivity|].
  unfold registry_ok. cbn [registered next_collector registerMetricsOnce registerTransportMetrics registerSharedVolumeMetrics]. split_and!; try done.
  - intros name n. rewrite !lookup_insert_Some. unfold helperLatencyHistogram, helperResultCounter.
    intros [[_ <-]|[_ [[_ <-]|[_ Hn]]]]; [lia|lia|eauto].
  - intros Ht. rewrite !lookup_insert_ne by done. auto.
  - intros Ht. rewrite !lookup_insert_ne by done. auto.
  - intros name Hn1 Hn2. by rewrite !lookup_insert_ne.
Qed.

(** Nor does the registration of the shared volume reconciler. *)
Lemma SharedVolume_RegisterMetrics_ok g :
  registry_ok g -> exists g', SharedVolume_RegisterMetrics g = Ret g' /\ registry_ok g'.
Proof.
  intros (H1 & H2 & H3 & H4 & H5). unfold SharedVolume_RegisterMetrics. destruct (registerSharedVolumeMetrics g) eqn:E.
  { exists g. split; [done|]. split_and!; try done. by rewrite E. }
  unfold MustRegister. rewrite (H5 eq_refl). cbn. eexists. split; [reflexivity|].
  unfold registry_ok. cbn [registered next_collector registerMetricsOnce registerTransportMetrics registerSharedVolumeMetrics]. split_and!; try done.
  - intros name n. rewrite lookup_insert_Some. unfold reconcileLatencyHistogram. intros [[_ <-]|[_ Hn]]; [lia|eauto].
  - intros Ht. rewrite !lookup_insert_ne by done. auto.
  - intros Ht. rewrite !lookup_insert_ne by done. auto.
Qed.

(** The collectors of a new transport are exported if no transport was
    registered before, and otherwise they never are. *)
Lemma InstrumentedTransport_ok g :
  registry_ok g ->
  exists g' t, InstrumentedTransport g = Ret (g', t) /\ registry_ok g' /\ registerTransportMetrics g' = true /\
    next_collector g' = next_collector g + 3 /\ next_collector g < t_counter t /\
    (registerTransportMetrics g = false -> exported g' t) /\
    (registerTransportMetrics g = true -> registered g' = registered g /\ ~ exported g' t).
Proof.
  intros (H1 & H2 & H3 & H4 & H5). unfold InstrumentedTransport. destruct (registerTransportMetrics g) eqn:E; cbn [registerTransportMetrics].
  - eexists _, _. split; [reflexivity|]. unfold registry_ok, exported. cbn.
    split_and!; try done; try lia. { intros name n Hn%H1. lia. }
    intros _. split; [done|]. intros (Hn & _). apply H1 in Hn. lia.
  - destruct (H4 eq_refl) as (Ha & Hb & Hc). unfold MustRegister. cbn. rewrite Ha. cbn.
    rewrite lookup_insert_ne, Hb by done. cbn. rewrite !lookup_insert_ne, Hc by done. cbn.
    eexists _, _. split; [reflexivity|]. unfold registry_ok, exported. cbn. split_and!; try done; try lia.
    + intros name n. rewrite !lookup_insert_Some. intros [[_ <-]|[_ [[_ <-]|[_ [[_ <-]|[_ Hn%H1]]]]]]; lia.
    + intros Hm. rewrite !lookup_insert_ne by done. auto.
    + intros Hm. rewrite !lookup_insert_ne by done. auto.
    + intros _. split_and!; by simplify_map_eq.
Qed.
