(* ===== verification/Setup.v ===== *)
(** * How the controllers are set up

    [NewReconciler] and [SetupWithManager] of the six reconcilers
    ([controllers/*/reconciler.go], [internal/controllers/sharedvolume]), with
    what they use of the operator toolkit: the options and [Init] of the
    [sync/v1], [external-object-sync/v1], [metadata-sync/v1] and
    [stateless-action/v1] reconcilers, and the functions that run in the
    background ([sync/v1/syncfunc.go]) with the times at which they run. *)

From Stdlib Require Import ZArith Lia.
From S2P Require Import Prelude GoLib Json Errors Types Effects Labels Client LabelSync NodeLabels VolumeLabels Toolkit Provisioner DeleteControllers LabelControllers Fencer Cache SharedVolume SharedVolumeController Metrics.

#[local] Open Scope Z_scope.

(** ** Functions in the background: [syncfunc.go] *)

Definition defaultStartupSyncDelay : Z := 10 * 1000000000.
Definition zeroDuration : Z := 0.

Record SyncFunc := { sf_f : prog unit; sf_period : Z; sf_startupSyncDelay : Z }.

Definition NewSyncFunc (f : prog unit) (p d : Z) : SyncFunc :=
  {| sf_f := f; sf_period := p;
     sf_startupSyncDelay := if d =? zeroDuration then defaultStartupSyncDelay else d |}.

(** [Run], in the time it is called at: when the function is called, given how
    long each call takes.  A ticker keeps at most one tick for its reader, and
    drops the others: [taken] ticks have passed at the last receipt of one. *)
Fixpoint tick_calls (period created taken now : Z) (durations : list Z) : list Z :=
  match durations with
  | [] => []
  | d :: durations' =>
      let fired := (now - created) / period in
      if taken <? fired then now :: tick_calls period created fired (now + d) durations'
      else
        let tick := created + (fired + 1) * period in
        tick :: tick_calls period created (fired + 1) (tick + d) durations'
  end.

Definition Run (sf : SyncFunc) (now : Z) (durations : list Z) : list Z :=
  match durations with
  | [] => []
  | d :: durations' =>
      let first := now + Z.max 0 (sf_startupSyncDelay sf) in
      first :: tick_calls (sf_period sf) (first + d) 0 (first + d) durations'
  end.

(** ** The base reconciler: [sync/v1/sync.go] *)

Module Sync.
Record Reconciler := { Name : string; Ctrlr : option SyncController; Proto : option Prototype; SyncFuncs : list SyncFunc }.

Definition zero : Reconciler := {| Name := ""; Ctrlr := None; Proto := None; SyncFuncs := [] |}.

Definition ReconcilerOption : Type := Reconciler -> Reconciler.

Definition WithName (name : string) : ReconcilerOption := fun s =>
  {| Name := name; Ctrlr := Ctrlr s; Proto := Proto s; SyncFuncs := SyncFuncs s |}.

Definition WithSyncFuncs (sf : list SyncFunc) : ReconcilerOption := fun s =>
  {| Name := Name s; Ctrlr := Ctrlr s; Proto := Proto s; SyncFuncs := sf |}.

Definition RunSyncFuncs (s : Reconciler) : prog unit :=
  foldM (fun _ sf => Call (Setup (GoSyncFunc (Name s) (sf_period sf) (sf_startupSyncDelay sf)))) (SyncFuncs s) tt.

(** The options are applied in order, then the functions are started. *)
Definition Init (s : Reconciler) (ctrlr : SyncController) (proto : Prototype) (opts : list ReconcilerOption)
  : prog (Reconciler * option error) :=
  let s := {| Name := Name s; Ctrlr := Some ctrlr; Proto := Some proto; SyncFuncs := SyncFuncs s |} in
  let s := foldl (fun s opt => opt s) s opts in
  _ ← RunSyncFuncs s;
  mret (s, None).
End Sync.

(** ** [external-object-sync/v1/sync.go] *)

Module ObjectSync.
Record Reconciler := { base : Sync.Reconciler; garbageCollectionPeriod : Z; startupGarbageCollectionDelay : Z }.

Definition zero : Reconciler := {| base := Sync.zero; garbageCollectionPeriod := 0; startupGarbageCollectionDelay := 0 |}.

Definition SetGarbageCollectionPeriod (s : Reconciler) (period : Z) : Reconciler :=
  {| base := base s; garbageCollectionPeriod := period; startupGarbageCollectionDelay := startupGarbageCollectionDelay s |}.

Definition SetStartupGarbageCollectionDelay (s : Reconciler) (period : Z) : Reconciler :=
  {| base := base s; garbageCollectionPeriod := garbageCollectionPeriod s; startupGarbageCollectionDelay := period |}.

Definition Init (s : Reconciler) (ctrlr : SyncController) (List : Ctx -> prog (list ObjectKey + error))
    (proto : Prototype) (opts : list Sync.ReconcilerOption) : prog (Reconciler * option error) :=
  let opts :=
    if zeroDuration <? garbageCollectionPeriod s then
      let sf := NewSyncFunc (collectGarbage proto ctrlr List) (garbageCollectionPeriod s) (startupGarbageCollectionDelay s) in
      opts ++ [Sync.WithSyncFuncs [sf]]
    else opts in
  '(b, err) ← Sync.Init (base s) ctrlr proto opts;
  mret ({| base := b; garbageCollectionPeriod := garbageCollectionPeriod s;
           startupGarbageCollectionDelay := startupGarbageCollectionDelay s |}, err).
End ObjectSync.

(** ** [metadata-sync/v1/sync.go] *)

Module MetadataSync.
Record Reconciler := { base : Sync.Reconciler; resyncPeriod : Z; startupSyncDelay : Z }.

Definition zero : Reconciler := {| base := Sync.zero; resyncPeriod := 0; startupSyncDelay := 0 |}.

Definition SetResyncPeriod (s : Reconciler) (period : Z) : Reconciler :=
  {| base := base s; resyncPeriod := period; startupSyncDelay := startupSyncDelay s |}.

Definition SetStartupSyncDelay (s : Reconciler) (period : Z) : Reconciler :=
  {| base := base s; resyncPeriod := resyncPeriod s; startupSyncDelay := period |}.

Definition Init (s : Reconciler) (ctrlr : SyncController)
    (Diff : Ctx -> list client_object -> prog (list client_object + error))
    (proto : Prototype) (opts : list Sync.ReconcilerOption) : prog (Reconciler * option error) :=
  let opts :=
    if zeroDuration <? resyncPeriod s then
      let sf := NewSyncFunc (resync proto ctrlr Diff) (resyncPeriod s) (startupSyncDelay s) in
      opts ++ [Sync.WithSyncFuncs [sf]]
    else opts in
  '(b, err) ← Sync.Init (base s) ctrlr proto opts;
  mret ({| base := b; resyncPeriod := resyncPeriod s; startupSyncDelay := startupSyncDelay s |}, err).
End MetadataSync.

(** [ctrl.NewControllerManagedBy(mgr).WithOptions(...).For(...).Complete(r)]:
    a controller is named after the kind it is for. *)
Definition managed (kind : string) (workers : Z) : prog (option error) := Call (Setup (CompleteController kind workers)).

(** ** The four synchronising controllers *)

Module nodedelete.
Record Reconciler := { api : Client; gcDelay : Z; gcInterval : Z; embedded : ObjectSync.Reconciler }.

Definition NewReconciler (api : Client) (gcDelay gcInterval : Z) : Reconciler :=
  {| api := api; gcDelay := gcDelay; gcInterval := gcInterval; embedded := ObjectSync.zero |}.

Definition SetupWithManager (r : Reconciler) (workers : Z) : prog (Reconciler * option error) :=
  let s := ObjectSync.SetStartupGarbageCollectionDelay (embedded r) (gcDelay r) in
  let s := ObjectSync.SetGarbageCollectionPeriod s (gcInterval r) in
  '(s, err) ← ObjectSync.Init s (NodeDelete.controller (api r)) (NodeDelete.List (api r)) NodeDelete.prototype
    [Sync.WithName "node-delete"];
  let r := {| api := api r; gcDelay := gcDelay r; gcInterval := gcInterval r; embedded := s |} in
  match err with
  | Some e => mret (r, Some (Wrap e "failed to create new reconciler"))
  | None => err ← managed "node" workers; mret (r, err)
  end.
End nodedelete.

Module nsdelete.
Record Reconciler := { api : Client; gcDelay : Z; gcInterval : Z; embedded : ObjectSync.Reconciler }.

Definition NewReconciler (api : Client) (gcDelay gcInterval : Z) : Reconciler :=
  {| api := api; gcDelay := gcDelay; gcInterval := gcInterval; embedded := ObjectSync.zero |}.

Definition SetupWithManager (r : Reconciler) (workers : Z) : prog (Reconciler * option error) :=
  let s := ObjectSync.SetStartupGarbageCollectionDelay (embedded r) (gcDelay r) in
  let s := ObjectSync.SetGarbageCollectionPeriod s (gcInterval r) in
  '(s, err) ← ObjectSync.Init s (NamespaceDelete.controller (api r)) (NamespaceDelete.List (api r)) NamespaceDelete.prototype
    [Sync.WithName "ns-delete"];
  let r := {| api := api r; gcDelay := gcDelay r; gcInterval := gcInterval r; embedded := s |} in
  match err with
  | Some e => mret (r, Some (Wrap e "failed to create new reconciler"))
  | None => err ← managed "namespace" workers; mret (r, err)
  end.
End nsdelete.

Module nodelabel.
Record Reconciler := { api : Client; resyncDelay : Z; resyncInterval : Z; embedded : MetadataSync.Reconciler }.

Definition NewReconciler (api : Client) (resyncDelay resyncInterval : Z) : Reconciler :=
  {| api := api; resyncDelay := resyncDelay; resyncInterval := resyncInterval; embedded := MetadataSync.zero |}.

Definition SetupWithManager `{GoRange} (r : Reconciler) (workers : Z) : prog (Reconciler * option error) :=
  let s := MetadataSync.SetStartupSyncDelay (embedded r) (resyncDelay r) in
  let s := MetadataSync.SetResyncPeriod s (resyncInterval r) in
  '(s, err) ← MetadataSync.Init s (NodeLabel.controller (api r)) (NodeLabel.Diff (api r)) NodeDelete.prototype
    [Sync.WithName "node-label-sync"];
  let r := {| api := api r; resyncDelay := resyncDelay r; resyncInterval := resyncInterval r; embedded := s |} in
  match err with
  | Some e => mret (r, Some (Wrap e "failed to create new reconciler"))
  | None => err ← managed "node" workers; mret (r, err)
  end.
End nodelabel.

Module pvclabel.
Record Reconciler := { api : Client; resyncDelay : Z; resyncInterval : Z; embedded : MetadataSync.Reconciler }.

Definition NewReconciler (api : Client) (resyncDelay resyncInterval : Z) : Reconciler :=
  {| api := api; resyncDelay := resyncDelay; resyncInterval := resyncInterval; embedded := MetadataSync.zero |}.

Definition SetupWithManager `{GoRange} (r : Reconciler) (workers : Z) : prog (Reconciler * option error) :=
  let s := MetadataSync.SetStartupSyncDelay (embedded r) (resyncDelay r) in
  let s := MetadataSync.SetResyncPeriod s (resyncInterval r) in
  '(s, err) ← MetadataSync.Init s (PVCLabel.controller (api r)) (PVCLabel.Diff (api r)) PVCLabel.prototype
    [Sync.WithName "volume-label-sync"];
  let r := {| api := api r; resyncDelay := resyncDelay r; resyncInterval := resyncInterval r; embedded := s |} in
  match err with
  | Some e => mret (r, Some (Wrap e "failed to create new reconciler"))
  | None => err ← managed "persistentvolumeclaim" workers; mret (r, err)
  end.
End pvclabel.

(** ** The fencer *)

(** [stateless-action/v1/reconcile.go]. *)
Module Action.
Record Reconciler := { name : string; actionRetryPeriod : Z; actionTimeout : Z }.

Definition zero : Reconciler := {| name := ""; actionRetryPeriod := 0; actionTimeout := 0 |}.

Definition ReconcilerOption : Type := Reconciler -> Reconciler.

Definition WithName (n : string) : ReconcilerOption := fun r =>
  {| name := n; actionRetryPeriod := actionRetryPeriod r; actionTimeout := actionTimeout r |}.
Definition WithActionRetryPeriod (d : Z) : ReconcilerOption := fun r =>
  {| name := name r; actionRetryPeriod := d; actionTimeout := actionTimeout r |}.
Definition WithActionTimeout (d : Z) : ReconcilerOption := fun r =>
  {| name := name r; actionRetryPeriod := actionRetryPeriod r; actionTimeout := d |}.

Definition Init (r : Reconciler) (opts : list ReconcilerOption) : Reconciler := foldl (fun r opt => opt r) r opts.
End Action.

Module fencer.
Record Reconciler := {
  api : Client; pollInterval : Z; expiryInterval : Z; cleanupInterval : Z;
  cache : option (Cache NodeCR); embedded : Action.Reconciler;
}.

Definition NewReconciler (api : Client) (pollInterval expiryInterval : Z) : Reconciler := {|
  api := api; pollInterval := effective_poll_interval pollInterval; expiryInterval := expiryInterval;
  cleanupInterval := 5 * expiryInterval; cache := None; embedded := Action.zero;
|}.

Definition SetupWithManager (r : Reconciler) (workers retryInterval timeout : Z) : prog (Reconciler * option error) :=
  let with_cache := fun e => {|
    api := api r; pollInterval := pollInterval r; expiryInterval := expiryInterval r;
    cleanupInterval := cleanupInterval r; cache := Some (NewCache (expiryInterval r)); embedded := e |} in
  _ ← Call (Setup (GoPollNodes (pollInterval r)));
  err ← Call (Setup (IndexField "Pod" "spec.nodeName"));
  match err with
  | Some e => mret (with_cache (embedded r), Some e)
  | None =>
      err ← Call (Setup (IndexField "VolumeAttachment" "spec.nodeName"));
      match err with
      | Some e => mret (with_cache (embedded r), Some e)
      | None =>
          let s := Action.Init (embedded r)
            [Action.WithName "pod-fencer"; Action.WithActionTimeout timeout; Action.WithActionRetryPeriod retryInterval] in
          err ← managed "fencer" workers;
          mret (with_cache s, err)
      end
  end.
End fencer.

(** ** The shared volume reconciler *)

Module sharedvolume.
(** [NewReconciler] also registers the metrics of its package. *)
Definition NewReconciler (g : registry) (api : Client)
    (apiPollInterval cacheExpiryInterval k8sCreatePollInterval k8sCreateWaitDuration : Z)
  : prog (registry * SharedVolumeController.Reconciler) :=
  g ← SharedVolume_RegisterMetrics g;
  mret (g, SharedVolumeController.NewReconciler api apiPollInterval cacheExpiryInterval
             k8sCreatePollInterval k8sCreateWaitDuration).

Definition SetupWithManager (r : SharedVolumeController.Reconciler) : prog (option error) :=
  Call (Setup (AddRunnable "sharedvolume")).
End sharedvolume.

(** ** When a function in the background runs *)

Section schedule.
Context (period created : Z) (Hp : 0 < period).

(** The number of ticks at a time. *)
Local Abbreviation ticks t := ((t - created) / period).

Lemma ticks_le t : created + ticks t * period <= t.
Proof. pose proof (Z.mul_div_le (t - created) period Hp). lia. Qed.

Lemma ticks_lt t : t < created + (ticks t + 1) * period.
Proof. pose proof (Z.mul_succ_div_gt (t - created) period Hp). lia. Qed.

Lemma ticks_at n : ticks (created + n * period) = n.
Proof. replace (created + n * period - created) with (n * period) by lia. apply Z.div_mul. lia. Qed.

(** The next call: not before the reader is ready, nor before a tick that was
    not taken; at the latest one period after the reader is ready. *)
Definition next_call (taken now : Z) : Z :=
  if taken <? ticks now then now else created + (ticks now + 1) * period.

Lemma next_call_bounds taken now :
  taken <= ticks now ->
  now <= next_call taken now <= now + period /\ taken + 1 <= ticks (next_call taken now).
Proof.
  intros Ht. unfold next_call. pose proof (ticks_le now). pose proof (ticks_lt now).
  destruct (Z.ltb_spec taken (ticks now)); [lia|]. rewrite ticks_at. lia.
Qed.

Lemma tick_calls_cons taken now d ds :
  taken <= ticks now ->
  tick_calls period created taken now (d :: ds) =
    next_call taken now :: tick_calls period created (ticks (next_call taken now)) (next_call taken now + d) ds.
Proof.
  intros Ht. cbn [tick_calls]. unfold next_call. destruct (taken <? ticks now); [done|]. by rewrite ticks_at.
Qed.

Lemma ticks_mono t t' : t <= t' -> ticks t <= ticks t'.
Proof. intros. apply Z.div_le_mono; lia. Qed.

Lemma tick_calls_from taken now ds k s :
  taken <= ticks now -> Forall (fun d => 0 <= d) ds ->
  tick_calls period created taken now ds !! k = Some s -> created + (taken + 1 + Z.of_nat k) * period <= s.
Proof.
  revert taken now k. induction ds as [|d ds IH]; intros taken now k Ht Hds; [done|].
  rewrite tick_calls_cons by done. apply Forall_cons_iff in Hds as [Hd Hds].
  destruct (next_call_bounds taken now Ht) as [Hn Htn]. destruct k as [|k]; cbn [lookup list_lookup].
  - intros [= <-]. pose proof (ticks_le (next_call taken now)). nia.
  - intros Hs. apply IH in Hs; [nia|apply ticks_mono; lia|done].
Qed.

(** Each call starts when the one before is over, and at the latest one period
    after that. *)
Fixpoint paced (now : Z) (ds starts : list Z) : Prop :=
  match ds, starts with
  | [], [] => True
  | d :: ds', s :: starts' => now <= s <= now + period /\ paced (s + d) ds' starts'
  | _, _ => False
  end.

Lemma tick_calls_paced taken now ds :
  taken <= ticks now -> Forall (fun d => 0 <= d) ds -> paced now ds (tick_calls period created taken now ds).
Proof.
  revert taken now. induction ds as [|d ds IH]; intros taken now Ht Hds; [done|].
  rewrite tick_calls_cons by done. apply Forall_cons_iff in Hds as [Hd Hds].
  split; [by apply next_call_bounds|]. apply IH; [apply ticks_mono; lia|done].
Qed.

(** Calls that take less than a period start at the ticks. *)
Lemma tick_calls_exact n now ds k s :
  created + n * period <= now < created + (n + 1) * period -> Forall (fun d => 0 <= d < period) ds ->
  tick_calls period created n now ds !! k = Some s -> s = created + (n + 1 + Z.of_nat k) * period.
Proof.
  revert n now k. induction ds as [|d ds IH]; intros n now k Hn Hds; [done|]. apply Forall_cons_iff in Hds as [Hd Hds].
  assert (Hf : ticks now = n) by (symmetry; apply (Z.div_unique_pos _ _ _ (now - created - n * period)); lia).
  rewrite tick_calls_cons by lia. unfold next_call. rewrite Hf, Z.ltb_irrefl, ticks_at.
  destruct k as [|k]; cbn [lookup list_lookup]; [intros [= <-]; lia|].
  intros Hs. apply IH in Hs; [lia|lia|done].
Qed.
End schedule.

(** C28. When a function runs in the background: first after the startup delay,
    then at ticks that are a period apart, counted from the end of the first
    call.  Calls never overlap, the next one starts at the latest a period
    after the one before has ended, there are never more calls than ticks, and
    if every call takes less than a period they start exactly at the ticks. *)
Theorem SyncFunc_Run_schedule sf now d ds :
  0 < sf_period sf -> Forall (fun d => 0 <= d) (d :: ds) ->
  exists first rest, Run sf now (d :: ds) = first :: rest /\
    first = now + Z.max 0 (sf_startupSyncDelay sf) /\
    paced (sf_period sf) (first + d) ds rest /\
    (forall k s, rest !! k = Some s -> first + d + (Z.of_nat k + 1) * sf_period sf <= s) /\
    (Forall (fun d => d < sf_period sf) ds ->
     forall k s, rest !! k = Some s -> s = first + d + (Z.of_nat k + 1) * sf_period sf).
Proof.
  intros Hp [Hd Hds]%Forall_cons_iff. set (first := now + Z.max 0 (sf_startupSyncDelay sf)).
  exists first, (tick_calls (sf_period sf) (first + d) 0 (first + d) ds).
  assert (H0 : (first + d - (first + d)) / sf_period sf = 0) by (by rewrite Z.sub_diag, Z.div_0_l by lia).
  split_and!; [done|done|apply tick_calls_paced; [done|lia|done]|..].
  - intros k s Hs. apply tick_calls_from in Hs; [lia|done|lia|done].
  - intros Hshort k s Hs. apply tick_calls_exact in Hs; [lia|done|lia|].
    by apply List.Forall_and.
Qed.

(** A collection of garbage every hour: the third one takes two and a half
    hours, the next starts as soon as it is over, and the one after that at the
    next full hour. *)
Example sync_schedule_example :
  Run {| sf_f := mret tt; sf_period := 3600; sf_startupSyncDelay := 30 |} 0 [20; 60; 9000; 60; 60] =
    [30; 50 + 3600; 50 + 7200; 50 + 16200; 50 + 18000].
Proof. reflexivity. Qed.

Lemma SyncFunc_Run_schedule_witness :
  exists first rest, Run (NewSyncFunc (mret tt) 3600 0) 0 [20; 60; 9000; 60; 60] = first :: rest /\
    first = defaultStartupSyncDelay.
Proof.
  destruct (SyncFunc_Run_schedule (NewSyncFunc (mret tt) 3600 0) 0 20 [60; 9000; 60; 60]) as (first & rest & Hrun & Hf & _).
  - reflexivity.
  - repeat constructor; lia.
  - exists first, rest. split; [exact Hrun|exact Hf].
Defined.

(** ** What is set up, in which order *)

(** The calls that set something up; waiting and looking for a file do not. *)
Definition setup_of (c : call) : option setup_call :=
  match c with Setup (Sleep _) | Setup (StatFile _) => None | Setup s => Some s | _ => None end.

Definition setups (tr : trace) : list setup_call := omap setup_of (map projT1 tr).

Lemma setups_app tr1 tr2 : setups (tr1 ++ tr2) = setups tr1 ++ setups tr2.
Proof. unfold setups. by rewrite map_app, omap_app. Qed.

(** The error a call that sets something up may return. *)
Definition setup_error (c : setup_call) : setup_ret c -> option error :=
  match c return setup_ret c -> option error with
  | InstallJaegerExporter _ | NewManager _ _ _ _ | NewUncachedClient | NewCertManager _ _ _ _ _
  | AddRunnable _ | IndexField _ _ | CompleteController _ _ | NewDecoder | StartManager => fun r => r
  | _ => fun _ => None
  end.

Definition failed_setup (e : event) : Prop :=
  match e with
  | existT c r => match c return ret c -> Prop with Setup s => fun r => setup_error s r <> None | _ => fun _ => False end r
  end.

(** [p] sets up all of [plan], or stops with an error right after the first
    call that failed. *)
Definition sets_up {A} (error_of : A -> option error) (plan : list setup_call) (p : prog A) : Prop :=
  every_run p (fun tr o => exists a, o = Done a /\
    match error_of a with
    | None => setups tr = plan
    | Some _ => setups tr `prefix_of` plan /\ exists tr' e, tr = tr' ++ [e] /\ failed_setup e
    end).

(** The function in the background of a reconciler: none if the interval is not
    positive; a delay of zero is replaced. *)
Definition background_plan (name : string) (delay interval : Z) : list setup_call :=
  if 0 <? interval then [GoSyncFunc name interval (if delay =? 0 then defaultStartupSyncDelay else delay)] else [].

(** The call that failed is the last of the trace. *)
Ltac last_failed := first [by eexists [], _|by eexists [_], _|by eexists [_; _], _|by eexists [_; _; _], _].

Ltac set_up_leaf :=
  intros; eexists; (split; [reflexivity|]); cbn [snd];
  repeat match goal with |- context [match ?x with Some _ => _ | None => _ end] => is_var x; destruct x end;
  first [ reflexivity
        | split; [first [by eexists []|by eexists [_]|by eexists [_; _]|by eexists [_; _; _]]|last_failed] ].

Lemma nodedelete_sets_up api gcDelay gcInterval workers :
  sets_up snd (background_plan "node-delete" gcDelay gcInterval ++ [CompleteController "node" workers])
    (nodedelete.SetupWithManager (nodedelete.NewReconciler api gcDelay gcInterval) workers).
Proof.
  unfold sets_up, nodedelete.SetupWithManager, ObjectSync.Init, background_plan, zeroDuration. cbn.
  destruct (0 <? gcInterval); cbn; set_up_leaf.
Qed.

Lemma nsdelete_sets_up api gcDelay gcInterval workers :
  sets_up snd (background_plan "ns-delete" gcDelay gcInterval ++ [CompleteController "namespace" workers])
    (nsdelete.SetupWithManager (nsdelete.NewReconciler api gcDelay gcInterval) workers).
Proof.
  unfold sets_up, nsdelete.SetupWithManager, ObjectSync.Init, background_plan, zeroDuration. cbn.
  destruct (0 <? gcInterval); cbn; set_up_leaf.
Qed.

Lemma nodelabel_sets_up `{GoRange} api resyncDelay resyncInterval workers :
  sets_up snd (background_plan "node-label-sync" resyncDelay resyncInterval ++ [CompleteController "node" workers])
    (nodelabel.SetupWithManager (nodelabel.NewReconciler api resyncDelay resyncInterval) workers).
Proof.
  unfold sets_up, nodelabel.SetupWithManager, MetadataSync.Init, background_plan, zeroDuration. cbn -[resync].
  destruct (0 <? resyncInterval); cbn -[resync]; set_up_leaf.
Qed.

Lemma pvclabel_sets_up `{GoRange} api resyncDelay resyncInterval workers :
  sets_up snd (background_plan "volume-label-sync" resyncDelay resyncInterval ++ [CompleteController "persistentvolumeclaim" workers])
    (pvclabel.SetupWithManager (pvclabel.NewReconciler api resyncDelay resyncInterval) workers).
Proof.
  unfold sets_up, pvclabel.SetupWithManager, MetadataSync.Init, background_plan, zeroDuration. cbn -[resync].
  destruct (0 <? resyncInterval); cbn -[resync]; set_up_leaf.
Qed.

Definition fencer_plan (pollInterval workers : Z) : list setup_call :=
  [GoPollNodes (effective_poll_interval pollInterval); IndexField "Pod" "spec.nodeName";
   IndexField "VolumeAttachment" "spec.nodeName"; CompleteController "fencer" workers].

Lemma fencer_sets_up api pollInterval expiryInterval workers retryInterval timeout :
  sets_up snd (fencer_plan pollInterval workers)
    (fencer.SetupWithManager (fencer.NewReconciler api pollInterval expiryInterval) workers retryInterval timeout).
Proof. unfold sets_up, fencer.SetupWithManager, managed. run_steps; set_up_leaf. Qed.

(** What a fencer that was set up works with: a poll interval of five seconds at
    least, an empty cache with the expiry that was asked for, and the retry
    period and the timeout of its actions. *)
Lemma fencer_configured api pollInterval expiryInterval workers retryInterval timeout :
  every_run (fencer.SetupWithManager (fencer.NewReconciler api pollInterval expiryInterval) workers retryInterval timeout)
    (fun _ o => forall r, o = Done (r, None) ->
       fencer.pollInterval r = Z.max minPollInterval pollInterval /\
       fencer.cache r = Some (NewCache expiryInterval) /\
       fencer.embedded r = {| Action.name := "pod-fencer"; Action.actionRetryPeriod := retryInterval; Action.actionTimeout := timeout |}).
Proof.
  unfold fencer.SetupWithManager, managed. run_steps; intros ? [=]; subst; cbn. split_and!; [|done|done].
  unfold effective_poll_interval. destruct (Z.ltb_spec pollInterval minPollInterval); lia.
Qed.
