(* ===== verification/Main.v ===== *)
(** * The start of the process ([main.go])

    The flags, the wait for a working connection to the control plane
    ([NewTracedClient] in a loop), the namespace of the process
    ([internal/pkg/cluster]), the certificate manager, the controllers and the
    webhooks, and the ways the process ends.  What the libraries do when they
    are asked to set something up is the environment. *)

From Stdlib Require Import ZArith Lia.
From S2P Require Import Prelude GoLib Json Errors Types Effects Client Auth Url Metrics Setup.

(** ** Flags; durations are in nanoseconds *)

Record flags := {
  metricsAddr : string;
  enableLeaderElection : bool;
  namespace : string;
  schedulerName : string;
  webhookServiceName : string;
  webhookServiceNamespace : string;
  webhookSecretName : string;
  webhookSecretNamespace : string;
  webhookConfigMutatingName : string;
  webhookMutatePodsPath : string;
  webhookMutatePVCsPath : string;
  webhookCertValidity : Z;
  webhookCertRefreshInterval : Z;
  apiSecretPath : string;
  apiEndpoint : string;
  volumePollInterval : Z;
  nodePollInterval : Z;
  volumeExpiryInterval : Z;
  nodeExpiryInterval : Z;
  apiRefreshInterval : Z;
  apiRetryInterval : Z;
  k8sCreatePollInterval : Z;
  k8sCreateWaitDuration : Z;
  gcNamespaceDeleteInterval : Z;
  gcNodeDeleteInterval : Z;
  resyncNodeLabelInterval : Z;
  resyncPVCLabelInterval : Z;
  gcNamespaceDeleteDelay : Z;
  gcNodeDeleteDelay : Z;
  resyncNodeLabelDelay : Z;
  resyncPVCLabelDelay : Z;
  nodeFencerWorkers : Z;
  nodeFencerRetryInterval : Z;
  nodeFencerTimeout : Z;
  nodeDeleteWorkers : Z;
  nsDeleteWorkers : Z;
  nodeLabelSyncWorkers : Z;
  pvcLabelSyncWorkers : Z;
  enablePVCLabelSync : bool;
  enableNodeLabelSync : bool;
}.

Definition seconds (n : Z) : Z := n * 1000000000.
Definition minutes (n : Z) : Z := seconds (60 * n).
Definition hours (n : Z) : Z := minutes (60 * n).
Definition oneYear : Z := 365 * hours 24.

Definition default_flags : flags := {|
  metricsAddr := ":8080";
  enableLeaderElection := false;
  namespace := "";
  schedulerName := "storageos-scheduler";
  webhookServiceName := "storageos-webhook";
  webhookServiceNamespace := "";
  webhookSecretName := "storageos-webhook";
  webhookSecretNamespace := "";
  webhookConfigMutatingName := "storageos-mutating-webhook";
  webhookMutatePodsPath := "/mutate-pods";
  webhookMutatePVCsPath := "/mutate-pvcs";
  webhookCertValidity := oneYear;
  webhookCertRefreshInterval := minutes 30;
  apiSecretPath := "/etc/storageos/secrets/api";
  apiEndpoint := "storageos";
  volumePollInterval := seconds 5;
  nodePollInterval := seconds 5;
  volumeExpiryInterval := minutes 1;
  nodeExpiryInterval := hours 1;
  apiRefreshInterval := minutes 1;
  apiRetryInterval := seconds 5;
  k8sCreatePollInterval := seconds 1;
  k8sCreateWaitDuration := seconds 20;
  gcNamespaceDeleteInterval := hours 1;
  gcNodeDeleteInterval := hours 1;
  resyncNodeLabelInterval := hours 1;
  resyncPVCLabelInterval := hours 1;
  gcNamespaceDeleteDelay := seconds 20;
  gcNodeDeleteDelay := seconds 30;
  resyncNodeLabelDelay := seconds 10;
  resyncPVCLabelDelay := seconds 5;
  nodeFencerWorkers := 5;
  nodeFencerRetryInterval := seconds 5;
  nodeFencerTimeout := seconds 25;
  nodeDeleteWorkers := 5;
  nsDeleteWorkers := 5;
  nodeLabelSyncWorkers := 5;
  pvcLabelSyncWorkers := 5;
  enablePVCLabelSync := true;
  enableNodeLabelSync := true;
|}.

(** ** The connection *)

(** The client [main] works with, the server it talks to, and its transport. *)
Record traced_client := { tc_client : Client; tc_config : Configuration; tc_transport : transport }.

Definition NewTracedClient (g : registry) (username password endpoint : string)
  : prog (registry * (traced_client + error)) :=
  g ← RegisterMetrics g;
  '(g, t) ← InstrumentedTransport g;
  r ← newAuthenticatedClient username password endpoint;
  mret (g, match r with
           | inr e => inr e
           | inl (ctx, config) =>
               inl {| tc_client := {| c_ctx := ctx; c_traced := true |}; tc_config := config; tc_transport := t |}
           end).

(** The loop, for [rounds] rounds: no client if it has not connected by then. *)
Fixpoint connect (f : flags) (rounds : nat) (g : registry) : prog (registry * option traced_client) :=
  match rounds with
  | O => mret (g, None)
  | S rounds' =>
      creds ← ReadCredsFromMountedSecret (apiSecretPath f);
      match creds with
      | inr e =>
          _ ← Call (M_Increment "setup" (Some e));
          _ ← Call (Setup (Sleep (apiRetryInterval f)));
          connect f rounds' g
      | inl (username, password) =>
          '(g, api) ← NewTracedClient g username password (apiEndpoint f);
          match api with
          | inl api => _ ← Call (M_Increment "setup" None); mret (g, Some api)
          | inr e =>
              _ ← Call (M_Increment "setup" (Some e));
              _ ← Call (Setup (Sleep (apiRetryInterval f)));
              connect f rounds' g
          end
      end
  end.

(** ** [cluster.Namespace] *)

Definition inClusterNamespacePath : string := "/var/run/secrets/kubernetes.io/serviceaccount/namespace".

Definition cluster_Namespace : prog (string + error) :=
  st ← Call (Setup (StatFile inClusterNamespacePath));
  match st : stat_result with
  | StatNotExist _ => mret (inr (Sentinel ErrNotInCluster))
  | StatFailed e => mret (inr (Wrap e "error checking namespace file"))
  | StatFound =>
      r ← Call (ReadFile inClusterNamespacePath);
      match r with
      | inr e => mret (inr (Wrap e "error reading namespace file"))
      | inl ns => mret (inl ns)
      end
  end.

(** ** [main] *)

(** The process is still waiting for the control plane, it has exited, or
    [main] has returned. *)
Inductive status := StillConnecting | Exited (code : Z) | Returned.

(** Set something up; [fatal], or [os.Exit(1)], if that fails. *)
Definition attempt (c : setup_call) (k : prog status) : prog status :=
  r ← Call (Setup c);
  match setup_error c r with Some _ => mret (Exited 1) | None => k end.

(** The same of a whole program that sets something up. *)
Definition attempt_setup (p : prog (option error)) (k : prog status) : prog status :=
  err ← p;
  match err with Some _ => mret (Exited 1) | None => k end.

(** A deferred call is made on return and on panic, and not on exit. *)
Fixpoint deferred (d : setup_call) (p : prog status) : prog status :=
  match p with
  | Ret Returned => Do (Setup d) (fun _ => Ret Returned)
  | Ret s => Ret s
  | Panic m => Do (Setup d) (fun _ => Panic m)
  | Do c k => Do c (fun r => deferred d (k r))
  end.

Definition or_namespace (given ns : string) : string := if bool_decide (given = "") then ns else given.

Definition EventSourceName : string := "storageos-api-manager".

(** Only the error of the setup of a reconciler is looked at. *)
Definition error_of {A} (p : prog (A * option error)) : prog (option error) := '(_, err) ← p; mret err.

(** The controllers, in order, with their workers and timings. *)
Section controllers.
Context `{GoRange} (f : flags) (g : registry) (api : Client).

Definition setup_sharedvolume : prog (option error) :=
  '(_, r) ← sharedvolume.NewReconciler g api (volumePollInterval f) (volumeExpiryInterval f)
              (k8sCreatePollInterval f) (k8sCreateWaitDuration f);
  sharedvolume.SetupWithManager r.
Definition setup_pvclabel : prog (option error) :=
  error_of (pvclabel.SetupWithManager (pvclabel.NewReconciler api (resyncPVCLabelDelay f) (resyncPVCLabelInterval f)) (pvcLabelSyncWorkers f)).
Definition setup_nodelabel : prog (option error) :=
  error_of (nodelabel.SetupWithManager (nodelabel.NewReconciler api (resyncNodeLabelDelay f) (resyncNodeLabelInterval f)) (nodeLabelSyncWorkers f)).
Definition setup_nodedelete : prog (option error) :=
  error_of (nodedelete.SetupWithManager (nodedelete.NewReconciler api (gcNodeDeleteDelay f) (gcNodeDeleteInterval f)) (nodeDeleteWorkers f)).
Definition setup_nsdelete : prog (option error) :=
  error_of (nsdelete.SetupWithManager (nsdelete.NewReconciler api (gcNamespaceDeleteDelay f) (gcNamespaceDeleteInterval f)) (nsDeleteWorkers f)).
Definition setup_fencer : prog (option error) :=
  error_of (fencer.SetupWithManager (fencer.NewReconciler api (nodePollInterval f) (nodeExpiryInterval f))
    (nodeFencerWorkers f) (nodeFencerRetryInterval f) (nodeFencerTimeout f)).
End controllers.

Definition new_manager (f : flags) : setup_call :=
  NewManager (metricsAddr f) 9443 (enableLeaderElection f) "storageos-api-manager-lease".

Definition new_cert_manager (f : flags) (ns : string) : setup_call :=
  NewCertManager (webhookCertValidity f) (webhookCertRefreshInterval f)
    (Key (or_namespace (webhookServiceNamespace f) ns) (webhookServiceName f))
    (Key (or_namespace (webhookSecretNamespace f) ns) (webhookSecretName f))
    [Key "" (webhookConfigMutatingName f)].

Definition when (b : bool) (p : prog (option error)) (k : prog status) : prog status := if b then attempt_setup p k else k.

Section start.
Context `{GoRange}.

(** Everything from the refresh goroutine on. *)
Definition run_manager (f : flags) (g : registry) (api : Client) : prog status :=
  attempt (GoRefresh (apiSecretPath f) (apiRefreshInterval f)) (
  attempt_setup (setup_sharedvolume f g api) (
  when (enablePVCLabelSync f) (setup_pvclabel f api) (
  when (enableNodeLabelSync f) (setup_nodelabel f api) (
  attempt_setup (setup_nodedelete f api) (
  attempt_setup (setup_nsdelete f api) (
  attempt_setup (setup_fencer f api) (
  attempt NewDecoder (
  attempt (RegisterWebhook (webhookMutatePodsPath f) ["scheduler"]) (
  attempt (RegisterWebhook (webhookMutatePVCsPath f) ["encryption"; "storageclass"]) (
  attempt StartManager (mret Returned))))))))))).

(** A namespace that cannot be detected is logged, and stays empty. *)
Definition detect_namespace (f : flags) : prog string :=
  if bool_decide (namespace f = "") then
    r ← cluster_Namespace; mret (match r with inl ns => ns | inr _ => "" end)
  else mret (namespace f).

Definition main (f : flags) (rounds : nat) (g : registry) : prog status :=
  attempt (InstallJaegerExporter "api-manager") (deferred TelemetryShutdown (
    '(g, api) ← connect f rounds g;
    match api with
    | None => mret StillConnecting
    | Some api =>
        attempt (new_manager f) (attempt NewUncachedClient (
        ns ← detect_namespace f;
        attempt (new_cert_manager f ns) (deferred CancelContext (run_manager f g (tc_client api)))))
    end)).
End start.

(** ** What is set up, in which order *)

(** The whole start, for the namespace [ns]. *)
Definition manager_plan (f : flags) : list setup_call :=
  [GoRefresh (apiSecretPath f) (apiRefreshInterval f); AddRunnable "sharedvolume"] ++
  (if enablePVCLabelSync f then
     background_plan "volume-label-sync" (resyncPVCLabelDelay f) (resyncPVCLabelInterval f) ++
     [CompleteController "persistentvolumeclaim" (pvcLabelSyncWorkers f)]
   else []) ++
  (if enableNodeLabelSync f then
     background_plan "node-label-sync" (resyncNodeLabelDelay f) (resyncNodeLabelInterval f) ++
     [CompleteController "node" (nodeLabelSyncWorkers f)]
   else []) ++
  (background_plan "node-delete" (gcNodeDeleteDelay f) (gcNodeDeleteInterval f) ++ [CompleteController "node" (nodeDeleteWorkers f)]) ++
  (background_plan "ns-delete" (gcNamespaceDeleteDelay f) (gcNamespaceDeleteInterval f) ++ [CompleteController "namespace" (nsDeleteWorkers f)]) ++
  fencer_plan (nodePollInterval f) (nodeFencerWorkers f) ++
  [NewDecoder;
   RegisterWebhook (webhookMutatePodsPath f) ["scheduler"];
   RegisterWebhook (webhookMutatePVCsPath f) ["encryption"; "storageclass"]; StartManager].

Definition startup_plan (f : flags) (ns : string) : list setup_call :=
  [InstallJaegerExporter "api-manager"; new_manager f; NewUncachedClient; new_cert_manager f ns] ++
  manager_plan f ++ [CancelContext; TelemetryShutdown].

(** The namespace of the flags, or else what the file says, or else nothing. *)
Definition detected (f : flags) (tr : trace) (ns : string) : Prop :=
  if bool_decide (namespace f = "") then ns = "" \/ Exists (reads_file inClusterNamespacePath ns) tr
  else ns = namespace f.

(** How a run of [plan] ends: completely, or with code 1 right after the first
    call that failed. *)
Definition carried_out (plan : list setup_call) (tr : trace) (o : outcome status) : Prop :=
  match o with
  | Done Returned => setups tr = plan
  | Done (Exited code) => code = 1%Z /\ setups tr `prefix_of` plan /\ exists tr' e, tr = tr' ++ [e] /\ failed_setup e
  | _ => False
  end.

Definition executes (plan : list setup_call) (p : prog status) : Prop := every_run p (carried_out plan).

(** Events that came before. *)
Lemma carried_out_after plan1 plan2 tr1 tr2 o :
  setups tr1 = plan1 -> carried_out plan2 tr2 o -> carried_out (plan1 ++ plan2) (tr1 ++ tr2) o.
Proof.
  intros H1. destruct o as [[|code|]|m]; try done; simpl; rewrite setups_app, H1.
  - intros (-> & Hp & tr' & e & -> & He). split_and!; [done|by apply prefix_app|]. exists (tr1 ++ tr'), e. by rewrite app_assoc.
  - by intros ->.
Qed.

Lemma executes_attempt c plan k :
  setup_of (Setup c) = Some c -> executes plan k -> executes (c :: plan) (attempt c k).
Proof.
  intros Hc Hk. unfold executes, carried_out, attempt. run_step. run_step. assert (Hs : forall e : event, projT1 e = Setup c -> setups [e] = [c]).
  { intros e He. unfold setups. cbn [map omap list_omap]. by rewrite He, Hc. }
  destruct (setup_error c r) as [e|] eqn:He.
  - run_steps. rewrite app_nil_r, Hs by done. split_and!; [done|by exists plan|]. exists [], (existT (Setup c) r : event). split; [done|]. simpl. by rewrite He.
  - eapply every_run_mono; [exact Hk|]. intros tr [[|code|]|m]; rewrite ?setups_app, ?Hs by done; try done.
    + intros (-> & [l Hl] & tr' & e & -> & Hf). split_and!; [done|exists l; simpl; by rewrite Hl|].
      eexists (_ :: tr'), e. done.
    + intros ->. done.
Qed.

Lemma executes_setup p plan1 plan k :
  sets_up id plan1 p -> executes plan k -> executes (plan1 ++ plan) (attempt_setup p k).
Proof.
  intros Hp Hk. eapply every_run_seq; [exact Hp| |by intros ? ? (? & [=] & _)].
  intros tr1 err (? & [= <-] & Herr). destruct err as [e|]; cbn [id] in Herr.
  - apply every_run_ret. rewrite app_nil_r. destruct Herr as (Hpre & Hfail). split_and!; [done|by apply prefix_app_r|done].
  - eapply every_run_mono; [exact Hk|]. intros tr o. by apply carried_out_after.
Qed.

Lemma executes_when (b : bool) p plan1 plan k :
  sets_up id plan1 p -> executes plan k -> executes ((if b then plan1 else []) ++ plan) (when b p k).
Proof. intros Hp Hk. destruct b; [by apply executes_setup|done]. Qed.

Lemma sets_up_snd {A} plan (p : prog (A * option error)) : sets_up snd plan p -> sets_up id plan (error_of p).
Proof.
  intros Hp. unfold sets_up, error_of. eapply every_run_seq; [exact Hp| |by intros ? ? (? & [=] & _)].
  intros tr [a err] (? & [= <-] & Ha). apply every_run_ret. rewrite app_nil_r. eauto.
Qed.

Lemma sharedvolume_sets_up f g api :
  registry_ok g -> sets_up id [AddRunnable "sharedvolume"] (setup_sharedvolume f g api).
Proof.
  intros Hg. unfold sets_up, setup_sharedvolume, sharedvolume.NewReconciler.
  destruct (SharedVolume_RegisterMetrics_ok g Hg) as (g' & -> & _). cbn [mbind prog_bind pbind mret prog_ret].
  unfold sharedvolume.SetupWithManager. run_step. exists r. split; [done|].
  destruct r; cbn [id]; [|done]. split; [by exists []|]. by eexists [], _.
Qed.

(** What a deferred call adds to the end of a run. *)
Lemma every_run_deferred d p (Q : trace -> outcome status -> Prop) :
  every_run p (fun tr o =>
    match o with
    | Done Returned | Panicked _ => forall r, Q (tr ++ [existT (Setup d) r]) o
    | _ => Q tr o
    end) -> every_run (deferred d p) Q.
Proof.
  unfold every_run. generalize (@nil event). induction p as [[| |]|m|c k IH]; intros tr; simpl; try done. intros H r. by apply IH.
Qed.

Lemma executes_deferred d plan p :
  setup_of (Setup d) = Some d -> executes plan p -> executes (plan ++ [d]) (deferred d p).
Proof.
  intros Hd Hp. apply every_run_deferred. eapply every_run_mono; [exact Hp|]. intros tr [[|code|]|m]; try done; unfold carried_out.
  - intros (-> & [l Hl] & Hf). split_and!; [done| |done]. exists (l ++ [d]). by rewrite Hl, app_assoc.
  - intros Hs r. rewrite setups_app, Hs. f_equal. unfold setups. cbn [map projT1 omap list_omap]. by rewrite Hd.
Qed.

Lemma run_manager_executes `{GoRange} f g api : registry_ok g -> executes (manager_plan f) (run_manager f g api).
Proof.
  intros Hg. unfold manager_plan, run_manager.
  apply (executes_attempt _ ([AddRunnable "sharedvolume"] ++ _)); [done|]. apply executes_setup; [by apply sharedvolume_sets_up|].
  apply executes_when; [apply sets_up_snd, pvclabel_sets_up|]. apply executes_when; [apply sets_up_snd, nodelabel_sets_up|].
  apply executes_setup; [apply sets_up_snd, nodedelete_sets_up|]. apply executes_setup; [apply sets_up_snd, nsdelete_sets_up|].
  apply executes_setup; [apply sets_up_snd, fencer_sets_up|]. do 4 (apply executes_attempt; [done|]).
  by apply every_run_ret.
Qed.

(** ** The connection loop *)

Definition is_login (c : call) : bool := match c with CP_AuthenticateUser _ _ _ => true | _ => false end.
Definition logins (tr : trace) : nat := length (List.filter is_login (map projT1 tr)).

Lemma logins_app tr1 tr2 : logins (tr1 ++ tr2) = logins tr1 + logins tr2.
Proof. unfold logins. by rewrite map_app, List.filter_app, length_app. Qed.

(** A token was obtained. *)
Definition logged_in (tr : trace) : Prop := Exists (fun e => is_Some (brings e)) tr.

Lemma Authenticate_run u p :
  every_run (Authenticate u p) (fun tr o => setups tr = [] /\ logins tr = 1 /\
    match o with Done (inl _) => logged_in tr | Done (inr _) => True | Panicked _ => Exists malformed tr end).
Proof.
  unfold Authenticate. run_step. run_step. destruct r as [[[] resp] [e|]]; [by run_steps|].
  destruct resp as [resp|]; [|apply every_run_panic; split_and!; [done|done|apply Exists_cons; by left]].
  eapply every_run_seq; [apply respAuthToken_run| |].
  - intros ? token [-> Ht]. destruct (bool_decide (token = "")); run_steps; split_and!; try done.
    apply Exists_cons. left. unfold brings. simpl. rewrite Ht. eauto.
  - intros ? m [-> Hm]. split_and!; [done|done|]. apply Exists_cons. left. exact Hm.
Qed.

Lemma ReadCreds_quiet path :
  every_run (ReadCredsFromMountedSecret path) (fun tr o => setups tr = [] /\ logins tr = 0 /\
    match o with Done _ => True | Panicked _ => False end).
Proof. unfold ReadCredsFromMountedSecret, try, secret_Read. by run_steps. Qed.

(** The result of the loop: a client has logged in, and its transport is
    exported exactly when this was the first login and nothing was registered
    before. *)
Definition connected (first : bool) (tr : trace) (o : outcome (registry * option traced_client)) : Prop :=
  setups tr = [] /\
  match o with
  | Done (g', Some api) =>
      registry_ok g' /\ logged_in tr /\ 1 <= logins tr /\
      (exported g' (tc_transport api) <-> first = true /\ logins tr = 1)
  | Done (_, None) => True
  | Panicked _ => Exists malformed tr
  end.

(** What came before the rest of the loop changes nothing but the count. *)
Lemma connected_after first first' tr tr' o :
  setups tr = [] -> (first' = true -> first = true /\ logins tr = 0) -> (first = true -> logins tr = 0 -> first' = true) ->
  connected first' tr' o -> connected first (tr ++ tr') o.
Proof.
  intros Hs Hf Hf' [Hs' Ho]. split; [by rewrite setups_app, Hs|]. destruct o as [[g' [api|]]|m]; [|done|].
  - destruct Ho as (Hg & Hl & Hge & Hex). rewrite logins_app. split_and!; [done|apply Exists_app; by right|lia|]. rewrite Hex.
    split; [intros [Ht ?]; destruct (Hf Ht); split; [done|lia]|intros [Ht ?]; split; [apply Hf'; [done|lia]|lia]].
  - apply Exists_app. by right.
Qed.

Lemma connect_invalid f rounds g e :
  endpoint_config (apiEndpoint f) = inr e -> registry_ok g ->
  every_run (connect f rounds g) (fun tr o => setups tr = [] /\ exists g', o = Done (g', None)).
Proof.
  intros He. revert g. induction rounds as [|rounds IH]; intros g Hg; cbn [connect]; [by apply every_run_ret; eauto|].
  eapply every_run_seq; [apply ReadCreds_quiet| |by intros ? ? (? & ? & ?)]. intros tr [[u p]|e'] (Hs & _ & _).
  - unfold NewTracedClient. destruct (RegisterMetrics_ok g Hg) as (g1 & -> & Hg1 & _).
    destruct (InstrumentedTransport_ok g1 Hg1) as (g2 & t & Ht & Hg2 & _). cbn [mbind prog_bind pbind]. rewrite Ht.
    cbn [pbind]. unfold newAuthenticatedClient. rewrite He. cbn [mret prog_ret mbind prog_bind pbind]. run_step. run_step. run_step. run_step.
    eapply every_run_mono; [apply (IH g2 Hg2)|]. cbn beta. intros tr' o [Hs' Ho]. split; [|done]. by rewrite !setups_app, Hs, Hs'.
  - run_step. run_step. run_step. run_step. eapply every_run_mono; [apply (IH g Hg)|].
    cbn beta. intros tr' o [Hs' Ho]. split; [|done]. by rewrite !setups_app, Hs, Hs'.
Qed.

(** One attempt: one login, with a transport that is exported if it is the first. *)
Lemma NewTracedClient_run g u p endpoint cfg :
  endpoint_config endpoint = inl cfg -> registry_ok g ->
  every_run (NewTracedClient g u p endpoint) (fun tr o => setups tr = [] /\ logins tr = 1 /\
    match o with
    | Done (g', r) => registry_ok g' /\ registerTransportMetrics g' = true /\
        match r with
        | inl api => logged_in tr /\ (exported g' (tc_transport api) <-> registerTransportMetrics g = false)
        | inr _ => True
        end
    | Panicked _ => Exists malformed tr
    end).
Proof.
  intros He Hg. unfold NewTracedClient. destruct (RegisterMetrics_ok g Hg) as (g1 & -> & Hg1 & _ & Hf1 & _).
  destruct (InstrumentedTransport_ok g1 Hg1) as (g2 & t & Ht & Hg2 & Hf2 & _ & _ & Hex & Hnot). cbn [mbind prog_bind pbind]. rewrite Ht.
  cbn [pbind]. unfold newAuthenticatedClient, try. rewrite He. run_steps.
  eapply every_run_mono; [apply Authenticate_run|]. cbn beta. intros tr [[ctx|e]|m] (Hs & Hl & Ho); run_steps; rewrite ?app_nil_r;
    split_and!; try done.
  cbn [tc_transport]. rewrite <- Hf1. destruct (registerTransportMetrics g1); [split; [|done]; intros; by destruct (Hnot eq_refl)|].
  split; auto.
Qed.

Lemma connect_valid f rounds g cfg :
  endpoint_config (apiEndpoint f) = inl cfg -> registry_ok g ->
  every_run (connect f rounds g) (connected (negb (registerTransportMetrics g))).
Proof.
  intros He. revert g. induction rounds as [|rounds IH]; intros g Hg; cbn [connect]; [by apply every_run_ret|].
  eapply every_run_seq; [apply ReadCreds_quiet| |by intros ? ? (? & ? & ?)]. intros tr [[u p]|e'] (Hs & Hl & _).
  2:{ do 4 run_step. eapply every_run_mono; [apply (IH g Hg)|]. cbn beta. intros tr' o Hc.
      rewrite !app_assoc. revert Hc. apply connected_after; rewrite ?setups_app, ?logins_app, ?Hs, ?Hl; auto. }
  eapply every_run_seq; [by eapply NewTracedClient_run| |].
  2:{ intros tr1 m (Hs1 & _ & Hm). split; [by rewrite setups_app, Hs, Hs1|]. apply Exists_app. by right. }
  intros tr1 [g' [api|e]] (Hs1 & Hl1 & Hg' & Hf & Ho); cbn beta iota.
  - do 2 run_step. apply every_run_ret. split; [by rewrite !setups_app, Hs, Hs1|]. destruct Ho as [Ho Hex].
    rewrite !logins_app, Hl, Hl1, Hex. unfold logged_in. rewrite !Exists_app. split_and!; [done|auto|unfold logins; simpl; lia|].
    destruct (registerTransportMetrics g); unfold logins; simpl; naive_solver.
  - do 4 run_step. eapply every_run_mono; [apply (IH g' Hg')|]. cbn beta. intros tr' o Hc.
    rewrite !app_assoc. revert Hc. apply connected_after; rewrite ?setups_app, ?logins_app, ?Hs, ?Hl, ?Hs1, ?Hl1, ?Hf; try done.
Qed.

Lemma connect_run f rounds g :
  registry_ok g -> every_run (connect f rounds g) (connected (negb (registerTransportMetrics g))).
Proof.
  intros Hg. destruct (endpoint_config (apiEndpoint f)) as [cfg|e] eqn:He; [by eapply connect_valid|].
  eapply every_run_mono; [by eapply connect_invalid|]. intros tr o (Hs & g' & ->). done.
Qed.

(** ** The whole start *)

(** The part after the connection, with the namespace it found. *)
Definition after_connect `{GoRange} (f : flags) (g : registry) (api : Client) : prog status :=
  attempt (new_manager f) (attempt NewUncachedClient (
  ns ← detect_namespace f;
  attempt (new_cert_manager f ns) (deferred CancelContext (run_manager f g api)))).

Lemma detect_namespace_run f :
  every_run (detect_namespace f) (fun tr o => setups tr = [] /\ exists ns, o = Done ns /\ detected f tr ns).
Proof.
  unfold detect_namespace, cluster_Namespace, detected. destruct (bool_decide_reflect (namespace f = "")).
  - run_steps; (split; [done|]); eexists; (split; [reflexivity|]); auto. right. apply Exists_cons. right. apply Exists_cons. by left.
  - run_steps. eauto.
Qed.

Lemma every_run_attempt c k (Q : trace -> outcome status -> Prop) :
  (forall r, setup_error c r <> None -> Q [existT (Setup c) r] (Done (Exited 1))) ->
  (forall r, setup_error c r = None -> every_run k (fun tr o => Q ([existT (Setup c) r] ++ tr) o)) ->
  every_run (attempt c k) Q.
Proof.
  intros Hf Hk. unfold attempt. run_step. run_step. destruct (setup_error c r) eqn:E; [apply every_run_ret; rewrite app_nil_r|];
    auto. apply Hf. by rewrite E.
Qed.

Definition connected_plan (f : flags) (ns : string) : list setup_call :=
  [new_manager f; NewUncachedClient; new_cert_manager f ns] ++ manager_plan f ++ [CancelContext].

Lemma startup_plan_eq f ns :
  startup_plan f ns = ([InstallJaegerExporter "api-manager"] ++ connected_plan f ns) ++ [TelemetryShutdown].
Proof. unfold startup_plan, connected_plan. by rewrite <- !app_assoc. Qed.

Lemma detected_app f tr1 tr2 ns : detected f tr2 ns -> detected f (tr1 ++ tr2) ns.
Proof. unfold detected. case_bool_decide; [|done]. rewrite Exists_app. tauto. Qed.

Lemma detected_default f tr : exists ns, detected f tr ns.
Proof. unfold detected. case_bool_decide; eauto. Qed.

Lemma after_connect_run `{GoRange} f g api :
  registry_ok g -> every_run (after_connect f g api) (fun tr o => exists ns, detected f tr ns /\ carried_out (connected_plan f ns) tr o).
Proof.
  intros Hg. apply every_run_attempt; intros r Hr.
  { destruct (detected_default f [existT (Setup (new_manager f)) r]) as [ns Hns]. exists ns. split; [done|]. unfold carried_out. split_and!; [done|by eexists (NewUncachedClient :: _)|].
    by eexists [], _. }
  apply every_run_attempt; intros r' Hr'.
  { destruct (detected_default f ([existT (Setup (new_manager f)) r] ++ [existT (Setup NewUncachedClient) r'])) as [ns Hns].
    exists ns. split; [done|]. unfold carried_out. split_and!; [done|by eexists (new_cert_manager f ns :: _)|]. by eexists [_], _. }
  eapply every_run_seq; [apply detect_namespace_run| |by intros ? ? (_ & ? & ? & _)].
  intros tr ns (Hs & ? & [= <-] & Hd).
  eapply every_run_mono; [apply (executes_attempt (new_cert_manager f ns)); [done|];
    apply executes_deferred; [done|by apply run_manager_executes]|].
  intros tr' o Ho. exists ns. split; [apply detected_app, detected_app; unfold detected in *; case_bool_decide; [|done];
    rewrite Exists_app; tauto|].
  rewrite !app_assoc. apply (carried_out_after [new_manager f; NewUncachedClient]); [by rewrite !setups_app, Hs|exact Ho].
Qed.

(** C19. The start of the process, for all flags, whatever the environment
    answers and however long the control plane is away: the manager, the
    certificates, the controllers that are enabled and the webhooks are set up
    in this order, nothing before a login has succeeded; the first failure
    ends the process with code 1 and nothing is set up after it; the shutdown
    of the telemetry is skipped then.  A namespace that cannot be detected is
    empty and does not stop the start.  The start panics only on a malformed
    answer to a login. *)
Theorem main_startup `{GoRange} f rounds g :
  registry_ok g ->
  every_run (main f rounds g) (fun tr o => exists ns, detected f tr ns /\
    match o with
    | Done StillConnecting => setups tr = [InstallJaegerExporter "api-manager"]
    | Panicked _ => setups tr = [InstallJaegerExporter "api-manager"; TelemetryShutdown] /\ Exists malformed tr
    | _ => carried_out (startup_plan f ns) tr o
    end /\
    (new_manager f ∈ setups tr -> exists tr1 tr2, tr = tr1 ++ tr2 /\
       setups tr1 = [InstallJaegerExporter "api-manager"] /\ logged_in tr1)).
Proof.
  intros Hg. apply every_run_attempt; intros r Hr.
  { destruct (detected_default f [existT (Setup (InstallJaegerExporter "api-manager")) r]) as [ns Hns]. exists ns.
    unfold carried_out. split_and!; [done|done|by eexists (new_manager f :: _)|by eexists [], _|by intros [?|[]%not_elem_of_nil]%elem_of_cons]. }
  apply every_run_deferred. eapply every_run_seq; [by apply (connect_run f rounds)| |].
  2:{ intros tr m [Hs Hm] r'. destruct (detected_default f ([existT (Setup (InstallJaegerExporter "api-manager")) r] ++ tr ++ [existT (Setup TelemetryShutdown) r'])) as [ns Hns].
      exists ns. rewrite !setups_app, Hs. split_and!; [done|done|rewrite !Exists_app; tauto|].
      by intros [?|[?|[]%not_elem_of_nil]%elem_of_cons]%elem_of_cons. }
  intros tr [g' [api|]] [Hs Ho].
  2:{ run_steps. rewrite app_nil_r. destruct (detected_default f ([existT (Setup (InstallJaegerExporter "api-manager")) r] ++ tr)) as [ns Hns].
      exists ns. rewrite !setups_app, Hs. split_and!; [done|done|by intros [?|[]%not_elem_of_nil]%elem_of_cons]. }
  destruct Ho as (Hg' & Hlog & _). eapply every_run_mono; [by apply (after_connect_run f g' (tc_client api))|]. intros tr' o (ns & Hd & Hc).
  set (e0 := existT (Setup (InstallJaegerExporter "api-manager")) r : event) in *.
  assert (Hpre : setups ([e0] ++ tr) = [InstallJaegerExporter "api-manager"]) by (by rewrite setups_app, Hs).
  assert (Hin : logged_in ([e0] ++ tr)) by (apply Exists_app; by right).
  assert (Hd' : detected f (([e0] ++ tr) ++ tr') ns) by (by apply detected_app).
  pose proof (carried_out_after _ _ _ _ o Hpre Hc) as Hc'. rewrite <- app_assoc in Hc', Hd'.
  destruct o as [[|code|]|m]; [done| | |done].
  - exists ns. split_and!; [done| |]; [|intros _; exists ([e0] ++ tr), tr'; split_and!; [by rewrite <- app_assoc|done|done]].
    destruct Hc' as (-> & Hp & He). split_and!; [done| |done]. rewrite startup_plan_eq. by apply prefix_app_r.
  - intros r'. exists ns. rewrite !app_assoc. rewrite app_assoc in Hc', Hd'. split_and!.
    + unfold detected in *. case_bool_decide; [|done]. rewrite Exists_app. tauto.
    + unfold carried_out in Hc' |- *. rewrite startup_plan_eq, setups_app.
      exact (f_equal (fun l => l ++ [TelemetryShutdown]) Hc').
    + intros _. exists ([e0] ++ tr), (tr' ++ [existT (Setup TelemetryShutdown) r']). split_and!; [by rewrite app_assoc|done|done].
Qed.

(** C33. The metrics of the HTTP requests are lost when the first login fails:
    each attempt of [main] builds a new transport with new collectors, and only
    the first ones are registered. *)
Theorem transport_metrics_exported f rounds :
  every_run (connect f rounds initial_registry) (fun tr o =>
    match o with
    | Done (g, Some api) => exported g (tc_transport api) <-> logins tr = 1
    | _ => True
    end).
Proof.
  eapply every_run_mono; [apply connect_run, initial_registry_ok|].
  intros tr [[g [api|]]|m] [_ Ho]; [|done..]. destruct Ho as (_ & _ & _ & ->). simpl. tauto.
Qed.

Lemma main_startup_witness :
  every_run (main (H := range_default) default_flags 3 initial_registry) (fun tr o => o = Done Returned -> exists ns,
    detected default_flags tr ns /\ setups tr = startup_plan default_flags ns).
Proof.
  eapply every_run_mono; [exact (main_startup (H := range_default) default_flags 3 initial_registry initial_registry_ok)|].
  intros tr o (ns & Hd & Ho & _) ->. by exists ns.
Defined.

(** A control plane that refuses the first login and accepts the second. *)
Definition late_control_plane : handler nat := fun c n =>
  match c return ret c * nat with
  | ReadFile _ => (inl "admin", n)
  | CP_AuthenticateUser _ _ _ =>
      (match n with O => (tt, None, Some (Opaque "connection refused")) | _ => (tt, Some (Response 200 "Bearer jwt"), None) end, S n)
  | c => (plain_answer c, n)
  end.

Example late_login_unexported :
  match exec_result late_control_plane (connect default_flags 2 initial_registry) 0 with
  | Done (g, Some api) => bool_decide (registered g !! requests_name = Some (t_counter (tc_transport api)))
  | _ => true
  end = false.
Proof. vm_compute. reflexivity. Qed.
