(* ===== verification/MockClient.v ===== *)
(** * The test double of the client ([internal/pkg/storageos/mock_client.go])

    The controllers are tested against [MockClient], which keeps namespaces,
    nodes, volumes and shared volumes in maps and can be told to fail.  Its
    operations, what they keep, and where it differs from the client it stands
    for. *)

From Stdlib Require Import NArith ZArith Lia.
From S2P Require Import Prelude GoLib Json Errors Types Effects Labels Client LabelSync NodeLabels VolumeLabels SharedVolume Endpoint.

(** What the getters of an object return. *)
Record MockObject := {
  mo_ID : string; mo_Name : string; mo_Namespace : string; mo_Labels : gomap; mo_Healthy : bool;
}.

Definition mock_key (o : MockObject) : ObjectKey := Key (mo_Namespace o) (mo_Name o).

(** The errors a test may set. *)
Record mock_errors := {
  ListNamespacesErr : option error; DeleteNamespaceErr : option error; GetNodeErr : option error;
  NodeObjectsErr : option error; ListNodesErr : option error; DeleteNodeErr : option error;
  EnsureNodeLabelsErr : option error; GetNodeLabelsErr : option error; GetVolumeErr : option error;
  VolumeObjectsErr : option error; EnsureVolumeLabelsErr : option error; SharedVolsErr : option error;
  SharedVolErr : option error; SetEndpointErr : option error;
}.

Definition no_errors : mock_errors :=
  Build_mock_errors None None None None None None None None None None None None None None.

(** Shared volumes are pointers: the map holds locations of a store that the
    tests hold locations of, too. *)
Record MockClient := Mock {
  sharedvols : gmap string positive;
  store : gmap positive SharedVolume;
  namespaces : gmap ObjectKey MockObject;
  nodes : gmap ObjectKey MockObject;
  volumes : gmap ObjectKey MockObject;
  nodeLabels : labels;
  DeleteNamespaceCallCount : gmap ObjectKey N;
  DeleteNodeCallCount : gmap ObjectKey N;
  errs : mock_errors;
}.

Definition NewMockClient (st : gmap positive SharedVolume) : MockClient := Mock ∅ st ∅ ∅ ∅ ∅ ∅ ∅ no_errors.

Definition set_sharedvols (c : MockClient) (m : gmap string positive) : MockClient :=
  Mock m (store c) (namespaces c) (nodes c) (volumes c) (nodeLabels c) (DeleteNamespaceCallCount c) (DeleteNodeCallCount c) (errs c).
Definition set_store (c : MockClient) (st : gmap positive SharedVolume) : MockClient :=
  Mock (sharedvols c) st (namespaces c) (nodes c) (volumes c) (nodeLabels c) (DeleteNamespaceCallCount c) (DeleteNodeCallCount c) (errs c).
Definition set_namespaces (c : MockClient) (m : gmap ObjectKey MockObject) : MockClient :=
  Mock (sharedvols c) (store c) m (nodes c) (volumes c) (nodeLabels c) (DeleteNamespaceCallCount c) (DeleteNodeCallCount c) (errs c).
Definition set_nodes (c : MockClient) (m : gmap ObjectKey MockObject) : MockClient :=
  Mock (sharedvols c) (store c) (namespaces c) m (volumes c) (nodeLabels c) (DeleteNamespaceCallCount c) (DeleteNodeCallCount c) (errs c).
Definition set_volumes (c : MockClient) (m : gmap ObjectKey MockObject) : MockClient :=
  Mock (sharedvols c) (store c) (namespaces c) (nodes c) m (nodeLabels c) (DeleteNamespaceCallCount c) (DeleteNodeCallCount c) (errs c).
Definition set_nodeLabels (c : MockClient) (m : labels) : MockClient :=
  Mock (sharedvols c) (store c) (namespaces c) (nodes c) (volumes c) m (DeleteNamespaceCallCount c) (DeleteNodeCallCount c) (errs c).
Definition set_namespace_calls (c : MockClient) (m : gmap ObjectKey N) : MockClient :=
  Mock (sharedvols c) (store c) (namespaces c) (nodes c) (volumes c) (nodeLabels c) m (DeleteNodeCallCount c) (errs c).
Definition set_node_calls (c : MockClient) (m : gmap ObjectKey N) : MockClient :=
  Mock (sharedvols c) (store c) (namespaces c) (nodes c) (volumes c) (nodeLabels c) (DeleteNamespaceCallCount c) m (errs c).
Definition set_errs (c : MockClient) (e : mock_errors) : MockClient :=
  Mock (sharedvols c) (store c) (namespaces c) (nodes c) (volumes c) (nodeLabels c) (DeleteNamespaceCallCount c) (DeleteNodeCallCount c) e.

(** [m[key]++]. *)
Definition incr (key : ObjectKey) (m : gmap ObjectKey N) : gmap ObjectKey N := <[key := (default 0 (m !! key) + 1)%N]> m.

(** Fail with a set error, or go on. *)
Definition unless {A} (e : option error) (k : A) : A + error := match e with Some e => inr e | None => inl k end.

Section mock.
(** The order in which the loops of the listings visit a map. *)
Context (visit : gmap ObjectKey MockObject -> list MockObject) (visit_shared : gmap string positive -> list positive).

(** ** Namespaces *)

Definition ListNamespaces (c : MockClient) : list MockObject + error :=
  unless (ListNamespacesErr (errs c)) (visit (namespaces c)).

Definition AddNamespace (c : MockClient) (key : ObjectKey) : MockClient :=
  set_namespaces c (<[key := Build_MockObject "" (k_name key) "" None false]> (namespaces c)).

Definition NamespaceExists (c : MockClient) (key : ObjectKey) : bool := bool_decide (is_Some (namespaces c !! key)).

Definition DeleteNamespace (c : MockClient) (key : ObjectKey) : MockClient * option error :=
  let c := set_namespace_calls c (incr key (DeleteNamespaceCallCount c)) in
  match DeleteNamespaceErr (errs c) with
  | Some e => (c, Some e)
  | None =>
      if negb (NamespaceExists c key) then (c, Some (Sentinel ErrNamespaceNotFound))
      else (set_namespaces c (delete key (namespaces c)), None)
  end.

(** ** Nodes *)

Definition NodeObjects (c : MockClient) : gmap ObjectKey MockObject + error := unless (NodeObjectsErr (errs c)) (nodes c).

(** A Node resource with a name and a health. *)
Definition mock_node (o : MockObject) : NodeCR :=
  {| cr_meta := meta (mo_Name o) "" None [];
     cr_Spec := {| IoEndpoint := ""; SupervisorEndpoint := ""; GossipEndpoint := ""; ClusteringEndpoint := "" |};
     cr_Status := {| st_Health := if mo_Healthy o then NodeHealthOnline else NodeHealthOffline;
                     st_Capacity := {| cap_Total := 0; cap_Free := 0; cap_Available := 0 |} |} |}.

Definition ListNodes (c : MockClient) : list NodeCR + error :=
  unless (ListNodesErr (errs c)) (map mock_node (visit (nodes c))).

Definition AddNode (c : MockClient) (obj : MockObject) : MockClient := set_nodes c (<[mock_key obj := obj]> (nodes c)).

Definition NodeExists (c : MockClient) (key : ObjectKey) : bool := bool_decide (is_Some (nodes c !! key)).

Definition DeleteNode (c : MockClient) (key : ObjectKey) : MockClient * option error :=
  let c := set_node_calls c (incr key (DeleteNodeCallCount c)) in
  match DeleteNodeErr (errs c) with
  | Some e => (c, Some e)
  | None =>
      if negb (NodeExists c key) then (c, Some (Sentinel ErrNodeNotFound))
      else (set_nodes c (delete key (nodes c)), None)
  end.

(** The loop over the labels: those that are kept, and the errors. *)
Definition mock_label_step (known : string -> bool) (acc : labels * list error) (kv : string * string) : labels * list error :=
  if negb (IsReservedLabel kv.1) then (<[kv.1 := kv.2]> acc.1, acc.2)
  else if known kv.1 then (<[kv.1 := kv.2]> acc.1, acc.2)
  else (acc.1, Append acc.2 (Sentinel ErrReservedLabelUnknown)).

Definition mock_label_loop (known : string -> bool) (l : list (string * string)) : labels * list error :=
  foldl (mock_label_step known) (∅, []) l.

Definition known_node_label (k : string) : bool := bool_decide (k = ReservedLabelComputeOnly).
Definition known_volume_label (k : string) : bool :=
  bool_decide (k = ReservedLabelReplicas) || bool_decide (k = ReservedLabelFailureMode).

(** One set of labels for all nodes: the key is not used. *)
Definition EnsureNodeLabels `{GoRange} (c : MockClient) (key : ObjectKey) (ls : gomap) : MockClient * option error :=
  match EnsureNodeLabelsErr (errs c) with
  | Some e => (c, Some e)
  | None =>
      let '(newLabels, es) := mock_label_loop known_node_label (gm_range ls) in
      (set_nodeLabels c newLabels, ErrorOrNil es)
  end.

Definition GetNodeLabels (c : MockClient) (key : ObjectKey) : labels + error := unless (GetNodeLabelsErr (errs c)) (nodeLabels c).

(** The object with another health. *)
Definition with_health (o : MockObject) (healthy : bool) : MockObject :=
  Build_MockObject (mo_ID o) (mo_Name o) (mo_Namespace o) (mo_Labels o) healthy.

Definition UpdateNodeHealth (c : MockClient) (key : ObjectKey) (healthy : bool) : MockClient * bool :=
  match nodes c !! key with
  | None => (c, false)
  | Some n => (set_nodes c (<[key := with_health n healthy]> (nodes c)), true)
  end.

(** ** Volumes *)

Definition AddVolume (c : MockClient) (obj : MockObject) : MockClient := set_volumes c (<[mock_key obj := obj]> (volumes c)).

Definition UpdateVolumeHealth (c : MockClient) (key : ObjectKey) (healthy : bool) : MockClient * bool :=
  match volumes c !! key with
  | None => (c, false)
  | Some n => (set_volumes c (<[key := with_health n healthy]> (volumes c)), true)
  end.

Definition GetVolume (c : MockClient) (key : ObjectKey) : MockObject + error :=
  match GetVolumeErr (errs c) with
  | Some e => inr e
  | None => match volumes c !! key with None => inr (Sentinel ErrVolumeNotFound) | Some obj => inl obj end
  end.

(** The error that is looked at is the one of the node listing. *)
Definition VolumeObjects (c : MockClient) : gmap ObjectKey MockObject + error := unless (ListNodesErr (errs c)) (volumes c).

Definition EnsureVolumeLabels `{GoRange} (c : MockClient) (key : ObjectKey) (ls : gomap) : MockClient * option error :=
  match EnsureVolumeLabelsErr (errs c) with
  | Some e => (c, Some e)
  | None =>
      let '(newLabels, es) := mock_label_loop known_volume_label (gm_range ls) in
      match volumes c !! key with
      | None => (c, Some (Sentinel ErrVolumeNotFound))
      | Some n =>
          let obj := Build_MockObject (mo_ID n) (mo_Name n) (mo_Namespace n) (Some newLabels) false in
          (set_volumes c (<[key := obj]> (volumes c)), ErrorOrNil es)
      end
  end.

(** ** Shared volumes *)

Definition shared_key (namespace id : string) : string := Join [namespace; id] "/".

Definition ListSharedVolumes (c : MockClient) : list positive + error :=
  unless (SharedVolsErr (errs c)) (visit_shared (sharedvols c)).

Definition with_external (v : SharedVolume) (endpoint : string) : SharedVolume :=
  NewSharedVolume (ID v) (ServiceName v) (PVCName v) (sv_Namespace v) (InternalEndpoint v) endpoint.

(** The volume is changed in the store, for every holder of its pointer. *)
Definition SetExternalEndpoint (c : MockClient) (id namespace endpoint : string) : MockClient * option error :=
  match SetEndpointErr (errs c) with
  | Some e => (c, Some e)
  | None =>
      match sharedvols c !! shared_key namespace id with
      | None => (c, Some (Sentinel ErrNotFound))
      | Some p => (set_store c (alter (fun v => with_external v endpoint) p (store c)), None)
      end
  end.

Definition Get (c : MockClient) (id namespace : string) : positive + error :=
  match SharedVolErr (errs c) with
  | Some e => inr e
  | None => match sharedvols c !! shared_key namespace id with None => inr (Sentinel ErrNotFound) | Some p => inl p end
  end.

(** Through a pointer that is not nil. *)
Definition Set_ (c : MockClient) (p : positive) : MockClient :=
  match store c !! p with
  | None => c
  | Some v => set_sharedvols c (<[shared_key (sv_Namespace v) (ID v) := p]> (sharedvols c))
  end.

Definition Delete (c : MockClient) (id namespace : string) : MockClient :=
  set_sharedvols c (delete (shared_key namespace id) (sharedvols c)).

(** The volumes and five of the errors are not reset. *)
Definition Reset (c : MockClient) : MockClient :=
  Mock ∅ (store c) ∅ ∅ (volumes c) ∅ ∅ ∅
    {| ListNamespacesErr := None; DeleteNamespaceErr := None; GetNodeErr := GetNodeErr (errs c);
       NodeObjectsErr := NodeObjectsErr (errs c); ListNodesErr := None; DeleteNodeErr := None;
       EnsureNodeLabelsErr := None; GetNodeLabelsErr := None; GetVolumeErr := GetVolumeErr (errs c);
       VolumeObjectsErr := VolumeObjectsErr (errs c); EnsureVolumeLabelsErr := EnsureVolumeLabelsErr (errs c);
       SharedVolsErr := None; SharedVolErr := None; SetEndpointErr := None |}.

(** ** Random volumes *)

Definition randomString (n : nat) : prog string :=
  l ← foldM (fun acc _ => i ← Call (RandIntn 26); mret (acc ++ [ascii_of_N (97 + Z.to_N i)])) (replicate n tt) [];
  mret (of_bytes l).

Definition RandomVol : prog SharedVolume :=
  id ← randomString 32;
  uuid ← uuid_New;
  pvc ← randomString 8;
  a ← Call (RandIntn 100);
  b ← Call (RandIntn 253);
  d ← Call (RandIntn 253);
  e ← Call (RandIntn 253);
  port ← Call (RandIntn 65534);
  mret (NewSharedVolume id ("pvc-" +:+ uuid) pvc "default"
    (Itoa (a + 1) +:+ "." +:+ Itoa (b + 1) +:+ "." +:+ Itoa (d + 1) +:+ "." +:+ Itoa (e + 1) +:+ ":" +:+ Itoa (port + 1)) "").
End mock.

(** ** What every sequence of operations keeps *)

Inductive mock_op :=
  | OpAddNamespace (key : ObjectKey) | OpDeleteNamespace (key : ObjectKey)
  | OpAddNode (obj : MockObject) | OpDeleteNode (key : ObjectKey)
  | OpEnsureNodeLabels (key : ObjectKey) (ls : gomap)
  | OpUpdateNodeHealth (key : ObjectKey) (healthy : bool)
  | OpAddVolume (obj : MockObject) | OpUpdateVolumeHealth (key : ObjectKey) (healthy : bool)
  | OpEnsureVolumeLabels (key : ObjectKey) (ls : gomap)
  | OpSetExternalEndpoint (id namespace endpoint : string)
  | OpSet (p : positive) | OpDelete (id namespace : string)
  | OpReset | OpSetErrs (e : mock_errors).

Definition perform `{GoRange} (c : MockClient) (o : mock_op) : MockClient :=
  match o with
  | OpAddNamespace key => AddNamespace c key
  | OpDeleteNamespace key => (DeleteNamespace c key).1
  | OpAddNode obj => AddNode c obj
  | OpDeleteNode key => (DeleteNode c key).1
  | OpEnsureNodeLabels key ls => (EnsureNodeLabels c key ls).1
  | OpUpdateNodeHealth key healthy => (UpdateNodeHealth c key healthy).1
  | OpAddVolume obj => AddVolume c obj
  | OpUpdateVolumeHealth key healthy => (UpdateVolumeHealth c key healthy).1
  | OpEnsureVolumeLabels key ls => (EnsureVolumeLabels c key ls).1
  | OpSetExternalEndpoint id ns endpoint => (SetExternalEndpoint c id ns endpoint).1
  | OpSet p => Set_ c p
  | OpDelete id ns => Delete c id ns
  | OpReset => Reset c
  | OpSetErrs e => set_errs c e
  end.

(** Every object is stored under the key made of its own names; a namespace,
    which has no namespace itself, under a key of its name. *)
Definition keyed (m : gmap ObjectKey MockObject) : Prop := map_Forall (fun k o => mock_key o = k) m.

Definition well_keyed (c : MockClient) : Prop :=
  map_Forall (fun k o => mo_Name o = k_name k) (namespaces c) /\ keyed (nodes c) /\ keyed (volumes c) /\
  map_Forall (fun k p => exists v, store c !! p = Some v /\ k = shared_key (sv_Namespace v) (ID v)) (sharedvols c).

Lemma keyed_insert m k o : keyed m -> mock_key o = k -> keyed (<[k := o]> m).
Proof. intros. by apply map_Forall_insert_2. Qed.

Lemma keyed_delete m k : keyed m -> keyed (delete k m).
Proof. apply map_Forall_delete. Qed.

(** A changed object that keeps its names keeps its place. *)
Lemma keyed_update m k o o' : keyed m -> m !! k = Some o -> mock_key o' = mock_key o -> keyed (<[k := o']> m).
Proof. intros Hm Hk Ho. apply keyed_insert; [done|]. rewrite Ho. by apply Hm. Qed.

#[local] Hint Resolve keyed_insert keyed_delete keyed_update map_Forall_empty : core.

Lemma perform_keyed `{GoRange} c o : well_keyed c -> well_keyed (perform c o).
Proof.
  intros (Hns & Hn & Hv & Hs). destruct o; simpl; try done; unfold well_keyed.
  - split_and!; simpl; try done. by apply map_Forall_insert_2.
  - unfold DeleteNamespace. repeat case_match; split_and!; simpl; auto; by apply map_Forall_delete.
  - split_and!; simpl; auto.
  - unfold DeleteNode. repeat case_match; split_and!; simpl; auto.
  - unfold EnsureNodeLabels. by repeat case_match.
  - unfold UpdateNodeHealth. case_match; split_and!; simpl; eauto.
  - split_and!; simpl; auto.
  - unfold UpdateVolumeHealth. case_match; split_and!; simpl; eauto.
  - unfold EnsureVolumeLabels. repeat case_match; split_and!; simpl; eauto.
  - unfold SetExternalEndpoint. repeat case_match; split_and!; simpl; try done.
    intros k q Hk. destruct (Hs _ _ Hk) as (v & Hp & ->).
    match goal with |- context [alter ?f ?p' (store c)] => destruct (decide (p' = q)) as [->|Hne] end.
    + rewrite lookup_alter_eq, Hp. simpl. eexists. split; [reflexivity|done].
    + rewrite lookup_alter_ne by done. eauto.
  - unfold Set_. destruct (store c !! p) as [v|] eqn:E; [|done]. split_and!; [done..|]. simpl.
    apply map_Forall_insert_2; eauto.
  - split_and!; simpl; try done. by apply map_Forall_delete.
Qed.

(** What a key stands for: whether it is there, whether deletions are told to
    fail, and how many deletions were asked for since the last reset. *)
Record entry := Entry { present : bool; failing : bool; deletions : N }.

(** How adding the keys of [added], deleting those of [deleted], a reset and a
    new choice of errors change an entry. *)
Definition entry_step (added deleted : option ObjectKey) (fails : mock_errors -> option error) (key : ObjectKey)
    (e : entry) (o : mock_op) : entry :=
  let hit := fun k => bool_decide (k = Some key) in
  match o with
  | OpReset => Entry false false 0
  | OpSetErrs es => Entry (present e) (bool_decide (is_Some (fails es))) (deletions e)
  | _ => Entry (hit added || present e && (negb (hit deleted) || failing e)) (failing e)
           (if hit deleted then deletions e + 1 else deletions e)
  end.

Definition node_step (key : ObjectKey) (e : entry) (o : mock_op) : entry :=
  entry_step (match o with OpAddNode obj => Some (mock_key obj) | _ => None end)
    (match o with OpDeleteNode k => Some k | _ => None end) DeleteNodeErr key e o.

Definition namespace_step (key : ObjectKey) (e : entry) (o : mock_op) : entry :=
  entry_step (match o with OpAddNamespace k => Some k | _ => None end)
    (match o with OpDeleteNamespace k => Some k | _ => None end) DeleteNamespaceErr key e o.

Definition node_entry (c : MockClient) (key : ObjectKey) : entry :=
  Entry (NodeExists c key) (bool_decide (is_Some (DeleteNodeErr (errs c)))) (default 0%N (DeleteNodeCallCount c !! key)).

Definition namespace_entry (c : MockClient) (key : ObjectKey) : entry :=
  Entry (NamespaceExists c key) (bool_decide (is_Some (DeleteNamespaceErr (errs c)))) (default 0%N (DeleteNamespaceCallCount c !! key)).

Lemma exists_insert {A} (m : gmap ObjectKey A) k k' o :
  bool_decide (is_Some (<[k := o]> m !! k')) = bool_decide (Some k = Some k') || bool_decide (is_Some (m !! k')).
Proof.
  destruct (decide (k = k')) as [->|Hne]; [rewrite lookup_insert_eq, (bool_decide_eq_true_2 (Some k' = Some k')) by done; by apply bool_decide_eq_true_2; eexists|].
  rewrite lookup_insert_ne by done. rewrite (bool_decide_eq_false_2 (Some k = Some k')) by congruence. done.
Qed.

Lemma exists_delete {A} (m : gmap ObjectKey A) k k' :
  bool_decide (is_Some (delete k m !! k')) = bool_decide (is_Some (m !! k')) && negb (bool_decide (Some k = Some k')).
Proof.
  destruct (decide (k = k')) as [->|Hne].
  - rewrite lookup_delete_eq, (bool_decide_eq_true_2 (Some k' = Some k')) by done.
    rewrite andb_false_r. apply bool_decide_eq_false_2. by intros [? [=]].
  - rewrite lookup_delete_ne by done. rewrite (bool_decide_eq_false_2 (Some k = Some k')) by congruence. by rewrite andb_true_r.
Qed.

Lemma incr_count k k' m :
  default 0%N (incr k m !! k') = if bool_decide (Some k = Some k') then (default 0 (m !! k') + 1)%N else default 0%N (m !! k').
Proof.
  unfold incr. destruct (decide (k = k')) as [->|Hne].
  - by rewrite lookup_insert_eq, bool_decide_eq_true_2.
  - rewrite lookup_insert_ne by done. rewrite bool_decide_eq_false_2 by congruence. done.
Qed.

(** A deletion that finds nothing leaves nothing to be found. *)
Lemma absent_stays (b : bool) (k k' : ObjectKey) : (k = k' -> b = false) -> b = b && negb (bool_decide (Some k = Some k')).
Proof. intros Hb. case_bool_decide as E; [|by rewrite andb_true_r]. injection E as E. by rewrite Hb. Qed.

Lemma node_entry_step `{GoRange} c o key : node_entry (perform c o) key = node_step key (node_entry c key) o.
Proof.
  unfold node_entry, node_step, entry_step, NodeExists.
  destruct o; simpl; rewrite ?andb_true_r, ?orb_false_l; try done;
    unfold DeleteNamespace, EnsureNodeLabels, UpdateVolumeHealth, EnsureVolumeLabels, SetExternalEndpoint, Set_;
    try (by repeat case_match; rewrite ?andb_true_r).
  - by rewrite exists_insert, ?andb_true_r.
  - unfold DeleteNode, NodeExists. cbn [errs set_node_calls nodes].
    destruct (DeleteNodeErr (errs c)) as [e|] eqn:Ee; simpl.
    { by rewrite Ee, orb_true_r, andb_true_r, incr_count. }
    rewrite orb_false_r. destruct (bool_decide_reflect (is_Some (nodes c !! key0))) as [Hk|Hk]; simpl; rewrite incr_count, Ee.
    + by rewrite exists_delete.
    + f_equal. apply absent_stays. intros ->. by apply bool_decide_eq_false_2.
  - unfold UpdateNodeHealth. destruct (nodes c !! key0) as [n|] eqn:En; simpl; [|by rewrite ?andb_true_r].
    rewrite exists_insert. f_equal. case_bool_decide as E; [|done]. injection E as ->. rewrite En. symmetry. apply bool_decide_eq_true_2. eauto.
Qed.

Lemma namespace_entry_step `{GoRange} c o key : namespace_entry (perform c o) key = namespace_step key (namespace_entry c key) o.
Proof.
  unfold namespace_entry, namespace_step, entry_step, NamespaceExists.
  destruct o; simpl; rewrite ?andb_true_r, ?orb_false_l; try done;
    unfold DeleteNode, EnsureNodeLabels, UpdateNodeHealth, UpdateVolumeHealth, EnsureVolumeLabels, SetExternalEndpoint, Set_;
    try (by repeat case_match; rewrite ?andb_true_r).
  - by rewrite exists_insert, ?andb_true_r.
  - unfold DeleteNamespace, NamespaceExists. cbn [errs set_namespace_calls namespaces].
    destruct (DeleteNamespaceErr (errs c)) as [e|] eqn:Ee; simpl.
    { by rewrite Ee, orb_true_r, andb_true_r, incr_count. }
    rewrite orb_false_r. destruct (bool_decide_reflect (is_Some (namespaces c !! key0))) as [Hk|Hk]; simpl; rewrite incr_count, Ee.
    + by rewrite exists_delete.
    + f_equal. apply absent_stays. intros ->. by apply bool_decide_eq_false_2.
Qed.

(** C31. The data of the test double stays well formed under every sequence of
    its operations, and is what the sequence says.  Nodes and volumes are found
    under their own keys, shared volumes under their namespace and identifier,
    and a namespace, which has no namespace of its own, under a key of its
    name.  A node or namespace is there exactly when it was added and neither
    deleted, by a deletion that was not told to fail, nor reset since; and the
    count of its deletions is the number of calls since the last reset, whether
    they failed or not. *)
Theorem MockClient_well_formed `{GoRange} st ops :
  let c := foldl perform (NewMockClient st) ops in
  well_keyed c /\
  forall key, node_entry c key = foldl (node_step key) (Entry false false 0) ops /\
    namespace_entry c key = foldl (namespace_step key) (Entry false false 0) ops.
Proof.
  simpl. induction ops as [|o ops [IH1 IH2]] using rev_ind.
  - split; [split_and!; apply map_Forall_empty|]. done.
  - rewrite foldl_app. split; [by apply perform_keyed|]. intros key. rewrite !foldl_app. simpl.
    destruct (IH2 key) as [En Ens]. by rewrite node_entry_step, namespace_entry_step, En, Ens.
Qed.

(** ** The labels it accepts *)

(** A label that is not reserved, or is one of the known ones. *)
Definition accepts (known : string -> bool) (k : string) : bool := negb (IsReservedLabel k) || known k.

Lemma mock_label_loop_eq known l acc es :
  exists es', foldl (mock_label_step known) (acc, es) l = (copy_if (accepts known) l acc, es ++ es') /\
    (es' = [] <-> Forall (fun kv => accepts known kv.1 = true) l).
Proof.
  revert acc es. induction l as [|[k v] l IH]; intros acc es; cbn [foldl].
  { exists []. rewrite app_nil_r. split; [done|]. split; [constructor|done]. }
  unfold copy_if. cbn [foldl fst snd]. fold (copy_if (accepts known) l). unfold mock_label_step at 2. cbn [fst snd].
  destruct (accepts known k) eqn:Ha.
  - replace (if negb (IsReservedLabel k) then _ else _) with (<[k := v]> acc, es).
    2:{ unfold accepts in Ha. destruct (IsReservedLabel k); [|done]. simpl in *. by rewrite Ha. }
    destruct (IH (<[k := v]> acc) es) as (es' & -> & Hes). exists es'. split; [done|]. rewrite Hes, Forall_cons_iff. tauto.
  - replace (if negb (IsReservedLabel k) then _ else _) with (acc, es ++ [Sentinel ErrReservedLabelUnknown]).
    2:{ unfold accepts in Ha. destruct (IsReservedLabel k); [|done]. simpl in *. by rewrite Ha. }
    destruct (IH acc (es ++ [Sentinel ErrReservedLabelUnknown])) as (es' & -> & _).
    exists (Sentinel ErrReservedLabelUnknown :: es'). rewrite <- app_assoc. split; [done|].
    split; [done|]. rewrite Forall_cons_iff. intros [H _]. simpl in H. congruence.
Qed.

Lemma mock_label_loop_spec `{GoRange} known (m : labels) :
  exists es, mock_label_loop known (range m) = (filter (fun kv => accepts known kv.1 = true) m, es) /\
    (es = [] <-> forall k v, m !! k = Some v -> accepts known k = true).
Proof.
  destruct (mock_label_loop_eq known (range m) ∅ []) as (es & He & Hes). exists es. split.
  - unfold mock_label_loop. rewrite He, copy_if_range. by rewrite (right_id_L ∅ (∪)).
  - rewrite Hes, List.Forall_forall. split.
    + intros Hall k v Hk. apply (Hall (k, v)). by apply list_elem_of_In, elem_of_range.
    + intros Hall [k v] Hin. apply list_elem_of_In, elem_of_range in Hin. eauto.
Qed.

(** The client objects to nothing in a label, or only to its value. *)
Definition name_accepted (label_error : string * string -> option error) (kv : string * string) : Prop :=
  match label_error kv with None | Some (Wrap (NumErr _) _) => True | _ => False end.

Lemma node_name_accepted k v : accepts known_node_label k = true <-> name_accepted node_label_error (k, v).
Proof.
  unfold accepts, known_node_label, name_accepted, node_label_error. destruct (IsReservedLabel k); [|by simpl]. simpl.
  case_bool_decide; [by destruct (ParseBool v)|]. case_bool_decide; by split.
Qed.

Lemma volume_name_accepted k v : accepts known_volume_label k = true <-> name_accepted volume_label_error (k, v).
Proof.
  unfold accepts, known_volume_label, name_accepted, volume_label_error. destruct (IsReservedLabel k); [|by simpl]. simpl.
  destruct (bool_decide_reflect (k = ReservedLabelFailureMode)); [by rewrite orb_true_r|]. rewrite orb_false_r.
  case_bool_decide; [by destruct ((ParseUint v).2)|]. repeat case_bool_decide; by split.
Qed.

(** C30. The test double accepts the labels the client accepts, except that it
    does not look at their values: it reports no error exactly when the client
    has no objection to any label, or only to a value that is not a boolean or
    a number.  It then holds all of them, and otherwise those that have an
    accepted name. *)
Theorem mock_labels_equivalent `{GoRange} c key ls :
  (EnsureNodeLabelsErr (errs c) = None ->
     ((EnsureNodeLabels c key ls).2 = None <-> map_Forall (fun k v => name_accepted node_label_error (k, v)) (gm_map ls)) /\
     nodeLabels (EnsureNodeLabels c key ls).1 = filter (fun kv => accepts known_node_label kv.1 = true) (gm_map ls)) /\
  (forall o, EnsureVolumeLabelsErr (errs c) = None -> volumes c !! key = Some o ->
     ((EnsureVolumeLabels c key ls).2 = None <-> map_Forall (fun k v => name_accepted volume_label_error (k, v)) (gm_map ls)) /\
     mo_Labels <$> volumes (EnsureVolumeLabels c key ls).1 !! key =
       Some (Some (filter (fun kv => accepts known_volume_label kv.1 = true) (gm_map ls)))).
Proof.
  unfold EnsureNodeLabels, EnsureVolumeLabels, gm_range.
  destruct (mock_label_loop_spec known_node_label (gm_map ls)) as (es & -> & Hes).
  destruct (mock_label_loop_spec known_volume_label (gm_map ls)) as (es' & -> & Hes').
  assert (Hnil : forall l : list error, ErrorOrNil l = None <-> l = []) by (by intros []).
  split.
  - intros ->. simpl. rewrite Hnil, Hes. split; [|done]. split; intros Hall k v Hk; apply (node_name_accepted k v), (Hall k v Hk).
  - intros o -> ->. simpl. rewrite Hnil, Hes', lookup_insert_eq. split; [|done].
    split; intros Hall k v Hk; apply (volume_name_accepted k v), (Hall k v Hk).
Qed.

(** Setting the labels of a volume makes it unhealthy. *)
Lemma EnsureVolumeLabels_unhealthy `{GoRange} c key ls o :
  EnsureVolumeLabelsErr (errs c) = None -> volumes c !! key = Some o ->
  mo_Healthy <$> volumes (EnsureVolumeLabels c key ls).1 !! key = Some false.
Proof.
  intros He Hk. unfold EnsureVolumeLabels. rewrite He. destruct (mock_label_loop _ _) as [kept es]. rewrite Hk. simpl.
  by rewrite lookup_insert_eq.
Qed.
